(* ===== verification/_CoqProject ===== *)
-Q . S2P
Prelude.v
Text.v
Prog.v
Libs.v
State.v
Concrete.v
Constants.v
GithubClaims.v
Policy.v
Replay.v
Simulator.v
ReplaySafety.v
Locks.v
LedgerRefinement.v
Exchange.v
Keys.v
LedgerCauses.v
Github.v
Service.v
Availability.v
RefreshLimit.v
Causes.v
WorkloadPolicy.v
Workload.v
OidcPolicy.v
Oidc.v
OidcExchange.v
KeyOrigin.v
OidcCauses.v
BrowserHop1.v
InternalCauses.v
KeyringTool.v
KeyringFiles.v
Config.v
Http.v
Main.v
System.v
EndpointCauses.v
Progress.v
Publication.v
Decisions.v
