(* ===== verification/Prelude.v ===== *)
(** * A verification library for github-oidc-exchange

    The program is a service that exchanges short-lived assertions (GitHub Actions
    tokens, tokens of configured OpenID Connect issuers, Kubernetes service-account
    tokens, browser attestations) for tokens of its own, and a tool that maintains
    the signing keys.  This library models it as it is written under [src/src/] and
    proves what makes it correct.  Source files are named below relative to that
    directory.

    ** The parts and how they interact

    A request to an exchange endpoint (http.rs) carries a bearer assertion.  The
    endpoint's service verifies it (github.rs and oidc.rs against cached key sets,
    workload.rs with a TokenReview, browser_hop1.rs with a configured key), looks up
    what the policy gives its subject (policy.rs, workload.rs, oidc.rs), records its
    use in a ledger of Kubernetes Leases that all replicas share (replay.rs), signs
    the output claims (keys.rs) and counts and logs the outcome.  main.rs builds the
    services from the environment (config.rs).

    Code that performs input and output is a program over the events of [State]
    ([Prog.prog]): a clock reading, a file read, a request to the Kubernetes API or
    to a key endpoint, a load or store of a shared cell, an atomic counter, a lock,
    a log record.  [runs p t r] says that [p] returns [r] after the events and
    answers [t]; the answers are arbitrary unless a theorem restricts them.  [wp]
    is the program logic: what may be issued at each point ([permit]) and what holds
    at the end.  [reachable] interleaves any number of programs, one event at a time,
    against a shared server.  [run] executes a program in the world of [Simulator].

    ** The files

    - [Prelude] (this file): fallible results, tactics, hints, generic lemmas.
    - [Text]: the string and integer operations of Rust's standard library.
    - [Prog]: programs, their semantics, program logic and interleavings.
    - [Libs]: third-party crates as type classes, their documented behaviour as
      [...Laws] classes.  [Concrete]: small instances of all of them, for witnesses.
    - [State]: the shared cells, the Lease resource, the events.
    - [Constants] (lib.rs).
    - [GithubClaims] (github.rs): [GitHubClaims], its JSON forms and the predicates
      of [verify].  [Github] (github.rs): [verify], [key] and the refresh discipline
      of the key cache, the warm-up and the background loop.
    - [Policy] (policy.rs): versions v5 and v6: [validate], [authorize].
    - [Replay] (replay.rs): [use_once], [reclaim_expired], [cleanup_one],
      [check_ready], [in_cluster].
    - [Simulator]: an executable environment with an in-memory Lease API.
    - [ReplaySafety]: [LeaseServer], the interface the ledger needs of the API, and
      at-most-once use over it.  [Locks]: [MutexServer], the interface of mutexes
      that wait, the discipline of tasks that take them, clients that leave, and why
      such tasks end.  [LedgerRefinement]: the ledger as a set of names.
    - [Keys] (keys.rs): loading, readiness, signing, publication.  The two keyrings
      of the source are one generic [ring], instantiated twice.
    - [Exchange]: [Exchange], the interface of an exchange that obeys the ledger's
      discipline, and [LeaseLedger], that of the ledger it uses.
    - [Service] (service.rs), [WorkloadPolicy] and [Workload] (workload.rs),
      [OidcPolicy], [Oidc] and [OidcExchange] (oidc.rs), [BrowserHop1]
      (browser_hop1.rs): the four exchanges with their policies and verifiers.
    - [KeyOrigin]: the keys of verified assertions, followed from the endpoints that
      serve them through the shared caches, over [CellServer], the interface of a
      shared cell.
    - [Availability]: the GitHub exchange of a healthy replica, with its ledger.
    - [RefreshLimit]: concurrent refreshes of the GitHub key cache, over
      [RefreshServer], the interface of their mutex and the state it protects.
    - [LedgerCauses], [Causes], [OidcCauses] and [InternalCauses]: what an unavailable
      or a refused answer of the ledger and of each exchange shows.
    - [Config] (config.rs), [Http] (http.rs), [Main] (main.rs).
    - [KeyringTool] (bin/keyring-tool.rs) and [KeyringFiles], the file system in
      which its commands run, fail and are interrupted.
    - [System]: the HTTP endpoints of all replicas together.  [EndpointCauses]: why
      they answer without a token.  [Progress]: the routes
      and the background tasks of a replica, with its mutexes.
    - [Decisions]: every exchange endpoint of a healthy replica.
    - [Publication]: the tokens of a started process against the discovery document
      and the key set it serves.

    Definitions have the names of the source; constructors and fields that the
    source distinguishes by their type have a prefix.  A [Record] is a struct, an
    [Inductive] an enum, [result] is [Result], a [String] its UTF-8 bytes, a
    [HashMap] or [HashSet] a [gmap] or [gset], machine integers are [Z] within their
    range, with the source's checked, saturating or wrapping operations.  Times and
    durations are nanoseconds in [Z].

    ** What the theorems show

    - No assertion is exchanged twice: [ReplaySafety.ledger_at_most_once] for the
      ledger, [System.system_at_most_once] for the HTTP endpoints.  The API may lose
      answers and serve stale reads; clocks may differ, as long as none runs past the
      retention of the record.  For the endpoints, [System.hands_out] says which
      answers need a record: all tokens but role tokens, which redeem nothing; the
      theorem finds the record of each such token, and for two of them asks only that
      the clocks stay within the retention of those two.  [LedgerRefinement.use_once_refines] gives the
      functional contract when the API serves, [ReplaySafety.use_once_recorded] and
      [use_once_discipline] relate a result to the writes that were acknowledged.
    - A token is issued only as it should be: [Service.exchange_issues],
      [Workload.workload_issues], [OidcExchange.oidc_exchange_issues] and
      [BrowserHop1.browser_issues] say of every execution that ends in a token which
      verification, authorization and recording precede it and which claims are
      signed ([Service.contract_claims] spells out the documented claims of a GitHub
      exchange); [Http.public_endpoints_sound] and [internal_endpoints_sound] carry this
      to the responses.  [Service.exchange_accounting] counts the outcomes.
    - A healthy replica answers: [Decisions.endpoints_decide] runs every exchange
      endpoint in [Simulator] and shows that, when what the request depends on is in
      order, it grants exactly the genuine, authorized and unspent assertions whose
      token can be signed, and is unavailable only for a task's token that lives too
      long for the ledger and when the token to be granted cannot be signed.
      [Availability.exchange_decides] is the GitHub exchange by itself.
    - Errors mean what they say: [EndpointCauses.answers_explained] finds, in the request
      or in its execution, the cause of every answer of an exchange endpoint that hands
      out no token, and the status says of which kind it is: not configured (404), a
      wrong body (400), something presented that is refused (401), or a dependency that
      failed (503).  The causes are inductive predicates on traces, closed under
      extension ([..._prefix]), one for each exchange over those of the ledger, the
      clock and the signing keys ([LedgerCauses]).
    - Consumers accept the tokens: [Publication.tokens_accepted] takes a process from
      its start-up to a token and checks that the published documents select, by the
      token's key ID, the one key that verifies it.  The signature of a token is a
      parameter, of which it is assumed that a public key verifies what its private
      half signed.
    - Verification: [KeyOrigin.github_assertion_genuine] and [oidc_assertion_genuine]
      follow a verified assertion to the document in which its key was served, to
      any task of the replica: what may enter a cache is known of whatever is read
      from it ([KeyOrigin.pool_origin], by an invariant of the interleaving).  As
      equivalences with the documented conditions [Oidc.validated_claims_exact],
      [BrowserHop1.attestation_exact], [Workload.review_exact].
    - Key caches: only discovered, usable keys enter ([cache_replacements_usable],
      [oidc_keys_discovered]), and unknown key identifiers cannot cause a flood of
      requests: for one call [forced_refresh_limited] and [oidc_forced_refresh], and
      for any number of concurrent requests, readiness checks and background tasks
      [RefreshLimit.refresh_requests_limited], by an invariant of the interleaving
      (what a task stores follows from what it loaded under the mutex).
    - Policies: validation accepts exactly the well-formed documents, and an accepted
      policy authorizes exactly what its rules say ([Policy], [WorkloadPolicy],
      [OidcPolicy]).
    - Keys: [Keys.keyring_load_correct], [ready_keyring_signs], [published_keys].
    - The keyring tool: wherever it stops, the keyring is the old one or a complete
      valid one ([KeyringFiles.keyring_tool_crash_safe]), and success means the exact
      change ([keyring_tool_effect]).
    - Configuration and start-up: [Config.configuration_sound], [Main.startup_sound].
    - Routes, readiness and metrics: [Http.routes_protected], [readiness_exact],
      [metrics_read_only].
    - Every request is answered: [System.endpoints_terminate] bounds the events of a
      single request by 64, and [Progress.replica_answers] runs requests to all
      routes and the background refreshes together, with mutexes that wait and
      clients that leave: no schedule goes on forever ([Acc]) and none is stuck before
      everybody is answered.  Its proof is the tasks' discipline ([Locks.balanced]:
      one mutex at a time, given back on every way out) and [Locks.pool_answers],
      which holds of any tasks that obey it.

    ** Bounds and fuel

    Programs are finite trees, so a loop of the source is a recursion with a bound.
    The reclaim loop makes two attempts and the clean-up reads two pages and
    deletes at most one record, as in the source ([0..=1], the [MAX_CLEANUP]
    constants); the iteration over a page, over key sets and over policy entries is
    structural.  An exchange issues at most 64 (GitHub), 47 (generic), 34 (workload)
    or 36 (browser, its review included) events, and a reading of the metrics 30 and two
    for each provider ([Progress.moves_of]).  In [Progress] the tasks that the refresh
    of the providers spawns are tasks of their own.  The background refresh loops run until the process ends;
    they take the number of iterations as an argument, and their theorems hold for
    every number.  The chain of causes of an error is followed through
    [MAX_CAUSES] = 8 links, as in the source.  The fuel of
    trimming in [Text] is the length of the string.

    ** Conventions

    - A struct is read from a JSON object only (serde would also read an array),
      and of a repeated field of a map the last value counts.
    - A [Mutex] is never poisoned; a lock is an acquire and a release event, which
      carry no meaning in [runs] and do not block in [Simulator].  In [RefreshLimit]
      and [Progress] they do block: [lock_serve] and [simulated_mutexes] are the
      simulator with mutexes, and a task waits.  A guard of a key cache's [RwLock] or
      of [cleanup_continue] is never held over an [await] of anything else, so an
      access to those cells is one event.
    - A request runs to its end.  Only [RefreshLimit] and [Progress] have clients that
      leave, which drops the handler where it waits; elsewhere such a request is one that makes no
      further step, which the interleavings include.
    - The timeout of the ledger's readiness probe is a verdict after the request has
      run ([TimeoutElapsed]).
    - The bounds of the duration histogram are exact numbers of nanoseconds, and
      sums are printed with six decimals (exact below 2^33 seconds).
    - Parsing of socket addresses and URLs, loading of TLS material and binding of
      listeners are parameters.
    - Log records carry their event name and fields.  The records of the start-up
      have a message instead of an event name.
    - In [KeyringFiles], the metadata of a path is refused exactly when there is no
      such file, paths are identified up to redundant separators, and a fresh
      identifier names no existing file.  The text [serde_json] prints is a
      parameter.

    ** Not modelled

    The serving of connections, TLS handshakes, signals and graceful shutdown (the
    internal listener is bound as part of serving, after the start-up), and
    the installation of the cryptography provider (main.rs): they are calls into
    axum, rustls and tokio.  Matching of routes, header parsing and the collection of
    bodies are axum's; [Http] gives the tables of routes and layers, where a layer
    wraps the routes that were added before it, as axum documents.  Constructors
    compiled only for tests and the tests themselves.  Deployment manifests, schemas
    and documents, which were read for what they promise.  Cryptography, JSON and
    HTTP clients are parameters. *)
From stdpp Require Import base gmap sets list strings pretty sorting.
From stdpp Require Export base gmap sets list strings pretty sorting.

(** ** Results of fallible code *)

(** [Result<A, E>] of the source; [E] is the parameter so that [result E] is
    the monad. *)
Inductive result (E A : Type) : Type :=
| Ok (a : A)
| Err (e : E).
Arguments Ok {E A} a.
Arguments Err {E A} e.

#[export] Instance result_ret E : MRet (result E) := fun A a => Ok a.
#[export] Instance result_bind E : MBind (result E) :=
  fun A B f r => match r with Ok a => f a | Err e => Err e end.
#[export] Instance result_fmap E : FMap (result E) :=
  fun A B f r => match r with Ok a => Ok (f a) | Err e => Err e end.
#[export] Instance result_eq_dec E A `{!EqDecision E, !EqDecision A} :
  EqDecision (result E A).
Proof. solve_decision. Defined.

Definition is_ok {E A} (r : result E A) : bool :=
  match r with Ok _ => true | Err _ => false end.
Definition is_err {E A} (r : result E A) : bool := negb (is_ok r).
(** [Result::map_err], [Option::ok_or] and [Result::ok]. *)
Definition map_err {E F A} (f : E -> F) (r : result E A) : result F A :=
  match r with Ok a => Ok a | Err e => Err (f e) end.
Definition ok_or {E A} (e : E) (o : option A) : result E A :=
  match o with Some a => Ok a | None => Err e end.
Definition result_ok {E A} (r : result E A) : option A :=
  match r with Ok a => Some a | Err _ => None end.

(** [if guard { return Err(e) }]. *)
Definition reject_if {E} (guard : bool) (e : E) : result E () :=
  if guard then Err e else Ok ().

(** A [for] loop whose body can return early with an error and threads a
    state. *)
Fixpoint try_fold {E A S} (f : S -> A -> result E S) (s : S) (l : list A) : result E S :=
  match l with
  | [] => Ok s
  | x :: l => match f s x with Ok s' => try_fold f s' l | Err e => Err e end
  end.

Section result_lemmas.
Context {E A B : Type}.
Implicit Types r : result E A.

Lemma result_bind_ok (f : A -> result E B) r b :
  r ≫= f = Ok b <-> exists a, r = Ok a /\ f a = Ok b.
Proof. destruct r; cbn; naive_solver. Qed.

Lemma result_bind_err (f : A -> result E B) r e :
  r ≫= f = Err e <-> r = Err e \/ exists a, r = Ok a /\ f a = Err e.
Proof. destruct r; cbn; naive_solver. Qed.

Lemma reject_if_ok (g : bool) (e : E) u : reject_if g e = Ok u <-> g = false.
Proof. destruct g, u; cbn; naive_solver. Qed.

Lemma ok_or_ok (e : E) (o : option A) a : ok_or e o = Ok a <-> o = Some a.
Proof. destruct o; cbn; naive_solver. Qed.

Lemma try_fold_app {S} (f : S -> A -> result E S) s l1 l2 :
  try_fold f s (l1 ++ l2) = (s' ← try_fold f s l1; try_fold f s' l2).
Proof. revert s. induction l1 as [|x l IH]; intros s; cbn; [done|]. by destruct (f s x). Qed.

(** An invariant of the loop body is an invariant of the loop. *)
Lemma try_fold_ind {S} (P : list A -> S -> Prop) (f : S -> A -> result E S) s0 l s :
  P [] s0 ->
  (forall done_ x s1 s2, (exists rest, l = done_ ++ x :: rest) ->
     P done_ s1 -> f s1 x = Ok s2 -> P (done_ ++ [x]) s2) ->
  try_fold f s0 l = Ok s -> P l s.
Proof.
  intros H0 Hstep Hl.
  assert (forall done_ l' s1, l = done_ ++ l' -> P done_ s1 -> try_fold f s1 l' = Ok s -> P l s)
    as G; [|by eapply (G [])].
  clear Hl. intros done_ l'. revert done_. induction l' as [|x l' IH]; intros d s1 -> HP; cbn.
  - rewrite app_nil_r. naive_solver.
  - destruct (f s1 x) eqn:Hf; [|done]. intros Hr.
    eapply (IH (d ++ [x])); [by rewrite <- app_assoc| |exact Hr]. eapply Hstep; eauto.
Qed.
End result_lemmas.

(** [any] over an iterator. *)
Lemma existsb_false {A} (f : A -> bool) l : existsb f l = false <-> Forall (fun x => f x = false) l.
Proof. induction l as [|x l IH]; cbn; [done|]. rewrite orb_false_iff, Forall_cons, IH. done. Qed.

(** Inverts hypotheses about results: binds, guards and option conversions. *)
Ltac result_simpl_step :=
  match goal with
  | H : Ok _ = Ok _ |- _ => injection H as H; try subst
  | H : Err _ = Err _ |- _ => injection H as H; try subst
  | H : Ok _ = Err _ |- _ => discriminate H
  | H : Err _ = Ok _ |- _ => discriminate H
  | H : reject_if _ _ = Ok _ |- _ => apply reject_if_ok in H
  | H : ok_or _ _ = Ok _ |- _ => apply ok_or_ok in H
  | H : _ ≫= _ = Ok _ |- _ =>
      apply result_bind_ok in H; destruct H as (? & ? & H)
  | H : andb _ _ = true |- _ => apply andb_prop in H; destruct H
  | H : orb _ _ = false |- _ => apply orb_false_elim in H; destruct H
  | H : negb _ = false |- _ => apply negb_false_iff in H
  | H : negb _ = true |- _ => apply negb_true_iff in H
  | H : bool_decide _ = true |- _ => apply bool_decide_eq_true in H
  | H : bool_decide _ = false |- _ => apply bool_decide_eq_false in H
  end.
Ltac result_simpl := repeat (result_simpl_step; cbn beta iota in *).

(** ** Machine integers

    A [u64] or [i64] is a [Z]; wrap-around and the checked and saturating
    variants are written out. *)
Definition u64_max : Z := 2 ^ 64 - 1.
Definition i64_max : Z := 2 ^ 63 - 1.
Definition i64_min : Z := - 2 ^ 63.
Definition is_u64 (z : Z) : Prop := (0 <= z <= u64_max)%Z.
Definition is_i64 (z : Z) : Prop := (i64_min <= z <= i64_max)%Z.
Definition in_i64 (z : Z) : bool := bool_decide (i64_min <= z <= i64_max)%Z.
Definition in_u64 (z : Z) : bool := bool_decide (0 <= z <= u64_max)%Z.
Definition wrap_u64 (z : Z) : Z := (z mod 2 ^ 64)%Z.
Definition wrap_i64 (z : Z) : Z := ((z + 2 ^ 63) mod 2 ^ 64 - 2 ^ 63)%Z.
Definition u64_add (a b : Z) : Z := wrap_u64 (a + b).
Definition i64_add (a b : Z) : Z := wrap_i64 (a + b).
Definition i64_checked_add (a b : Z) : option Z :=
  if in_i64 (a + b) then Some (a + b)%Z else None.
Definition i64_checked_sub (a b : Z) : option Z :=
  if in_i64 (a - b) then Some (a - b)%Z else None.
Definition i64_saturating_sub (a b : Z) : Z := Z.max i64_min (Z.min i64_max (a - b)).
Definition u64_saturating_sub (a b : Z) : Z := Z.max 0 (a - b).

Lemma i64_checked_add_Some a b z :
  i64_checked_add a b = Some z <-> z = (a + b)%Z /\ is_i64 z.
Proof. unfold i64_checked_add, in_i64, is_i64. case_bool_decide; naive_solver. Qed.
Lemma i64_checked_sub_Some a b z :
  i64_checked_sub a b = Some z <-> z = (a - b)%Z /\ is_i64 z.
Proof. unfold i64_checked_sub, in_i64, is_i64. case_bool_decide; naive_solver. Qed.
Lemma wrap_i64_id z : is_i64 z -> wrap_i64 z = z.
Proof.
  unfold is_i64, wrap_i64, i64_min, i64_max. intros Hz.
  rewrite Z.mod_small; lia.
Qed.
Lemma wrap_u64_id z : is_u64 z -> wrap_u64 z = z.
Proof. unfold is_u64, wrap_u64, u64_max. intros Hz. apply Z.mod_small. lia. Qed.
Lemma wrap_u64_bound z : is_u64 (wrap_u64 z).
Proof. unfold is_u64, wrap_u64, u64_max. pose proof (Z.mod_pos_bound z (2 ^ 64)). lia. Qed.
