(* ===== verification/Text.v ===== *)
(** * Rust strings

    A Rust [&str] is modelled as the [string] of its UTF-8 bytes, so [len] is
    [String.length]. This file holds the standard-library string operations the
    source calls ([split], [split_once], [strip_prefix], [trim], integer parsing
    and printing, hexadecimal) and their lemmas. *)
From Stdlib Require Import Ascii.
From S2P Require Import Prelude.

Definition byte_of (a : ascii) : N := N_of_ascii a.
Definition len (s : string) : nat := String.length s.
Definition is_empty (s : string) : bool := bool_decide (s = "").

(** ** Byte classes *)
Definition is_ascii_digit (a : ascii) : bool := bool_decide (48 <= byte_of a <= 57)%N.
Definition is_ascii_lowercase (a : ascii) : bool := bool_decide (97 <= byte_of a <= 122)%N.
Definition is_ascii_uppercase (a : ascii) : bool := bool_decide (65 <= byte_of a <= 90)%N.
Definition is_ascii_alphanumeric (a : ascii) : bool :=
  is_ascii_digit a || is_ascii_lowercase a || is_ascii_uppercase a.
Definition is_ascii_graphic (a : ascii) : bool := bool_decide (33 <= byte_of a <= 126)%N.
Definition is_lower_hex (a : ascii) : bool :=
  is_ascii_digit a || bool_decide (97 <= byte_of a <= 102)%N.

(** [value.bytes().all(f)] and [value.bytes().any(f)]. *)
Fixpoint bytes_all (f : ascii -> bool) (s : string) : bool :=
  match s with "" => true | String a s => f a && bytes_all f s end.
Definition bytes_any (f : ascii -> bool) (s : string) : bool :=
  negb (bytes_all (fun a => negb (f a)) s).

(** ** Prefixes, suffixes, search *)
Fixpoint strip_prefix (p s : string) : option string :=
  match p, s with
  | "", _ => Some s
  | String a p, String b s => if decide (a = b) then strip_prefix p s else None
  | String _ _, "" => None
  end.
Fixpoint strip_suffix (p s : string) : option string :=
  if decide (s = p) then Some ""
  else match s with "" => None | String a s => String a <$> strip_suffix p s end.
Definition starts_with (s p : string) : bool := bool_decide (is_Some (strip_prefix p s)).
Definition ends_with (s p : string) : bool := bool_decide (is_Some (strip_suffix p s)).
Fixpoint contains (s p : string) : bool :=
  starts_with s p || match s with "" => false | String _ s => contains s p end.
Definition contains_char (s : string) (a : ascii) : bool := bytes_any (fun b => bool_decide (b = a)) s.

Fixpoint split_once (sep s : string) : option (string * string) :=
  match strip_prefix sep s with
  | Some rest => Some ("", rest)
  | None =>
      match s with
      | "" => None
      | String a s => (fun '(l, r) => (String a l, r)) <$> split_once sep s
      end
  end.
(** [rsplit_once] at a one-byte separator. *)
Fixpoint rsplit_once (sep : ascii) (s : string) : option (string * string) :=
  match s with
  | "" => None
  | String a s =>
      match rsplit_once sep s with
      | Some (l, r) => Some (String a l, r)
      | None => if decide (a = sep) then Some ("", s) else None
      end
  end.
(** [split] at a one-byte separator; never the empty list. *)
Fixpoint split (sep : ascii) (s : string) : list string :=
  match s with
  | "" => [""]
  | String a s =>
      if decide (a = sep) then "" :: split sep s
      else match split sep s with
           | [] => [String a ""]
           | h :: t => String a h :: t
           end
  end.

Definition to_ascii_lowercase_byte (a : ascii) : ascii :=
  if is_ascii_uppercase a then ascii_of_N (byte_of a + 32) else a.
Fixpoint to_ascii_lowercase (s : string) : string :=
  match s with "" => "" | String a s => String (to_ascii_lowercase_byte a) (to_ascii_lowercase s) end.

(** ** Unicode white space

    [char::is_whitespace] (White_Space property), as the UTF-8 encodings of its
    25 characters. UTF-8 is self-synchronising: a character occurs in a valid
    string exactly when its encoding occurs as a substring. *)
Fixpoint of_bytes (l : list N) : string :=
  match l with [] => "" | b :: l => String (ascii_of_N b) (of_bytes l) end.
Definition whitespace : list string :=
  of_bytes <$>
  [[9]; [10]; [11]; [12]; [13]; [32]; [194; 133]; [194; 160]; [225; 154; 128];
   [226; 128; 128]; [226; 128; 129]; [226; 128; 130]; [226; 128; 131];
   [226; 128; 132]; [226; 128; 133]; [226; 128; 134]; [226; 128; 135];
   [226; 128; 136]; [226; 128; 137]; [226; 128; 138]; [226; 128; 168];
   [226; 128; 169]; [226; 128; 175]; [226; 129; 159]; [227; 128; 128]]%N.
Definition contains_whitespace (s : string) : bool := existsb (contains s) whitespace.

Fixpoint first_match {A B} (f : A -> option B) (l : list A) : option B :=
  match l with
  | [] => None
  | x :: l => match f x with Some y => Some y | None => first_match f l end
  end.
(** Fuel [len s]: every white-space encoding is at least one byte long. *)
Fixpoint trim_start_n (n : nat) (s : string) : string :=
  match n with
  | 0 => s
  | S n => match first_match (fun w => strip_prefix w s) whitespace with
           | Some r => trim_start_n n r
           | None => s
           end
  end.
Fixpoint trim_end_n (n : nat) (s : string) : string :=
  match n with
  | 0 => s
  | S n => match first_match (fun w => strip_suffix w s) whitespace with
           | Some r => trim_end_n n r
           | None => s
           end
  end.
Definition trim (s : string) : string :=
  let s := trim_start_n (len s) s in trim_end_n (len s) s.
Fixpoint trim_end_matches (c : ascii) (s : string) : string :=
  match s with
  | "" => ""
  | String a s =>
      match trim_end_matches c s with
      | "" => if decide (a = c) then "" else String a ""
      | t => String a t
      end
  end.

(** ** Numbers as text *)
Definition digit_value (a : ascii) : N := (byte_of a - 48)%N.
Fixpoint digits_value (acc : N) (s : string) : option N :=
  match s with
  | "" => Some acc
  | String a s => if is_ascii_digit a then digits_value (10 * acc + digit_value a) s else None
  end.
(** [str::parse] at an unsigned type with the given maximum: an optional plus
    sign, at least one digit, and no overflow. *)
Definition parse_uint (max : Z) (s : string) : option Z :=
  let s := default s (strip_prefix "+" s) in
  if is_empty s then None
  else match digits_value 0 s with
       | Some n => if bool_decide (Z.of_N n <= max)%Z then Some (Z.of_N n) else None
       | None => None
       end.
(** [to_string] of an integer. *)
Definition decimal (z : Z) : string := pretty z.

Definition hex_digit (n : N) : ascii := ascii_of_N (if decide (n < 10)%N then 48 + n else 87 + n).
(** [{byte:02x}] for each byte. *)
Fixpoint hex (l : list N) : string :=
  match l with
  | [] => ""
  | b :: l => String (hex_digit (b / 16)) (String (hex_digit (b mod 16)) (hex l))
  end.

(** [Vec<String>::sort]: byte-wise order; equal strings are indistinguishable. *)
Definition sort_strings (l : list string) : list string := merge_sort String.le l.

(** ** Lemmas *)
Lemma app_cons a s t : String a s +:+ t = String a (s +:+ t).
Proof. done. Qed.
Lemma app_nil_l s : "" +:+ s = s.
Proof. done. Qed.
Lemma app_nil_r' s : s +:+ "" = s.
Proof. induction s as [|a s IH]; [done|]. by rewrite app_cons, IH. Qed.
Lemma app_assoc' s t u : (s +:+ t) +:+ u = s +:+ (t +:+ u).
Proof. induction s as [|a s IH]; [done|]. by rewrite !app_cons, IH. Qed.
#[export] Instance app_inj s : Inj (=) (=) (String.append s).
Proof. induction s as [|a s IH]; intros t u; cbn; [done|]. intros [= ?]. by apply IH. Qed.
Lemma len_app s t : len (s +:+ t) = len s + len t.
Proof. unfold len. induction s as [|a s IH]; [done|]. rewrite app_cons. cbn. by rewrite IH. Qed.
Lemma app_inj_len s1 s2 t1 t2 : len s1 = len s2 -> s1 +:+ t1 = s2 +:+ t2 -> s1 = s2 /\ t1 = t2.
Proof.
  revert s2. induction s1 as [|a s1 IH]; intros [|b s2]; cbn; try done.
  rewrite !app_cons. intros [= Hl] [= -> Ht]. by destruct (IH s2 Hl Ht) as [-> ->].
Qed.
Lemma len_0 s : len s = 0 <-> s = "".
Proof. by destruct s. Qed.

Lemma is_empty_true s : is_empty s = true <-> s = "".
Proof. apply bool_decide_eq_true. Qed.
Lemma is_empty_false s : is_empty s = false <-> s <> "".
Proof. apply bool_decide_eq_false. Qed.

Lemma strip_prefix_Some p s r : strip_prefix p s = Some r <-> s = p +:+ r.
Proof.
  revert s. induction p as [|a p IH]; intros s; cbn; [rewrite app_nil_l; naive_solver|].
  destruct s as [|b s]; [done|]. rewrite app_cons. case_decide as Hab.
  - rewrite IH. naive_solver.
  - naive_solver.
Qed.
Lemma strip_suffix_Some p s r : strip_suffix p s = Some r <-> s = r +:+ p.
Proof.
  revert r. induction s as [|a s IH]; intros r; cbn [strip_suffix]; case_decide as Hp.
  - subst. split; [intros [= <-]; done|]. destruct r; [done|]. by rewrite app_cons.
  - split; [done|]. destruct r; [naive_solver|]. by rewrite app_cons.
  - subst. split; [intros [= <-]; done|]. intros Hr.
    assert (len r = 0) as Hl; [|by apply len_0 in Hl as ->].
    apply (f_equal len) in Hr. rewrite len_app in Hr. unfold len in *. cbn in Hr. lia.
  - rewrite fmap_Some. setoid_rewrite IH. destruct r as [|b r].
    + rewrite app_nil_l. naive_solver.
    + rewrite app_cons. naive_solver.
Qed.
Lemma starts_with_true s p : starts_with s p = true <-> exists r, s = p +:+ r.
Proof. unfold starts_with. rewrite bool_decide_eq_true. unfold is_Some. by setoid_rewrite strip_prefix_Some. Qed.
Lemma ends_with_true s p : ends_with s p = true <-> exists r, s = r +:+ p.
Proof. unfold ends_with. rewrite bool_decide_eq_true. unfold is_Some. by setoid_rewrite strip_suffix_Some. Qed.

Lemma bytes_all_app f s t : bytes_all f (s +:+ t) = bytes_all f s && bytes_all f t.
Proof. induction s as [|a s IH]; [done|]. rewrite app_cons. cbn. rewrite IH. by destruct (f a). Qed.
Lemma bytes_all_impl f g s :
  (forall a, f a = true -> g a = true) -> bytes_all f s = true -> bytes_all g s = true.
Proof. intros H. induction s as [|a s IH]; cbn; [done|]. rewrite !andb_true_iff. naive_solver. Qed.
Lemma contains_char_app s t a : contains_char (s +:+ t) a = contains_char s a || contains_char t a.
Proof. unfold contains_char, bytes_any. rewrite bytes_all_app. by rewrite negb_andb. Qed.
Lemma contains_char_self a s : contains_char (String a s) a = true.
Proof. unfold contains_char, bytes_any. cbn. by rewrite bool_decide_true. Qed.

Lemma split_once_Some sep s l r : split_once sep s = Some (l, r) -> s = l +:+ sep +:+ r.
Proof.
  revert l. induction s as [|a s IH]; intros l; cbn.
  - destruct (strip_prefix sep "") eqn:E; [|done]. intros [= <- <-]. by apply strip_prefix_Some in E.
  - destruct (strip_prefix sep (String a s)) eqn:E.
    + intros [= <- <-]. by apply strip_prefix_Some in E.
    + destruct (split_once sep s) as [[l' r']|]; [|done]. intros [= <- <-].
      rewrite app_cons. f_equal. by apply IH.
Qed.
Lemma rsplit_once_Some c s l r :
  rsplit_once c s = Some (l, r) -> s = l +:+ String c r /\ contains_char r c = false.
Proof.
  assert (forall s, rsplit_once c s = None -> contains_char s c = false) as Hn.
  { intros t. induction t as [|a t IH]; [done|]. cbn.
    destruct (rsplit_once c t) as [[??]|]; [done|]. case_decide; [done|]. intros _.
    unfold contains_char, bytes_any in *. cbn. rewrite bool_decide_false by done. cbn. by apply IH. }
  revert l. induction s as [|a s IH]; intros l; cbn; [done|].
  destruct (rsplit_once c s) as [[l' r']|] eqn:E.
  - intros [= <- <-]. destruct (IH l' eq_refl) as [-> Hc]. by rewrite app_cons.
  - case_decide; [|done]. subst. intros [= <- <-]. rewrite app_nil_l. split; [done|]. by apply Hn.
Qed.

(** Splitting and joining. *)
Fixpoint join (sep : ascii) (l : list string) : string :=
  match l with
  | [] => ""
  | [x] => x
  | x :: l => x +:+ String sep (join sep l)
  end.
Lemma split_not_nil c s : split c s <> [].
Proof. destruct s; cbn; [done|]. case_decide; [done|]. by destruct (split c s). Qed.
Lemma join_split c s : join c (split c s) = s.
Proof.
  induction s as [|a s IH]; [done|]. cbn. case_decide as Ha.
  - subst. pose proof (split_not_nil c s). destruct (split c s); [done|].
    cbn [join]. rewrite app_nil_l. by f_equal.
  - pose proof (split_not_nil c s). destruct (split c s) as [|h [|h' t]]; [done| |];
      cbn [join] in *; rewrite <- IH; done.
Qed.
Lemma split_no_sep c s : Forall (fun x => contains_char x c = false) (split c s).
Proof.
  induction s as [|a s IH]; cbn; [by constructor|]. case_decide as Ha; [by constructor|].
  destruct (split c s) as [|h t]; inversion IH; subst; repeat constructor; try done;
    unfold contains_char, bytes_any in *; cbn; by rewrite bool_decide_false.
Qed.

(** Integer printing and parsing. *)
Lemma ascii_of_digit x : (x < 10)%N -> is_ascii_digit (pretty_N_char x) = true
  /\ digit_value (pretty_N_char x) = x.
Proof.
  intros Hx. assert (x = 0 \/ x = 1 \/ x = 2 \/ x = 3 \/ x = 4 \/ x = 5 \/ x = 6 \/ x = 7
    \/ x = 8 \/ x = 9)%N as Hc by lia.
  by repeat destruct Hc as [->|Hc]; [..|subst].
Qed.
Lemma digits_value_pretty_go x s :
  digits_value 0 (pretty_N_go x s) = digits_value x s.
Proof.
  revert s. induction (N.lt_wf_0 x) as [x _ IH]. intros s.
  destruct (decide (0 < x)%N) as [Hx|Hx].
  - rewrite pretty_N_go_step by done. rewrite IH by (by apply N.div_lt).
    destruct (ascii_of_digit (x `mod` 10)) as [Hd Hv]; [by apply N.mod_lt|].
    cbn [digits_value]. rewrite Hd, Hv. f_equal. by rewrite <- N.Div0.div_mod.
  - assert (x = 0%N) as -> by lia. by rewrite pretty_N_go_0.
Qed.
Lemma digits_value_pretty (n : N) : digits_value 0 (pretty n) = Some n.
Proof.
  unfold pretty, pretty_N. case_decide; [by subst|]. by rewrite digits_value_pretty_go.
Qed.
Lemma pretty_N_go_len n s : (len s <= len (pretty_N_go n s))%nat.
Proof.
  revert s. induction (N.lt_wf_0 n) as [n _ IH]. intros s.
  destruct (decide (0 < n)%N) as [Hx|Hx].
  - rewrite pretty_N_go_step by done.
    etrans; [|apply IH; by apply N.div_lt]. unfold len. cbn. lia.
  - assert (n = 0%N) as -> by lia. by rewrite pretty_N_go_0.
Qed.
Lemma pretty_N_nonempty (n : N) : exists a s, (pretty n : string) = String a s.
Proof.
  destruct (pretty n) as [|a s] eqn:E; [|eauto].
  exfalso. unfold pretty, pretty_N in E. case_decide; [done|].
  rewrite pretty_N_go_step in E by lia.
  pose proof (pretty_N_go_len (n `div` 10) (String (pretty_N_char (n `mod` 10)) "")) as Hl.
  rewrite E in Hl. unfold len in Hl. cbn in Hl. lia.
Qed.
Lemma digits_value_all acc s n : digits_value acc s = Some n -> bytes_all is_ascii_digit s = true.
Proof.
  revert acc. induction s as [|a s IH]; intros acc; cbn; [done|].
  destruct (is_ascii_digit a); [|done]. apply IH.
Qed.
Lemma pretty_N_digits (n : N) : bytes_all is_ascii_digit (pretty n) = true.
Proof. eapply digits_value_all, digits_value_pretty. Qed.
Lemma parse_uint_pretty max (n : N) :
  (Z.of_N n <= max)%Z -> parse_uint max (pretty n) = Some (Z.of_N n).
Proof.
  intros Hn. pose proof (pretty_N_digits n) as Hd. pose proof (digits_value_pretty n) as Hv.
  destruct (pretty_N_nonempty n) as (a & s & E). unfold parse_uint.
  destruct (strip_prefix "+" (pretty n)) as [r|] eqn:Hp.
  - apply strip_prefix_Some in Hp. rewrite Hp in Hd. done.
  - cbn [default]. rewrite E in *. unfold is_empty. rewrite bool_decide_false by done.
    by rewrite Hv, bool_decide_true.
Qed.
Lemma parse_uint_bound max s z : parse_uint max s = Some z -> (0 <= z <= max)%Z.
Proof.
  unfold parse_uint. destruct (is_empty _); [done|].
  destruct (digits_value _ _); [|done]. case_bool_decide; [|done]. intros [= <-]. lia.
Qed.
Lemma decimal_of_nonneg z : (0 <= z)%Z -> decimal z = pretty (Z.to_N z).
Proof. unfold decimal, pretty at 1, pretty_Z. destruct z; intros; [done|done|lia]. Qed.

(** Sorting. *)
Lemma sort_strings_perm l : sort_strings l ≡ₚ l.
Proof. apply merge_sort_Permutation. Qed.
Lemma sort_strings_sorted l : Sorted String.le (sort_strings l).
Proof. apply Sorted_merge_sort, _. Qed.

(** A separator that does not occur on the left splits a string in one way. *)
Lemma contains_char_cons a s c : contains_char (String a s) c = bool_decide (a = c) || contains_char s c.
Proof. unfold contains_char, bytes_any. cbn. by rewrite negb_andb, negb_involutive. Qed.
Lemma sep_inj c s1 s2 t1 t2 :
  contains_char s1 c = false -> contains_char s2 c = false ->
  s1 +:+ String c t1 = s2 +:+ String c t2 -> s1 = s2 /\ t1 = t2.
Proof.
  revert s2. induction s1 as [|a s1 IH]; intros [|b s2]; rewrite ?contains_char_cons, ?app_cons, ?app_nil_l.
  - by intros _ _ [= ->].
  - intros _ Hb [= -> _]. by rewrite bool_decide_true in Hb.
  - intros Ha _ [= -> _]. by rewrite bool_decide_true in Ha.
  - intros Ha Hb [= -> Ht]. apply orb_false_elim in Ha as [_ Ha], Hb as [_ Hb].
    by destruct (IH s2 Ha Hb Ht) as [-> ->].
Qed.
Lemma bytes_all_no_char f c s : f c = false -> bytes_all f s = true -> contains_char s c = false.
Proof.
  intros Hc. induction s as [|a s IH]; [done|]. rewrite contains_char_cons. cbn [bytes_all].
  intros [Ha Hs]%andb_prop. apply orb_false_intro; [|by apply IH].
  apply bool_decide_eq_false_2. intros ->. congruence.
Qed.

(** Canonical decimals: no sign, no leading zero. *)
Lemma digit_of_ascii a :
  is_ascii_digit a = true -> (digit_value a < 10)%N /\ pretty_N_char (digit_value a) = a.
Proof.
  unfold is_ascii_digit, digit_value, byte_of. rewrite bool_decide_eq_true.
  destruct a as [[] [] [] [] [] [] [] []]; vm_compute;
    intros [H1 H2]; first [by destruct (H1 eq_refl)|by destruct (H2 eq_refl)|done].
Qed.
Lemma pretty_go_digits acc s n :
  (0 < acc)%N -> digits_value acc s = Some n -> pretty_N_go n "" = pretty_N_go acc s.
Proof.
  revert acc. induction s as [|a s IH]; intros acc Hacc; cbn [digits_value]; [by intros [= ->]|].
  destruct (is_ascii_digit a) eqn:Ha; [|done]. intros Hn.
  apply digit_of_ascii in Ha as [Hlt Hc].
  rewrite (IH (10 * acc + digit_value a)%N); [|lia|done]. rewrite pretty_N_go_step by lia.
  replace ((10 * acc + digit_value a) `div` 10)%N with acc
    by (apply (N.div_unique _ _ _ (digit_value a)); lia).
  replace ((10 * acc + digit_value a) `mod` 10)%N with (digit_value a)
    by (apply (N.mod_unique _ _ acc); lia).
  by rewrite Hc.

Qed.
Lemma canonical_decimal s n :
  digits_value 0 s = Some n -> s <> "" -> starts_with s "0" = false -> s = pretty n /\ (0 < n)%N.
Proof.
  destruct s as [|a s]; [done|]. intros Hn _ Hz. cbn [digits_value] in Hn.
  destruct (is_ascii_digit a) eqn:Ha; [|done].
  apply digit_of_ascii in Ha as [Hlt Hc]. rewrite N.mul_0_r, N.add_0_l in Hn.
  assert (digit_value a <> 0)%N as Hnz.
  { intros H0. rewrite H0 in Hc. cbn in Hc. subst a. unfold starts_with in Hz. by cbn in Hz. }
  assert (0 < digit_value a)%N as Hpos by lia.
  pose proof (pretty_go_digits _ _ _ Hpos Hn) as Hp.
  assert (forall m k, (0 < k)%N -> digits_value k m = Some n -> (0 < n)%N) as Hnpos.
  { intros m. induction m as [|b m IHm]; intros k Hk; cbn [digits_value]; [by intros [= ->]|].
    destruct (is_ascii_digit b); [|done]. apply IHm. lia. }
  specialize (Hnpos _ _ Hpos Hn). split; [|done].
  unfold pretty, pretty_N. rewrite decide_False by lia. rewrite Hp.
  rewrite pretty_N_go_step by done. rewrite N.div_small, N.mod_small by done.
  by rewrite pretty_N_go_0, Hc.
Qed.

Lemma split_no_occurrence c s : contains_char s c = false -> split c s = [s].
Proof.
  induction s as [|a s IH]; [done|]. rewrite contains_char_cons.
  intros [Ha Hs]%orb_false_elim. apply bool_decide_eq_false in Ha. cbn.
  rewrite decide_False by done. by rewrite IH.
Qed.
Lemma split_app c s t :
  contains_char s c = false -> split c (s +:+ String c t) = s :: split c t.
Proof.
  induction s as [|a s IH]; rewrite ?contains_char_cons.
  - intros _. rewrite app_nil_l. cbn. by rewrite decide_True.
  - intros [Ha Hs]%orb_false_elim. apply bool_decide_eq_false in Ha. rewrite app_cons. cbn [split].
    rewrite decide_False by done. by rewrite IH.
Qed.
