(* ===== verification/Prog.v ===== *)
(** * Effectful programs

    The asynchronous code of the service is modelled as a program that issues
    events to its environment (a clock, a file, the Kubernetes API, a shared cell)
    and continues with the answer.  A program has two semantics:
    - [runs p t a]: [p] finishes with [a] after the exchange [t] of events and
      answers, for an arbitrary environment;
    - [run h p w]: the execution against an executable environment [h];
    and, for several tasks at once, [pool_step]: one task at a time performs its
    next event against a shared server. *)
From Stdlib Require Import Eqdep.
From S2P Require Import Prelude.

Section prog.
Context {E : Type -> Type}.

Inductive prog (A : Type) : Type :=
| Ret (a : A)
| Vis {X : Type} (e : E X) (k : X -> prog A).
Arguments Ret {A} a.
Arguments Vis {A X} e k.

Fixpoint prog_bind {A B} (f : A -> prog B) (p : prog A) : prog B :=
  match p with
  | Ret a => f a
  | Vis e k => Vis e (fun x => prog_bind f (k x))
  end.
#[global] Instance prog_ret : MRet prog := fun A (a : A) => Ret a.
#[global] Instance prog_mbind : MBind prog := fun A B f p => prog_bind f p.

Definition trigger {X} (e : E X) : prog X := Vis e Ret.

(** The [?] operator: a fallible program stops at its first error. *)
Definition try_bind {Er A B} (p : prog (result Er A)) (f : A -> prog (result Er B)) :
  prog (result Er B) :=
  r ← p; match r with Ok a => f a | Err e => Ret (Err e) end.

(** One event and the environment's answer to it. *)
Inductive obs : Type := | Obs {X : Type} (e : E X) (x : X).
Definition trace := list obs.

Fixpoint runs {A} (p : prog A) (t : trace) (a : A) : Prop :=
  match p with
  | Ret b => t = [] /\ a = b
  | Vis e k => exists x t', t = Obs e x :: t' /\ runs (k x) t' a
  end.

Fixpoint run {A W} (h : forall X, E X -> W -> X * W) (p : prog A) (w : W) : A * W :=
  match p with
  | Ret a => (a, w)
  | Vis e k => let '(x, w') := h _ e w in run h (k x) w'
  end.

(** The answers determine a run. *)
Lemma runs_vis {A X} (e : E X) (k : X -> prog A) x t a :
  runs (Vis e k) (Obs e x :: t) a <-> runs (k x) t a.
Proof.
  cbn. split; [|by eauto]. intros (y & t' & Heq & Hr).
  injection Heq as Hxy ->. by apply inj_pair2 in Hxy as ->.
Qed.
Lemma runs_deterministic {A} (p : prog A) t a b : runs p t a -> runs p t b -> a = b.
Proof.
  revert t. induction p as [c|X e k IH]; intros t.
  - by intros [_ ->] [_ ->].
  - intros (x & t' & -> & Ha) Hb%runs_vis. by eapply IH.
Qed.

Lemma runs_bind {A B} (p : prog A) (f : A -> prog B) t b :
  runs (p ≫= f) t b <-> exists t1 t2 a, t = t1 ++ t2 /\ runs p t1 a /\ runs (f a) t2 b.
Proof.
  unfold mbind, prog_mbind. revert t. induction p as [a|X e k IH]; intros t; cbn.
  - split; [intros H; exists [], t, a; auto|].
    intros (t1 & t2 & a' & -> & [-> ->] & H). done.
  - setoid_rewrite IH. split.
    + intros (x & t' & -> & t1 & t2 & a & -> & H1 & H2).
      exists (Obs e x :: t1), t2, a. repeat split; eauto.
    + intros (t1 & t2 & a & -> & (x & t' & -> & H1) & H2). eauto 10.
Qed.

Lemma runs_trigger {X} (e : E X) t x : runs (trigger e) t x <-> t = [Obs e x].
Proof.
  cbn. split; [intros (y & t' & -> & -> & ->); done|]. intros ->. eauto.
Qed.

Lemma runs_ret {A} (a b : A) t : runs (Ret a) t b <-> t = [] /\ b = a.
Proof. done. Qed.

Lemma runs_try_bind {Er A B} (p : prog (result Er A)) (f : A -> prog (result Er B)) t r :
  runs (try_bind p f) t r <->
  (exists t1 t2 a, t = t1 ++ t2 /\ runs p t1 (Ok a) /\ runs (f a) t2 r)
  \/ (exists e, r = Err e /\ runs p t (Err e)).
Proof.
  unfold try_bind. rewrite runs_bind. split.
  - intros (t1 & t2 & [a|e] & -> & H1 & H2); [left; eauto 10|].
    right. cbn in H2. destruct H2 as [-> ->]. rewrite app_nil_r. eauto.
  - intros [(t1 & t2 & a & -> & H1 & H2)|(e & -> & H)].
    + exists t1, t2, (Ok a). done.
    + exists t, [], (Err e). rewrite app_nil_r. cbn. done.
Qed.

(** The events of an execution against an executable environment. *)
Fixpoint run_trace {A W} (h : forall X, E X -> W -> X * W) (p : prog A) (w : W) : trace :=
  match p with
  | Ret _ => []
  | Vis e k => let '(x, w') := h _ e w in Obs e x :: run_trace h (k x) w'
  end.
Lemma run_trace_runs {A W} (h : forall X, E X -> W -> X * W) (p : prog A) w a :
  (run h p w).1 = a -> runs p (run_trace h p w) a.
Proof.
  intros <-. revert w. induction
p as [b|X e k IH]; intros w; cbn; [done|].
  destruct (h X e w) as [x w']. eauto.
Qed.

(** An execution against an executable environment is a run. *)

Lemma run_runs {A W} (h : forall X, E X -> W -> X * W) (p : prog A) w a w' :
  run h p w = (a, w') -> exists t, runs p t a.
Proof.
  revert w. induction p as [b|X e k IH]; intros w; cbn.
  - intros [= -> ->]. exists []. done.
  - destruct (h X e w) as [x w1]. intros H. apply IH in H as [t Ht]. eauto.
Qed.

(** Every program terminates: whatever the environment answers, it reaches a
    result.  [len_bound p n]: every run of [p] issues at most [n] events. *)
Fixpoint len_bound {A} (p : prog A) (n : nat) : Prop :=
  match p with
  | Ret _ => True
  | Vis _ k => match n with 0 => False | S n => forall x, len_bound (k x) n end
  end.
Lemma len_bound_runs {A} (p : prog A) n t a : len_bound p n -> runs p t a -> length t <= n.
Proof.
  revert n t. induction p as [b|X e k IH]; intros n t; cbn.
  - intros _ [-> _]. cbn. lia.
  - destruct n as [|n]; [done|]. intros Hb (x & t' & -> & H). cbn.
    apply le_n_S. by eapply IH.
Qed.

Lemma len_bound_mono {A} (p : prog A) m n : len_bound p m -> m <= n -> len_bound p n.
Proof.
  revert m n. induction p as [a|X e k IH]; intros m n; cbn; [done|].
  destruct m as [|m]; [done|]. destruct n as [|n]; [lia|].
  intros H Hle x. eapply IH; [apply H|lia].
Qed.
Lemma len_bound_bind {A B} (p : prog A) (f : A -> prog B) m n :
  len_bound p m -> (forall a, len_bound (f a) n) -> len_bound (p ≫= f) (m + n).
Proof.
  unfold mbind, prog_mbind. intros Hp Hf. revert m Hp.
  induction p as [a|X e k IH]; intros m; cbn [prog_bind].
  - intros _. eapply len_bound_mono; [apply Hf|lia].
  - destruct m as [|m]; [done|]. cbn. intros H x. by apply IH.
Qed.
Lemma len_bound_try_bind {Er A B} (p : prog (result Er A)) (f : A -> prog (result Er B)) m n :
  len_bound p m -> (forall a, len_bound (f a) n) -> len_bound (try_bind p f) (m + n).
Proof. intros Hp Hf. apply len_bound_bind; [done|]. intros [a|e]; [apply Hf|done]. Qed.

Lemma len_bound_answer {A B} (p : prog A) (f : A -> B) n : len_bound p n -> len_bound (a ← p; mret (f a)) n.
Proof. intros Hp. rewrite <- (Nat.add_0_r n). by apply len_bound_bind. Qed.

(** ** What a program may do

    [wp permit p h post]: continuing after the events [h], the program issues
    only events [permit] allows at that point, whatever the environment
    answers, and it returns in a state [post] holds of. *)
Section wp.
Context (permit : trace -> forall X, E X -> Prop).
Fixpoint wp {A} (p : prog A) (h : trace) (post : A -> trace -> Prop) : Prop :=
  match p with
  | Ret a => post a h
  | Vis e k => permit h _ e /\ forall x, wp (k x) (h ++ [Obs e x]) post
  end.

Lemma wp_mono {A} (p : prog A) h (Q R : A -> trace -> Prop) :
  wp p h Q -> (forall a h', h `prefix_of` h' -> Q a h' -> R a h') -> wp p h R.
Proof.
  revert h. induction p as [a|X e k IH]; intros h; cbn; [intros ? HR; by apply HR|].
  intros [He Hk] HR. split; [done|]. intros x. eapply IH; [apply Hk|].
  intros a h' Hh. apply HR. etrans; [|exact Hh]. by apply prefix_app_r.
Qed.
Lemma wp_bind {A B} (p : prog A) (f : A -> prog B) h (R : B -> trace -> Prop) :
  wp (p ≫= f) h R <-> wp p h (fun a h' => wp (f a) h' R).
Proof.
  unfold mbind, prog_mbind. revert h. induction p as [a|X e k IH]; intros h; cbn; [done|].
  by setoid_rewrite IH.
Qed.
(** The rule to apply at a call: a specification of the callee. *)
Lemma wp_call {A B} (p : prog A) (f : A -> prog B) h (Q : A -> trace -> Prop) (R : B -> trace -> Prop) :
  wp p h Q ->
  (forall a h', h `prefix_of` h' -> Q a h' -> wp (f a) h' R) ->
  wp (p ≫= f) h R.
Proof. intros Hp Hf. apply wp_bind. by eapply wp_mono. Qed.
Lemma wp_try_call {Er A B} (p : prog (result Er A)) (f : A -> prog (result Er B)) h Q R :
  wp p h Q ->
  (forall a h', h `prefix_of` h' -> Q (Ok a) h' -> wp (f a) h' R) ->
  (forall e h', h `prefix_of` h' -> Q (Err e) h' -> R (Err e) h') ->
  wp (try_bind p f) h R.
Proof. intros Hp Hf He. eapply wp_call; [done|]. intros [a|e] h' Hh HQ; [by apply Hf|]. by apply He. Qed.
(** One event, then the rest. *)
Lemma wp_event {X B} (e : E X) (f : X -> prog B) h (R : B -> trace -> Prop) :
  permit h X e -> (forall x, wp (f x) (h ++ [Obs e x]) R) -> wp (trigger e ≫= f) h R.
Proof. done. Qed.
Lemma wp_true {A} (p : prog A) h : (forall h X (e : E X), permit h X e) -> wp p h (fun _ _ => True).
Proof. intros Hp. revert h. induction p as [a|X e k IH]; intros h; cbn; [done|]. split; [apply Hp|]. auto. Qed.
Lemma wp_and {A} (p : prog A) h (Q R : A -> trace -> Prop) :
  wp p h Q -> wp p h R -> wp p h (fun a h' => Q a h' /\ R a h').
Proof.
  revert h. induction p as [a|X e k IH]; intros h; cbn; [done|].
  intros [He Hk] [_ Hk']. split; [done|]. intros x. by apply IH.
Qed.
Lemma wp_runs {A} (p : prog A) h (Q : A -> trace -> Prop) t a :
  wp p h Q -> runs p t a -> Q a (h ++ t).
Proof.
  revert h t. induction p as [b|X e k IH]; intros h t; cbn.
  - intros HQ [-> ->]. by rewrite app_nil_r.
  - intros [_ Hk] (x & t' & -> & Hr). rewrite cons_middle, app_assoc. by eapply IH.
Qed.
(** Every event of a run was permitted when it was issued. *)
Lemma wp_permitted {A} (p : prog A) h (Q : A -> trace -> Prop) t a t1 X (e : E X) x t2 :
  wp p h Q -> runs p t a -> t = t1 ++ Obs e x :: t2 -> permit (h ++ t1) X e.
Proof.
  intros Hw Hr. enough (forall t1 o t2, t = t1 ++ o :: t2 ->
    match o with Obs e _ => permit (h ++ t1) _ e end) as G by (intros ->; by apply (G _ (Obs e x) t2)).
  clear t1 X e x t2. revert h t Hw Hr. induction p as [b|X e k IH]; intros h t; cbn.
  - intros _ [-> _] t1 o t2 Ht. by destruct t1.
  - intros [He Hk] (x & t' & -> & Hr) [|o1 t1] o t2 Ht; simplify_list_eq.
    + by rewrite ?app_nil_r.
    + rewrite cons_middle, app_assoc. by eapply IH; [apply Hk|..].
Qed.
End wp.
Lemma wp_permit_mono (P1 P2 : trace -> forall X, E X -> Prop) {A} (p : prog A) h Q :
  (forall h X (e : E X), P1 h X e -> P2 h X e) -> wp P1 p h Q -> wp P2 p h Q.
Proof.
  intros HP. revert h. induction p as [a|X e k IH]; intros h; cbn; [done|].
  intros [He Hk]. split; [by apply HP|]. intros x. by apply IH.
Qed.

(** A program whose events are all of a kind. *)
Section only.
Context (kind : forall X, E X -> Prop).
Definition only {A} (p : prog A) : Prop := forall h, wp (fun _ => kind) p h (fun _ _ => True).
Lemma only_ret {A} (a : A) : only (Ret a).
Proof. done. Qed.
Lemma only_vis {A X} (e : E X) (k : X -> prog A) : kind X e -> (forall x, only (k x)) -> only (Vis e k).
Proof. intros He Hk h. split; [done|]. intros x. apply Hk. Qed.
Lemma only_trigger {X} (e : E X) : kind X e -> only (trigger e).
Proof. intros He. by apply only_vis. Qed.
Lemma only_bind {A B} (p : prog A) (f : A -> prog B) : only p -> (forall a, only (f a)) -> only (p ≫= f).
Proof. intros Hp Hf h. eapply wp_call; [apply Hp|]. intros a h' _ _. apply Hf. Qed.
Lemma only_try {Er A B} (p : prog (result Er A)) (f : A -> prog (result Er B)) :
  only p -> (forall a, only (f a)) -> only (try_bind p f).
Proof. intros Hp Hf. apply only_bind; [done|]. intros [a|e]; [apply Hf|done]. Qed.
End only.

(** ** Several tasks against a shared server *)

Section pool.
Context {S A : Type} (serve : forall X, E X -> S -> X -> S -> Prop).

(** The server, the tasks and what has happened so far, oldest first. *)
Record config := Config {
  server : S;
  tasks : gmap nat (prog A);
  history : list (nat * obs);
}.

Inductive pool_step : config -> config -> Prop :=
| task_step s ts h i X (e : E X) (k : X -> prog A) x s' :
    ts !! i = Some (Vis e k) ->
    serve X e s x s' ->
    pool_step (Config s ts h) (Config s' (<[i := k x]> ts) (h ++ [(i, Obs e x)])).

Definition initial (s : S) (ts : gmap nat (prog A)) : config := Config s ts [].
Definition reachable (s : S) (ts : gmap nat (prog A)) : config -> Prop :=
  rtc pool_step (initial s ts).
Definition finished (c : config) (i : nat) (a : A) : Prop :=
  tasks c !! i = Some (Ret a).

Definition result_of (c : config) (i : nat) : option A :=
  match tasks c !! i with Some (Ret a) => Some a | _ => None end.
Lemma result_of_finished c i a : result_of c i = Some a -> finished c i a.
Proof. unfold result_of, finished. destruct (tasks c !! i) as [[]|]; naive_solver. Qed.

(** Invariants by induction on the execution. *)
Lemma pool_invariant (P : config -> Prop) s ts :
  P (initial s ts) ->
  (forall c c', reachable s ts c -> P c -> pool_step c c' -> P c') ->
  forall c, reachable s ts c -> P c.
Proof.
  intros H0 Hstep. apply (rtc_ind_r P); [done|]. intros c c' Hr Hs HP.
  by eapply Hstep.
Qed.
(** An executable scheduler: the named task performs its next event. *)
Definition exec_step (h : forall X, E X -> S -> X * S) (c : config) (i : nat) : config :=
  match tasks c !! i with
  | Some (Vis e k) =>
      let '(x, s') := h _ e (server c) in
      Config s' (<[i := k x]> (tasks c)) (history c ++ [(i, Obs e x)])
  | _ => c
  end.
Definition exec (h : forall X, E X -> S -> X * S) (c : config) (schedule : list nat) : config :=
  foldl (exec_step h) c schedule.
Lemma exec_reachable (h : forall X, E X -> S -> X * S) s ts schedule :
  (forall X e w x w', h X e w = (x, w') -> serve X e w x w') ->
  reachable s ts (exec h (initial s ts) schedule).
Proof.
  intros Hs. unfold exec. assert (reachable s ts (initial s ts)) as Hr by apply rtc_refl.
  revert Hr. generalize (initial s ts) as c. induction schedule as [|i l IH]; intros c Hr; [done|].
  apply IH. unfold exec_step. destruct c as [w tasks_ hist]. cbn.
  destruct (tasks_ !! i) as [[a|X e k]|] eqn:Hi; [done| |done].
  destruct (h X e w) as [x w'] eqn:Hh. eapply rtc_r; [done|]. constructor; [done|]. by apply Hs.
Qed.
(** A scheduler for environments in which an event may have to wait: a step of a
    task whose event is not enabled is passed over. *)
Definition exec_step_if (enabled : forall X, E X -> S -> bool) (h : forall X, E X -> S -> X * S) (c : config) (i : nat) : config :=
  match tasks c !! i with
  | Some (Vis e k) => if enabled _ e (server c) then exec_step h c i else c
  | _ => c
  end.
Definition exec_if (enabled : forall X, E X -> S -> bool) (h : forall X, E X -> S -> X * S) (c : config) (schedule : list nat) : config :=
  foldl (exec_step_if enabled h) c schedule.
Lemma exec_if_reachable (enabled : forall X, E X -> S -> bool) (h : forall X, E X -> S -> X * S) s ts schedule :
  (forall X e w x w', enabled X e w = true -> h X e w = (x, w') -> serve X e w x w') ->
  reachable s ts (exec_if enabled h (initial s ts) schedule).
Proof.
  intros Hs. unfold exec_if. assert (reachable s ts (initial s ts)) as Hr by apply rtc_refl.
  revert Hr. generalize (initial s ts) as c. induction schedule as [|i l IH]; intros c Hr; [done|].
  apply IH. unfold exec_step_if, exec_step. destruct c as [w tasks_ hist]. cbn.
  destruct (tasks_ !! i) as [[a|X e k]|] eqn:Hi; [done| |done]. destruct (enabled X e w) eqn:He; [|done].
  destruct (h X e w) as [x w'] eqn:Hh. eapply rtc_r; [done|]. constructor; [done|]. by apply Hs.
Qed.
End pool.

End prog.
Arguments prog : clear implicits.
Arguments Ret {E A} a.
Arguments Vis {E A X} e k.
Arguments obs : clear implicits.
Arguments trace : clear implicits.
Arguments config : clear implicits.
Arguments Config {E S A}.
Arguments server {E S A}.
Arguments tasks {E S A}.
Arguments history {E S A}.

Declare Scope prog_scope.
Delimit Scope prog_scope with prog.
Notation "x ←? y ; z" := (try_bind y (fun x => z))
  (at level 20, y at level 100, z at level 200, only parsing) : prog_scope.
Notation "' x ←? y ; z" := (try_bind y (fun x => z))
  (at level 20, x pattern, y at level 100, z at level 200, only parsing) : prog_scope.
#[global] Open Scope prog_scope.

(** Decomposes a hypothesis [runs p t a] along the structure of [p]. *)
Ltac runs_step :=
  match goal with
  | H : runs (Ret _) _ _ |- _ => destruct H as [? ?]; simplify_eq
  | H : runs (mret _) _ _ |- _ => destruct H as [? ?]; simplify_eq
  | H : runs (_ ≫= _) _ _ |- _ =>
      apply runs_bind in H; destruct H as (? & ? & ? & ? & ? & ?); simplify_eq
  | H : runs (trigger _) _ _ |- _ => apply runs_trigger in H; simplify_eq
  end.
Ltac runs_simpl := repeat (runs_step; cbn beta iota in *).

Create HintDb prog.
#[export] Hint Resolve prefix_app_r : prog.
#[export] Hint Extern 1 (_ `prefix_of` _ ++ _) => apply prefix_app_r; reflexivity : prog.
