(* ===== verification/Libs.v ===== *)
(** * Third-party code

    The crates the service calls are parameters of the model, grouped in one
    type class per crate.  The [...Laws] classes state the documented behaviour
    some theorems rely on; nothing else is assumed of the crates.  [Value] is
    the data type of [serde_json], of which the source uses the accessors. *)
From S2P Require Import Prelude Text.

(** ** serde_json *)
Inductive Number :=
| PosInt (n : Z)      (** a [u64] *)
| NegInt (n : Z)      (** a negative [i64] *)
| Float (text : string).

#[warnings="-register-all"]
Inductive Value :=
| Null
| VBool (b : bool)
| VNumber (n : Number)
| VString (s : string)
| VArray (l : list Value)
| VObject (m : gmap string Value).

Definition as_str (v : Value) : option string :=
  match v with VString s => Some s | _ => None end.
Definition as_i64 (v : Value) : option Z :=
  match v with
  | VNumber (PosInt n) => if bool_decide (n <= i64_max)%Z then Some n else None
  | VNumber (NegInt n) => Some n
  | _ => None
  end.
Definition as_u64 (v : Value) : option Z :=
  match v with VNumber (PosInt n) => Some n | _ => None end.
Definition as_bool (v : Value) : option bool :=
  match v with VBool b => Some b | _ => None end.
Definition as_array (v : Value) : option (list Value) :=
  match v with VArray l => Some l | _ => None end.
Definition as_object (v : Value) : option (gmap string Value) :=
  match v with VObject m => Some m | _ => None end.
(** [Value::get] at a key. *)
Definition get_field (v : Value) (name : string) : option Value :=
  m ← as_object v; m !! name.
Definition str_list (l : list string) : Value := VArray (VString <$> l).
Definition object (l : list (string * Value)) : Value := VObject (list_to_map l).
(** A field with [skip_serializing_if = "Option::is_none"]. *)
Definition optional {A} (name : string) (f : A -> Value) (o : option A) : list (string * Value) :=
  match o with Some a => [(name, f a)] | None => [] end.
Definition num (z : Z) : Value :=
  VNumber (if bool_decide (0 <= z)%Z then PosInt z else NegInt z).

(** [deny_unknown_fields]. *)
Definition only_fields (names : list string) (v : Value) : bool :=
  match v with
  | VObject m => forallb (fun k => bool_decide (k ∈ names)) (map_to_list m).*1

  | _ => false
  end.
Definition field {A} (v : Value) (n : string) (f : Value -> option A) : option A := get_field v n ≫= f.
(** An [Option] field with [serde(default)]: absent and [null] are [None]. *)
Definition optional_field {A} (v : Value) (n : string) (f : Value -> option A) : option (option A) :=
  match get_field v n with
  | None | Some Null => Some None
  | Some x => Some <$> f x
  end.
Definition strings (v : Value) : option (list string) := l ← as_array v; mapM as_str l.

Class SerdeJson := {
  parse_json : string -> option Value;   (** [from_slice], [from_str], [from_reader] *)
  to_string_pretty : Value -> string;    (** [to_writer_pretty] *)
  json_error : string -> string;         (** the error's text when parsing fails *)
  value_error : Value -> string;         (** the error's text when a value has another shape *)

}.

(** ** jsonwebtoken *)
Inductive Algorithm :=
| HS256 | HS384 | HS512 | ES256 | ES384 | RS256 | RS384 | RS512 | PS256 | PS384 | PS512 | EdDSA.
#[export] Instance Algorithm_eq_dec : EqDecision Algorithm.
Proof. solve_decision. Defined.

Record Header := {
  alg : Algorithm;
  typ : option string;
  kid : option string;
}.
#[export] Instance Header_eq_dec : EqDecision Header.
Proof. solve_decision. Defined.

(** The fields of [Validation] the source sets; the others keep the crate's
    defaults ([exp] and [aud] are validated). *)
Record Validation := {
  validation_algorithm : Algorithm;
  validation_issuer : list string;
  validation_audience : list string;
  required_spec_claims : list string;
  validate_nbf : bool;
  leeway : Z;
}.

Inductive KeyAlgorithm := KeyRS256 | KeyES256 | KeyOther (name : string).
#[export] Instance KeyAlgorithm_eq_dec : EqDecision KeyAlgorithm.
Proof. solve_decision. Defined.
Inductive PublicKeyUse := Signature | Encryption | OtherUse (name : string).
#[export] Instance PublicKeyUse_eq_dec : EqDecision PublicKeyUse.
Proof. solve_decision. Defined.

(** A key of a JWK set: the common parameters and the key material. *)
Record Jwk := {
  key_id : option string;
  key_algorithm : option KeyAlgorithm;
  public_key_use : option PublicKeyUse;
  material : string;
}.

Class Jwt := {
  DecodingKey : Type;
  EncodingKey : Type;
  decode_header : string -> option Header;
  (** Signature, required claims, issuer, audience and time validation at the
      current Unix time; the payload as JSON. *)
  decode : string -> DecodingKey -> Validation -> Z -> option Value;
  insecure_decode : string -> option Value;
  from_jwk : Jwk -> option DecodingKey;
  jwk_set_of_value : Value -> option (list Jwk);
  header_new : Algorithm -> Header;
  from_ec_der : string -> EncodingKey;
  from_rsa_der : string -> EncodingKey;
  encode : Header -> Value -> EncodingKey -> option string;
}.

(** The crate's documented behaviour: an assertion whose [exp] lies more than the
    leeway in the past is refused, the claims are those of the token's payload
    whatever the key, and [Header::new] sets the algorithm. *)
Class JwtLaws `{!Jwt} := {
  decode_exp a k v now c e :
    decode a k v now = Some c -> (get_field c "exp" ≫= as_i64) = Some e ->
    (now - leeway v <= e)%Z;
  decode_payload a k v now c : decode a k v now = Some c -> insecure_decode a = Some c;
  header_new_alg a : alg (header_new a) = a;
}.

(** ** sha2, base64 *)
Class Sha2 := { sha256 : string -> list N }.
Class Sha2Laws `{!Sha2} := {
  sha256_length s : length (sha256 s) = 32;
  sha256_bytes s : Forall (fun b => (b < 256)%N) (sha256 s);
}.
Class Base64 := {
  base64_decode : string -> option (list N);          (** [STANDARD.decode] *)
  base64_encode : list N -> string;                   (** [STANDARD.encode] *)
  base64_url_encode : list N -> string;               (** [URL_SAFE_NO_PAD.encode] *)
}.

(** ** p256, rsa *)
Class P256 := {
  SecretKey : Type;
  from_slice : list N -> option SecretKey;
  to_bytes : SecretKey -> list N;
  public_x : SecretKey -> option (list N);
  public_y : SecretKey -> option (list N);
  to_pkcs8_der : SecretKey -> option string;
}.
Class Rsa := {
  RsaPrivateKey : Type;
  from_pkcs8_pem : string -> option RsaPrivateKey;
  to_pkcs8_pem : RsaPrivateKey -> result string string;
  n_bits : RsaPrivateKey -> Z;
  n_bytes : RsaPrivateKey -> list N;
  e_bytes : RsaPrivateKey -> list N;
  rsa_validate : RsaPrivateKey -> bool;
  to_pkcs1_der : RsaPrivateKey -> option string;
}.

(** ** reqwest's [Url] *)
Record Url := {
  scheme : string;
  host_str : option string;
  port_or_known_default : option Z;
  username : string;
  password : option string;
  query : option string;
  fragment : option string;
}.
Class UrlLib := {
  url_parse : string -> option Url;
  url_error : string -> string;          (** the error's text when parsing fails *)
  url_as_str : Url -> string;
}.
(** Clients: a PEM certificate, and building a client that trusts it. *)
Class Reqwest := {
  certificate_from_pem : string -> result string ();
  client_build : option string -> result string ();
}.
(** Certificates in DER, as text: a PEM bundle's certificates, adding one to a
    root store, and a client that also trusts the given ones. *)
Class Rustls := {
  pem_slice_iter : string -> result string (list string);
  root_store_add : string -> result string ();
  certificate_from_der : string -> result string ();
  client_build_with : list string -> result string ();
}.

(** ** chrono

    An instant [DateTime<Utc>] and a [TimeDelta] are numbers of nanoseconds
    (since the Unix epoch), compared and subtracted as such. *)
Definition datetime := Z.
Definition ns_per_s : Z := 1000000000.
(** A [Duration], also in nanoseconds, and its [as_secs]. *)
Definition as_secs (d : Z) : Z := (d / ns_per_s)%Z.
Class Chrono := {
  from_timestamp : Z -> option datetime;            (** [DateTime::from_timestamp(s, 0)] *)
  timestamp_of : datetime -> Z;                     (** [DateTime::timestamp] *)
  num_seconds : Z -> Z;                             (** [TimeDelta::num_seconds] *)
  to_rfc3339_micros : datetime -> string;           (** [to_rfc3339_opts(Micros, true)] *)
  parse_from_rfc3339 : string -> option datetime;
  datetime_from_str : string -> option datetime;    (** the deserialization of [DateTime<Utc>] *)
  datetime_json : datetime -> string;               (** its serialization *)
}.
(** Documented behaviour: whole seconds round down for instants and towards
    zero for durations, and an RFC 3339 text with microseconds keeps the instant
    up to one microsecond. *)
Class ChronoLaws `{!Chrono} := {
  from_timestamp_Some s d : from_timestamp s = Some d -> d = (s * ns_per_s)%Z;
  timestamp_of_spec d : timestamp_of d = (d / ns_per_s)%Z;
  num_seconds_spec d : num_seconds d = Z.quot d ns_per_s;
  rfc3339_round_trip d :
    exists d', parse_from_rfc3339 (to_rfc3339_micros d) = Some d'
      /\ d' = (d / 1000 * 1000)%Z;
}.
(** The instants from 1970 to the end of the year 9999 are representable. *)
Class ChronoRange `{!Chrono} := {
  from_timestamp_range s : (0 <= s <= 253402300799)%Z -> is_Some (from_timestamp s);
}.
