(* ===== verification/State.v ===== *)
(** * Shared state and events

    The state the handlers share (key caches, refresh bookkeeping, counters, the
    clean-up cursor, the readiness cache), the Kubernetes [Lease] resource, and the
    events through which a program meets its environment. *)
From S2P Require Import Prelude Text Prog Libs.

(** ** Kubernetes leases (replay.rs) *)
Record LeaseMetadata := {
  name : string;
  resource_version : option string;
  labels : gmap string string;
}.
Record LeaseSpec := {
  holder_identity : string;
  lease_duration_seconds : Z;   (** an [i32] *)
  acquire_time : string;
  renew_time : string;
}.
Record Lease := {
  api_version : string;
  kind : string;
  metadata : LeaseMetadata;
  spec : LeaseSpec;
}.
#[export] Instance LeaseMetadata_eq_dec : EqDecision LeaseMetadata.
Proof. solve_decision. Defined.
#[export] Instance LeaseSpec_eq_dec : EqDecision LeaseSpec.
Proof. solve_decision. Defined.
#[export] Instance Lease_eq_dec : EqDecision Lease.
Proof. solve_decision. Defined.
Record LeaseListMetadata := { continue_token : string }.
Record LeaseList := {
  items : list Lease;
  list_metadata : LeaseListMetadata;
}.
(** [DeleteOptions], with its precondition. *)
Record DeletePreconditions := { precondition_resource_version : string }.
Record DeleteOptions := {
  delete_api_version : string;
  delete_kind : string;
  preconditions : DeletePreconditions;
}.

Record ReadinessCache := {
  checked_at : option Z;   (** an [Instant], in nanoseconds *)
  ready : bool;
}.

Section state.
Context `{!Jwt}.

(** ** Key caches (github.rs, oidc.rs) *)
Record KeyCache := {
  keys : gmap string DecodingKey;
  fetched_at : Z;
}.
Record RefreshState := {
  last_soft_attempt : Z;
  last_forced_attempt : Z;
  last_forced_failed : bool;
}.
Record OidcKeyCache := {
  oidc_keys : gmap string DecodingKey;
  oidc_fetched_at : Z;
}.
Record OidcRefreshState := {
  oidc_last_soft_attempt : Z;
  oidc_last_forced_attempt : Z;
}.
End state.

(** ** Counters

    The [AtomicU64] fields of the four metrics structures. *)
Inductive service := GithubExchange | OidcExchange | WorkloadExchange | BrowserExchange.
Inductive outcome := Requests | Issued | Denied | Replayed | Errors.
Inductive counter :=
| Count (s : service) (o : outcome)
| DurationBucket (i : nat)
| DurationCount
| DurationSumMicros
| RefreshFailures.
#[export] Instance service_eq_dec : EqDecision service.
Proof. solve_decision. Defined.
#[export] Instance outcome_eq_dec : EqDecision outcome.
Proof. solve_decision. Defined.
#[export] Instance counter_eq_dec : EqDecision counter.
Proof. solve_decision. Defined.

Inductive mutex :=
| GithubRefresh
| OidcRefresh (issuer : string)
| ReadinessLock.

(** The structured log record of [info!] and [warn!]: the event name and the
    fields, in order. *)
Record log_record := {
  log_event : string;
  log_fields : list (string * string);
}.

(** ** HTTP answers *)
(** A [reqwest] error: its own message and those of its causes. *)
Record error_chain := { error_text : string; error_causes : list string }.
(** A response of the GitHub key endpoint: the error [error_for_status] yields,
    if any, and the result of decoding the body as a JWK set. *)
Record JwksResponse := {
  status_error : option error_chain;
  jwks_body : result error_chain (list Jwk);
}.
(** A streamed response: whether [error_for_status] accepts it, its declared
    length and the chunks as they arrive. *)
Record StreamResponse := {
  status_ok : bool;
  content_length : option Z;
  chunks : list (option string);
}.

Section events.
Context `{!Jwt}.

(** The shared cells, by the type of their content. *)
Inductive cell : Type -> Type :=
| GithubCache : cell KeyCache
| GithubRefreshState : cell RefreshState
| OidcCache (issuer : string) : cell OidcKeyCache
| OidcRefreshCell (issuer : string) : cell OidcRefreshState
| CleanupContinue : cell (option string)
| Readiness : cell ReadinessCache
| CounterCell (c : counter) : cell Z.

Inductive event : Type -> Type :=
(* clocks and randomness *)
| UtcNow : event datetime
| CurrentTimestamp : event Z           (** [jsonwebtoken::get_current_timestamp] *)
| InstantNow : event Z
| NewUuid : event string
(* files *)
| ReadFile (path : string) : event (result string string)
(* shared memory *)
| Load {X} (c : cell X) : event X
| Store {X} (c : cell X) (x : X) : event ()
| FetchAdd (c : counter) (n : Z) : event ()
| Acquire (m : mutex) : event ()
| Release (m : mutex) : event ()
(* logs *)
| Log (r : log_record) : event ()
(* the Kubernetes API: [None] when the request could not be sent or timed out,
   otherwise the status and, where the source reads it, the decoded body *)
| LeasePost (credential : string) (lease : Lease) : event (option Z)
| LeaseGet (credential name : string) : event (option (Z * option Lease))
| LeasePut (credential name : string) (lease : Lease) : event (option Z)
| LeaseDelete (credential name : string) (options : DeleteOptions) : event (option Z)
| LeaseGetPage (credential : string) (query : list (string * string)) :
    event (option (Z * option LeaseList))
| TimeoutElapsed : event bool
| Sleep (ns : Z) : event ()
| TokenReviewPost (credential : string) (body : Value) : event (option (bool * option Value))
(* key endpoints *)
| JwksGet (url : string) : event (result error_chain JwksResponse)
| StreamGet (url : string) : event (option StreamResponse).

(** The events that can change a Lease, and those that move a service metric. *)
Definition lease_write {X} (e : event X) : bool :=
  match e with LeasePost _ _ | LeasePut _ _ _ | LeaseDelete _ _ _ => true | _ => false end.
Definition service_metric {X} (e : event X) : bool :=
  match e with
  | FetchAdd RefreshFailures _ => false
  | FetchAdd _ _ => true
  | _ => false
  end.
(** The events of the refresh of the GitHub key cache: its mutex, what the mutex
    protects, and the request. *)
Definition refresh_event {X} (e : event X) : bool :=
  match e with
  | Acquire GithubRefresh | Release GithubRefresh | JwksGet _ => true
  | Load c => match c with GithubRefreshState => true | _ => false end
  | Store c _ => match c with GithubRefreshState => true | _ => false end
  | _ => false
  end.
End events.

Abbreviation io := (prog event).
Abbreviation obs_io := (obs event).
Abbreviation trace_io := (trace event).

Section helpers.
Context `{!Jwt}.
Definition utc_now : io datetime := trigger UtcNow.
Definition get_current_timestamp : io Z := trigger CurrentTimestamp.
Definition load {X} (c : cell X) : io X := trigger (Load c).
Definition store {X} (c : cell X) (x : X) : io () := trigger (Store c x).
Definition count (s : service) (o : outcome) : io () := trigger (FetchAdd (Count s o) 1).
Definition log (ev : string) (fields : list (string * string)) : io () :=
  trigger (Log {| log_event := ev; log_fields := fields |}).
(** A guard held while the body runs, released on every way out. *)
Definition with_lock {A} (m : mutex) (body : io A) : io A :=
  _ ← trigger (Acquire m); a ← body; _ ← trigger (Release m); mret a.
End helpers.
