(* ===== verification/Concrete.v ===== *)
(** * Concrete third-party code

    Small executable instances of the classes of [Libs], that satisfy their
    laws.  The witnesses evaluate the model with them; no theorem about the
    program depends on them.  Tokens and documents are given by tables: a token
    stands for the key that signed it, its header and its claims. *)
From Stdlib Require Import Ascii.
From S2P Require Import Prelude Text Libs.

Fixpoint bytes_of (s : string) : list N :=
  match s with "" => [] | String a s => N_of_ascii a :: bytes_of s end.
Lemma bytes_of_bound s : Forall (fun b => (b < 256)%N) (bytes_of s).
Proof.
  induction s as [|a s IH]; cbn; constructor; [|done].
  destruct a as [[] [] [] [] [] [] [] []]; vm_compute; done.
Qed.

(** The first 32 bytes, padded with zeros. *)
#[export] Instance concrete_sha2 : Sha2 := {|
  sha256 s := take 32 (bytes_of s ++ replicate 32 0%N);
|}.
#[export] Instance concrete_sha2_laws : Sha2Laws.
Proof.
  split; intros s.
  - change (length (take 32 (bytes_of s ++ replicate 32 0%N)) = 32). rewrite length_take, length_app, length_replicate. lia.
  - change (Forall (fun b => (b < 256)%N) (take 32 (bytes_of s ++ replicate 32 0%N))). apply Forall_take,
 Forall_app. split; [apply bytes_of_bound|].
    apply Forall_replicate. done.
Qed.

Definition parse_Z (s : string) : option Z :=
  match strip_prefix "-" s with
  | Some r => Z.opp ∘ Z.of_N <$> digits_value 0 r
  | None => Z.of_N <$> digits_value 0 s
  end.
Lemma parse_Z_pretty (z : Z) : parse_Z (pretty z) = Some z.
Proof.
  unfold parse_Z. destruct z as [|p|p]; [done| |].
  - change (pretty (Z.pos p)) with (pretty (N.pos p)).
    destruct (strip_prefix "-" (pretty (N.pos p))) as [r|] eqn:Hr.
    + apply strip_prefix_Some in Hr. pose proof (pretty_N_digits (N.pos p)) as Hd.
      by rewrite Hr in Hd.
    + by rewrite digits_value_pretty.
  - change (pretty (Z.neg p)) with ("-" +:+ pretty (N.pos p)).
    destruct (strip_prefix "-" ("-" +:+ pretty (N.pos p))) as [r|] eqn:Hr.
    + apply strip_prefix_Some in Hr. apply (inj (String.append "-")) in Hr as <-.
      by rewrite digits_value_pretty.
    + by cbn in Hr.
Qed.

#[export] Instance concrete_chrono : Chrono := {|
  from_timestamp s := Some (s * ns_per_s)%Z;
  timestamp_of d := (d / ns_per_s)%Z;
  num_seconds d := Z.quot d ns_per_s;
  to_rfc3339_micros d := pretty (d / 1000)%Z;
  parse_from_rfc3339 s := (fun q => (q * 1000)%Z) <$> parse_Z s;
  datetime_from_str := parse_Z;
  datetime_json d := pretty d;
|}.
#[export] Instance concrete_chrono_laws : ChronoLaws.
Proof.
  split; cbn -[parse_Z pretty]; [naive_solver|done|done|].
  intros d. rewrite parse_Z_pretty. cbn. eauto.
Qed.

#[export] Instance concrete_chrono_range : ChronoRange.
Proof. split. intros s _. by eexists. Qed.

#[export] Instance concrete_url : UrlLib := {|
  url_parse s := match strip_prefix "https://" s with
                 | Some rest =>
                     Some {| scheme := "https";
                             host_str := Some (match split_once "/" rest with
                                               | Some (host, _) => host
                                               | None => rest
                                               end);
                             port_or_known_default := Some 443%Z; username := "";
                             password := None; query := None; fragment := None |}
                 | None => None
                 end;
  url_error _ := "relative URL without a base";
  url_as_str u := scheme u +:+ "://" +:+ default "" (host_str u);
|}.
#[export] Instance concrete_reqwest : Reqwest := {|
  certificate_from_pem _ := Ok ();
  client_build _ := Ok ();
|}.
#[export] Instance concrete_rustls : Rustls := {|
  pem_slice_iter s := if is_empty s then Ok [] else Ok [s];
  root_store_add _ := Ok ();
  certificate_from_der _ := Ok ();
  client_build_with _ := Ok ();
|}.
#[export] Instance concrete_base64 : Base64 := {|
  base64_decode s := Some (bytes_of s);
  base64_encode l := of_bytes l;
  base64_url_encode := hex;
|}.

#[export] Instance concrete_p256 : P256 := {|
  SecretKey := list N;
  from_slice l := if forallb (fun b => bool_decide (b = 0)%N) l then None else Some l;
  to_bytes k := k;
  public_x k := Some (take 32 (k ++ k));
  public_y k := Some (reverse k);
  to_pkcs8_der k := Some (hex k);
|}.
#[export] Instance concrete_rsa : Rsa := {|
  RsaPrivateKey := string;
  from_pkcs8_pem s := if is_empty s then None else Some s;
  to_pkcs8_pem s := Ok s;
  n_bits s := 3072%Z;
  n_bytes s := bytes_of s;
  e_bytes s := [1; 0; 1]%N;
  rsa_validate s := true;
  to_pkcs1_der s := Some s;
|}.

(** Tokens: the verification key, the header and the claims. *)
Record Token := { signed_by : string; token_header : Header; token_claims : Value }.
Definition audience_matches (wanted : list string) (v : option Value) : bool :=
  match v with
  | Some (VString s) => bool_decide (s ∈ wanted)
  | Some (VArray l) => existsb (fun x => match as_str x with
                                         | Some s => bool_decide (s ∈ wanted)
                                         | None => false
                                         end) l
  | _ => false
  end.
Definition concrete_decode (tokens : gmap string Token) (s key : string) (v : Validation) (now : Z) :
  option Value :=
  match tokens !! s with
  | None => None
  | Some t =>
      let c := token_claims t in
      if bool_decide (signed_by t = key) && bool_decide (alg (token_header t) = validation_algorithm v)
         && match get_field c "exp" ≫= as_i64 with
            | Some e => bool_decide (now - leeway v <= e)%Z
            | None => false
            end
         && audience_matches (validation_audience v) (get_field c "aud")
         && audience_matches (validation_issuer v) (get_field c "iss")
      then Some c else None
  end.
(** A key set is an array of key IDs, materials and whether the key is for ES256. *)
Definition concrete_jwk (v : Value) : option Jwk :=
  match v with
  | VArray [VString kid; VString material; VBool es] =>
      Some {| key_id := Some kid; key_algorithm := Some (if es then KeyES256 else KeyRS256);
              public_key_use := Some Signature; material := material |}
  | _ => None
  end.
Definition concrete_jwt (tokens : gmap string Token) : Jwt := {|
  DecodingKey := string;
  EncodingKey := string;
  decode_header s := token_header <$> tokens !! s;
  decode := concrete_decode tokens;
  insecure_decode s := token_claims <$> tokens !! s;
  from_jwk k := if is_empty (material k) then None else Some (material k);
  jwk_set_of_value v := match v with VArray l => mapM concrete_jwk l | _ => None end;
  header_new a := {| alg := a; typ := Some "JWT"; kid := None |};
  from_ec_der d := d;
  from_rsa_der d := d;
  encode h v k := Some ("token signed with " +:+ k);
|}.
Lemma concrete_decode_Some tokens s k v now c :
  concrete_decode tokens s k v now = Some c -> exists t, tokens !! s = Some t /\ c = token_claims t.
Proof. unfold concrete_decode. destruct (tokens !! s) as [t|]; [|done]. destruct (_ && _); naive_solver. Qed.
Lemma concrete_jwt_laws tokens : @JwtLaws (concrete_jwt tokens).
Proof.
  split; cbn; [| |done].
  - intros s k v now c e. unfold concrete_decode.
    destruct (tokens !! s) as [t|]; [|done]. destruct (_ && _) eqn:G; [|done].
    intros [= <-] He. result_simpl.
    match goal with H : match _ with _ => _ end = true |- _ => rewrite He in H; by result_simpl end.
  - intros s k v now c (t & -> & ->)%concrete_decode_Some. done.
Qed.

(** Documents, by their text. *)
Definition concrete_serde (documents : gmap string Value) : SerdeJson := {|
  parse_json s := documents !! s;
  to_string_pretty v := "document";
  json_error _ := "expected value at line 1 column 1";
  value_error _ := "invalid type";
|}.
