(* ===== verification/Constants.v ===== *)
(** * Contract constants (lib.rs) *)
From S2P Require Import Prelude.

Definition GITHUB_ISSUER : string := "https://token.actions.githubusercontent.com".
Definition POLICY_VERSION : string := "github-oidc-exchange.apelogic.io/v5".
Definition SOURCE_AUTH_POLICY_VERSION : string := "github-oidc-exchange.apelogic.io/v6".
Definition KEYRING_VERSION : string := "github-oidc-exchange.apelogic.io/keyring-v1".
Definition RSA_KEYRING_VERSION : string := "github-oidc-exchange.apelogic.io/rsa-keyring-v1".
Definition WORKLOAD_POLICY_VERSION : string := "github-oidc-exchange.apelogic.io/workload-policy-v1".
Definition IDENTITY_CONTRACT : string := "steward-task-v2".
Definition SOURCE_AUTH_IDENTITY_CONTRACT : string := "steward-task-v3".
Definition SOURCE_PROVENANCE_CONTRACT : string := "steward.source-provenance/v1".
Definition WORKLOAD_IDENTITY_CONTRACT : string := "openshell-workload-v1".
Definition IDENTITY_BROWSER_HOP1_CONTRACT : string := "steward-browser-mcp-hop1-v1".
