(* ===== verification/GithubClaims.v ===== *)
(** * GitHub assertion claims (github.rs)

    The claim structure, its deserialization (with the [numeric_string] codec of
    [run_attempt] and the untagged [Audience]) and the pure validators [verify]
    applies to it, down to the consistency of the signed provenance. *)
From Stdlib Require Import Ascii.
From S2P Require Import Prelude Text Libs Constants.

Inductive Audience :=
| One (value : string)
| Many (values : list string)
| Missing.

Record GitHubClaims := {
  iss : string;
  sub : string;
  aud : Audience;
  exp : Z;
  iat : Z;
  nbf : Z;
  jti : string;
  actor_id : string;
  actor : string;
  repository : string;
  repository_id : string;
  repository_owner_id : string;
  sha : string;
  run_id : string;
  run_attempt : Z;     (** a [u32] *)
  workflow_ref : string;
  workflow_sha : string;
  job_workflow_ref : string;
  job_workflow_sha : string;
  event_name : string;
  git_ref : string;
}.
(** [GitHubClaims::default()]. *)
Definition default_claims : GitHubClaims := {|
  iss := ""; sub := ""; aud := Missing; exp := 0; iat := 0; nbf := 0; jti := "";
  actor_id := ""; actor := ""; repository := ""; repository_id := "";
  repository_owner_id := ""; sha := ""; run_id := ""; run_attempt := 0;
  workflow_ref := ""; workflow_sha := ""; job_workflow_ref := "";
  job_workflow_sha := ""; event_name := ""; git_ref := "" |}.

(** [Audience::is_exactly]. *)
Definition is_exactly (a : Audience) (expected : string) : bool :=
  match a with
  | One value => bool_decide (value = expected)
  | Many values => bool_decide (values = [expected])
  | Missing => false
  end.

(** ** Deserialization *)
(** [numeric_string::serialize] and [numeric_string::deserialize]. *)
Definition numeric_string_serialize (value : Z) : Value := VString (decimal value).
Definition u32_max : Z := 4294967295.
Definition numeric_string_deserialize (v : Value) : option Z :=
  value ← as_str v;
  if is_empty value
     || bool_decide (10 < len value)
     || negb (bytes_all is_ascii_digit value)
     || (bool_decide (1 < len value) && starts_with value "0")
  then None
  else parse_uint u32_max value.

(** An untagged enum tries its variants in order. *)
Definition audience_deserialize (v : Value) : option Audience :=
  match v with
  | VString s => Some (One s)
  | VArray l => Many <$> mapM as_str l
  | Null => Some Missing
  | _ => None
  end.

(** The derived [Deserialize]: every field is required, unknown ones are
    ignored. *)
Definition github_claims_deserialize (v : Value) : option GitHubClaims :=
  let str n := get_field v n ≫= as_str in
  let int n := get_field v n ≫= as_i64 in
  iss ← str "iss"; sub ← str "sub";
  aud ← get_field v "aud" ≫= audience_deserialize;
  exp ← int "exp"; iat ← int "iat"; nbf ← int "nbf"; jti ← str "jti";
  actor_id ← str "actor_id"; actor ← str "actor";
  repository ← str "repository"; repository_id ← str "repository_id";
  repository_owner_id ← str "repository_owner_id";
  sha ← str "sha"; run_id ← str "run_id";
  run_attempt ← get_field v "run_attempt" ≫= numeric_string_deserialize;
  workflow_ref ← str "workflow_ref"; workflow_sha ← str "workflow_sha";
  job_workflow_ref ← str "job_workflow_ref"; job_workflow_sha ← str "job_workflow_sha";
  event_name ← str "event_name"; git_ref ← str "ref";
  Some {| iss := iss; sub := sub; aud := aud; exp := exp; iat := iat; nbf := nbf;
          jti := jti; actor_id := actor_id; actor := actor; repository := repository;
          repository_id := repository_id; repository_owner_id := repository_owner_id;
          sha := sha; run_id := run_id; run_attempt := run_attempt;
          workflow_ref := workflow_ref; workflow_sha := workflow_sha;
          job_workflow_ref := job_workflow_ref; job_workflow_sha := job_workflow_sha;
          event_name := event_name; git_ref := git_ref |}.

(** ** Validators *)
Definition numeric_identifier (value : string) : bool :=
  negb (is_empty value)
  && bool_decide (len value <= 20)
  && bytes_all is_ascii_digit value
  && bool_decide (value <> "0")
  && negb (starts_with value "0").

Definition bounded_ascii (value : string) (maximum : nat) : bool :=
  negb (is_empty value) && bool_decide (len value <= maximum) && bytes_all is_ascii_graphic value.

Definition slug_byte (a : ascii) : bool :=
  is_ascii_alphanumeric a || bool_decide (a = "-"%char \/ a = "_"%char \/ a = "."%char).

Definition github_slug (value : string) : bool :=
  negb (is_empty value)
  && bool_decide (len value <= 100)
  && bool_decide (value <> ".")
  && bool_decide (value <> "..")
  && bytes_all slug_byte value.

Definition github_repository (value : string) : bool :=
  let components := split "/" value in
  let owner := default "" (components !! 0) in
  let repository := default "" (components !! 1) in
  bool_decide (components !! 2 = None)
  && github_slug owner
  && github_slug repository
  && bool_decide (repository <> ".")
  && bool_decide (repository <> "..").

Definition git_sha1 (value : string) : bool :=
  bool_decide (len value = 40) && bytes_all is_lower_hex value.

Definition ref_byte_forbidden (a : ascii) : bool :=
  bool_decide (a ∈ ["~"; "^"; ":"; "?"; "*"; "["]%char).

Definition valid_git_ref (value : string) : bool :=
  bounded_ascii value 2048
  && existsb (fun prefix => match strip_prefix prefix value with
                            | Some rest => negb (is_empty rest)
                            | None => false
                            end) ["refs/heads/"; "refs/tags/"; "refs/pull/"]
  && negb (ends_with value "/")
  && negb (ends_with value ".")
  && negb (contains value "..")
  && negb (contains value "@{")
  && negb (contains value "//")
  && negb (contains_char value "\"%char)
  && negb (bytes_any ref_byte_forbidden value)
  && forallb (fun component => negb (starts_with component ".")
                               && negb (ends_with component ".lock")) (split "/" value).

Definition workflow_reference (value : string) (expected_repository : option string)
    (resolved_sha : string) : bool :=
  if negb (bounded_ascii value 2048) then false
  else
    match split_once "/.github/workflows/" value with
    | None => false
    | Some (repository, workflow_and_ref) =>
        if negb (github_repository repository)
           || match expected_repository with
              | Some expected => bool_decide (expected <> repository)
              | None => false
              end
        then false
        else
          match rsplit_once "@" workflow_and_ref with
          | None => false
          | Some (workflow, git_ref) =>
              negb (is_empty workflow)
              && bool_decide (len workflow <= 255)
              && (ends_with workflow ".yml" || ends_with workflow ".yaml")
              && bytes_all slug_byte workflow
              && (valid_git_ref git_ref
                  || (git_sha1 git_ref && bool_decide (git_ref = resolved_sha)))
          end
    end.

(** [or_else] on options. *)
Definition or_else {A} (x y : option A) : option A :=
  match x with Some a => Some a | None => y end.

Definition provenance_consistent (claims : GitHubClaims) : bool :=
  match split_once "/" (repository claims) with
  | None => false
  | Some (owner, repo) =>
      let standard_prefix := "repo:" +:+ repository claims +:+ ":" in
      let numeric_prefix :=
        "repo:" +:+ owner +:+ "@" +:+ repository_owner_id claims +:+ "/" +:+ repo
          +:+ "@" +:+ repository_id claims +:+ ":" in
      let suffix := or_else (strip_prefix standard_prefix (sub claims))
                            (strip_prefix numeric_prefix (sub claims)) in
      match suffix with
      | None => false
      | Some suffix =>
          if negb (bounded_ascii suffix 1024) then false
          else
            let subject_matches_ref :=
              match strip_prefix "ref:" suffix with
              | Some subject_ref => bool_decide (subject_ref = git_ref claims)
              | None => true
              end in
            let pull_request_matches_ref :=
              bool_decide (suffix <> "pull_request")
              || (starts_with (git_ref claims) "refs/pull/" && ends_with (git_ref claims) "/merge") in
            subject_matches_ref
            && pull_request_matches_ref
            && workflow_reference (workflow_ref claims) (Some (repository claims))
                 (workflow_sha claims)
            && workflow_reference (job_workflow_ref claims) None (job_workflow_sha claims)
      end
  end.

(** The final guard of [verify]: the disjunction of its early-return
    conditions, in order, at the time [now] (Unix seconds). *)
Definition claims_rejected (audience : string) (now lifetime : Z) (claims : GitHubClaims) : bool :=
  bool_decide (iss claims <> GITHUB_ISSUER)
  || negb (is_exactly (aud claims) audience)
  || bool_decide (lifetime <= 0)%Z
  || bool_decide (lifetime > 600)%Z
  || bool_decide (iat claims > i64_add now 30)%Z
  || bool_decide (nbf claims > iat claims)%Z
  || is_empty (sub claims)
  || is_empty (jti claims)
  || negb (numeric_identifier (actor_id claims))
  || negb (bounded_ascii (actor claims) 128)
  || negb (github_repository (repository claims))
  || negb (numeric_identifier (repository_id claims))
  || negb (numeric_identifier (repository_owner_id claims))
  || negb (git_sha1 (sha claims))
  || negb (numeric_identifier (run_id claims))
  || bool_decide (run_attempt claims = 0)%Z
  || negb (bounded_ascii (workflow_ref claims) 2048)
  || negb (git_sha1 (workflow_sha claims))
  || negb (bounded_ascii (job_workflow_ref claims) 2048)
  || negb (git_sha1 (job_workflow_sha claims))
  || negb (bounded_ascii (event_name claims) 255)
  || negb (valid_git_ref (git_ref claims))
  || negb (provenance_consistent claims).

(** ** The [run_attempt] codec *)
Lemma parse_uint_digits max s z :
  bytes_all is_ascii_digit s = true -> parse_uint max s = Some z ->
  s <> "" /\ digits_value 0 s = Some (Z.to_N z) /\ (0 <= z <= max)%Z.
Proof.
  intros Hd Hp. pose proof (parse_uint_bound _ _ _ Hp) as Hb. unfold parse_uint in Hp.
  destruct (strip_prefix "+" s) as [r|] eqn:Hpre.
  { apply strip_prefix_Some in Hpre as ->. by cbn in Hd. }
  cbn [default] in Hp. destruct (is_empty s) eqn:He; [done|]. apply is_empty_false in He.
  destruct (digits_value 0 s) eqn:Hv; [|done]. case_bool_decide; [|done].
  simplify_eq. by rewrite N2Z.id.
Qed.

(** The serialized form has at most ten digits. *)
Lemma pretty_len_u32 (n : N) : (Z.of_N n <= u32_max)%Z -> len (pretty n) <= 10.
Proof.
  intros Hn. unfold u32_max in Hn.
  assert (forall k m s, (m < 10 ^ N.of_nat k)%N -> len (pretty_N_go m s) <= k + len s) as G.
  { intros k. induction k as [|k IH]; intros m s Hm.
    - assert (m = 0%N) as -> by (cbn in Hm; lia). by rewrite pretty_N_go_0.
    - destruct (decide (0 < m)%N) as [Hp|Hp]; [|assert (m = 0%N) as -> by lia; rewrite pretty_N_go_0; lia].
      rewrite pretty_N_go_step by done. etrans; [apply IH|unfold len; cbn; lia].
      rewrite Nat2N.inj_succ, N.pow_succ_r' in Hm.
      apply N.Div0.div_lt_upper_bound. lia. }
  unfold pretty, pretty_N. case_decide; [cbn; lia|].
  etrans; [apply (G 10)|unfold len; cbn; lia]. cbn. lia.
Qed.
Lemma pretty_no_leading_zero (n : N) : n <> 0%N -> starts_with (pretty n) "0" = false.
Proof.
  intros Hn. destruct (starts_with (pretty n) "0") eqn:E; [|done]. exfalso.
  apply starts_with_true in E as [r Hr].
  assert (forall m s, (0 < m)%N -> forall r', pretty_N_go m s <> "0" +:+ r') as G.
  { intros m. induction (N.lt_wf_0 m) as [m _ IH]. intros s Hm r'.
    rewrite pretty_N_go_step by done.
    destruct (decide (0 < m `div` 10)%N) as [Hd|Hd]; [apply IH; [by apply N.div_lt|done]|].
    apply N.nlt_ge, N.le_0_r in Hd. rewrite Hd, pretty_N_go_0, app_cons, app_nil_l.
    assert (m < 10)%N as Hlt by (by apply N.div_small_iff).

    rewrite N.mod_small by done. intros [= Hc _].
    assert (m = 0)%N; [|lia]. by apply (pretty_N_char_inj m 0); [..|rewrite Hc]. }
  unfold pretty, pretty_N in Hr. rewrite decide_False in Hr by done.
  by eapply (G n "" ltac:(lia)).
Qed.

(** Every [u32] survives serialization and deserialization. *)
Theorem numeric_string_round_trip (n : Z) :
  (0 <= n <= u32_max)%Z -> numeric_string_deserialize (numeric_string_serialize n) = Some n.
Proof.
  intros [H0 Hm]. unfold numeric_string_serialize, numeric_string_deserialize. cbn [as_str mbind option_bind].
  rewrite decimal_of_nonneg by done. set (m := Z.to_N n).
  assert (Z.of_N m = n) as Hz by lia.
  destruct (pretty_N_nonempty m) as (a & s & Es).
  assert (is_empty (pretty m) = false) as -> by (apply is_empty_false; by rewrite Es).
  rewrite bool_decide_false by (pose proof (pretty_len_u32 m ltac:(lia)); lia).
  rewrite pretty_N_digits. cbn [negb orb].
  assert (bool_decide (1 < len (pretty m)) && starts_with (pretty m) "0" = false) as ->.
  { destruct (decide (m = 0%N)) as [->|Hne]; [done|].
    rewrite (pretty_no_leading_zero m Hne). apply andb_false_r. }
  rewrite parse_uint_pretty by lia. by rewrite Hz.
Qed.

(** Deserialization accepts only the canonical form. *)
Lemma numeric_string_canonical v n :
  numeric_string_deserialize v = Some n -> v = numeric_string_serialize n /\ (0 <= n <= u32_max)%Z.
Proof.
  unfold numeric_string_deserialize, numeric_string_serialize.
  destruct v as [| | |s| |]; cbn [as_str mbind option_bind]; try done.
  destruct (_ || _) eqn:G; [done|]. intros Hp.
  apply orb_false_elim in G as [G Hlead]. apply orb_false_elim in G as [G Hdigits].
  apply orb_false_elim in G as [Hempty _].
  apply is_empty_false in Hempty. apply negb_false_iff in Hdigits.
  apply parse_uint_digits in Hp as (_ & Hv & Hb); [|done].
  split; [|done]. f_equal. rewrite decimal_of_nonneg by lia.
  destruct (starts_with s "0") eqn:Hz.
  - apply andb_false_iff in Hlead as [H0|]; [|done]. apply bool_decide_eq_false in H0.
    destruct s as [|a [|b s]]; [done| |unfold len in H0; cbn in H0; lia].
    apply starts_with_true in Hz as [r Hr]. rewrite app_cons, app_nil_l in Hr. simplify_eq.
    change (Some 0%N = Some (Z.to_N n)) in Hv. by injection Hv as <-.

  - by apply canonical_decimal.
Qed.

(** ** What the validators accept *)
Definition canonical_id (v : string) : Prop :=
  exists n : N, (0 < n)%N /\ v = pretty n /\ len v <= 20.
Lemma numeric_identifier_spec v : numeric_identifier v = true <-> canonical_id v.
Proof.
  unfold numeric_identifier, canonical_id. split.
  - rewrite !andb_true_iff, !negb_true_iff, is_empty_false, !bool_decide_eq_true.
    intros ((((Hne & Hlen) & Hd) & _) & Hz).
    assert (exists n, digits_value 0 v = Some n) as [n Hn].
    { clear -Hd. generalize 0%N as acc. induction v as [|a v IH]; intros acc; cbn; [eauto|].
      cbn in Hd. apply andb_prop in Hd as [-> Hd]. by apply IH. }
    apply canonical_decimal in Hn as [Hv Hn]; [|done..]. eauto.
  - intros (n & Hn & -> & Hl). destruct (pretty_N_nonempty n) as (a & s & E).
    rewrite pretty_N_digits, pretty_no_leading_zero by lia.
    assert (is_empty (pretty n) = false) as -> by (apply is_empty_false; by rewrite E).
    rewrite !bool_decide_true; [done| |done].
    intros H0. pose proof (digits_value_pretty n) as Hv. rewrite H0 in Hv.
    change (Some 0%N = Some n) in Hv. injection Hv as <-. lia.

Qed.

Lemma bounded_ascii_spec v n :
  bounded_ascii v n = true <-> 1 <= len v <= n /\ bytes_all is_ascii_graphic v = true.
Proof.
  unfold bounded_ascii. rewrite !andb_true_iff, negb_true_iff, is_empty_false, bool_decide_eq_true.
  rewrite <- len_0. naive_solver lia.
Qed.

Lemma github_repository_spec v :
  github_repository v = true <->
  exists owner repo, v = owner +:+ "/" +:+ repo
    /\ github_slug owner = true /\ github_slug repo = true.
Proof.
  unfold github_repository. split.
  - intros H. result_simpl.
    pose proof (join_split "/" v) as Hj. destruct (split "/" v) as [|o [|r [|x l]]]; cbn in *; try done.
    exists o, r. done.
  - intros (o & r & -> & Ho & Hr).
    assert (forall s, github_slug s = true -> contains_char s "/" = false) as Hn.
    { intros s Hs. unfold github_slug in Hs. result_simpl. by eapply bytes_all_no_char; [|done]. }
    change ("/" +:+ r) with (String "/" r).
    rewrite split_app, split_no_occurrence by by apply Hn.
    cbn. rewrite Ho, Hr. unfold github_slug in Hr. result_simpl.
    by rewrite !bool_decide_true by done.

Qed.

Lemma git_sha1_spec v :
  git_sha1 v = true <-> len v = 40 /\ bytes_all is_lower_hex v = true.
Proof. unfold git_sha1. by rewrite andb_true_iff, bool_decide_eq_true. Qed.

(** The claims [verify] lets through, as one proposition. *)
Record accepted (audience : string) (now : Z) (c : GitHubClaims) : Prop := {
  accepted_issuer : iss c = GITHUB_ISSUER;
  accepted_audience : aud c = One audience \/ aud c = Many [audience];
  accepted_lifetime : (0 < exp c - iat c <= 600)%Z;
  accepted_iat : (iat c <= i64_add now 30)%Z;
  accepted_nbf : (nbf c <= iat c)%Z;
  accepted_jti : jti c <> "";
  accepted_sub : sub c <> "";
  accepted_actor_id : canonical_id (actor_id c);
  accepted_actor : 1 <= len (actor c) <= 128 /\ bytes_all is_ascii_graphic (actor c) = true;
  accepted_repository : exists owner repo : string, repository c = owner +:+ "/" +:+ repo
      /\ github_slug owner = true /\ github_slug repo = true;
  accepted_repository_id : canonical_id (repository_id c);
  accepted_owner_id : canonical_id (repository_owner_id c);
  accepted_run_id : canonical_id (run_id c);
  accepted_attempt : run_attempt c <> 0%Z;
  accepted_shas : Forall (fun s => len s = 40 /\ bytes_all is_lower_hex s = true)
                    [sha c; workflow_sha c; job_workflow_sha c];
  accepted_refs : bounded_ascii (workflow_ref c) 2048 = true
      /\ bounded_ascii (job_workflow_ref c) 2048 = true;
  accepted_event : bounded_ascii (event_name c) 255 = true;
  accepted_git_ref : valid_git_ref (git_ref c) = true;
  accepted_provenance : provenance_consistent c = true;
}.

Lemma is_exactly_spec a e : is_exactly a e = true <-> a = One e \/ a = Many [e].
Proof.
  destruct a; cbn; rewrite ?bool_decide_eq_true; naive_solver.
Qed.

Lemma claims_accepted audience now lifetime c :
  i64_checked_sub (exp c) (iat c) = Some lifetime ->
  claims_rejected audience now lifetime c = false <-> accepted audience now c.
Proof.
  intros [-> _]%i64_checked_sub_Some. unfold claims_rejected. split.
  2:{ intros [A1 A2 A3 A4 A5 A6 A6' A7 A8 A9 A10 A11 A12 A13 A14 A15 A16 A17 A18].
      apply is_exactly_spec in A2. apply numeric_identifier_spec in A7, A10, A11, A12.
      apply github_repository_spec in A9. apply bounded_ascii_spec in A8.
      apply Forall_cons in A14 as [S1%git_sha1_spec [S2%git_sha1_spec [S3%git_sha1_spec _]%Forall_cons]%Forall_cons].
      apply is_empty_false in A6, A6'. destruct A15 as [R1 R2].
      rewrite A2, A7, A8, A9, A10, A11, A12, S1, S2, S3, R1, R2, A16, A17, A18, A6, A6'.
      rewrite !bool_decide_false by (first [lia|naive_solver]). done. }
  intros H. result_simpl.
  repeat match goal with
         | H : is_exactly _ _ = true |- _ => apply is_exactly_spec in H
         | H : bounded_ascii (actor _) _ = true |- _ => apply bounded_ascii_spec in H

         | H : numeric_identifier _ = true |- _ => apply numeric_identifier_spec in H
         | H : github_repository _ = true |- _ => apply github_repository_spec in H
         | H : git_sha1 _ = true |- _ => apply git_sha1_spec in H
         | H : is_empty _ = false |- _ => apply is_empty_false in H
         end.
  split; eauto; try lia. by apply dec_stable.
Qed.



(** ** The signed subject determines the repository *)
Lemma slug_no_colon v : github_slug v = true -> contains_char v ":" = false.
Proof. unfold github_slug. intros H. result_simpl. by eapply bytes_all_no_char; [|done]. Qed.
Lemma canonical_id_no_colon v : canonical_id v -> contains_char v ":" = false.
Proof. intros (n & _ & -> & _). eapply bytes_all_no_char, pretty_N_digits. done. Qed.

(** The subject either names the repository or its numeric IDs. *)
Definition subject_repository (c : GitHubClaims) (r : string) : Prop :=
  r = repository c
  \/ exists owner repo : string, repository c = owner +:+ "/" +:+ repo
       /\ r = owner +:+ "@" +:+ repository_owner_id c +:+ "/" +:+ repo +:+ "@" +:+ repository_id c.

Lemma provenance_subject c :
  provenance_consistent c = true ->
  exists r suffix, sub c = "repo:" +:+ r +:+ ":" +:+ suffix /\ subject_repository c r
    /\ bounded_ascii suffix 1024 = true
    /\ (forall g, suffix = "ref:" +:+ g -> g = git_ref c)
    /\ (suffix = "pull_request" -> exists n, git_ref c = "refs/pull/" +:+ n /\ ends_with (git_ref c) "/merge" = true).
Proof.
  unfold provenance_consistent. destruct (split_once "/" (repository c)) as [[owner repo]|] eqn:Hs; [|done].
  apply split_once_Some in Hs.
  set (p1 := "repo:" +:+ repository c +:+ ":").
  set (p2 := "repo:" +:+ owner +:+ "@" +:+ repository_owner_id c +:+ "/" +:+ repo +:+ "@" +:+ repository_id c +:+ ":").
  destruct (or_else _ _) as [suffix|] eqn:Hor; [|done].
  destruct (bounded_ascii suffix 1024) eqn:Hb; [cbn [negb]|done]. intros H. result_simpl.
  assert (exists r, sub c = "repo:" +:+ r +:+ ":" +:+ suffix /\ subject_repository c r) as (r & Hr & Hsub).
  { destruct (strip_prefix p1 (sub c)) as [s1|] eqn:E1; cbn in Hor; simplify_eq.
    - apply strip_prefix_Some in E1. exists (repository c). split; [|by left].
      rewrite E1. unfold p1. by rewrite !app_assoc'.
    - apply strip_prefix_Some in Hor.
      exists (owner +:+ "@" +:+ repository_owner_id c +:+ "/" +:+ repo +:+ "@" +:+ repository_id c).
      split; [|right; eauto]. rewrite Hor. unfold p2. by rewrite !app_assoc'. }
  exists r, suffix. split_and!; try done.
  - intros g ->. match goal with H : match strip_prefix "ref:" ?x with _ => _ end = true |- _ =>
      replace (strip_prefix "ref:" x) with (Some g) in H by (symmetry; by apply strip_prefix_Some) end.
    by result_simpl.
  - intros ->. match goal with H : _ || _ = true |- _ => apply orb_prop in H as [H|H] end.
    + by result_simpl.
    + result_simpl. match goal with H : starts_with _ _ = true |- _ => apply starts_with_true in H as [n Hn] end. eauto.
Qed.

Lemma provenance_workflows c :
  provenance_consistent c = true ->
  workflow_reference (workflow_ref c) (Some (repository c)) (workflow_sha c) = true
  /\ workflow_reference (job_workflow_ref c) None (job_workflow_sha c) = true.
Proof.
  unfold provenance_consistent. destruct (split_once "/" (repository c)) as [[owner repo]|]; [|done].
  destruct (or_else _ _); [|done]. destruct (negb _); [done|]. intros H. by result_simpl.
Qed.

Lemma workflow_reference_spec v exp_ sha_ :
  workflow_reference v exp_ sha_ = true ->
  exists r w g : string, v = r +:+ "/.github/workflows/" +:+ w +:+ "@" +:+ g
    /\ github_repository r = true /\ (forall e, exp_ = Some e -> e = r)
    /\ (ends_with w ".yml" = true \/ ends_with w ".yaml" = true)
    /\ bytes_all slug_byte w = true
    /\ (valid_git_ref g = true \/ (git_sha1 g = true /\ g = sha_)).
Proof.
  unfold workflow_reference. destruct (negb _); [done|].
  destruct (split_once _ v) as [[r wr]|] eqn:Hs; [|done]. apply split_once_Some in Hs as ->.
  destruct (_ || _) eqn:G; [done|]. apply orb_false_elim in G as [Hr He]. apply negb_false_iff in Hr.
  destruct (rsplit_once "@" wr) as [[w g]|] eqn:Hw; [|done]. apply rsplit_once_Some in Hw as [-> _].
  intros H. result_simpl. exists r, w, g. split_and!; try done.
  - intros e ->. apply bool_decide_eq_false in He. by apply dec_stable.
  - by apply orb_prop.
  - match goal with H : valid_git_ref g || _ = true |- _ => apply orb_prop in H as [H|H] end; [by left|].
    right. by result_simpl.
Qed.

Lemma subject_repository_no_colon audience now c r :
  accepted audience now c -> subject_repository c r -> contains_char r ":" = false.
Proof.
  intros A. destruct (accepted_repository _ _ _ A) as (o & n & Hrepo & Ho & Hn).
  apply slug_no_colon in Ho as Ho', Hn as Hn'.
  intros [->|(owner & repo & Hr & ->)]; rewrite ?Hrepo, !contains_char_app.
  - by rewrite Ho', Hn'.
  - assert (contains_char (repository c) ":" = false) as Hc
      by (rewrite Hrepo, !contains_char_app; by rewrite Ho', Hn').
    rewrite Hr, !contains_char_app in Hc. result_simpl.
    rewrite (canonical_id_no_colon _ (accepted_owner_id _ _ _ A)).
    rewrite (canonical_id_no_colon _ (accepted_repository_id _ _ _ A)).
    by repeat match goal with H : contains_char _ _ = false |- _ => rewrite H; clear H end.
Qed.

(** An accepted assertion's subject cannot name another repository: whatever
    stands between [repo:] and the next colon is the claimed repository's name, or
    its owner and name qualified with the claimed numeric IDs. *)
Theorem subject_binds_repository audience now c r x :
  accepted audience now c ->
  contains_char r ":" = false ->
  sub c = "repo:" +:+ r +:+ ":" +:+ x ->
  subject_repository c r
  /\ (forall g, x = "ref:" +:+ g -> g = git_ref c).
Proof.
  intros A Hc Hsub.
  destruct (provenance_subject c (accepted_provenance _ _ _ A)) as (r' & s & Hs & Hr' & _ & Hg & _).
  rewrite Hsub in Hs. apply (inj (String.append "repo:")) in Hs.
  apply sep_inj in Hs as [-> ->]; [done|done|]. by eapply subject_repository_no_colon.
Qed.

(** ** A concrete assertion *)
Definition sample_sha : string := "0123456789abcdef0123456789abcdef01234567".
Definition sample_claims : GitHubClaims := {|
  iss := GITHUB_ISSUER; sub := "repo:octo/app:ref:refs/heads/main"; aud := One "exchange";
  exp := 1700000300; iat := 1700000000; nbf := 1700000000; jti := "jti-1";
  actor_id := "12"; actor := "octocat"; repository := "octo/app"; repository_id := "5";
  repository_owner_id := "10"; sha := sample_sha; run_id := "99"; run_attempt := 1;
  workflow_ref := "octo/app/.github/workflows/ci.yml@refs/heads/main"; workflow_sha := sample_sha;
  job_workflow_ref := "octo/app/.github/workflows/ci.yml@refs/heads/main";
  job_workflow_sha := sample_sha; event_name := "push"; git_ref := "refs/heads/main" |}.

Lemma sample_accepted : accepted "exchange" 1700000000 sample_claims.
Proof. apply (claims_accepted _ _ 300); by vm_compute. Qed.

Lemma numeric_string_round_trip_witness :
  numeric_string_deserialize (numeric_string_serialize 4294967295) = Some 4294967295%Z.
Proof. apply (numeric_string_round_trip 4294967295). split; [done|]. apply Z.le_refl. Defined.

Lemma subject_binds_repository_witness :
  subject_repository sample_claims "octo/app"
  /\ (forall g, "ref:refs/heads/main" = "ref:" +:+ g -> g = git_ref sample_claims).
Proof.
  apply (subject_binds_repository "exchange" 1700000000 sample_claims "octo/app" "ref:refs/heads/main");
    [apply sample_accepted|by vm_compute|reflexivity].
Defined.
