(* ===== verification/Policy.v ===== *)
(** * GitHub authorization policy (policy.rs)

    Policies v5 and v6: deserialization, validation, and the authorization of
    verified claims.  A [HashSet] is a [gset]; the [HashMap] of actors is a
    [gmap], iterated in an unspecified order ([validate_actors_in] takes the
    order). *)
From Stdlib Require Import Ascii.
From S2P Require Import Prelude Text Libs Constants GithubClaims.

Definition SERVICE_PREFIX : string := "agents.apelogic.ai/service-principal:".
Definition ACTING_PREFIX : string := "agents.apelogic.ai/acting-user:".
Definition CANONICAL_USER_PREFIX : string := "agents.apelogic.ai/canonical-user:".

Record Actor := {
  actor_email : string;
  canonical_user_id_of : string;
  verified : bool;
}.
Record RepositoryPolicy := {
  rule_owner_id : string;
  rule_repository_id : string;
  subjects : option (list string);
  events : option (list string);
  refs : option (list string);
  job_workflow_refs : option (list string);
  job_workflow_shas : option (list string);
}.
Record Policy := {
  version : string;
  service_group : string;
  acting_group_prefix : option string;
  allowed_email_domains : option (list string);
  repositories : list RepositoryPolicy;
  actors : option (gmap string Actor);
}.
Record Identity := {
  id_actor_id : string;
  id_actor_login : option string;
  id_email : option string;
  id_email_verified : option bool;
  id_subject : string;
  id_groups : option (list string);
  id_identity_contract : string;
  id_repository : string;
  id_workflow_ref : string;
  id_job_workflow_ref : string;
}.
Inductive PolicyError :=
| Invalid (message : string)
| Unauthorized.
#[export] Instance PolicyError_eq_dec : EqDecision PolicyError.
Proof. solve_decision. Defined.
Definition invalid (message : string) : PolicyError := Invalid message.

(** ** Text checks *)
Definition decimal_identifier (value : string) : bool :=
  negb (is_empty value) && bytes_all is_ascii_digit value.
Definition numeric_identifier (value : string) : bool :=
  bool_decide (len value <= 20) && decimal_identifier value
  && bool_decide (value <> "0") && negb (starts_with value "0").
Definition canonical_email (value : string) : bool :=
  match split_once "@" value with
  | None => false
  | Some (local, domain) =>
      negb (is_empty local) && negb (is_empty domain)
      && negb (contains_whitespace value)
      && bool_decide (value = to_ascii_lowercase value)
  end.
Definition canonical_user_id (value : string) : bool :=
  match strip_prefix "usr_" value with
  | None => false
  | Some suffix => bool_decide (len suffix = 32) && bytes_all is_lower_hex suffix
  end.

(** ** Selectors *)
Definition selector_matches (selector : option (list string)) (wanted : string) : bool :=
  match selector with Some values => existsb (fun v => bool_decide (v = wanted)) values | None => false end.
Definition optional_selector_matches (selector : option (list string)) (wanted : string) : bool :=
  match selector with Some values => existsb (fun v => bool_decide (v = wanted)) values | None => true end.

Definition require_values (name : string) (values : list string) : result PolicyError () :=
  let unique : gset string := list_to_set values in
  reject_if (bool_decide (values = []) || bool_decide (size unique <> length values)
             || existsb is_empty values)
    (invalid (name +:+ " must contain unique non-empty values")).
Definition required_selector (name : string) (selector : option (list string)) :
  result PolicyError (list string) :=
  values ← ok_or (invalid (name +:+ " is required by policy v5")) selector;
  _ ← require_values name values;
  Ok values.

Definition validate_repository_ids (repository : RepositoryPolicy) (bounded : bool) :
  result PolicyError () :=
  let valid_numeric value := if bounded then numeric_identifier value else decimal_identifier value in
  let repository_valid := valid_numeric (rule_repository_id repository)
    || (bounded && bool_decide (rule_repository_id repository = "*")) in
  reject_if (negb (valid_numeric (rule_owner_id repository)) || negb repository_valid)
    (invalid "repository numeric IDs are required").

Definition validate_workflow_refs (workflow_refs : list string) : result PolicyError () :=
  reject_if (existsb (fun workflow_ref =>
      bool_decide (2048 < len workflow_ref)
      || negb (bytes_all is_ascii_graphic workflow_ref)
      || negb (contains workflow_ref "/.github/workflows/")
      || negb (contains_char workflow_ref "@")) workflow_refs)
    (invalid "job_workflow_refs must contain exact GitHub workflow references").
Definition validate_workflow_shas (workflow_shas : list string) : result PolicyError () :=
  reject_if (existsb (fun sha =>
      bool_decide (len sha <> 40) || negb (bytes_all is_lower_hex sha)) workflow_shas)
    (invalid "job_workflow_shas must contain exact lowercase Git SHA-1 values").
Definition validate_domains (domains : list string) : result PolicyError () :=
  _ ← require_values "allowed_email_domains" domains;
  reject_if (existsb (fun domain =>
      starts_with domain "." || ends_with domain "." || negb (contains_char domain ".")
      || bool_decide (domain <> to_ascii_lowercase domain)) domains)
    (invalid "allowed_email_domains must contain canonical DNS domain names").
Definition validate_subjects (subjects : list string) : result PolicyError () :=
  reject_if (existsb (fun subject =>
      negb (starts_with subject "repo:") || bool_decide (2048 < len subject)
      || negb (bytes_all is_ascii_graphic subject)) subjects)
    (invalid "subjects must be exact GitHub repo subjects").

(** ** Actors *)
Definition domain_allowed (allowed_email_domains : option (list string)) (actor : Actor) : bool :=
  match allowed_email_domains with
  | None => true
  | Some domains => existsb (fun domain => ends_with (actor_email actor) ("@" +:+ domain)) domains
  end.
Definition validate_actor_entry (allowed_email_domains : option (list string)) (bounded_ids : bool)
    (canonical_user_ids : gset string) (entry : string * Actor) : result PolicyError (gset string) :=
  let '(actor_id, actor) := entry in
  let actor_id_valid := if bounded_ids then numeric_identifier actor_id else decimal_identifier actor_id in
  _ ← reject_if (negb actor_id_valid || negb (verified actor)
                 || negb (canonical_email (actor_email actor))
                 || negb (canonical_user_id (canonical_user_id_of actor))
                 || negb (domain_allowed allowed_email_domains actor))
        (invalid "actor mappings require a numeric ID, verified canonical email, and opaque canonical user ID");
  _ ← reject_if (bool_decide (canonical_user_id_of actor ∈ canonical_user_ids))
        (invalid "canonical user IDs must be unique across actor mappings");
  Ok ({[canonical_user_id_of actor]} ∪ canonical_user_ids).
Definition validate_actors_in (entries : list (string * Actor))
    (allowed_email_domains : option (list string)) (bounded_ids : bool) : result PolicyError () :=
  _ ← try_fold (validate_actor_entry allowed_email_domains bounded_ids) ∅ entries;
  Ok ().
Definition validate_actors (actors : gmap string Actor) :=
  validate_actors_in (map_to_list actors).

(** ** Validation *)
Definition v5_rule : Type := string * string * list string * list string * list string.
Definition validate_v5_rule (rules : gset v5_rule) (repository : RepositoryPolicy) :
  result PolicyError (gset v5_rule) :=
  _ ← validate_repository_ids repository false;
  _ ← reject_if (bool_decide (is_Some (job_workflow_refs repository))
                 || bool_decide (is_Some (job_workflow_shas repository)))
        (invalid "job workflow selectors are supported only by policy v6");
  subjects ← required_selector "subjects" (subjects repository);
  events ← required_selector "events" (events repository);
  refs ← required_selector "refs" (refs repository);
  let rule : v5_rule := (rule_owner_id repository, rule_repository_id repository, subjects, events, refs) in
  _ ← reject_if (bool_decide (rule ∈ rules)) (invalid "duplicate repository authorization rule");
  _ ← validate_subjects subjects;
  Ok ({[rule]} ∪ rules).

Definition validate_v5 (p : Policy) : result PolicyError () :=
  prefix ← ok_or (invalid "acting_group_prefix is required by policy v5") (acting_group_prefix p);
  _ ← reject_if (bool_decide (prefix <> ACTING_PREFIX))
        (invalid "acting_group_prefix does not match the Steward contract");
  domains ← ok_or (invalid "allowed_email_domains is required by policy v5") (allowed_email_domains p);
  _ ← validate_domains domains;
  actors ← ok_or (invalid "actors must be non-empty in policy v5")
             (match actors p with
              | Some a => if decide (a = ∅) then None else Some a
              | None => None
              end);
  _ ← validate_actors actors (Some domains) false;
  _ ← try_fold validate_v5_rule ∅ (repositories p);
  Ok ().

(** [if let Some(values) = selector { f(values)?; }] *)
Definition if_some {A E} (o : option A) (f : A -> result E ()) : result E () :=
  match o with Some a => f a | None => Ok () end.

(** The exact (owner, repository) pairs and the owner-wide scopes seen so far. *)
Definition v6_seen : Type := gset (string * string) * gset string.
Definition validate_v6_rule (seen : v6_seen) (repository : RepositoryPolicy) :
  result PolicyError v6_seen :=
  _ ← validate_repository_ids repository true;
  let '(repository_ids, owner_scopes) := seen in
  let owner_id := rule_owner_id repository in
  let repository_id := rule_repository_id repository in
  let '(ambiguous, seen) :=
    if decide (repository_id = "*") then
      (bool_decide (owner_id ∈ owner_scopes)
       || existsb (fun '(configured_owner, _) => bool_decide (configured_owner = owner_id))
            (elements repository_ids),
       (repository_ids, {[owner_id]} ∪ owner_scopes))
    else
      (bool_decide (owner_id ∈ owner_scopes)
       || bool_decide ((owner_id, repository_id) ∈ repository_ids),
       ({[(owner_id, repository_id)]} ∪ repository_ids, owner_scopes)) in
  _ ← reject_if ambiguous (invalid "duplicate or ambiguous repository rule");
  _ ← if_some (subjects repository) (fun subjects =>
        _ ← require_values "subjects" subjects; validate_subjects subjects);
  _ ← if_some (events repository) (require_values "events");
  _ ← if_some (refs repository) (require_values "refs");
  _ ← if_some (job_workflow_refs repository) (fun workflow_refs =>
        _ ← require_values "job_workflow_refs" workflow_refs;
        validate_workflow_refs workflow_refs);
  _ ← if_some (job_workflow_shas repository) (fun workflow_shas =>
        _ ← require_values "job_workflow_shas" workflow_shas;
        validate_workflow_shas workflow_shas);
  Ok seen.

Definition validate_v6 (p : Policy) : result PolicyError () :=
  _ ← reject_if (match acting_group_prefix p with
                 | Some prefix => bool_decide (prefix <> ACTING_PREFIX)
                 | None => false
                 end) (invalid "acting_group_prefix does not match the Steward contract");
  _ ← if_some (allowed_email_domains p) validate_domains;
  _ ← match actors p, allowed_email_domains p, acting_group_prefix p with
      | None, None, None => Ok ()
      | Some actors, Some domains, Some prefix =>
          if decide (prefix = ACTING_PREFIX) then
            _ ← reject_if (bool_decide (actors = ∅)) (invalid "actors must be non-empty when configured");
            validate_actors actors (Some domains) true
          else Err (invalid "actors, allowed_email_domains, and acting_group_prefix must be configured together")
      | _, _, _ =>
          Err (invalid "actors, allowed_email_domains, and acting_group_prefix must be configured together")
      end;
  _ ← try_fold validate_v6_rule (∅, ∅) (repositories p);
  Ok ().

Definition supported_version (v : string) : bool :=
  bool_decide (v = POLICY_VERSION \/ v = SOURCE_AUTH_POLICY_VERSION).

Definition validate (p : Policy) : result PolicyError () :=
  _ ← reject_if (negb (supported_version (version p))) (invalid "unsupported policy version");
  _ ← reject_if (negb (starts_with (service_group p) SERVICE_PREFIX)
                 || bool_decide (service_group p = SERVICE_PREFIX))
        (invalid "service_group must use the Steward service-principal prefix");
  _ ← reject_if (bool_decide (repositories p = [])) (invalid "repositories must be non-empty");
  if decide (version p = POLICY_VERSION) then validate_v5 p else validate_v6 p.

(** ** Authorization *)
Definition v5_rule_matches (claims : GitHubClaims) (repository : RepositoryPolicy) : bool :=
  bool_decide (rule_owner_id repository = repository_owner_id claims)
  && bool_decide (rule_repository_id repository = repository_id claims)
  && selector_matches (subjects repository) (sub claims)
  && selector_matches (events repository) (event_name claims)
  && selector_matches (refs repository) (git_ref claims).
Definition v6_rule_matches (claims : GitHubClaims) (repository : RepositoryPolicy) : bool :=
  bool_decide (rule_owner_id repository = repository_owner_id claims)
  && (bool_decide (rule_repository_id repository = "*")
      || bool_decide (rule_repository_id repository = repository_id claims))
  && optional_selector_matches (subjects repository) (sub claims)
  && optional_selector_matches (events repository) (event_name claims)
  && optional_selector_matches (refs repository) (git_ref claims)
  && optional_selector_matches (job_workflow_refs repository) (job_workflow_ref claims)
  && optional_selector_matches (job_workflow_shas repository) (job_workflow_sha claims).

(** [matching.next().ok_or(e)?] followed by [if matching.next().is_some() { return Err(e) }]. *)
Definition exactly_one {A E} (e : E) (matching : list A) : result E A :=
  match matching with [x] => Ok x | _ => Err e end.

(** [actors.get(id).filter(|actor| actor.verified)] *)
Definition verified_actor (actors : gmap string Actor) (id : string) : option Actor :=
  match actors !! id with
  | Some actor => if verified actor then Some actor else None
  | None => None
  end.
Definition actor_groups (p : Policy) (prefix : string) (actor : Actor) : list string :=
  sort_strings [service_group p; prefix +:+ actor_email actor;
                CANONICAL_USER_PREFIX +:+ canonical_user_id_of actor].

Definition authorize_v5 (p : Policy) (claims : GitHubClaims) : result PolicyError Identity :=
  actor ← ok_or Unauthorized (a ← actors p; verified_actor a (actor_id claims));
  repository ← exactly_one Unauthorized (List.filter (v5_rule_matches claims) (repositories p));
  prefix ← ok_or Unauthorized (acting_group_prefix p);
  Ok {| id_actor_id := actor_id claims;
        id_actor_login := None;
        id_email := Some (actor_email actor);
        id_email_verified := Some (verified actor);
        id_subject := "github-actions:actor:" +:+ actor_id claims;
        id_groups := Some (actor_groups p prefix actor);
        id_identity_contract := IDENTITY_CONTRACT;
        id_repository := rule_owner_id repository +:+ "/" +:+ rule_repository_id repository;
        id_workflow_ref := workflow_ref claims;
        id_job_workflow_ref := job_workflow_ref claims |}.

Definition authorize_v6 (p : Policy) (claims : GitHubClaims) : result PolicyError Identity :=
  _ ← reject_if (negb (numeric_identifier (actor_id claims))) Unauthorized;
  _ ← exactly_one Unauthorized (List.filter (v6_rule_matches claims) (repositories p));
  mapped ← match actors p with
          | Some actors => Some <$> ok_or Unauthorized (verified_actor actors (actor_id claims))
          | None => Ok None
          end;
  '(email, email_verified, groups) ←
     match mapped with
     | Some actor =>
         prefix ← ok_or Unauthorized (acting_group_prefix p);
         Ok (Some (actor_email actor), Some true, Some (actor_groups p prefix actor))
     | None => Ok (None, None, None)
     end;
  Ok {| id_actor_id := actor_id claims;
        id_actor_login := Some (actor claims);
        id_email := email;
        id_email_verified := email_verified;
        id_subject := "github-actions:actor:" +:+ actor_id claims;
        id_groups := groups;
        id_identity_contract := SOURCE_AUTH_IDENTITY_CONTRACT;
        id_repository := repository_owner_id claims +:+ "/" +:+ repository_id claims;
        id_workflow_ref := workflow_ref claims;
        id_job_workflow_ref := job_workflow_ref claims |}.

Definition authorize (p : Policy) (claims : GitHubClaims) : result PolicyError Identity :=
  if decide (version p = POLICY_VERSION) then authorize_v5 p claims
  else if decide (version p = SOURCE_AUTH_POLICY_VERSION) then authorize_v6 p claims
  else Err Unauthorized.

Definition identity_contract (p : Policy) : string :=
  if decide (version p = SOURCE_AUTH_POLICY_VERSION) then SOURCE_AUTH_IDENTITY_CONTRACT
  else IDENTITY_CONTRACT.

(** ** Loading *)
Definition actor_deserialize (v : Value) : option Actor :=
  if only_fields ["email"; "canonical_user_id"; "verified"] v then
    email ← field v "email" as_str;
    id ← field v "canonical_user_id" as_str;
    verified ← field v "verified" as_bool;
    Some {| actor_email := email; canonical_user_id_of := id; verified := verified |}
  else None.
Definition actors_deserialize (v : Value) : option (gmap string Actor) :=
  m ← as_object v;
  entries ← mapM (fun '(k, v) => (fun a => (k, a)) <$> actor_deserialize v) (map_to_list m);
  Some (list_to_map entries).
Definition repository_policy_deserialize (v : Value) : option RepositoryPolicy :=
  if only_fields ["owner_id"; "repository_id"; "subjects"; "events"; "refs";
                  "job_workflow_refs"; "job_workflow_shas"] v then
    owner ← field v "owner_id" as_str;
    repository ← field v "repository_id" as_str;
    subjects ← optional_field v "subjects" strings;
    events ← optional_field v "events" strings;
    refs ← optional_field v "refs" strings;
    job_workflow_refs ← optional_field v "job_workflow_refs" strings;
    job_workflow_shas ← optional_field v "job_workflow_shas" strings;
    Some {| rule_owner_id := owner; rule_repository_id := repository; subjects := subjects;
            events := events; refs := refs; job_workflow_refs := job_workflow_refs;
            job_workflow_shas := job_workflow_shas |}
  else None.
Definition policy_deserialize (v : Value) : option Policy :=
  if only_fields ["version"; "service_group"; "acting_group_prefix"; "allowed_email_domains";
                  "repositories"; "actors"] v then
    version ← field v "version" as_str;
    service_group ← field v "service_group" as_str;
    acting_group_prefix ← optional_field v "acting_group_prefix" as_str;
    allowed_email_domains ← optional_field v "allowed_email_domains" strings;
    repositories ← field v "repositories" (fun v => l ← as_array v; mapM repository_policy_deserialize l);
    actors ← optional_field v "actors" actors_deserialize;
    Some {| version := version; service_group := service_group;
            acting_group_prefix := acting_group_prefix;
            allowed_email_domains := allowed_email_domains;
            repositories := repositories; actors := actors |}
  else None.

Section load.
Context `{!SerdeJson}.
(** [Policy::load], from what reading the file gives. *)
Definition policy_load (file : result string string) : result PolicyError Policy :=
  contents ← map_err Invalid file;
  value ← ok_or (Invalid (json_error contents)) (parse_json contents);
  let version := get_field value "version" ≫= as_str in
  _ ← reject_if (match version with Some v => negb (supported_version v) | None => true end)
        (invalid "unsupported policy version");
  policy ← ok_or (Invalid (value_error value)) (policy_deserialize value);
  _ ← validate policy;
  Ok policy.
End load.

(** ** Validation of the actor mapping *)
Definition actor_id_valid (bounded_ids : bool) (actor_id : string) : bool :=
  if bounded_ids then numeric_identifier actor_id else decimal_identifier actor_id.

(** What each entry must satisfy on its own. *)
Definition entry_valid (domains : option (list string)) (bounded : bool) (entry : string * Actor) : Prop :=
  actor_id_valid bounded entry.1 = true /\ verified entry.2 = true
  /\ canonical_email (actor_email entry.2) = true
  /\ canonical_user_id (canonical_user_id_of entry.2) = true
  /\ domain_allowed domains entry.2 = true.

Lemma validate_actor_entry_spec domains bounded ids entry ids' :
  validate_actor_entry domains bounded ids entry = Ok ids' <->
  entry_valid domains bounded entry /\ (canonical_user_id_of entry.2 ∉ ids)
  /\ ids' = {[canonical_user_id_of entry.2]} ∪ ids.
Proof.
  unfold validate_actor_entry, entry_valid. destruct entry as [id a]. cbn [fst snd].
  fold (actor_id_valid bounded id). split.
  - intros H. result_simpl. done.
  - intros ((-> & -> & -> & -> & ->) & Hn & ->). cbn. by rewrite bool_decide_false.
Qed.

Lemma validate_actor_entries_spec domains bounded l ids ids' :
  try_fold (validate_actor_entry domains bounded) ids l = Ok ids' <->
  Forall (entry_valid domains bounded) l
  /\ NoDup ((fun e => canonical_user_id_of e.2) <$> l)
  /\ (forall e, e ∈ l -> canonical_user_id_of e.2 ∉ ids)
  /\ ids' = list_to_set (reverse ((fun e => canonical_user_id_of e.2) <$> l)) ∪ ids.
Proof.
  revert ids. induction l as [|e l IH]; intros ids; cbn [try_fold fmap list_fmap].
  - rewrite reverse_nil. cbn. rewrite (left_id_L ∅ (∪)).
    split; [intros [= <-]|intros (_ & _ & _ & ->); done].
    split_and!; try done; [constructor|set_solver].
  - destruct (validate_actor_entry domains bounded ids e) as [ids1|err] eqn:He.
    + apply validate_actor_entry_spec in He as (Hv & Hn & ->). rewrite IH.
      rewrite Forall_cons, NoDup_cons, list_elem_of_fmap, reverse_cons, list_to_set_app_L.
      cbn. split.
      * intros (Hl & Hd & Hfr & ->). split_and!; try done.
        -- intros (e' & Heq & Hin). apply Hfr in Hin. rewrite <- Heq in Hin. set_solver.
        -- intros e' [->|Hin]%elem_of_cons; [done|]. apply Hfr in Hin. set_solver.
        -- set_solver.
      * intros ((_ & Hl) & (Hnin & Hd) & Hfr & ->). split_and!; try done.
        -- intros e' Hin. pose proof (Hfr e' ltac:(set_solver)).
           assert (canonical_user_id_of e.2 <> canonical_user_id_of e'.2); [|set_solver].
           intros ?. apply Hnin. eauto.
        -- set_solver.
    + split; [done|]. rewrite Forall_cons. intros ((Hv & _) & _ & Hfr & _).
      assert (validate_actor_entry domains bounded ids e = Ok ({[canonical_user_id_of e.2]} ∪ ids)) as Hok.
      { apply validate_actor_entry_spec. split_and!; try done; apply Hv || apply Hfr; set_solver. }
      by rewrite He in Hok.
Qed.

Lemma validate_actors_in_spec l domains bounded :
  validate_actors_in l domains bounded = Ok () <->
  Forall (entry_valid domains bounded) l /\ NoDup ((fun e => canonical_user_id_of e.2) <$> l).
Proof.
  unfold validate_actors_in. split.
  - intros (ids & Hf & _)%result_bind_ok. by apply validate_actor_entries_spec in Hf as (? & ? & _).
  - intros [Hv Hd].
    assert (try_fold (validate_actor_entry domains bounded) ∅ l
            = Ok (list_to_set (reverse ((fun e => canonical_user_id_of e.2) <$> l)) ∪ ∅)) as ->; [|done].
    apply validate_actor_entries_spec. split_and!; set_solver.
Qed.

(** Whether the actor mapping is accepted does not depend on the order in
    which the hash map yields it. *)
Theorem validate_actors_order l1 l2 domains bounded :
  l1 ≡ₚ l2 ->
  (validate_actors_in l1 domains bounded = Ok ()) <-> (validate_actors_in l2 domains bounded = Ok ()).
Proof. intros Hp. rewrite !validate_actors_in_spec. by rewrite Hp. Qed.

Definition sample_actors : list (string * Actor) :=
  [("12", {| actor_email := "a@example.com";
             canonical_user_id_of := "usr_0123456789abcdef0123456789abcdef"; verified := true |});
   ("7", {| actor_email := "b@example.com";
            canonical_user_id_of := "usr_00000000000000000000000000000000"; verified := true |})].
Lemma validate_actors_order_witness :
  validate_actors_in sample_actors (Some ["example.com"]) true = Ok ()
  /\ (validate_actors_in sample_actors (Some ["example.com"]) true = Ok ()
      <-> validate_actors_in (reverse sample_actors) (Some ["example.com"]) true = Ok ()).
Proof.
  split; [by vm_compute|].
  apply (validate_actors_order sample_actors (reverse sample_actors)). apply Permutation_swap.
Defined.

(** Distinct actors of a validated mapping have distinct canonical users. *)
Lemma validate_actors_inj m domains bounded i j a b :
  validate_actors m domains bounded = Ok () ->
  m !! i = Some a -> m !! j = Some b -> canonical_user_id_of a = canonical_user_id_of b -> i = j.
Proof.
  intros [_ Hd]%validate_actors_in_spec Hi%elem_of_map_to_list Hj%elem_of_map_to_list Heq.
  apply list_elem_of_lookup in Hi as [n Hn], Hj as [k Hk].
  assert (n = k) as ->; [|by simplify_eq].
  eapply (NoDup_lookup _ _ _ _ Hd); rewrite list_lookup_fmap.
  - by rewrite Hn.
  - rewrite Hk. cbn. by rewrite Heq.
Qed.

(** ** Version 6: at most one rule applies *)
(** The rule's scope: an owner and a repository, or the whole owner. *)
Definition scopes_overlap (r1 r2 : RepositoryPolicy) : Prop :=
  rule_owner_id r1 = rule_owner_id r2
  /\ (rule_repository_id r1 = "*" \/ rule_repository_id r2 = "*"
      \/ rule_repository_id r1 = rule_repository_id r2).

(** [seen] records exactly the scopes of the rules already checked. *)
Definition seen_scopes (seen : v6_seen) (done_ : list RepositoryPolicy) : Prop :=
  (forall o r, (o, r) ∈ seen.1 <->
     exists x, x ∈ done_ /\ rule_owner_id x = o /\ rule_repository_id x = r /\ r <> "*")
  /\ (forall o, o ∈ seen.2 <->
     exists x, x ∈ done_ /\ rule_owner_id x = o /\ rule_repository_id x = "*").

Lemma existsb_owner (l : gset (string * string)) o :
  existsb (fun '(configured, _) => bool_decide (configured = o)) (elements l) = false ->
  forall r, (o, r) ∉ l.
Proof.
  intros H r Hin. apply elem_of_elements in Hin.
  assert (existsb (fun '(configured, _) => bool_decide (configured = o)) (elements l) = true); [|congruence].
  apply existsb_exists. exists (o, r). split; [by apply list_elem_of_In|]. by apply bool_decide_eq_true.
Qed.

(** How the scopes grow with one more rule. *)
Lemma seen_scopes_snoc (ids ids' : gset (string * string)) (owners owners' : gset string) done_ x :
  seen_scopes (ids, owners) done_ ->
  (forall o r, (o, r) ∈ ids' <-> (o, r) ∈ ids
     \/ (rule_owner_id x = o /\ rule_repository_id x = r /\ r <> "*")) ->
  (forall o, o ∈ owners' <-> o ∈ owners \/ (rule_owner_id x = o /\ rule_repository_id x = "*")) ->
  seen_scopes (ids', owners') (done_ ++ [x]).
Proof.
  intros [Hids Howners] H1 H2. cbn [fst snd] in *. split; cbn [fst snd].
  - intros o r. rewrite H1, Hids. setoid_rewrite elem_of_app. setoid_rewrite list_elem_of_singleton.
    clear. split; [intros [(y & ? & ?)|?]; eauto|]. intros (y & [?| ->] & ?); eauto.
  - intros o. rewrite H2, Howners. setoid_rewrite elem_of_app. setoid_rewrite list_elem_of_singleton.
    clear. split; [intros [(y & ? & ?)|?]; eauto|]. intros (y & [?| ->] & ?); eauto.
Qed.

Lemma validate_v6_rule_scopes seen seen' done_ x :
  seen_scopes seen done_ -> validate_v6_rule seen x = Ok seen' ->
  seen_scopes seen' (done_ ++ [x]) /\ Forall (fun y => ~ scopes_overlap x y) done_.
Proof.
  destruct seen as [ids owners]. unfold validate_v6_rule, scopes_overlap.
  intros Hseen H. apply result_bind_ok in H as ([] & _ & H).
  pose proof Hseen as [Hids Howners]. cbn [fst snd] in *.
  rewrite Forall_forall.
  case_decide as Hstar; apply result_bind_ok in H as ([] & Hamb & H); result_simpl.
  - match goal with H : existsb _ _ = false |- _ => pose proof (existsb_owner _ _ H) as Hno end.
    split.
    + eapply seen_scopes_snoc; [done|intros o r; clear -Hstar; naive_solver|].
      intros o. rewrite elem_of_union, elem_of_singleton. clear -Hstar. naive_solver.
    + intros y Hy [Ho _]. destruct (decide (rule_repository_id y = "*")) as [Hs|Hs].
      * match goal with H : _ ∉ owners |- _ => apply H end. apply Howners. eauto.
      * apply (Hno (rule_repository_id y)). apply Hids. eauto.
  - split.
    + eapply seen_scopes_snoc; [done| |intros o; tauto].
      intros o r. rewrite elem_of_union, elem_of_singleton. clear -Hstar. naive_solver.
    + intros y Hy (Ho & [?|[Hs|Hs]]); [done| |].
      * match goal with H : _ ∉ owners |- _ => apply H end. apply Howners. eauto.
      * match goal with H : _ ∉ ids |- _ => apply H end. apply Hids. exists y. rewrite <- Hs. eauto.
Qed.

Lemma v6_rules_disjoint seen l :
  try_fold validate_v6_rule (∅, ∅) l = Ok seen ->
  forall i j x y, l !! i = Some x -> l !! j = Some y -> i <> j -> ~ scopes_overlap x y.
Proof.
  intros H.
  assert (seen_scopes seen l /\ forall i j x y, l !! i = Some x -> l !! j = Some y -> i < j ->
            ~ scopes_overlap y x) as [_ Hd].
  { revert H. apply (try_fold_ind (fun d s => seen_scopes s d
      /\ forall i j x y, d !! i = Some x -> d !! j = Some y -> i < j -> ~ scopes_overlap y x)).
    - split; [|done]. split; cbn; set_solver.
    - intros d x s1 s2 _ [Hs Hd] Hx. destruct (validate_v6_rule_scopes _ _ _ _ Hs Hx) as [Hs' Hf].
      split; [done|]. intros i j a b Ha Hb Hij.
      apply lookup_app_Some in Hb as [Hb|[Hl Hb]].
      + apply lookup_app_Some in Ha as [Ha|[Hl' Ha]]; [by eapply Hd|].
        apply lookup_lt_Some in Hb. lia.
      + apply list_lookup_singleton_Some in Hb as [Hj <-].
        rewrite lookup_app_l in Ha by lia. eapply Forall_lookup_1 in Hf; [|exact Ha]. done. }
  intros i j x y Hi Hj Hij.
  destruct (decide (i < j)) as [Hlt|Hge]; [|by eapply (Hd j i y x); [done..|lia]].
  intros [Ho Hr]. eapply (Hd i j x y); [done..|]. split; [done|]. destruct Hr as [?|[?|?]]; [by right; left|by left|by right; right].
Qed.

Lemma v6_rule_matches_scope claims r :
  v6_rule_matches claims r = true ->
  rule_owner_id r = repository_owner_id claims
  /\ (rule_repository_id r = "*" \/ rule_repository_id r = repository_id claims).
Proof.
  unfold v6_rule_matches. intros H. result_simpl. split; [done|].
  match goal with H : _ || _ = true |- _ => apply orb_prop in H as [H|H] end; result_simpl; auto.
Qed.

Lemma filter_length_le_1 {A} (f : A -> bool) l :
  (forall i j x y, l !! i = Some x -> l !! j = Some y -> f x = true -> f y = true -> i = j) ->
  length (List.filter f l) <= 1.
Proof.
  induction l as [|a l IH]; cbn; [lia|]. intros H.
  assert (length (List.filter f l) <= 1) as IH'.
  { apply IH. intros i j x y Hi Hj Hx Hy. by injection (H (S i) (S j) x y Hi Hj Hx Hy). }
  destruct (f a) eqn:Ha; [cbn|done].
  destruct (List.filter f l) as [|b t] eqn:Hf; [cbn; lia|]. exfalso.
  assert (In b (List.filter f l)) as [Hin Hb]%filter_In by (rewrite Hf; by left).
  apply list_elem_of_In, list_elem_of_lookup in Hin as [j Hj]. by pose proof (H 0 (S j) a b eq_refl Hj Ha Hb).
Qed.

Lemma validate_v6_rules p :
  validate p = Ok () -> version p = SOURCE_AUTH_POLICY_VERSION ->
  validate_v6 p = Ok () /\ exists seen, try_fold validate_v6_rule (∅, ∅) (repositories p) = Ok seen.
Proof.
  unfold validate. intros H Hv. rewrite Hv in H. result_simpl.
  rewrite decide_False in H by done. split; [done|]. unfold validate_v6 in H. by result_simpl; eauto.

Qed.

Lemma v6_unique_match p claims :
  validate p = Ok () -> version p = SOURCE_AUTH_POLICY_VERSION ->
  length (List.filter (v6_rule_matches claims) (repositories p)) <= 1.
Proof.
  intros Hp Hv. destruct (validate_v6_rules p Hp Hv) as (_ & seen & Hs).
  apply filter_length_le_1. intros i j x y Hi Hj Hx Hy.
  destruct (decide (i = j)) as [|Hne]; [done|]. exfalso.
  apply v6_rule_matches_scope in Hx as [Ho Hx], Hy as [Ho' Hy].
  eapply (v6_rules_disjoint _ _ Hs i j x y); [done..|]. split; [congruence|].
  destruct Hx, Hy; [by left..|by right; left|right; right; congruence].

Qed.

Lemma exactly_one_ok {A E} (e : E) (l : list A) x : exactly_one e l = Ok x <-> l = [x].
Proof. destruct l as [|? [|]]; cbn; naive_solver. Qed.

(** An optional selector lists the value: an absent one allows every value. *)
Definition admits (selector : option (list string)) (wanted : string) : Prop :=
  forall values, selector = Some values -> wanted ∈ values.
(** A rule of a v6 policy allows the claims. *)
Record v6_allows (rule : RepositoryPolicy) (claims : GitHubClaims) : Prop := {
  allows_owner : rule_owner_id rule = repository_owner_id claims;
  allows_repository : rule_repository_id rule = "*" \/ rule_repository_id rule = repository_id claims;
  allows_subject : admits (subjects rule) (sub claims);
  allows_event : admits (events rule) (event_name claims);
  allows_ref : admits (refs rule) (git_ref claims);
  allows_job_workflow_ref : admits (job_workflow_refs rule) (job_workflow_ref claims);
  allows_job_workflow_sha : admits (job_workflow_shas rule) (job_workflow_sha claims);
}.
Lemma optional_selector_spec selector wanted :
  optional_selector_matches selector wanted = true <-> admits selector wanted.
Proof.
  unfold optional_selector_matches, admits. destruct selector as [values|]; [|naive_solver].
  rewrite existsb_exists. setoid_rewrite <- list_elem_of_In. setoid_rewrite bool_decide_eq_true. naive_solver.
Qed.
Lemma v6_rule_matches_spec claims rule : v6_rule_matches claims rule = true <-> v6_allows rule claims.
Proof.
  unfold v6_rule_matches.
  rewrite !andb_true_iff, orb_true_iff, !bool_decide_eq_true, !optional_selector_spec.
  split; [intros H; split; tauto|]. intros []. tauto.
Qed.
Lemma numeric_identifier_canonical v : numeric_identifier v = true <-> canonical_id v.
Proof.
  rewrite <- numeric_identifier_spec. unfold numeric_identifier, decimal_identifier, GithubClaims.numeric_identifier.
  rewrite !andb_true_iff. tauto.
Qed.
Lemma verified_actor_Some m i a :
  verified_actor m i = Some a <-> m !! i = Some a /\ verified a = true.
Proof.
  unfold verified_actor. destruct (m !! i) as [b|]; [|naive_solver].
  destruct (verified b) eqn:Hb; split; [by intros [= ->]|by intros [[= ->] _]|done|].
  intros [[= ->] H]. congruence.
Qed.
(** What authorization under a validated v6 policy requires. *)
Definition v6_authorized (p : Policy) (claims : GitHubClaims) : Prop :=
  canonical_id (actor_id claims)
  /\ (exists rule, rule ∈ repositories p /\ v6_allows rule claims)
  /\ (forall mapping, actors p = Some mapping -> exists a, mapping !! actor_id claims = Some a /\ verified a = true).

Lemma v6_exactly_one p claims :
  validate p = Ok () -> version p = SOURCE_AUTH_POLICY_VERSION ->
  (exists rule, rule ∈ repositories p /\ v6_allows rule claims) ->
  exists rule, exactly_one Unauthorized (List.filter (v6_rule_matches claims) (repositories p)) = Ok rule.
Proof.
  intros Hp Hv (rule & Hin & Hm%v6_rule_matches_spec). pose proof (v6_unique_match p claims Hp Hv) as Hl.
  assert (In rule (List.filter (v6_rule_matches claims) (repositories p))) as Hf
    by (apply filter_In; by rewrite <- list_elem_of_In).
  destruct (List.filter _ _) as [|r [|? ?]]; [done|by exists r|cbn in Hl; lia].
Qed.

(** A validated mapping comes with the acting-group prefix. *)
Lemma validated_prefix p mapping :
  validate p = Ok () -> actors p = Some mapping ->
  exists bounded, acting_group_prefix p = Some ACTING_PREFIX
  /\ validate_actors mapping (allowed_email_domains p) bounded = Ok ().
Proof.
  intros Hp Ha. unfold validate in Hp. result_simpl. case_decide.
  - exists false. unfold validate_v5 in Hp. rewrite Ha in Hp. result_simpl.
    match goal with H : ¬ (_ ≠ _) |- _ => apply dec_stable in H end. subst.
    case_decide; [done|]. simplify_eq.
    repeat match goal with H : _ = Some _ |- _ => rewrite H; clear H end.
    split; [done|]. by repeat match goal with u : () |- _ => destruct u end.
  - exists true. unfold validate_v6 in Hp. rewrite Ha in Hp. result_simpl.
    destruct (allowed_email_domains p), (acting_group_prefix p); try done.
    case_decide; [|done]. result_simpl. split; [by subst|].
    by repeat match goal with u : () |- _ => destruct u end.
Qed.

(** C15: Under a validated v6 policy, exactly the assertions are authorized whose
    actor ID is a canonical number, whose actor is mapped and verified where the
    policy maps actors, and that some rule allows: one for the owner and for the
    repository or all of the owner's, each of whose selectors of subjects, events,
    refs, job workflow refs and job workflow commits is absent or lists the claim.
    The rule that allows it is never ambiguous. *)
Theorem authorize_v6_complete p claims :
  validate p = Ok () -> version p = SOURCE_AUTH_POLICY_VERSION ->
  is_ok (authorize p claims) = true <-> v6_authorized p claims.
Proof.
  intros Hp Hv. unfold authorize. rewrite decide_False by (by rewrite Hv).
  rewrite decide_True by done. unfold authorize_v6, v6_authorized. rewrite <- numeric_identifier_canonical. split.
  - destruct (reject_if _ _) as [[]|] eqn:Hid; [|done]. cbn. result_simpl.
    destruct (exactly_one _ _) as [rule|] eqn:Hone; [|done]. cbn.
    apply exactly_one_ok in Hone. intros H. split_and!; [done| |].
    + exists rule. assert (In rule (List.filter (v6_rule_matches claims) (repositories p))) as Hin
        by (rewrite Hone; by left).
      apply filter_In in Hin. by rewrite list_elem_of_In, <- v6_rule_matches_spec.
    + intros m Hm. rewrite Hm in H. destruct (verified_actor m (actor_id claims)) as [a|] eqn:Ha; [|done].
      apply verified_actor_Some in Ha. by exists a.
  - intros (-> & Hr & Ha). cbn. destruct (v6_exactly_one p claims Hp Hv Hr) as [rule ->]. cbn.
    destruct (actors p) as [m|] eqn:Hm; [|done].
    destruct (Ha m eq_refl) as [a Hma%verified_actor_Some]. rewrite Hma. cbn.
    by destruct (validated_prefix p m Hp Hm) as (_ & -> & _).
Qed.

Definition sample_policy_v6 : Policy :=
  {| version := SOURCE_AUTH_POLICY_VERSION; service_group := SERVICE_PREFIX +:+ "ci";
     acting_group_prefix := Some ACTING_PREFIX; allowed_email_domains := Some ["example.com"];
     repositories :=
       [{| rule_owner_id := "10"; rule_repository_id := "*"; subjects := None; events := Some ["push"];
           refs := None; job_workflow_refs := None; job_workflow_shas := None |};
        {| rule_owner_id := "11"; rule_repository_id := "5"; subjects := None; events := None;
           refs := None; job_workflow_refs := None; job_workflow_shas := None |}];
     actors := Some (list_to_map sample_actors) |}.

Lemma authorize_v6_complete_witness :
  validate sample_policy_v6 = Ok ()
  /\ (is_ok (authorize sample_policy_v6 sample_claims) = true
      <-> v6_authorized sample_policy_v6 sample_claims)
  /\ is_ok (authorize sample_policy_v6 sample_claims) = true.
Proof.
  split_and!; [by vm_compute| |by vm_compute].
  apply (authorize_v6_complete sample_policy_v6 sample_claims); by vm_compute.
Defined.

(** ** The identity an authorization yields *)
(** The three groups of a mapped actor, in byte order. *)
Lemma actor_groups_spec p prefix a :
  actor_groups p prefix a ≡ₚ
    [service_group p; prefix +:+ actor_email a; CANONICAL_USER_PREFIX +:+ canonical_user_id_of a]
  /\ Sorted String.le (actor_groups p prefix a).
Proof. split; [apply sort_strings_perm|apply sort_strings_sorted]. Qed.

(** What every identity carries over from the claims and the mapping. *)
Record identity_of (p : Policy) (claims : GitHubClaims) (i : Identity) : Prop := {
  identity_actor_id : id_actor_id i = actor_id claims;
  identity_subject : id_subject i = "github-actions:actor:" +:+ actor_id claims;
  identity_contract_ok : id_identity_contract i = identity_contract p;
  identity_repository :
    id_repository i = repository_owner_id claims +:+ "/" +:+ repository_id claims;
  identity_workflow : id_workflow_ref i = workflow_ref claims;
  identity_job_workflow : id_job_workflow_ref i = job_workflow_ref claims;
  identity_login :
    id_actor_login i = (if decide (version p = POLICY_VERSION) then None else Some (actor claims));
  identity_email :
    match actors p with
    | None => id_email i = None /\ id_email_verified i = None /\ id_groups i = None
    | Some mapping =>
        exists a prefix, mapping !! actor_id claims = Some a /\ verified a = true
          /\ acting_group_prefix p = Some prefix
          /\ id_email i = Some (actor_email a) /\ id_email_verified i = Some true
          /\ id_groups i = Some (actor_groups p prefix a)
    end;
}.

Lemma v5_rule_matches_ids claims r :
  v5_rule_matches claims r = true ->
  rule_owner_id r = repository_owner_id claims /\ rule_repository_id r = repository_id claims.
Proof. unfold v5_rule_matches. intros H. by result_simpl. Qed.

Lemma authorize_identity_of p claims i : authorize p claims = Ok i -> identity_of p claims i.
Proof.
  unfold authorize. case_decide as H5; [|case_decide as H6; [|done]].
  - unfold authorize_v5. intros H. result_simpl.
    match goal with H : exactly_one _ _ = _ |- _ => apply exactly_one_ok in H as Hr end.
    assert (In x0 (List.filter (v5_rule_matches claims) (repositories p))) as Hin
      by (rewrite Hr; by left).
    apply filter_In in Hin as [_ [Ho Hrepo]%v5_rule_matches_ids].
    match goal with H : actors p ≫= _ = _ |- _ => apply bind_Some in H as (m & Hm & Hv) end.
    apply verified_actor_Some in Hv as [Hl Hv].
    split; cbn; rewrite ?Ho, ?Hrepo; try done.
    + unfold identity_contract. by rewrite H5.
    + by rewrite H5.
    + rewrite Hm. rewrite Hv. eauto 10.
  - unfold authorize_v6. intros H. result_simpl.
    destruct (actors p) as [m|] eqn:Hm; cbn in *.
    + destruct (verified_actor m (actor_id claims)) as [a|] eqn:Ha; cbn in *; [|done].
      apply verified_actor_Some in Ha as [Hl Hv]. simplify_eq. result_simpl.
      split; cbn; try done.
      * unfold identity_contract. by rewrite H6.
      * by rewrite decide_False.
      * rewrite Hm. eauto 10.
    + simplify_eq. result_simpl. split; cbn; try done.
      * unfold identity_contract. by rewrite H6.
      * by rewrite decide_False.
      * by rewrite Hm.
Qed.

(** The canonical-user group that identifies a mapped actor. *)
Definition canonical_group (a : Actor) : string := CANONICAL_USER_PREFIX +:+ canonical_user_id_of a.

Lemma validated_service_group p :
  validate p = Ok () -> exists s, service_group p = SERVICE_PREFIX +:+ s.
Proof.
  unfold validate. intros H. result_simpl.
  match goal with H : starts_with _ _ = true |- _ => by apply starts_with_true in H end.
Qed.

(** Identities cannot be shared through groups: under a validated policy,
    when two assertions of different actors are authorized with groups, each
    carries its own actor's canonical-user group and not the other's. *)
Theorem canonical_groups_separate p c1 c2 i1 i2 g1 g2 :
  validate p = Ok () ->
  authorize p c1 = Ok i1 -> authorize p c2 = Ok i2 -> actor_id c1 <> actor_id c2 ->
  id_groups i1 = Some g1 -> id_groups i2 = Some g2 ->
  exists a mapping, actors p = Some mapping /\ mapping !! actor_id c1 = Some a
    /\ canonical_group a ∈ g1 /\ canonical_group a ∉ g2.
Proof.
  intros Hp H1%authorize_identity_of%identity_email H2%authorize_identity_of%identity_email Hne Hg1 Hg2.
  destruct (actors p) as [m|] eqn:Hm; [|destruct H1 as (_ & _ & ?); congruence].
  destruct H1 as (a & pre & Ha & _ & Hpre & _ & _ & Hi1), H2 as (b & pre2 & Hb & _ & Hpre2 & _ & _ & Hi2).
  destruct (validated_prefix p m Hp Hm) as (bounded & Hpre' & Hv). simplify_eq.
  exists a, m. split_and!; [done..| |].
  - rewrite (proj1 (actor_groups_spec _ _ _)). set_solver.
  - rewrite (proj1 (actor_groups_spec _ _ _)).
    destruct (validated_service_group p Hp) as [s ->]. unfold canonical_group.
    rewrite !elem_of_cons. intros [Hc|[Hc|[Hc|Hc]]].
    + by unfold CANONICAL_USER_PREFIX, SERVICE_PREFIX in Hc.
    + by unfold CANONICAL_USER_PREFIX, ACTING_PREFIX in Hc.
    + apply (inj _) in Hc. by pose proof (validate_actors_inj _ _ _ _ _ _ _ Hv Ha Hb Hc).
    + set_solver.
Qed.

Definition sample_claims_2 : GitHubClaims :=
  {| iss := iss sample_claims; sub := sub sample_claims; aud := aud sample_claims;
     exp := exp sample_claims; iat := iat sample_claims; nbf := nbf sample_claims; jti := "jti-2";
     actor_id := "7"; actor := "hubot"; repository := repository sample_claims;
     repository_id := repository_id sample_claims;
     repository_owner_id := repository_owner_id sample_claims; sha := sha sample_claims;
     run_id := run_id sample_claims; run_attempt := 2;
     workflow_ref := workflow_ref sample_claims; workflow_sha := workflow_sha sample_claims;
     job_workflow_ref := job_workflow_ref sample_claims;
     job_workflow_sha := job_workflow_sha sample_claims; event_name := "push";
     git_ref := git_ref sample_claims |}.

Lemma canonical_groups_separate_witness :
  exists i1 i2 g1 g2,
    authorize sample_policy_v6 sample_claims = Ok i1
    /\ authorize sample_policy_v6 sample_claims_2 = Ok i2
    /\ id_groups i1 = Some g1 /\ id_groups i2 = Some g2
    /\ exists a mapping, actors sample_policy_v6 = Some mapping
         /\ mapping !! actor_id sample_claims = Some a
         /\ canonical_group a ∈ g1 /\ canonical_group a ∉ g2.
Proof.
  do 4 eexists. split_and!; [by vm_compute..|].
  eapply (canonical_groups_separate sample_policy_v6 sample_claims sample_claims_2); by vm_compute.
Defined.

(** ** Fail-closed authorization *)
(** C16: A v5 policy authorizes only mapped, verified actors of a repository whose
    unique matching rule lists the subject, the event and the ref exactly. *)
Theorem authorize_v5_sound p claims i :
  version p = POLICY_VERSION -> authorize p claims = Ok i ->
  (exists mapping a, actors p = Some mapping /\ mapping !! actor_id claims = Some a
     /\ verified a = true /\ id_email i = Some (actor_email a))
  /\ exists rule, List.filter (v5_rule_matches claims) (repositories p) = [rule]
     /\ rule_owner_id rule = repository_owner_id claims
     /\ rule_repository_id rule = repository_id claims
     /\ (exists l, subjects rule = Some l /\ sub claims ∈ l)
     /\ (exists l, events rule = Some l /\ event_name claims ∈ l)
     /\ (exists l, refs rule = Some l /\ git_ref claims ∈ l).
Proof.
  assert (forall o s, selector_matches o s = true -> exists l, o = Some l /\ s ∈ l) as Hsel.
  { intros [l|] s; cbn; [|done]. rewrite existsb_exists. intros (y & Hy & He).
    apply bool_decide_eq_true in He as ->. apply list_elem_of_In in Hy. eauto. }
  intros Hv. unfold authorize. rewrite decide_True by done. unfold authorize_v5. intros H.
  result_simpl. cbn. split.
  - match goal with H : actors p ≫= _ = _ |- _ => apply bind_Some in H as (m & Hm & Ha) end.
    apply verified_actor_Some in Ha as []. eauto 10.
  - match goal with H : exactly_one _ _ = Ok ?r |- _ => apply exactly_one_ok in H as Hr; exists r;
      assert (In r (List.filter (v5_rule_matches claims) (repositories p))) as Hin by (rewrite Hr; by left) end.
    apply filter_In in Hin as [_ Hm]. unfold v5_rule_matches in Hm. result_simpl. auto 10.
Qed.

Definition sample_policy_v5 : Policy :=
  {| version := POLICY_VERSION; service_group := SERVICE_PREFIX +:+ "ci";
     acting_group_prefix := Some ACTING_PREFIX; allowed_email_domains := Some ["example.com"];
     repositories :=
       [{| rule_owner_id := "10"; rule_repository_id := "5";
           subjects := Some ["repo:octo/app:ref:refs/heads/main"]; events := Some ["push"];
           refs := Some ["refs/heads/main"]; job_workflow_refs := None; job_workflow_shas := None |}];
     actors := Some (list_to_map sample_actors) |}.
Lemma authorize_v5_sound_witness :
  exists i, validate sample_policy_v5 = Ok () /\ authorize sample_policy_v5 sample_claims = Ok i
  /\ exists rule, List.filter (v5_rule_matches sample_claims) (repositories sample_policy_v5) = [rule].
Proof.
  eexists. split_and!; [by vm_compute..|].
  edestruct (authorize_v5_sound sample_policy_v5 sample_claims) as [_ (rule & Hr & _)];
    [reflexivity|by vm_compute|]. by exists rule.
Defined.
