(* ===== verification/Replay.v ===== *)
(** * The Kubernetes Lease replay ledger (replay.rs)

    One Lease per assertion identifier records its use.  This file holds the
    ledger's operations as programs over the events of [State]: the creation of
    the record, the reclaim of an expired one, the best-effort clean-up and the
    cached readiness probe.  [ReplaySafety] proves what several replicas
    together guarantee. *)
From Stdlib Require Import Ascii.
From S2P Require Import Prelude Text Prog Libs State Concrete.

Definition LEASE_API_PATH : string := "/apis/coordination.k8s.io/v1/namespaces".
Definition LEDGER_LABEL : string := "github-oidc-exchange.apelogic.io/replay-ledger".
Definition LEDGER_VERSION : string := "v1".
Definition LEASE_RETENTION_SECONDS : Z := 300.
Definition MAX_LEASE_DURATION_SECONDS : Z := 960.
Definition MAX_CLEANUP_PER_EXCHANGE : nat := 1.
Definition MAX_CLEANUP_PAGES_PER_EXCHANGE : nat := 2.
Definition CLEANUP_PAGE_SIZE : Z := 50.
Definition READINESS_LEASE_NAME : string := "github-oidc-exchange-readiness".
Definition READINESS_CACHE_TTL : Z := 30 * ns_per_s.
Definition HOLDER_IDENTITY : string := "github-oidc-exchange-replay-ledger".

Inductive ReplayError :=
| Replayed
| Unavailable
| Configuration (detail : string).
#[export] Instance ReplayError_eq_dec : EqDecision ReplayError.
Proof. solve_decision. Defined.
Inductive CreateResult := Created | CreateConflict.
Inductive UpdateResult := Updated | UpdateConflict.
Definition configuration (detail : string) : ReplayError := Configuration detail.

(** The interface the exchange services use (trait [ReplayLedger]). *)
Class ReplayLedger `{!Jwt} := {
  ledger_use_once : string -> Z -> io (result ReplayError ());
  ledger_check_ready : io (result ReplayError ());
}.

Record KubernetesLeaseReplayLedger := {
  collection_url : Url;
  credential_file : string;
}.

(** ** Pure parts *)
Definition owned_ledger_lease (lease : Lease) : bool :=
  match labels (metadata lease) !! LEDGER_LABEL with
  | Some value => bool_decide (value = LEDGER_VERSION)
  | None => false
  end && bool_decide (holder_identity (spec lease) = HOLDER_IDENTITY).

Definition valid_dns_label (value : string) : bool :=
  negb (is_empty value)
  && bool_decide (len value <= 63)
  && negb (starts_with value "-")
  && negb (ends_with value "-")
  && bytes_all (fun byte => is_ascii_lowercase byte || is_ascii_digit byte
                            || bool_decide (byte = "-"%char)) value.

Definition with_resource_version (resource_version : string) : DeleteOptions :=
  {| delete_api_version := "v1"; delete_kind := "DeleteOptions";
     preconditions := {| precondition_resource_version := resource_version |} |}.

(** The lease with another resource version (an update of a clone). *)
Definition set_resource_version (lease : Lease) (v : option string) : Lease :=
  {| api_version := api_version lease; kind := kind lease;
     metadata := {| name := name (metadata lease); resource_version := v;
                    labels := labels (metadata lease) |};
     spec := spec lease |}.

Section pure.
Context `{!Sha2, !Chrono}.

Definition lease_name (jti : string) : string :=
  "replay-" +:+ String.substring 0 56 (hex (sha256 jti)).

Definition retained_until (expires_at now : Z) : result ReplayError datetime :=
  retained ← ok_or Unavailable (i64_checked_add expires_at LEASE_RETENTION_SECONDS);
  lease_duration ← ok_or Unavailable (i64_checked_sub retained now);
  _ ← reject_if (bool_decide (lease_duration <= 0)%Z
                 || bool_decide (MAX_LEASE_DURATION_SECONDS < lease_duration)%Z) Unavailable;
  ok_or Unavailable (from_timestamp retained).

Definition timestamp (value : datetime) : string := to_rfc3339_micros value.

Definition expired (lease : Lease) (now : datetime) : bool :=
  if negb (owned_ledger_lease lease) || bool_decide (lease_duration_seconds (spec lease) <= 0)%Z
  then false
  else match parse_from_rfc3339 (renew_time (spec lease)) with
       | None => false
       | Some renewed_at =>
           bool_decide (renewed_at + lease_duration_seconds (spec lease) * ns_per_s <= now)%Z
       end.

Definition expired_owned_leases (leases : list Lease) (now : datetime) : list Lease :=
  List.filter (fun lease => owned_ledger_lease lease && expired lease now) leases.

(** [try_into] an [i32]. *)
Definition to_i32 (z : Z) : option Z :=
  if bool_decide (- 2 ^ 31 <= z <= 2 ^ 31 - 1)%Z then Some z else None.

(** [Lease::new]. *)
Definition Lease_new (name : string) (retained_until now : datetime) : result ReplayError Lease :=
  duration ← ok_or Unavailable (to_i32 (num_seconds (retained_until - now)));
  Ok {| api_version := "coordination.k8s.io/v1"; kind := "Lease";
        metadata := {| name := name; resource_version := None;
                       labels := {[LEDGER_LABEL := LEDGER_VERSION]} |};
        spec := {| holder_identity := HOLDER_IDENTITY;
                   lease_duration_seconds := duration;
                   acquire_time := timestamp now; renew_time := timestamp now |} |}.
End pure.

(** ** The in-cluster configuration *)
Section in_cluster.
Context `{!Jwt, !UrlLib, !Reqwest}.
(** [env::var]: the process environment. *)
Context (env : string -> option string).

Definition in_cluster (namespace : string) : io (result ReplayError KubernetesLeaseReplayLedger) :=
  if negb (valid_dns_label namespace) then
    mret (Err (configuration "REPLAY_LEASE_NAMESPACE must be a valid DNS label"))
  else
  match env "KUBERNETES_SERVICE_HOST" with
  | None => mret (Err (configuration "KUBERNETES_SERVICE_HOST is missing"))
  | Some host =>
  if is_empty host || contains_char host "/" || contains_char host "?" || contains_char host "#" then
    mret (Err (configuration "KUBERNETES_SERVICE_HOST is invalid"))
  else
  let port := default "443" (env "KUBERNETES_SERVICE_PORT_HTTPS") in
  if bool_decide (parse_uint 65535 port = None) then
    mret (Err (configuration "KUBERNETES_SERVICE_PORT_HTTPS is not a valid port"))
  else
  let authority := if contains_char host ":" then "[" +:+ host +:+ "]" else host in
  let text := "https://" +:+ authority +:+ ":" +:+ port +:+ LEASE_API_PATH +:+ "/" +:+ namespace
              +:+ "/leases" in
  match url_parse text with
  | None => mret (Err (configuration ("Kubernetes Lease URL is invalid: " +:+ url_error text)))
  | Some collection =>
  let ca_file := default "/var/run/secrets/kubernetes.io/serviceaccount/ca.crt"
                   (env "KUBERNETES_CA_CERTIFICATE_FILE") in
  let credential := default "/var/run/secrets/kubernetes.io/serviceaccount/token"
                      (env "KUBERNETES_SERVICE_ACCOUNT_TOKEN_FILE") in
  pem ← trigger (ReadFile ca_file);
  mret (
    pem ← map_err (fun error => configuration
            ("cannot read Kubernetes CA certificate " +:+ ca_file +:+ ": " +:+ error)) pem;
    _ ← map_err (fun error => configuration
            ("Kubernetes CA certificate " +:+ ca_file +:+ " is invalid: " +:+ error))
          (certificate_from_pem pem);
    _ ← map_err (fun error => configuration
            ("cannot initialize Kubernetes Lease client: " +:+ error)) (client_build (Some pem));
    Ok {| collection_url := collection; credential_file := credential |})
  end
  end.
End in_cluster.

(** ** Requests *)
Section requests.
Context `{!Jwt, !UrlLib, !Sha2, !Chrono}.
Context (self : KubernetesLeaseReplayLedger).

Definition credential : io (result ReplayError string) :=
  contents ← trigger (ReadFile (credential_file self));
  mret match contents with
       | Err _ => Err Unavailable
       | Ok contents =>
           let credential := trim contents in
           if is_empty credential then Err Unavailable else Ok credential
       end.

Definition item_url (name : string) : result ReplayError Url :=
  ok_or Unavailable (url_parse (url_as_str (collection_url self) +:+ "/" +:+ name)).

Definition create_lease (lease : Lease) : io (result ReplayError CreateResult) :=
  credential ←? credential;
  response ← trigger (LeasePost credential lease);
  mret match response with
       | Some status => if decide (status = 201)%Z then Ok Created
                        else if decide (status = 409)%Z then Ok CreateConflict
                        else Err Unavailable
       | None => Err Unavailable
       end.

Definition get_lease (name : string) : io (result ReplayError (option Lease)) :=
  credential ←? credential;
  _ ←? mret (item_url name);
  response ← trigger (LeaseGet credential name);
  mret match response with
       | Some (status, body) =>
           if decide (status = 200)%Z then Some <$> ok_or Unavailable body
           else if decide (status = 404)%Z then Ok None
           else Err Unavailable
       | None => Err Unavailable
       end.

Definition update_lease (name : string) (lease : Lease) : io (result ReplayError UpdateResult) :=
  credential ←? credential;
  _ ←? mret (item_url name);
  response ← trigger (LeasePut credential name lease);
  mret match response with
       | Some status => if decide (status = 200)%Z then Ok Updated
                        else if decide (status = 409)%Z then Ok UpdateConflict
                        else Err Unavailable
       | None => Err Unavailable
       end.

Definition list_leases (continue_token : option string) : io (result ReplayError LeaseList) :=
  credential ←? credential;
  let query := [("labelSelector", LEDGER_LABEL +:+ "=" +:+ LEDGER_VERSION);
                ("limit", decimal CLEANUP_PAGE_SIZE)]
               ++ match continue_token with Some token => [("continue", token)] | None => [] end in
  response ← trigger (LeaseGetPage credential query);
  mret match response with
       | Some (status, body) =>
           if decide (status = 200)%Z then ok_or Unavailable body else Err Unavailable
       | None => Err Unavailable
       end.

Definition delete_lease (name resource_version : string) : io (result ReplayError ()) :=
  credential ←? credential;
  _ ←? mret (item_url name);
  response ← trigger (LeaseDelete credential name (with_resource_version resource_version));
  mret match response with
       | Some status =>
           if decide (status = 200 \/ status = 202 \/ status = 404 \/ status = 409)%Z
           then Ok () else Err Unavailable
       | None => Err Unavailable
       end.

(** ** Reclaiming an expired record *)
(** The attempts left of [0..=1]; the update of the last one may not conflict. *)
Fixpoint reclaim_attempts (attempts : nat) (name : string) (replacement : Lease) (now : datetime) :
  io (result ReplayError ()) :=
  match attempts with
  | 0 => mret (Err Unavailable)
  | S attempts =>
      existing ←? get_lease name;
      match existing with
      | None =>
          created ←? create_lease replacement;
          mret match created with Created => Ok () | CreateConflict => Err Unavailable end
      | Some existing =>
          if negb (expired existing now) then mret (Err Replayed)
          else match resource_version (metadata existing) with
               | None => mret (Err Unavailable)
               | Some resource_version =>
                   if is_empty resource_version then mret (Err Unavailable)
                   else
                     updated ←? update_lease name (set_resource_version replacement (Some resource_version));
                     match updated with
                     | Updated => mret (Ok ())
                     | UpdateConflict =>
                         if decide (attempts = 0) then mret (Err Unavailable)
                         else reclaim_attempts attempts name replacement now
                     end
               end
      end
  end.
Definition reclaim_expired := reclaim_attempts 2.

(** ** Best-effort clean-up *)
Definition cleanup_continue : io (option string) := load CleanupContinue.
Definition set_cleanup_continue (token : option string) : io () := store CleanupContinue token.

(** The loop over the candidates of one page: whether it returned. *)
Fixpoint cleanup_candidates (candidates : list Lease) (now : datetime) : io bool :=
  match candidates with
  | [] => mret false
  | lease :: rest =>
      current ← get_lease (name (metadata lease));
      match current with
      | Ok (Some current) =>
          if negb (owned_ledger_lease current) || negb (expired current now)
          then cleanup_candidates rest now
          else match resource_version (metadata current) with
               | None => cleanup_candidates rest now
               | Some resource_version =>
                   _ ← delete_lease (name (metadata lease)) resource_version; mret true
               end
      | _ => cleanup_candidates rest now
      end
  end.

Fixpoint cleanup_pages (pages : nat) (continue_token : option string) (now : datetime) : io () :=
  match pages with
  | 0 => mret ()
  | S pages =>
      leases ← list_leases continue_token;
      match leases with
      | Err _ => set_cleanup_continue None
      | Ok leases =>
          let token := State.continue_token (list_metadata leases) in
          let next_continue := if is_empty token then None else Some token in
          _ ← set_cleanup_continue next_continue;
          returned ← cleanup_candidates
                       (take MAX_CLEANUP_PER_EXCHANGE (expired_owned_leases (items leases) now)) now;
          if (returned : bool) then mret ()
          else match next_continue with
               | None => mret ()
               | Some next => cleanup_pages pages (Some next) now
               end
      end
  end.
Definition cleanup_one (now : datetime) : io () :=
  token ← cleanup_continue; cleanup_pages MAX_CLEANUP_PAGES_PER_EXCHANGE token now.

(** ** The ledger's two operations *)
Definition use_once (jti : string) (expires_at : Z) : io (result ReplayError ()) :=
  now ← utc_now;
  retained ←? mret (retained_until expires_at (timestamp_of now));
  lease ←? mret (Lease_new (lease_name jti) retained now);
  created ←? create_lease lease;
  match created with
  | Created => _ ← cleanup_one now; mret (Ok ())
  | CreateConflict =>
      _ ←? reclaim_expired (name (metadata lease)) lease now;
      _ ← cleanup_one now;
      mret (Ok ())
  end.

(** [Instant::elapsed]. *)
Definition elapsed (now since : Z) : Z := Z.max 0 (now - since).

Definition check_ready : io (result ReplayError ()) :=
  with_lock ReadinessLock (
    readiness ← load Readiness;
    cached ← match checked_at readiness with
             | Some checked_at =>
                 now ← trigger InstantNow;
                 mret (bool_decide (elapsed now checked_at < READINESS_CACHE_TTL)%Z)
             | None => mret false
             end;
    if (cached : bool) then mret (if ready readiness then Ok () else Err Unavailable)
    else
      got ← get_lease READINESS_LEASE_NAME;
      late ← trigger TimeoutElapsed;
      let result : result ReplayError () :=
        if (late : bool) then Err Unavailable
        else match got with Ok _ => Ok () | Err e => Err e end in
      checked ← trigger InstantNow;
      _ ← store Readiness {| checked_at := Some checked; ready := is_ok result |};
      mret result).

#[export] Instance kubernetes_ledger : ReplayLedger := {|
  ledger_use_once := use_once;
  ledger_check_ready := check_ready;
|}.
End requests.

(** ** Lease names *)
Lemma hex_digit_code n :
  (n < 16)%N -> N_of_ascii (hex_digit n) = (if decide (n < 10)%N then 48 + n else 87 + n)%N.
Proof. intros Hn. unfold hex_digit. apply N_ascii_embedding. case_decide; lia. Qed.
Lemma hex_byte b1 b2 :
  (b1 < 256)%N -> (b2 < 256)%N ->
  hex_digit (b1 / 16) = hex_digit (b2 / 16) -> hex_digit (b1 mod 16) = hex_digit (b2 mod 16) -> b1 = b2.
Proof.
  assert (forall x y, (x < 16)%N -> (y < 16)%N -> hex_digit x = hex_digit y -> x = y) as Hd.
  { intros x y Hx Hy H. apply (f_equal N_of_ascii) in H.
    rewrite (hex_digit_code x), (hex_digit_code y) in H by done. repeat case_decide; lia. }
  intros H1 H2 Ha Hb.
  apply Hd in Ha; [|apply N.Div0.div_lt_upper_bound; lia..].
  apply Hd in Hb; [|by apply N.mod_lt..].
  rewrite (N.div_mod b1 16), (N.div_mod b2 16) by done. by rewrite Ha, Hb.
Qed.
Lemma hex_inj l1 l2 :
  Forall (fun b => (b < 256)%N) l1 -> Forall (fun b => (b < 256)%N) l2 -> hex l1 = hex l2 -> l1 = l2.
Proof.
  revert l2. induction l1 as [|b1 l1 IH]; intros [|b2 l2] F1 F2; try done.
  cbn [hex]. inversion F1; inversion F2; subst. intros [= Ha Hb Hl].
  f_equal; [by apply hex_byte|by apply IH].
Qed.
Lemma len_hex l : len (hex l) = 2 * length l.
Proof. unfold len. induction l as [|b l IH]; [done|]. cbn in *. lia. Qed.
Lemma substring_hex n l : String.substring 0 (2 * n) (hex l) = hex (take n l).
Proof.
  revert l. induction n as [|n IH]; intros l; [by destruct (hex l)|].
  replace (2 * S n) with (S (S (2 * n))) by lia. destruct l as [|b l]; [done|]. cbn [hex String.substring take].
  by rewrite IH.
Qed.
Lemma hex_digit_lower n : (n < 16)%N -> is_lower_hex (hex_digit n) = true.
Proof.
  intros Hn. unfold is_lower_hex, is_ascii_digit, byte_of. rewrite hex_digit_code by done.
  case_decide;
 [by rewrite bool_decide_true by lia|].
  rewrite orb_true_iff. right. apply bool_decide_eq_true. lia.
Qed.
Lemma hex_lower l : Forall (fun b => (b < 256)%N) l -> bytes_all is_lower_hex (hex l) = true.
Proof.
  induction 1 as [|b l Hb _ IH]; [done|]. cbn [hex bytes_all].
  rewrite !hex_digit_lower; [done| |]; [by apply N.mod_lt|apply N.Div0.div_lt_upper_bound; lia].
Qed.

Section pure_theorems.
Context `{sha : Sha2, !Sha2Laws, chrono : Chrono, !ChronoLaws}.

Lemma lease_name_hex jti : lease_name jti = "replay-" +:+ hex (take 28 (sha256 jti)).
Proof. unfold lease_name. by rewrite <- substring_hex. Qed.
Lemma sha_take_length jti : length (take 28 (sha256 jti)) = 28.
Proof. rewrite length_take, sha256_length. done. Qed.

(** Every assertion identifier gives a valid Lease name (a DNS label of 63
    bytes), and two identifiers share it only if their SHA-256 digests agree on
    the first 28 bytes. *)
Theorem lease_name_spec a b :
  (len (lease_name a) = 63 /\ valid_dns_label (lease_name a) = true)
  /\ (lease_name a = lease_name b <-> take 28 (sha256 a) = take 28 (sha256 b)).
Proof.
  assert (forall x, Forall (fun b => (b < 256)%N) (take 28 (sha256 x))) as HB
    by (intros x; apply Forall_take, sha256_bytes).

  rewrite !lease_name_hex. assert (len ("replay-" +:+ hex (take 28 (sha256 a))) = 63) as Hl.
  { by rewrite len_app, len_hex, sha_take_length. }
  split; [split; [done|]|].
  - unfold valid_dns_label. rewrite Hl.
    set (x := hex (take 28 (sha256 a))) in *.
    assert (bytes_all is_lower_hex x = true) as Hx by (apply hex_lower, HB).
    assert (bytes_all (fun byte => is_ascii_lowercase byte || is_ascii_digit byte
              || bool_decide (byte = "-"%char)) ("replay-" +:+ x) = true) as ->.
    { rewrite bytes_all_app. cbn. eapply bytes_all_impl; [|exact Hx]. intros c Hc.
      unfold is_lower_hex in Hc. apply orb_prop in Hc as [->|Hc]; [by rewrite orb_true_r|].
      apply bool_decide_eq_true in Hc. unfold is_ascii_lowercase.
      rewrite bool_decide_true by lia. done. }
    assert (ends_with ("replay-" +:+ x) "-" = false) as ->; [|by rewrite bool_decide_true by lia].
    destruct (ends_with _ _) eqn:E; [|done]. apply ends_with_true in E as [r Hr]. exfalso.
    assert (exists y, x = y +:+ "-") as [y Hy].
    { assert (len r = 62) as Hlr by (rewrite Hr, len_app in Hl; change (len "-") with 1 in Hl; lia).
      destruct r as [|c1 [|c2 [|c3 [|c4 [|c5 [|c6 [|c7 r]]]]]]]; try done.
      exists r. rewrite !app_cons in Hr. by injection Hr. }
    rewrite Hy, bytes_all_app in Hx. by rewrite andb_comm in Hx.
  - split; [|by intros ->]. intros Heq%(inj _). by apply hex_inj in Heq.
Qed.

(** ** How long a record is kept *)
Lemma expired_spec l t :
  expired l t = true <->
  owned_ledger_lease l = true /\ (0 < lease_duration_seconds (spec l))%Z
  /\ exists r, parse_from_rfc3339 (renew_time (spec l)) = Some r
       /\ (r + lease_duration_seconds (spec l) * ns_per_s <= t)%Z.
Proof.
  unfold expired. destruct (owned_ledger_lease l); cbn [negb orb]; [|naive_solver].
  case_bool_decide; [naive_solver lia|].
  destruct (parse_from_rfc3339 _) as [r|]; [|naive_solver].
  rewrite bool_decide_eq_true. naive_solver lia.
Qed.
Lemma expired_owned l t : expired l t = true -> owned_ledger_lease l = true.
Proof. by intros [? _]%expired_spec. Qed.
Lemma expired_monotone l t1 t2 : (t1 <= t2)%Z -> expired l t1 = true -> expired l t2 = true.
Proof. rewrite !expired_spec. naive_solver lia. Qed.

Lemma Lease_new_fields nm ret now l :
  Lease_new nm ret now = Ok l ->
  name (metadata l) = nm /\ resource_version (metadata l) = None
  /\ owned_ledger_lease l = true
  /\ lease_duration_seconds (spec l) = Z.quot (ret - now) ns_per_s
  /\ renew_time (spec l) = to_rfc3339_micros now.
Proof.
  unfold Lease_new. rewrite num_seconds_spec. intros Hok. result_simpl.
  match goal with H : to_i32 _ = Some _ |- _ => unfold to_i32 in H; case_bool_decide; simplify_eq end.
  by split_and!.
Qed.

(** A record is not expired until about a second before its retention ends... *)
Lemma Lease_new_kept nm ret now l t :
  Lease_new nm ret now = Ok l -> (t <= ret - ns_per_s - 1000)%Z -> expired l t = false.
Proof.
  intros (_ & _ & _ & Hd & Hr)%Lease_new_fields Ht.
  apply not_true_is_false. rewrite expired_spec, Hd, Hr. unfold ns_per_s in *.
  intros (_ & Hpos & r & Hp & Hle). destruct (rfc3339_round_trip now) as (d & Hd' & ->).
  simplify_eq. pose proof (Z.quot_rem' (ret - now) 1000000000).
  destruct (decide (0 <= ret - now)%Z).
  - pose proof (Z.rem_bound_pos (ret - now) 1000000000). pose proof (Z.div_mod now 1000).
    pose proof (Z.mod_pos_bound now 1000). lia.
  - assert (Z.quot (ret - now) 1000000000 <= 0)%Z; [|lia].
    rewrite <- (Z.opp_involutive (ret - now)), Z.quot_opp_l by done.
    pose proof (Z.quot_pos (- (ret - now)) 1000000000). lia.
Qed.
(** ... and it is from then on, when its duration is at least one second. *)
Lemma Lease_new_expires nm ret now l t :
  Lease_new nm ret now = Ok l -> (0 < lease_duration_seconds (spec l))%Z -> (ret <= t)%Z ->
  expired l t = true.
Proof.
  intros (_ & _ & Ho & Hd & Hr)%Lease_new_fields Hpos Ht. apply expired_spec.
  split_and!; [done..|]. destruct (rfc3339_round_trip now) as (d & Hd' & ->). rewrite Hr.
  eexists. split; [done|]. rewrite Hd in *. unfold ns_per_s in *.
  pose proof (Z.quot_rem' (ret - now) 1000000000).
  destruct (decide (0 <= ret - now)%Z).
  - pose proof (Z.rem_bound_pos (ret - now) 1000000000). pose proof (Z.div_mod now 1000).
    pose proof (Z.mod_pos_bound now 1000). lia.
  - assert (Z.quot (ret - now) 1000000000 <= 0)%Z; [|lia].
    rewrite <- (Z.opp_involutive (ret - now)), Z.quot_opp_l by done.
    pose proof (Z.quot_pos (- (ret - now)) 1000000000). lia.
Qed.

Lemma retained_until_spec e now ret :
  retained_until e now = Ok ret ->
  ret = ((e + 300) * ns_per_s)%Z /\ is_i64 (e + 300) /\ (0 < e + 300 - now <= 960)%Z.
Proof.
  unfold retained_until, LEASE_RETENTION_SECONDS, MAX_LEASE_DURATION_SECONDS. intros Hok. result_simpl.
  repeat match goal with
  | H : i64_checked_add _ _ = Some _ |- _ => apply i64_checked_add_Some in H as [-> ?]
  | H : i64_checked_sub _ _ = Some _ |- _ => apply i64_checked_sub_Some in H as [-> ?]
  | H : from_timestamp _ = Some _ |- _ => apply from_timestamp_Some in H
  end. split_and!; [done..|lia|lia].
Qed.

(** C27: the record of an assertion that expires at [e] lasts at most 960
    seconds, stays unexpired (so the assertion stays unusable and the record is
    not cleaned up) until a microsecond before [e + 299] seconds, and has
    expired by [e + 300]. *)
Theorem record_retention nm e now ret l :
  retained_until e (timestamp_of now) = Ok ret -> Lease_new nm ret now = Ok l ->
  (0 <= lease_duration_seconds (spec l) <= 960)%Z
  /\ (forall t, (t <= (e + 299) * ns_per_s - 1000)%Z -> expired l t = false)
  /\ (forall t, (0 < lease_duration_seconds (spec l))%Z -> ((e + 300) * ns_per_s <= t)%Z ->
        expired l t = true).
Proof.
  intros (-> & _ & Hb)%retained_until_spec Hl. rewrite timestamp_of_spec in Hb.
  pose proof (Lease_new_fields _ _ _ _ Hl) as (_ & _ & _ & Hd & _).
  assert (now < (e + 300) * ns_per_s <= now + 961 * ns_per_s)%Z as Hnow.
  { unfold ns_per_s in *. pose proof (Z.div_mod now 1000000000).
    pose proof (Z.mod_pos_bound now 1000000000). lia. }
  split_and!.
  - rewrite Hd. apply Z.quot_pos; [lia|done].
  - rewrite Hd, Z.quot_div_nonneg by (unfold ns_per_s in *; lia).
    unfold ns_per_s in *. pose proof (Z.div_mod now 1000000000).
    pose proof (Z.mod_pos_bound now 1000000000).
    enough ((e + 300) * 1000000000 - now < 961 * 1000000000)%Z by (apply Z.lt_succ_r; by apply Z.div_lt_upper_bound).
    lia.
  - intros t Ht. eapply Lease_new_kept; [done|]. unfold ns_per_s in *. lia.
  - intros t Hpos Ht. eapply Lease_new_expires; [done..|]. lia.
Qed.
End pure_theorems.

(** ** What the ledger writes

    [records n]: an acknowledged write of the record [n].  [got] and [read_clock]
    extract what an event told the program. *)
Section observations.
Context `{!Jwt}.

Definition records (n : string) (o : obs_io) : bool :=
  match o with
  | Obs e x =>
      match e in event X return X -> bool with
      | LeasePost _ l => fun x => bool_decide (name (metadata l) = n) && bool_decide (x = Some 201%Z)
      | LeasePut _ m _ => fun x => bool_decide (m = n) && bool_decide (x = Some 200%Z)
      | _ => fun _ => false
      end x
  end.
Definition got (o : obs_io) : option (string * Lease) :=
  match o with
  | Obs e x =>
      match e in event X return X -> option (string * Lease) with
      | LeaseGet _ m => fun x => match x with
                                 | Some (status, Some l) =>
                                     if decide (status = 200)%Z then Some (m, l) else None
                                 | _ => None
                                 end
      | _ => fun _ => None
      end x
  end.
Definition read_clock (o : obs_io) : option datetime :=
  match o with
  | Obs e x =>
      match e in event X return X -> option datetime with
      | UtcNow => fun x => Some x
      | _ => fun _ => None
      end x
  end.
Definition deletes (n : string) (o : obs_io) : bool :=
  match o with Obs e _ => match e with LeaseDelete _ m _ => bool_decide (m = n) | _ => false end end.
Definition writes (n : string) (h : trace_io) : nat := length (List.filter (records n) h).
Definition has_got (h : trace_io) (m : string) (l : Lease) : Prop := exists o, o ∈ h /\ got o = Some (m, l).
Definition has_read (h : trace_io) (now : datetime) : Prop := exists o, o ∈ h /\ read_clock o = Some now.

Lemma writes_app n h1 h2 : writes n (h1 ++ h2) = writes n h1 + writes n h2.
Proof. unfold writes. by rewrite List.filter_app, length_app. Qed.
Lemma has_got_prefix h h' m l : h `prefix_of` h' -> has_got h m l -> has_got h' m l.
Proof. intros [k ->] (o & Ho & Hg). exists o. split; [|done]. apply elem_of_app. auto. Qed.
Lemma has_read_prefix h h' t : h `prefix_of` h' -> has_read h t -> has_read h' t.
Proof. intros [k ->] (o & Ho & Hg). exists o. split; [|done]. apply elem_of_app. auto. Qed.
End observations.
#[export] Hint Resolve has_got_prefix has_read_prefix : prog.

Section specifications.
Context `{jwt : Jwt, url : UrlLib, sha : Sha2, chrono : Chrono}.
(** The assertions that may be recorded. *)
Context (P : string -> Z -> Prop).

(** A record of such an assertion, as [use_once] builds it. *)
Definition fresh_record (h : trace_io) (l : Lease) : Prop :=
  exists jti e now ret, P jti e /\ has_read h now
    /\ retained_until e (timestamp_of now) = Ok ret /\ Lease_new (lease_name jti) ret now = Ok l.

(** The discipline of every ledger operation: it creates only fresh records;
    it replaces or deletes only an object it has read, found expired at a time
    it has read, and names that object's version. *)
Definition seen_expired (h : trace_io) (m : string) (v : string) : Prop :=
  exists l now, has_got h m l /\ has_read h now /\ expired l now = true
    /\ resource_version (metadata l) = Some v.
Definition lease_discipline (h : trace_io) (X : Type) (e : event X) : Prop :=
  match e with
  | LeasePost _ l => fresh_record h l
  | LeasePut _ m l =>
      exists l0 v, l = set_resource_version l0 (Some v) /\ v <> "" /\ fresh_record h l0
        /\ m = name (metadata l0) /\ seen_expired h m v
  | LeaseDelete _ m o => seen_expired h m (precondition_resource_version (preconditions o))
  | _ => True
  end.
Definition ledger_permit (h : trace_io) (X : Type) (e : event X) : Prop :=
  lease_discipline h X e /\ service_metric e = false /\ refresh_event e = false.
Abbreviation wpl := (wp ledger_permit).
Lemma wp_discipline {A} (p : io A) h Q : wpl p h Q -> wp lease_discipline p h Q.
Proof. apply wp_permit_mono. by intros h' X e [? _]. Qed.

Lemma fresh_record_prefix h h' l : h `prefix_of` h' -> fresh_record h l -> fresh_record h' l.
Proof. intros Hp (jti & e & now & ret & ?&?&?&?). exists jti, e, now, ret. eauto with prog. Qed.

Lemma seen_expired_prefix h h' m v : h `prefix_of` h' -> seen_expired h m v -> seen_expired h' m v.
Proof. intros Hp (l & now & ? & ? & ? & ?). exists l, now. split_and!; eauto with prog. Qed.

Definition quiet {A} (h : trace_io) (_ : A) (h' : trace_io) : Prop := forall n, writes n h' = writes n h.

Context (self : KubernetesLeaseReplayLedger).

Lemma wp_credential h : wpl (credential self) h (quiet h).
Proof.
  cbn. split; [done|]. intros x n. rewrite writes_app. cbn. lia.
Qed.
Ltac call lem := eapply wp_try_call; [apply lem| |].
Ltac item := cbn; match goal with |- context [item_url _ ?n] => destruct (item_url self n); cbn end.

Lemma wp_get_lease h m :
  wpl (get_lease self m) h (fun r h' => quiet h r h' /\ forall l, r = Ok (Some l) -> has_got h' m l).
Proof.
  call wp_credential; [|intros e h' _ Hq; split; [exact Hq|done]].
  intros c h1 H1 Hq. item; [|split; [exact Hq|done]]. split; [done|].
  intros x. split.
  - intros n. rewrite writes_app, Hq. cbn. lia.
  - destruct x as [[status body]|]; cbn; [|done]. case_decide; [|by case_decide].
    destruct body as [b|]; cbn; [|done]. intros l [= ->].
    eexists. rewrite elem_of_app, list_elem_of_singleton. split; [by right|]. cbn.
    by rewrite decide_True.
Qed.
Lemma wp_create_lease h l :
  fresh_record h l ->
  wpl (create_lease self l) h (fun r h' => forall n, writes n h' =
    writes n h + match r with Ok Created => if decide (name (metadata l) = n) then 1 else 0 | _ => 0 end).
Proof.
  intros Hf. call wp_credential; [|intros e h' _ Hq n; rewrite (Hq n); lia].
  intros c h1 H1 Hq. cbn. split; [split; [by eapply fresh_record_prefix|done]|]. intros x n.
  rewrite writes_app, Hq. f_equal. cbn.
  destruct x as [status|]; cbn; [|by rewrite andb_false_r].
  case_decide; [subst|]; repeat case_bool_decide; repeat case_decide; simplify_eq; done.
Qed.
Lemma wp_update_lease h m l0 v :
  fresh_record h l0 -> m = name (metadata l0) -> v <> "" -> seen_expired h m v ->
  wpl (update_lease self m (set_resource_version l0 (Some v))) h (fun r h' => forall n,
    writes n h' = writes n h
      + match r with Ok Updated => if decide (m = n) then 1 else 0 | _ => 0 end).
Proof.
  intros Hf -> Hv Hseen.
  call wp_credential; [|intros e h' _ Hq n; rewrite (Hq n); lia].
  intros c h1 H1 Hq. item; [|intros n; rewrite (Hq n); lia].
  split.
  { split; [|done]. exists l0, v. split_and!; try done; [by eapply fresh_record_prefix|by eapply seen_expired_prefix]. }
  intros x n. rewrite writes_app, Hq. f_equal. cbn.
  destruct x as [status|]; cbn; [|by rewrite andb_false_r].
  case_decide; [subst|]; repeat case_bool_decide; repeat case_decide; simplify_eq; done.
Qed.
Lemma wp_list_leases h token : wpl (list_leases self token) h (quiet h).
Proof.
  call wp_credential; [|done]. intros c h1 H1 Hq. cbn. split; [done|]. intros x n.
  rewrite writes_app, Hq. cbn. lia.
Qed.
Lemma wp_delete_lease h m v : seen_expired h m v -> wpl (delete_lease self m v) h (quiet h).
Proof.
  intros Hseen. call wp_credential; [|done]. intros c h1 H1 Hq.
  item; [|exact Hq]. split; [split; [by eapply seen_expired_prefix|done]|].
intros x n.
  rewrite writes_app, Hq. cbn. lia.
Qed.

Definition written {A} (m : string) (h : trace_io) (r : result ReplayError A) (h' : trace_io) : Prop :=
  forall n, writes n h' = writes n h + if is_ok r then (if decide (m = n) then 1 else 0) else 0.
Lemma written_err {A} m h (e : ReplayError) h' :
  quiet h () h' -> written (A := A) m h (Err e) h'.
Proof. intros Hq n. rewrite (Hq n). cbn. lia. Qed.

Lemma wp_reclaim attempts h l now :
  fresh_record h l -> has_read h now ->
  wpl (reclaim_attempts self attempts (name (metadata l)) l now) h (written (name (metadata l)) h).
Proof.
  revert h. induction attempts as [|attempts IH]; intros h Hf Hnow; cbn [reclaim_attempts].
  { by apply written_err. }
  call wp_get_lease; [|intros e h' _ [Hq _]; by apply written_err].
  intros existing h1 H1 [Hq Hgot]. destruct existing as [g|].
  - destruct (expired g now) eqn:He; cbn [negb]; [|by apply written_err].
    destruct (resource_version (metadata g)) as [v|] eqn:Hv; [|by apply written_err].
    destruct (is_empty v) eqn:Hemp; [by apply written_err|]. apply is_empty_false in Hemp.
    eapply wp_try_call.
    + apply wp_update_lease; [by eapply fresh_record_prefix|done..|].
      exists g, now. split_and!; eauto with prog.
    + intros upd h2 H2 Hw. assert (forall n, writes n h2 = writes n h
        + match upd with Updated => if decide (name (metadata l) = n) then 1 else 0 | _ => 0 end) as Hw'.
      { intros n. rewrite Hw, Hq. done. }
      destruct upd.
      * intros n. rewrite Hw'. done.
      * assert (quiet h () h2) as Hq2 by (intros n; rewrite Hw'; lia).
        destruct (decide (attempts = 0)); [by apply written_err|].
        eapply wp_mono; [apply IH|].
        -- eapply fresh_record_prefix; [|done]. by etrans.
        -- eapply has_read_prefix; [|done]. by etrans.
        -- intros r h3 _ Hr k. by rewrite (Hr k), (Hq2 k).
    + intros e h2 _ Hw. apply written_err. intros n. rewrite Hw, Hq. lia.
  - eapply wp_try_call.
    + apply wp_create_lease. by eapply fresh_record_prefix.
    + intros c h2 H2 Hw. destruct c; intros n; rewrite Hw, Hq; done.
    + intros e h2 _ Hw. apply written_err. intros n. rewrite Hw, Hq. lia.
Qed.

Lemma wp_cleanup_candidates l now h :
  has_read h now -> wpl (cleanup_candidates self l now) h (quiet h).
Proof.
  revert h. induction l as [|x l IH]; intros h Hnow; cbn [cleanup_candidates]; [done|].
  eapply wp_call; [apply wp_get_lease|]. intros r h1 H1 [Hq Hgot].
  assert (wpl (cleanup_candidates self l now) h1 (quiet h)) as Hnext.
  { eapply wp_mono; [apply IH; eauto with prog|]. intros b h2 _ Hq2 n. by rewrite (Hq2 n). }
  destruct r as [[g|]|]; [|done..].
  destruct (negb _ || negb _) eqn:Hg; [done|]. result_simpl.
  destruct (resource_version (metadata g)) as [v|] eqn:Hv; [|done].
  eapply wp_call; [apply wp_delete_lease; exists g, now; split_and!; eauto with prog|].
  intros r h2 _ Hq2 n. by rewrite (Hq2 n).
Qed.
Lemma wp_cleanup_pages pages token now h :
  has_read h now -> wpl (cleanup_pages self pages token now) h (quiet h).
Proof.
  revert token h. induction pages as [|pages IH]; intros token h Hnow; cbn [cleanup_pages]; [done|].
  eapply wp_call; [apply wp_list_leases|]. intros r h1 H1 Hq.
  destruct r as [leases|]; cbn; (split; [done|]); intros [].
  2:{ intros n. rewrite writes_app, Hq. cbn. lia. }
  eapply wp_call; [apply wp_cleanup_candidates; eapply has_read_prefix; [|done];
                   etrans; [exact H1|]; by apply prefix_app_r|].
  intros b h2 H2 Hq2.
  assert (quiet h () h2) as Hq3 by (intros n; rewrite (Hq2 n), writes_app, Hq; cbn; lia).
  destruct b; [done|]. destruct (is_empty _); [done|].
  eapply wp_mono; [apply IH; eapply has_read_prefix; [|done]; etrans; [exact H1|];
                   etrans; [|exact H2]; by apply prefix_app_r|].
  intros [] h3 _ Hq4 n. by rewrite (Hq4 n).
Qed.
Lemma wp_cleanup_one now h : has_read h now -> wpl (cleanup_one self now) h (quiet h).
Proof.
  intros Hnow. cbn -[cleanup_pages]. split; [done|]. intros x. eapply wp_mono; [apply wp_cleanup_pages|].
  - by eapply has_read_prefix; [apply prefix_app_r|].
  - intros [] h' _ Hq n. rewrite (Hq n), writes_app. cbn. lia.
Qed.

(** [use_once] acknowledges a write of its record exactly when it succeeds. *)
Lemma wp_use_once jti e h :
  P jti e -> wpl (use_once self jti e) h (written (lease_name jti) h).
Proof.
  intros HP. unfold use_once, utc_now. apply wp_bind. cbn [trigger wp].
  split; [done|]. intros now. set (h1 := h ++ [Obs UtcNow now]).
  assert (has_read h1 now) as Hnow.
  { exists (Obs UtcNow now). split; [|done]. apply elem_of_app. right. by apply list_elem_of_singleton. }
  assert (quiet h () h1) as Hq1 by (intros n; unfold h1; rewrite writes_app; cbn; lia).
  destruct (retained_until e (timestamp_of now)) as [ret|err] eqn:Hret; [|by apply written_err].
  change (wpl (lease ←? mret (Lease_new (lease_name jti) ret now);
    created ←? create_lease self lease;
    match created with
    | Created => _ ← cleanup_one self now; mret (Ok ())
    | CreateConflict =>
        _ ←? reclaim_expired self (name (metadata lease)) lease now;
        _ ← cleanup_one self now;
        mret (Ok ())
    end) h1 (written (lease_name jti) h)).
  destruct (Lease_new (lease_name jti) ret now) as [l|err] eqn:Hl; [|by apply written_err].
  assert (name (metadata l) = lease_name jti) as Hname.
  { unfold Lease_new in Hl. result_simpl. done. }
  assert (fresh_record h1 l) as Hf by (exists jti, e, now, ret; done).
  change (wpl (created ←? create_lease self l;
    match created with
    | Created => _ ← cleanup_one self now; mret (Ok ())
    | CreateConflict =>
        _ ←? reclaim_expired self (name (metadata l)) l now;
        _ ← cleanup_one self now;
        mret (Ok ())
    end) h1 (written (lease_name jti) h)).
  eapply wp_try_call; [by apply wp_create_lease| |].
  2:{ intros err h2 _ Hw. apply written_err. intros n. rewrite Hw, (Hq1 n). lia. }
  intros [] h2 H2 Hw.
  - eapply wp_call; [apply wp_cleanup_one; eauto with prog|]. intros [] h3 _ Hq3 n.
    rewrite (Hq3 n), Hw, (Hq1 n), Hname. done.
  - eapply wp_try_call.
    + apply wp_reclaim; [by eapply fresh_record_prefix|eauto with prog].
    + intros [] h3 H3 Hw3. eapply wp_call; [apply wp_cleanup_one; eauto with prog|].
      intros [] h4 _ Hq4 n. rewrite (Hq4 n), Hw3, Hw, (Hq1 n), Hname. cbn. lia.
    + intros err h3 _ Hw3. apply written_err. intros n. rewrite Hw3, Hw, (Hq1 n). cbn. lia.
Qed.

Lemma wp_check_ready h : wpl (check_ready self) h (fun _ h' => forall n, writes n h' = writes n h).
Proof.
  unfold check_ready, with_lock. cbn -[get_lease]. split; [done|]. intros []. split; [done|]. intros rd.
  assert (forall h1 b, (forall n, writes n h1 = writes n h) ->
    wpl (a ← (if (b : bool) then mret (if ready rd then Ok () else Err Unavailable)
              else got ← get_lease self READINESS_LEASE_NAME;
                late ← trigger TimeoutElapsed;
                let result : result ReplayError () :=
                  if (late : bool) then Err Unavailable
                  else match got with Ok _ => Ok () | Err e => Err e end in
                checked ← trigger InstantNow;
                _ ← store Readiness {| checked_at := Some checked; ready := is_ok result |};
                mret result);
         _ ← trigger (Release ReadinessLock); mret a) h1
      (fun _ h' => forall n, writes n h' = writes n h)) as G.
  { intros h1 b Hq. destruct b.
    - cbn. split; [done|]. intros u n. rewrite writes_app, Hq. cbn. lia.
    - apply wp_bind. eapply wp_call; [apply wp_get_lease|]. intros r h2 _ [Hq2 _]. cbn.
      repeat (split; [done|]; intros ?). intros n. rewrite !writes_app, (Hq2 n), Hq. cbn. lia. }
  destruct (checked_at rd) as [since|]; cbn -[get_lease].
  - split; [done|]. intros t. apply (G _ (bool_decide (elapsed t since < READINESS_CACHE_TTL)%Z)).
    intros n. rewrite !writes_app. cbn. lia.
  - apply (G _ false). intros n. rewrite !writes_app. cbn. lia.
Qed.
End specifications.

(** ** The ledger as its clients see it

    A ledger records each use by one acknowledged write of the assertion's
    record, under the discipline that makes the record safe. *)
Class LeaseLedger `{jwt : Jwt, sha : Sha2, chrono : Chrono} (L : ReplayLedger) := {
  use_once_spec (P : string -> Z -> Prop) jti e h :
    P jti e -> wp (ledger_permit P) (ledger_use_once jti e) h (written (lease_name jti) h);
  check_ready_permit (P : string -> Z -> Prop) h :
    wp (ledger_permit P) ledger_check_ready h (fun _ h' => forall n, writes n h' = writes n h);
}.
#[export] Instance kubernetes_lease_ledger `{jwt : Jwt, url : UrlLib, sha : Sha2, chrono : Chrono} self :
  LeaseLedger (kubernetes_ledger self).
Proof. split; intros; [by apply wp_use_once|apply wp_check_ready]. Qed.

(** A program that writes no Lease, and one that moves no service metric. *)
Lemma wp_quiet `{jwt : Jwt} (permit : trace_io -> forall X, event X -> Prop) {A} (p : io A) h
    (Q : A -> trace_io -> Prop) :
  (forall h X (e : event X), permit h X e -> lease_write e = false) ->
  wp permit p h Q -> wp permit p h (fun a h' => Q a h' /\ forall n, writes n h' = writes n h).
Proof.
  intros Hp. revert h. induction p as [a|X e k IH]; intros h; cbn; [done|].
  intros [He Hk]. split; [done|]. intros x. eapply wp_mono; [by apply IH|].
  intros a h' _ [HQ Hw]. split; [done|]. intros n. rewrite Hw, writes_app.
  apply Hp in He. destruct e; try done; cbn; lia.
Qed.

(** ** Bounds: every operation stops after finitely many events *)
Section bounds.
Context `{jwt : Jwt, url : UrlLib, sha : Sha2, chrono : Chrono}.
Context (self : KubernetesLeaseReplayLedger).

Lemma bound_credential : len_bound (credential self) 1.
Proof. done. Qed.
Lemma bound_get_lease m : len_bound (get_lease self m) 2.
Proof.
  apply (len_bound_try_bind _ _ 1 1); [done|]. intros c. by destruct (item_url self m).
Qed.
Lemma bound_create_lease l : len_bound (create_lease self l) 2.
Proof. by apply (len_bound_try_bind _ _ 1 1). Qed.
Lemma bound_update_lease m l : len_bound (update_lease self m l) 2.
Proof.
  apply (len_bound_try_bind _ _ 1 1); [done|]. intros c. by destruct (item_url self m).
Qed.
Lemma bound_list_leases t : len_bound (list_leases self t) 2.
Proof. by apply (len_bound_try_bind _ _ 1 1). Qed.
Lemma bound_delete_lease m v : len_bound (delete_lease self m v) 2.
Proof.
  apply (len_bound_try_bind _ _ 1 1); [done|]. intros c. by destruct (item_url self m).
Qed.
Lemma bound_reclaim n m l now : len_bound (reclaim_attempts self n m l now) (4 * n).
Proof.
  induction n as [|n IH]; [done|]. replace (4 * S n) with (2 + (2 + 4 * n)) by lia.
  apply len_bound_try_bind; [apply bound_get_lease|]. intros [g|].
  - destruct (negb _); [done|]. destruct (resource_version _); [|done].
    destruct (is_empty _); [done|].
    apply len_bound_try_bind; [apply bound_update_lease|]. intros []; [done|].
    by destruct (decide (n = 0)).
  - apply len_bound_try_bind; [apply bound_create_lease|]. by intros [].
Qed.
Lemma bound_candidates l now : len_bound (cleanup_candidates self l now) (4 * length l).
Proof.
  induction l as [|x l IH]; [done|]. replace (4 * length (x :: l)) with (2 + (2 + 4 * length l)) by (cbn; lia).
  apply len_bound_bind; [apply bound_get_lease|].
  assert (len_bound (cleanup_candidates self l now) (2 + 4 * length l)) as Hl
    by (eapply len_bound_mono; [apply IH|lia]).
  intros [[g|]|]; [|done..]. destruct (_ || _); [done|]. destruct (resource_version _); [|done].
  eapply len_bound_mono; [by apply (len_bound_bind _ _ 2 0); [apply bound_delete_lease|]|lia].
Qed.
Lemma bound_pages n t now : len_bound (cleanup_pages self n t now) (7 * n).
Proof.
  revert t. induction n as [|n IH]; intros t; [done|].
  replace (7 * S n) with (2 + (1 + (4 + 7 * n))) by lia.
  apply len_bound_bind; [apply bound_list_leases|]. intros [leases|]; [|done].
  apply len_bound_bind; [done|]. intros _. apply len_bound_bind.
  - eapply len_bound_mono; [apply bound_candidates|]. rewrite length_take. unfold MAX_CLEANUP_PER_EXCHANGE. lia.
  - intros []; [done|]. by destruct (is_empty _).
Qed.

Lemma bound_use_once jti e : len_bound (use_once self jti e) 26.
Proof.
  apply (len_bound_bind _ _ 1 25); [done|]. intros now.
  apply (len_bound_try_bind _ _ 0 25); [done|]. intros ret.
  apply (len_bound_try_bind _ _ 0 25); [done|]. intros l.
  apply (len_bound_try_bind _ _ 2 23); [apply bound_create_lease|].
  assert (len_bound (cleanup_one self now) 15) as Hc.
  { apply (len_bound_bind _ _ 1 14); [done|]. intros t. apply bound_pages. }
  intros [].
  - eapply len_bound_mono; [by apply (len_bound_bind _ _ 15 0)|lia].
  - apply (len_bound_try_bind _ _ 8 15); [apply (bound_reclaim 2)|]. intros [].
    by apply (len_bound_bind _ _ 15 0).
Qed.
Lemma bound_check_ready : len_bound (check_ready self) 9.
Proof.
  apply (len_bound_bind _ _ 1 8); [done|]. intros _.
  apply (len_bound_bind _ _ 7 1); [|done].
  apply (len_bound_bind _ _ 1 6); [done|]. intros rd.
  apply (len_bound_bind _ _ 1 5); [by destruct (checked_at rd)|]. intros []; [done|].
  by apply (len_bound_bind _ _ 2 3); [apply bound_get_lease|].
Qed.

(** Whatever the Kubernetes API, the clock and the credential file answer,
    an attempt to record an assertion ends, after at most 26 events, and the
    readiness probe after at most 9. *)
Theorem ledger_terminates jti e :
  len_bound (use_once self jti e) 26 /\ len_bound (check_ready self) 9.
Proof. split; [apply bound_use_once|apply bound_check_ready]. Qed.
End bounds.

Lemma lease_name_spec_witness :
  (len (lease_name "a") = 63 /\ valid_dns_label (lease_name "a") = true)
  /\ (lease_name "a" = lease_name "b" <-> take 28 (sha256 "a") = take 28 (sha256 "b")).
Proof. apply lease_name_spec. Defined.

Definition sample_now : datetime := (1700000000 * ns_per_s)%Z.
Definition sample_retained : datetime := (1700000600 * ns_per_s)%Z.
Definition sample_record : Lease :=
  match Lease_new "replay-x" sample_retained sample_now with
  | Ok l => l
  | Err _ => {| api_version := ""; kind := ""; spec := {| holder_identity := ""; lease_duration_seconds := 0;
                  acquire_time := ""; renew_time := "" |};
                metadata := {| name := ""; resource_version := None; labels := ∅ |} |}
  end.
Lemma record_retention_witness :
  (0 <= lease_duration_seconds (spec sample_record) <= 960)%Z
  /\ (forall t, (t <= (1700000300 + 299) * ns_per_s - 1000)%Z -> expired sample_record t = false).
Proof.
  assert (retained_until 1700000300 (timestamp_of sample_now) = Ok sample_retained) as H1 by by vm_compute.
  assert (Lease_new "replay-x" sample_retained sample_now = Ok sample_record) as H2 by by vm_compute.
  destruct (record_retention _ _ _ _ _ H1 H2) as (Hd & Hk & _). split; [exact Hd|exact Hk].
Defined.
