(* ===== verification/Simulator.v ===== *)
(** * An executable environment

    A small world that answers every event: clocks, files, an in-memory
    Kubernetes API for Leases, shared cells, counters and key endpoints.  The
    witnesses run the model's programs against it, and [ReplaySafety] shows that
    its Lease API satisfies the assumptions of the replay theorem. *)
From S2P Require Import Prelude Text Prog Libs State Concrete Replay.

Section world.
Context `{jwt : Jwt}.

Record World := {
  clock : Z;                               (** nanoseconds since the epoch *)
  files : gmap string string;
  leases : gmap string Lease;
  versions : gmap (string * string) Lease; (** every version ever stored *)
  next_version : Z;
  api_up : bool;
  timeouts : bool;
  github_cache : KeyCache;
  github_refresh : RefreshState;
  oidc_caches : gmap string OidcKeyCache;
  oidc_refreshes : gmap string OidcRefreshState;
  continue_cell : option string;
  readiness_cell : ReadinessCache;
  counts : counter -> Z;
  logs : list log_record;
  jwks : gmap string (list Jwk);           (** the GitHub key endpoint *)
  streams : gmap string (list (option string));
  reviews : gmap string Value;             (** the answer to a token review, by token *)
}.

Definition set_leases (w : World) (ls : gmap string Lease) (vs : gmap (string * string) Lease) (n : Z) : World :=
  {| clock := clock w; files := files w; leases := ls; versions := vs; next_version := n;
     api_up := api_up w; timeouts := timeouts w; github_cache := github_cache w;
     github_refresh := github_refresh w; oidc_caches := oidc_caches w;
     oidc_refreshes := oidc_refreshes w; continue_cell := continue_cell w;
     readiness_cell := readiness_cell w; counts := counts w; logs := logs w; jwks := jwks w;
     streams := streams w; reviews := reviews w |}.
Definition put_lease (w : World) (m : string) (l : Lease) : World :=
  let v := decimal (next_version w) in
  let l' := set_resource_version l (Some v) in
  set_leases w (<[m := l']> (leases w)) (<[(m, v) := l']> (versions w)) (next_version w + 1).
Definition set_counts (w : World) (c : counter) (n : Z) : World :=
  {| clock := clock w; files := files w; leases := leases w; versions := versions w;
     next_version := next_version w; api_up := api_up w; timeouts := timeouts w;
     github_cache := github_cache w; github_refresh := github_refresh w;
     oidc_caches := oidc_caches w; oidc_refreshes := oidc_refreshes w;
     continue_cell := continue_cell w; readiness_cell := readiness_cell w;
     counts := fun c' => if decide (c' = c) then n else counts w c'; logs := logs w;
     jwks := jwks w; streams := streams w; reviews := reviews w |}.
Definition add_log (w : World) (r : log_record) : World :=
  {| clock := clock w; files := files w; leases := leases w; versions := versions w;
     next_version := next_version w; api_up := api_up w; timeouts := timeouts w;
     github_cache := github_cache w; github_refresh := github_refresh w;
     oidc_caches := oidc_caches w; oidc_refreshes := oidc_refreshes w;
     continue_cell := continue_cell w; readiness_cell := readiness_cell w;
     counts := counts w; logs := logs w ++ [r]; jwks := jwks w; streams := streams w;
     reviews := reviews w |}.
(** The cells: everything but the Leases. *)
Definition set_cells (w : World) (gc : KeyCache) (gr : RefreshState) (oc : gmap string OidcKeyCache)
    (or_ : gmap string OidcRefreshState) (cc : option string) (rc : ReadinessCache) : World :=
  {| clock := clock w; files := files w; leases := leases w; versions := versions w;
     next_version := next_version w; api_up := api_up w; timeouts := timeouts w;
     github_cache := gc; github_refresh := gr; oidc_caches := oc; oidc_refreshes := or_;
     continue_cell := cc; readiness_cell := rc; counts := counts w; logs := logs w;
     jwks := jwks w; streams := streams w; reviews := reviews w |}.

Definition set_reviews (w : World) (rs : gmap string Value) : World :=
  {| clock := clock w; files := files w; leases := leases w; versions := versions w;
     next_version := next_version w; api_up := api_up w; timeouts := timeouts w;
     github_cache := github_cache w; github_refresh := github_refresh w;
     oidc_caches := oidc_caches w; oidc_refreshes := oidc_refreshes w;
     continue_cell := continue_cell w; readiness_cell := readiness_cell w;
     counts := counts w; logs := logs w; jwks := jwks w; streams := streams w; reviews := rs |}.

Definition set_streams (w : World) (ss : gmap string (list (option string))) : World :=
  {| clock := clock w; files := files w; leases := leases w; versions := versions w;
     next_version := next_version w; api_up := api_up w; timeouts := timeouts w;
     github_cache := github_cache w; github_refresh := github_refresh w;
     oidc_caches := oidc_caches w; oidc_refreshes := oidc_refreshes w;
     continue_cell := continue_cell w; readiness_cell := readiness_cell w;
     counts := counts w; logs := logs w; jwks := jwks w; streams := ss; reviews := reviews w |}.

Definition set_jwks (w : World) (js : gmap string (list Jwk)) : World :=
  {| clock := clock w; files := files w; leases := leases w; versions := versions w;
     next_version := next_version w; api_up := api_up w; timeouts := timeouts w;
     github_cache := github_cache w; github_refresh := github_refresh w;
     oidc_caches := oidc_caches w; oidc_refreshes := oidc_refreshes w;
     continue_cell := continue_cell w; readiness_cell := readiness_cell w;
     counts := counts w; logs := logs w; jwks := js; streams := streams w; reviews := reviews w |}.

Definition empty_oidc_cache : OidcKeyCache := {| oidc_keys := ∅; oidc_fetched_at := 0 |}.
Definition empty_oidc_refresh : OidcRefreshState :=
  {| oidc_last_soft_attempt := 0; oidc_last_forced_attempt := 0 |}.
Definition handle_load {X} (c : cell X) (w : World) : X :=
  match c in cell X return X with
  | GithubCache => github_cache w
  | GithubRefreshState => github_refresh w
  | OidcCache i => default empty_oidc_cache (oidc_caches w !! i)
  | OidcRefreshCell i => default empty_oidc_refresh (oidc_refreshes w !! i)
  | CleanupContinue => continue_cell w
  | Readiness => readiness_cell w
  | CounterCell c => counts w c
  end.
Definition handle_store {X} (c : cell X) (w : World) : X -> World :=
  match c in cell X return X -> World with
  | GithubCache => fun x => set_cells w x (github_refresh w) (oidc_caches w) (oidc_refreshes w) (continue_cell w) (readiness_cell w)
  | GithubRefreshState => fun x => set_cells w (github_cache w) x (oidc_caches w) (oidc_refreshes w) (continue_cell w) (readiness_cell w)
  | OidcCache i => fun x => set_cells w (github_cache w) (github_refresh w) (<[i := x]> (oidc_caches w)) (oidc_refreshes w) (continue_cell w) (readiness_cell w)
  | OidcRefreshCell i => fun x => set_cells w (github_cache w) (github_refresh w) (oidc_caches w) (<[i := x]> (oidc_refreshes w)) (continue_cell w) (readiness_cell w)
  | CleanupContinue => fun x => set_cells w (github_cache w) (github_refresh w) (oidc_caches w) (oidc_refreshes w) x (readiness_cell w)
  | Readiness => fun x => set_cells w (github_cache w) (github_refresh w) (oidc_caches w) (oidc_refreshes w) (continue_cell w) x
  | CounterCell c => fun x => set_counts w c x
  end.

Definition handle (X : Type) (e : event X) (w : World) : X * World :=
  match e in event X return X * World with
  | UtcNow => (clock w, w)
  | CurrentTimestamp => (clock w / ns_per_s, w)%Z
  | InstantNow => (clock w, w)
  | NewUuid => ("00000000-0000-4000-8000-000000000000", w)
  | ReadFile path => (match files w !! path with Some s => Ok s | None => Err "No such file" end, w)
  | Load c => (handle_load c w, w)
  | Store c x => ((), handle_store c w x)
  | FetchAdd c n => ((), set_counts w c (wrap_u64 (counts w c + n)))
  | Acquire _ | Release _ => ((), w)
  | Log r => ((), add_log w r)
  | LeasePost _ l =>
      if api_up w then
        match leases w !! name (metadata l) with
        | Some _ => (Some 409%Z, w)
        | None => (Some 201%Z, put_lease w (name (metadata l)) l)
        end
      else (None, w)
  | LeaseGet _ m =>
      if api_up w then
        match leases w !! m with
        | Some l => (Some (200%Z, Some l), w)
        | None => (Some (404%Z, None), w)
        end
      else (None, w)
  | LeasePut _ m l =>
      if api_up w then
        match leases w !! m with
        | Some cur => if decide (resource_version (metadata cur) = resource_version (metadata l))
                      then (Some 200%Z, put_lease w m l) else (Some 409%Z, w)
        | None => (Some 404%Z, w)
        end
      else (None, w)
  | LeaseDelete _ m o =>
      if api_up w then
        match leases w !! m with
        | Some cur => if decide (resource_version (metadata cur)
                                 = Some (precondition_resource_version (preconditions o)))
                      then (Some 200%Z, set_leases w (delete m (leases w)) (versions w) (next_version w))
                      else (Some 409%Z, w)
        | None => (Some 404%Z, w)
        end
      else (None, w)
  | LeaseGetPage _ _ =>
      if api_up w then
        (Some (200%Z, Some {| items := snd <$> map_to_list (leases w);
                              list_metadata := {| continue_token := "" |} |}), w)
      else (None, w)
  | TimeoutElapsed => (timeouts w, w)
  | Sleep _ => ((), w)
  | TokenReviewPost _ body =>
      (match get_field body "spec" ≫= fun s => get_field s "token" ≫= as_str with
       | Some t => Some (true, reviews w !! t)
       | None => Some (false, None)
       end, w)
  | JwksGet url =>
      (match jwks w !! url with
       | Some l => Ok {| status_error := None; jwks_body := Ok l |}
       | None => Err {| error_text := "connection refused"; error_causes := [] |}
       end, w)
  | StreamGet url =>
      (match streams w !! url with
       | Some l => Some {| status_ok := true; content_length := None; chunks := l |}
       | None => None
       end, w)
  end.
End world.
Arguments World : clear implicits.
Arguments World {jwt}.

(** A world at time [now] (in seconds) with the given files. *)
Definition world_at `{jwt : Jwt} (now : Z) (fs : gmap string string) : World := {|
  clock := now * ns_per_s; files := fs; leases := ∅; versions := ∅; next_version := 1;
  api_up := true; timeouts := false; github_cache := {| keys := ∅; fetched_at := 0 |};
  github_refresh := {| last_soft_attempt := 0; last_forced_attempt := 0; last_forced_failed := false |};
  oidc_caches := ∅; oidc_refreshes := ∅; continue_cell := None;
  readiness_cell := {| checked_at := None; ready := false |};
  counts := fun _ => 0%Z; logs := []; jwks := ∅; streams := ∅; reviews := ∅ |}.
