(* ===== verification/ReplaySafety.v ===== *)
(** * At most one exchange per assertion

    Several replicas share a Lease API.  [LeaseServer] states what the replay
    ledger relies on: optimistic concurrency by resource version.  [at_most_once]
    then shows that, however the tasks' requests interleave, and even when
    answers are lost, two tasks cannot both succeed in recording the same
    assertion.  [simulated_server] is an instance. *)
From S2P Require Import Prelude Text Prog Libs State Concrete Replay Simulator.

Section interface.
Context `{jwt : Jwt}.

(** The Kubernetes API: [current] is the stored object of a name, [stored] the
    versions that ever existed.  A request may take effect without its answer
    arriving, and a read may be stale. *)
Class LeaseServer (S : Type) (serve : forall X, event X -> S -> X -> S -> Prop) := {
  server_ok : S -> Prop;
  current : S -> string -> option Lease;
  stored : S -> string -> string -> Lease -> Prop;
  serve_ok X (e : event X) s x s' : serve X e s x s' -> server_ok s -> server_ok s';
  stored_mono X (e : event X) s x s' m v l :
    serve X e s x s' -> server_ok s -> stored s m v l -> stored s' m v l;
  stored_unique s m v l1 l2 : server_ok s -> stored s m v l1 -> stored s m v l2 -> l1 = l2;
  current_stored s m v l :
    server_ok s -> current s m = Some l -> resource_version (metadata l) = Some v -> stored s m v l;
  serve_get c m s l v s' status :
    serve _ (LeaseGet c m) s (Some (status, Some l)) s' -> server_ok s -> status = 200%Z ->
    resource_version (metadata l) = Some v -> stored s m v l;
  serve_post c l s x s' :
    serve _ (LeasePost c l) s x s' -> server_ok s ->
    (x = Some 201%Z -> current s (name (metadata l)) = None
       /\ exists v, current s' (name (metadata l)) = Some (set_resource_version l (Some v)))
    /\ forall m, current s' m = current s m
        \/ (m = name (metadata l) /\ current s m = None
            /\ exists v, current s' m = Some (set_resource_version l (Some v)));
  serve_put c k l v s x s' :
    serve _ (LeasePut c k l) s x s' -> server_ok s ->
    resource_version (metadata l) = Some v -> v <> "" ->
    (x = Some 200%Z -> exists cur v', current s k = Some cur
       /\ resource_version (metadata cur) = Some v
       /\ current s' k = Some (set_resource_version l (Some v')))
    /\ forall m, current s' m = current s m
        \/ (m = k /\ exists cur v', current s k = Some cur
            /\ resource_version (metadata cur) = Some v
            /\ current s' k = Some (set_resource_version l (Some v')));
  serve_delete c k o s x s' :
    serve _ (LeaseDelete c k o) s x s' -> server_ok s ->
    forall m, current s' m = current s m
      \/ (m = k /\ exists cur, current s k = Some cur
          /\ resource_version (metadata cur) = Some (precondition_resource_version (preconditions o)));
  serve_other X (e : event X) s x s' :
    serve X e s x s' -> lease_write e = false -> forall m, current s' m = current s m;
}.
End interface.

(** ** The safety argument *)
Section safety.
Context `{jwt : Jwt, url : UrlLib, sha : Sha2, !Sha2Laws, chrono : Chrono, !ChronoLaws}.
Context {S A : Type} (serve : forall X, event X -> S -> X -> S -> Prop) `{!LeaseServer S serve}.
(** The assertions each task uses, the record in question, the tasks that are
    watched and the earliest expiry of an assertion of theirs that shares it. *)
Context (P : nat -> string -> Z -> Prop) (n : string) (expiry : Z).
Context (watched : nat -> Prop) `{watched_dec : !forall i, Decision (watched i)}.
Context (Hexpiry : forall i jti e, watched i -> P i jti e -> lease_name jti = n -> (expiry <= e)%Z).
(** No clock reading is later than this. *)
Definition horizon : Z := ((expiry + 299) * ns_per_s - 1000)%Z.
(** The results that need the record, by what the task has seen. *)
Context (succeeded : A -> trace_io -> Prop).

Definition kept (l : Lease) : Prop := forall t, (t <= horizon)%Z -> expired l t = false.
Definition live (s : S) : Prop := exists l, current s n = Some l /\ kept l.

(** The events of one task, and of all. *)
Definition of_task (i : nat) (h : list (nat * obs_io)) : trace_io :=
  omap (fun '(j, o) => if decide (j = i) then Some o else None) h.
Definition all_events (h : list (nat * obs_io)) : trace_io := h.*2.
Definition watched_events (h : list (nat * obs_io)) : trace_io :=
  omap (fun '(j, o) => if decide (watched j) then Some o else None) h.
Definition clocks_ok (h : list (nat * obs_io)) : Prop :=
  forall now, has_read (all_events h) now -> (now <= horizon)%Z.

Lemma expired_set_version l v t : expired (set_resource_version l v) t = expired l t.
Proof. done. Qed.
Lemma fresh_kept i h l v : watched i ->
  fresh_record (P i) h l -> name (metadata l) = n -> kept (set_resource_version l v).
Proof.
  intros Hi (jti & e & now & ret & HP & _ & Hr & Hl) Hn t Ht. rewrite expired_set_version.
  assert (name (metadata l) = lease_name jti) as Hn'.
  { unfold Lease_new in Hl. by result_simpl. }
  pose proof (Hexpiry i jti e Hi HP ltac:(congruence)).
  apply retained_until_spec in Hr as (-> & _). eapply Lease_new_kept; [done|].
  unfold horizon, ns_per_s in *. lia.
Qed.

(** One event keeps a live record live, and an acknowledged write of the
    record needs it not to be live; after that of a watched task it is. *)
Lemma live_step i h X (e : event X) s x s' :
  serve X e s x s' -> server_ok s -> lease_discipline (P i) h X e ->
  (forall m l v, has_got h m l -> resource_version (metadata l) = Some v -> stored s m v l) ->
  (forall now, has_read h now -> (now <= horizon)%Z) ->
  (live s -> live s' /\ records n (Obs e x) = false)
  /\ (watched i -> records n (Obs e x) = true -> live s').
Proof.
  intros Hs Hok Hp Hgot Hclock.
  (* the version of a live record was not seen expired *)
  assert (forall v l, seen_expired h n v -> live s -> current s n = Some l ->
            resource_version (metadata l) = Some v -> False) as Hseen.
  { intros v l (g & now & Hg & Hnow & He & Hv) (l' & Hl' & Hk) Hl Hlv.
    rewrite Hl in Hl'. injection Hl' as <-.
    assert (g = l) as -> by (eapply (stored_unique s n v); eauto using current_stored).
    rewrite Hk in He; [done|]. by apply Hclock. }
  destruct (lease_write e) eqn:Hw.
  2:{ pose proof (serve_other X e s x s' Hs Hw n) as Hc.
      assert (records n (Obs e x) = false) as Hr by by destruct e.
      rewrite Hr. split; [|done]. intros (l & ? & ?). split; [|done]. exists l. by rewrite Hc. }
  destruct e; try done; cbn [lease_discipline] in Hp; cbn [records].
  - destruct (serve_post _ _ _ _ _ Hs Hok) as [Hpost Hcur]. split.
    + intros (l & Hl & Hk). split.
      * destruct (Hcur n) as [Hn|(_ & Hn & _)]; [|congruence]. exists l. by rewrite Hn.
      * apply not_true_is_false. intros [Hn Hx]%andb_prop.
        apply bool_decide_eq_true in Hn, Hx. destruct (Hpost Hx) as [Hn' _]. congruence.

    + intros Hi [Hn Hx]%andb_prop. apply bool_decide_eq_true in Hn, Hx.
      destruct (Hpost Hx) as [_ [v Hv]]. rewrite Hn in Hv.
      eexists. split; [done|]. by eapply (fresh_kept i).
  - destruct Hp as (l0 & v & -> & Hv & Hf & -> & Hexp).
    destruct (serve_put _ _ _ v _ _ _ Hs Hok ltac:(done) Hv) as [Hput Hcur]. split.
    + intros Hlive. split.
      * pose proof Hlive as (l & Hl & Hk).
        destruct (Hcur n) as [Hn|(Hn & cur & v' & Hc & Hcv & _)]; [exists l; by rewrite Hn|].
        exfalso. rewrite <- Hn in *. by eapply Hseen.

      * apply not_true_is_false. intros [Hn Hx]%andb_prop.
        apply bool_decide_eq_true in Hn, Hx.
        destruct (Hput Hx) as (cur & v' & Hc & Hcv & _). rewrite Hn in *. by eapply Hseen.
    + intros Hi [Hn Hx]%andb_prop. apply bool_decide_eq_true in Hn, Hx.
      destruct (Hput Hx) as (cur & v' & _ & _ & Hc). rewrite Hn in Hc.
      eexists. split; [done|]. by eapply (fresh_kept i h l0 (Some v')).
  - split; [|done]. intros Hlive. split; [|done].
    destruct (serve_delete _ _ _ _ _ _ Hs Hok n) as [Hn|(Hn & cur & Hc & Hcv)].
    + destruct Hlive as (l & Hl & Hk). exists l. by rewrite Hn.
    + exfalso. rewrite <- Hn in *. by eapply Hseen.

Qed.

(** The invariant of the pool. *)
Definition obeys (i : nat) (p : io A) (h : trace_io) : Prop :=
  wp (lease_discipline (P i)) p h (fun a h' => succeeded a h' -> 1 <= writes n h').
Record pool_ok (c : config event S A) : Prop := {
  pool_server : server_ok (server c);
  pool_tasks : forall i p, tasks c !! i = Some p -> obeys i p (of_task i (history c));
  pool_got : forall i m l v, has_got (of_task i (history c)) m l ->
    resource_version (metadata l) = Some v -> stored (server c) m v l;
  pool_writes : clocks_ok (history c) ->
    writes n (watched_events (history c)) <= 1
    /\ (writes n (watched_events (history c)) = 1 -> live (server c));
}.

Lemma of_task_snoc i j h o :
  of_task i (h ++ [(j, o)]) = of_task i h ++ if decide (j = i) then [o] else [].
Proof. unfold of_task. rewrite omap_app. cbn. by case_decide. Qed.
Lemma watched_snoc i h o :
  watched_events (h ++ [(i, o)]) = watched_events h ++ if decide (watched i) then [o] else [].
Proof. unfold watched_events. rewrite omap_app. cbn. by case_decide. Qed.
Lemma of_task_incl i h o : o ∈ of_task i h -> o ∈ all_events h.
Proof.
  unfold of_task, all_events. rewrite list_elem_of_omap. intros ([j o'] & Hin & Hj).
  case_decide; simplify_eq. apply list_elem_of_fmap. by exists (i, o).
Qed.
Lemma has_got_snoc h (X : Type) (e : event X) x m l :
  has_got (h ++ [Obs e x]) m l <-> has_got h m l \/ got (Obs e x) = Some (m, l).
Proof.
  unfold has_got. setoid_rewrite elem_of_app. setoid_rewrite list_elem_of_singleton. split.
  - intros (o & [Ho| ->] & Hg); eauto.
  - intros [(o & Ho & Hg)|Hg]; eauto.
Qed.
Lemma got_stored X (e : event X) s x s' m l v :
  serve X e s x s' -> server_ok s -> got (Obs e x) = Some (m, l) ->
  resource_version (metadata l) = Some v -> stored s m v l.
Proof.
  intros Hs Hok Hg Hv. destruct e; try done. cbn in Hg.
  destruct x as [[status [b|]]|]; try done. case_decide; [|done]. simplify_eq.
  by eapply serve_get.
Qed.

Lemma pool_ok_step c c' : pool_ok c -> pool_step serve c c' -> pool_ok c'.
Proof.
  intros [Hok Ht Hgot Hw] Hs. destruct Hs as [s ts h i X e k x s' Hi Hs]. cbn [server tasks history] in *.
  pose proof (Ht i _ Hi) as [Hp Hk].
  split; cbn [server tasks history].
  - by eapply serve_ok.
  - intros j p. rewrite of_task_snoc. destruct (decide (i = j)) as [->|Hne].
    + rewrite lookup_insert_eq. intros [= <-]. apply Hk.
    + rewrite lookup_insert_ne by done. rewrite app_nil_r. apply Ht.
  - intros j m l v. rewrite of_task_snoc. intros Hg Hv. eapply stored_mono; [done..|].
    destruct (decide (i = j)) as [->|Hne]; [|rewrite app_nil_r in Hg; by eapply Hgot].
    apply has_got_snoc in Hg as [Hg|Hg]; [by eapply Hgot|by eapply got_stored].
  - unfold clocks_ok, all_events. rewrite fmap_app. cbn. intros Hclock.
    assert (clocks_ok h) as Hc.
    { intros now Hnow. apply Hclock. by eapply has_read_prefix; [apply prefix_app_r|]. }
    destruct (live_step i (of_task i h) X e s x s' Hs Hok Hp) as [Hlive Hrec].
    { intros m l v. apply Hgot. }
    { intros now (o & Ho & Hr). apply Hc. exists o. split; [by eapply of_task_incl|done]. }
    destruct (Hw Hc) as [Hle Hl]. rewrite watched_snoc, writes_app.
    destruct (decide (watched i)) as [Hwi|Hwi].
    + unfold writes at 2 4. cbn [List.filter]. destruct (records n (Obs e x)) eqn:Hr; cbn [length].
      * assert (writes n (watched_events h) = 0) as ->.
        { destruct (decide (writes n (watched_events h) = 1)) as [Hone|]; [|lia].
          destruct (Hlive (Hl Hone)) as [_ ?]. congruence. }
        split; [lia|]. intros _. by apply Hrec.
      * rewrite Nat.add_0_r. split; [done|]. intros Hone. by apply Hlive, Hl.
    + cbn. rewrite Nat.add_0_r. split; [done|]. intros Hone. by apply Hlive, Hl.
Qed.

Lemma pool_ok_reachable s ts c :
  server_ok s -> (forall i p, ts !! i = Some p -> obeys i p []) ->
  reachable serve s ts c -> pool_ok c.
Proof.
  intros Hok Hts. apply (pool_invariant serve pool_ok).
  - split; cbn; try done; [|by intros _; split; [lia|]].
    intros i m l v (o & Ho & _). by apply elem_of_nil in Ho.

  - intros c1 c2 _ H1 H2. by eapply pool_ok_step.
Qed.

Lemma writes_two_tasks i j h : watched i -> watched j ->
  i <> j -> writes n (of_task i h) + writes n (of_task j h) <= writes n (watched_events h).
Proof.
  intros Hwi Hwj Hij. unfold of_task, watched_events. induction h as [|[k o] h IH]; [done|].
  cbn [omap list_omap]. unfold writes in *.
  repeat case_decide; subst; try done; cbn [List.filter]; destruct (records n o); cbn [length]; lia.
Qed.

(** Of the watched tasks at most one records an assertion, whatever programs that
    obey the ledger's discipline the tasks are. *)
Lemma pool_at_most_once
s ts c i j a b :
  server_ok s -> (forall k p, ts !! k = Some p -> obeys k p []) ->
  reachable serve s ts c -> clocks_ok (history c) -> watched i -> watched j ->
  finished c i a -> finished c j b ->
  succeeded a (of_task i (history c)) -> succeeded b (of_task j (history c)) -> i = j.
Proof.
  intros Hok Hts Hr Hclock Hwi Hwj Hi Hj Ha Hb.
  destruct (pool_ok_reachable s ts c Hok Hts Hr) as [_ Htasks _ Hw].
  destruct (Hw Hclock) as [Hle _]. destruct (decide (i = j)) as [|Hne]; [done|]. exfalso.
  pose proof (Htasks i _ Hi Ha) as H1. pose proof (Htasks j _ Hj Hb) as H2.
  pose proof (writes_two_tasks i j (history c) Hwi Hwj Hne). lia.
Qed.
End safety.

(** What a task has done is a run of its program. *)
Section task_runs.
Context `{jwt : Jwt} {S A : Type} (serve : forall X, event X -> S -> X -> S -> Prop).
Lemma finished_runs s ts (c : config event S A) i a : reachable serve s ts c -> finished c i a ->
  exists p, ts !! i = Some p /\ runs p (of_task i (history c)) a.
Proof.
  set (ahead := fun c : config event S A => forall i q, tasks c !! i = Some q -> exists p, ts !! i = Some p /\
    forall t r, runs q t r -> runs p (of_task i (history c) ++ t) r).
  intros Hr Hi. enough (ahead c) as Ha.
  { destruct (Ha i _ Hi) as (p & Hp & Hruns). exists p. split; [done|].
    specialize (Hruns [] a). rewrite app_nil_r in Hruns. by apply Hruns. }
  clear i a Hi. revert c Hr. apply (pool_invariant serve ahead).
  { intros i q Hq. exists q. by split. }
  intros c c' _ IH Hs i q. destruct Hs as [s1 ts1 h k X e kont x s' Hk Hserve]. cbn [tasks history] in *.
  rewrite of_task_snoc. destruct (decide (k = i)) as [->|Hne].
  - rewrite lookup_insert_eq. intros [= <-]. destruct (IH i _ Hk) as (p & Hp & Hruns). exists p. split; [done|].
    intros t r Ht. rewrite <- app_assoc. apply Hruns. by apply runs_vis.
  - rewrite lookup_insert_ne, app_nil_r by done. apply IH.
Qed.
End task_runs.

(** ** The ledger's own operations *)
Section ledger.
Context `{jwt : Jwt, url : UrlLib, sha : Sha2, !Sha2Laws, chrono : Chrono, !ChronoLaws}.

(** The calls the replicas make. *)
Inductive call := Use (jti : string) (expires_at : Z) | Probe.
Definition perform (self : KubernetesLeaseReplayLedger) (c : call) :
  io (call * result ReplayError ()) :=
  r ← match c with Use jti e => use_once self jti e | Probe => check_ready self end;
  mret (c, r).

Definition used (n : string) (a : call * result ReplayError ()) : bool :=
  match a.1 with Use jti _ => bool_decide (lease_name jti = n) && is_ok a.2 | Probe => false end.

Lemma perform_obeys (P : nat -> string -> Z -> Prop) n i self c :
  (forall jti e, c = Use jti e -> P i jti e) -> obeys P n (fun a _ => used n a = true) i (perform self c) [].
Proof.
  intros HP. unfold obeys, perform. destruct c as [jti e|].
  - eapply wp_call; [by apply (wp_discipline (P i)), wp_use_once, HP|]. intros r h' _ Hw. cbn. intros Hu.
    unfold used in Hu. cbn in Hu. result_simpl. rewrite (Hw n).
    destruct r; [|done]. cbn. rewrite decide_True by done. lia.
  - eapply wp_call; [apply (wp_discipline (P i)), wp_check_ready|]. intros r h' _ _. done.
Qed.

(** C2: no assertion is used twice.  Any number of replicas, each with tasks that
    use assertions or probe the ledger, share a Lease API; their requests
    interleave arbitrarily and answers may be lost.  If every use of a record
    [lease_name jti] is of an assertion that expires at [expiry] or later, and no
    clock passes [expiry + 299] seconds less a microsecond, then at most one
    use of that record succeeds. *)
Theorem ledger_at_most_once {S} serve `{!LeaseServer S serve} self calls s c jti expiry i j e1 e2 jti' :
  server_ok s ->
  (forall k jti' e, calls !! k = Some (Use jti' e) -> lease_name jti' = lease_name jti -> (expiry <= e)%Z) ->
  reachable serve s (perform self <$> calls) c ->
  clocks_ok expiry (history c) ->
  finished c i (Use jti e1, Ok ()) -> finished c j (Use jti' e2, Ok ()) ->
  lease_name jti' = lease_name jti ->
  i = j.
Proof.
  intros Hok Hexp Hr Hclock Hi Hj Hn.
  eapply (pool_at_most_once serve (fun k jti e => calls !! k = Some (Use jti e))
            (lease_name jti) expiry (fun _ => True)) with (succeeded := fun a _ => used (lease_name jti) a = true); try done.
  - intros k jti0 e _ Hk. by eapply Hexp.
  - intros k p Hp. apply lookup_fmap_Some in Hp as (cl & <- & Hcl).
    apply perform_obeys. by intros jti0 e ->.
  - unfold used. cbn. by rewrite bool_decide_true.
  - unfold used. cbn. by rewrite bool_decide_true.
Qed.
End ledger.

(** ** The simulated API is a Lease server *)
Section simulated.
Context `{jwt : Jwt}.
Definition simulated_serve (X : Type) (e : event X) (w : World) (x : X) (w' : World) : Prop :=
  handle X e w = (x, w').
Record world_ok (w : World) : Prop := {
  world_next : (0 <= next_version w)%Z;
  world_current m l v :
    leases w !! m = Some l -> resource_version (metadata l) = Some v -> versions w !! (m, v) = Some l;
  world_versions m v l :
    versions w !! (m, v) = Some l -> exists k, (0 <= k < next_version w)%Z /\ v = decimal k;
}.
Lemma decimal_inj a b : (0 <= a)%Z -> (0 <= b)%Z -> decimal a = decimal b -> a = b.
Proof. intros Ha Hb. rewrite !decimal_of_nonneg by done. intros ?%(inj pretty). lia. Qed.
Lemma put_lease_fresh w m l v m' l' :
  world_ok w -> versions w !! (m', v) = Some l' -> versions (put_lease w m l) !! (m', v) = Some l'.
Proof.
  intros [Hn _ Hv] Hl. cbn. rewrite lookup_insert_ne; [done|]. intros [= <- <-].
  destruct (Hv _ _ _ Hl) as (k & Hk & Heq). apply decimal_inj in Heq; lia.
Qed.
Lemma put_lease_ok w m l : world_ok w -> world_ok (put_lease w m l).
Proof.
  intros Hok. pose proof Hok as [Hn Hc Hv]. split.
  - cbn. lia.
  - intros m' l' v Hl Hr. destruct (decide (m' = m)) as [->|Hne].
    + cbn in Hl. rewrite lookup_insert_eq in Hl. simplify_eq. cbn in Hr. simplify_eq. cbn.
      by rewrite lookup_insert_eq.
    + cbn in Hl. rewrite lookup_insert_ne in Hl by done. by apply put_lease_fresh, Hc.
  - intros m' v l' Hl. cbn in *. apply lookup_insert_Some in Hl as [[[= <- <-] _]|[_ Hl]].
    + exists (next_version w). split; [lia|done].
    + apply Hv in Hl as (k & ? & ?). exists k. split; [lia|done].
Qed.
(** What an event does to the Leases. *)
Lemma handle_leases X (e : event X) w x w' :
  handle X e w = (x, w') ->
  lease_write e = false ->
  leases w' = leases w /\ versions w' = versions w /\ next_version w' = next_version w.
Proof.
  destruct e; cbn; intros Hh Hw; try done; simplify_eq; try done.
  - by destruct c.
  - repeat case_match; simplify_eq; done.
  - repeat case_match; simplify_eq; done.
Qed.
Lemma world_ok_same w w' :
  leases w' = leases w -> versions w' = versions w -> next_version w' = next_version w ->
  world_ok w -> world_ok w'.
Proof. intros H1 H2 H3 [? Hc Hv]. split; rewrite ?H1, ?H2, ?H3; eauto. Qed.

#[export,refine] Instance simulated_server : LeaseServer World simulated_serve := {|
  server_ok := world_ok;
  current w m := leases w !! m;
  stored w m v l := versions w !! (m, v) = Some l;
|}.
Proof.
  - unfold simulated_serve. intros X e w x w' Hh Hok. destruct (lease_write e) eqn:Hw.
    2:{ apply handle_leases in Hh as (?&?&?); [|done]. by eapply world_ok_same. }
    destruct e; try done; cbn in Hh; repeat case_match; simplify_eq; try done; try by apply put_lease_ok.
    destruct Hok as [? Hc Hv]. split; cbn; [done| |done].
    intros m1 l1 v1 Hl. apply lookup_delete_Some in Hl as [_ Hl]. by apply Hc.
  - unfold simulated_serve. intros X e w x w' m v l Hh Hok Hl. destruct (lease_write e) eqn:Hw.
    2:{ apply handle_leases in Hh as (?&->&?); [|done]. done. }
    destruct e; try done; cbn in Hh; repeat case_match; simplify_eq; try done; by apply put_lease_fresh.
  - intros w m v l1 l2 _ H1 H2. congruence.
  - intros w m v l [_ Hc _]. apply Hc.
  - unfold simulated_serve. intros c m w l v w' status Hh [_ Hc _] -> Hv.
    cbn in Hh. repeat case_match; simplify_eq. by apply Hc.
  - unfold simulated_serve. intros c l w x w' Hh Hok. cbn in Hh.
    repeat case_match; simplify_eq; (split; [try done|]).
    + intros m. by left.
    + intros _. split; [done|]. eexists. cbn. by rewrite lookup_insert_eq.
    + intros m. destruct (decide (m = name (metadata l))) as [->|Hne]; cbn.
      * right. split_and!; try done. eexists. by rewrite lookup_insert_eq.
      * left. by rewrite lookup_insert_ne.
    + intros m. by left.
  - unfold simulated_serve. intros c k l v w x w' Hh Hok Hv _. cbn in Hh.
    repeat case_match; simplify_eq; (split; [try done|]); try (intros m; by left).
    + intros _. do 2 eexists. split_and!; [done|congruence|]. cbn. by rewrite lookup_insert_eq.
    + intros m. destruct (decide (m = k)) as [->|Hne]; cbn.
      * right. split; [done|]. do 2 eexists. split_and!; [done|congruence|]. by rewrite lookup_insert_eq.
      * left. by rewrite lookup_insert_ne.
  - unfold simulated_serve. intros c k o w x w' Hh Hok m. cbn in Hh.
    repeat case_match; simplify_eq; try by left.
    destruct (decide (m = k)) as [->|Hne]; cbn; [right; eauto|left; by rewrite lookup_delete_ne].
  - unfold simulated_serve. intros X e w x w' Hh Hw m. by apply handle_leases in Hh as (->&_&_).
Defined.
End simulated.

(** ** Two replicas, one assertion *)
Definition clocks_bounded `{jwt : Jwt} (expiry : Z) (h : list (nat * obs_io)) : bool :=
  forallb (fun o => match read_clock o with
                    | Some t => bool_decide (t <= horizon expiry)%Z
                    | None => true
                    end) (all_events h).
Lemma clocks_bounded_ok `{jwt : Jwt} expiry h : clocks_bounded expiry h = true -> clocks_ok expiry h.
Proof.
  unfold clocks_bounded, clocks_ok. rewrite forallb_forall. intros H now (o & Ho & Hr).
  apply list_elem_of_In in Ho. specialize (H o Ho). rewrite Hr in H. by apply bool_decide_eq_true in H.
Qed.

Definition sample_jwt : Jwt := concrete_jwt ∅.
#[local] Existing Instance sample_jwt.
Definition sample_ledger : KubernetesLeaseReplayLedger :=
  {| collection_url := {| scheme := "https"; host_str := Some "api/leases";
       port_or_known_default := Some 443%Z; username := ""; password := None; query := None;
       fragment := None |};
     credential_file := "/token" |}.
Definition sample_world : World := world_at 1700000000 {["/token" := "secret"]}.
Lemma sample_world_ok : world_ok sample_world.
Proof. split; [done|..]; intros m; [intros l v|intros v l]; cbn; by rewrite lookup_empty. Qed.

(** Two tasks, in lockstep. *)
Definition sample_calls : gmap nat call :=
  {[0 := Use "jti-1" 1700000300; 1 := Use "jti-1" 1700000300]}.
Definition sample_pool : config event World (call * result ReplayError ()) :=
  exec handle (initial sample_world (perform sample_ledger <$> sample_calls))
    (mjoin (replicate 26 [0; 1])).

Lemma ledger_at_most_once_witness :
  finished sample_pool 0 (Use "jti-1" 1700000300, Ok ())
  /\ finished sample_pool 1 (Use "jti-1" 1700000300, Err Replayed)
  /\ 0 = 0.
Proof.
  split_and!; [by vm_compute..|].
  apply (ledger_at_most_once simulated_serve sample_ledger sample_calls sample_world sample_pool
           "jti-1" 1700000300 0 0 1700000300 1700000300 "jti-1"); [apply sample_world_ok| | | |by vm_compute..].
  - intros k jti' e Hk _. unfold sample_calls in Hk.
    apply lookup_insert_Some in Hk as [[_ [= <- <-]]|[_ [_ [= <- <-]]%lookup_singleton_Some]]; lia.
  - by apply exec_reachable.
  - apply clocks_bounded_ok. by vm_compute.
Defined.

(** ** Single runs *)
Section runs.
Context `{jwt : Jwt, url : UrlLib, sha : Sha2, chrono : Chrono}.
Context (self : KubernetesLeaseReplayLedger).

(** C28: An attempt to record an assertion succeeds exactly when the API
    acknowledged one write of its record, and it never gets a write of another
    record acknowledged; clean-up does not influence the answer. *)
Theorem use_once_recorded jti e t r :
  runs (use_once self jti e) t r ->
  forall n, writes n t = if is_ok r && bool_decide (lease_name jti = n) then 1 else 0.
Proof.
  intros Hr n. pose proof (wp_runs _ _ _ _ _ _ (wp_use_once (fun _ _ => True) self jti e [] I) Hr n) as Hw.
  change ([] ++ t) with t in Hw. rewrite Hw. destruct r; [|done]. cbn.
  by case_decide; case_bool_decide.
Qed.

(** C29: Every write of an attempt is disciplined: a creation is of the attempt's
    own record, and a replacement or deletion names the version of an object
    that the attempt has read and found expired (and owned by the ledger) at a
    time it has read. *)
Theorem use_once_discipline jti e t r t1 X (ev : event X) x t2 :
  runs (use_once self jti e) t r -> t = t1 ++ Obs ev x :: t2 ->
  lease_discipline (fun jti' e' => jti' = jti /\ e' = e) t1 X ev.
Proof.
  intros Hr Ht. eapply (fun H => proj1 (A := lease_discipline _ _ _ _) H),  (wp_permitted _ _ [] _ _ _ _ _ _ _ _ (wp_use_once _ self jti e [] _)); done.
  Unshelve. done.
Qed.

(** The readiness probe answers from its cache for 30 seconds; otherwise it
    stores, with the time, whether its one read of the sentinel succeeded within
    the timeout, and answers accordingly. *)
Theorem check_ready_spec t r :
  runs (check_ready self) t r ->
  exists rd t', t = Obs (Acquire ReadinessLock) () :: Obs (Load Readiness) rd :: t' ++ [Obs (Release ReadinessLock) ()]
  /\ ((exists c now, checked_at rd = Some c /\ (elapsed now c < READINESS_CACHE_TTL)%Z
        /\ t' = [Obs InstantNow now] /\ r = if ready rd then Ok () else Err Unavailable)
      \/ (exists t0 tg res (late : bool) checked,
            t' = t0 ++ tg ++ [Obs TimeoutElapsed late; Obs InstantNow checked;
                   Obs (Store Readiness {| checked_at := Some checked; ready := is_ok r |}) ()]
            /\ match checked_at rd with
               | None => t0 = []
               | Some c => exists now, t0 = [Obs InstantNow now] /\ (READINESS_CACHE_TTL <= elapsed now c)%Z
               end
            /\ runs (get_lease self READINESS_LEASE_NAME) tg res
            /\ r = if late then Err Unavailable else match res with Ok _ => Ok () | Err e => Err e end)).
Proof.
  intros H. unfold check_ready, with_lock in H. cbn -[get_lease] in H.
  destruct H as ([] & t1 & -> & rd & t2 & -> & H). exists rd.
  assert (forall (b : bool) t3,
    runs (a ← (if b then mret (if ready rd then Ok () else Err Unavailable)
               else got ← get_lease self READINESS_LEASE_NAME;
                    late ← trigger TimeoutElapsed;
                    let result : result ReplayError () :=
                      if (late : bool) then Err Unavailable
                      else match got with Ok _ => Ok () | Err e => Err e end in
                    checked ← trigger InstantNow;
                    _ ← store Readiness {| checked_at := Some checked; ready := is_ok result |};
                    mret result);
          _ ← trigger (Release ReadinessLock); mret a) t3 r ->
    if b then t3 = [Obs (Release ReadinessLock) ()] /\ r = (if ready rd then Ok () else Err Unavailable)
    else exists tg res (late : bool) checked,
      t3 = (tg ++ [Obs TimeoutElapsed late; Obs InstantNow checked;
            Obs (Store Readiness {| checked_at := Some checked; ready := is_ok r |}) ()])
           ++ [Obs (Release ReadinessLock) ()]
      /\ runs (get_lease self READINESS_LEASE_NAME) tg res
      /\ r = if late then Err Unavailable else match res with Ok _ => Ok () | Err e => Err e end) as G.
  { intros [] t3 (ta & tb & a & -> & Ha & Hb)%runs_bind.
    - destruct Ha as [-> ->], Hb as ([] & tc & -> & [-> ->]). done.
    - apply runs_bind in Ha as (tg & td & res & -> & Hg & late & te & -> & checked & tf & -> & [] & tk & -> & [-> ->]).
      destruct Hb as ([] & tc & -> & [-> ->]).
      exists tg, res, late, checked. rewrite <- !app_assoc. done. }
  destruct (checked_at rd) as [c|] eqn:Hc; cbn -[get_lease] in H.
  - destruct H as (now & t3 & -> & H).
    apply (G (bool_decide (elapsed now c < READINESS_CACHE_TTL)%Z)) in H. case_bool_decide as Hnow.
    + destruct H as [-> ->]. exists [Obs InstantNow now]. split; [done|]. left. eauto 10.
    + destruct H as (tg & res & late & checked & -> & Hg & Hr). eexists (_ :: _). split; [done|]. right.
      exists [Obs InstantNow now]. do 4 eexists. split_and!; [done| |done..]. exists now. split; [done|lia].
  - apply (G false) in H as (tg & res & late & checked & -> & Hg & Hr). eexists. split; [done|]. right.
    exists []. do 4 eexists. by split_and!.
Qed.
End runs.

Definition sample_trace : trace_io := run_trace handle (use_once sample_ledger "jti-1" 1700000300) sample_world.
Lemma use_once_recorded_witness :
  writes (lease_name "jti-1") sample_trace = 1 /\ writes (lease_name "jti-2") sample_trace = 0.
Proof.
  assert (runs (use_once sample_ledger "jti-1" 1700000300) sample_trace (Ok ())) as Hr
    by (apply run_trace_runs; by vm_compute).
  split; rewrite (use_once_recorded _ _ _ _ _ Hr); by vm_compute.

Defined.
Lemma use_once_discipline_witness :
  exists l, lease_discipline (fun jti e => jti = "jti-1" /\ e = 1700000300%Z) (take 2 sample_trace) _ (LeasePost "secret" l).
Proof.
  eexists. eapply (use_once_discipline sample_ledger "jti-1" 1700000300 sample_trace (Ok ())).
  - apply run_trace_runs. by vm_compute.
  - vm_compute. reflexivity.
Defined.
Lemma check_ready_spec_witness :
  exists rd t', run_trace handle (check_ready sample_ledger) sample_world
    = Obs (Acquire ReadinessLock) () :: Obs (Load Readiness) rd :: t' ++ [Obs (Release ReadinessLock) ()].
Proof.
  destruct (check_ready_spec sample_ledger (run_trace handle (check_ready sample_ledger) sample_world) (Ok ()))
    as (rd & t' & H & _); [|by exists rd, t'].
  apply run_trace_runs. by vm_compute.
Defined.
