(* ===== verification/Locks.v ===== *)
(** * Tasks that take mutexes

    The tasks of a replica wait for one another only at its mutexes.
    [MutexServer] is what the mutexes promise; a [balanced] program takes one mutex
    at a time and gives it back.  Then no schedule of such tasks is stuck before all
    of them have ended, none goes on forever, and a task that ends has performed a
    run of its program: even when some of the tasks are abandoned on the way, as the
    handler of a request is when its client leaves. *)
From S2P Require Import Prelude Text Prog Libs State Replay Simulator ReplaySafety.

(** ** The mutexes *)
Definition acquired `{jwt : Jwt} {X} (e : event X) : option mutex := match e with Acquire m => Some m | _ => None end.
Definition released `{jwt : Jwt} {X} (e : event X) : option mutex := match e with Release m => Some m | _ => None end.
#[export] Instance mutex_eq_dec : EqDecision mutex.
Proof. solve_decision. Defined.

(** An acquisition waits until the mutex is free; every other event is answered, a
    request at the latest with its timeout. *)
Class MutexServer `{jwt : Jwt} (S : Type) (serve : forall X, event X -> S -> X -> S -> Prop) := {
  taken : S -> mutex -> bool;
  serve_enabled X (e : event X) s : (forall m, acquired e = Some m -> taken s m = false) -> exists x s', serve X e s x s';
  serve_waits X (e : event X) s x s' m : serve X e s x s' -> acquired e = Some m -> taken s m = false;
  serve_taken X (e : event X) s x s' m : serve X e s x s' ->
    taken s' m = if decide (acquired e = Some m) then true else if decide (released e = Some m) then false else taken s m;
}.

(** A program that takes and gives back no mutex. *)
Definition lock_free `{jwt : Jwt} (X : Type) (e : event X) : Prop := acquired e = None /\ released e = None.
Abbreviation lockless := (only lock_free).

(** ** The discipline of a task *)
Section discipline.
Context `{jwt : Jwt}.

(** The mutex a task holds. *)
Definition holds (v : option mutex) (o : obs_io) : option mutex :=
  match o with
  | Obs e _ => match acquired e with Some m => Some m | None => match released e with Some _ => None | None => v end end
  end.
Definition holding (h : trace_io) : option mutex := foldl holds None h.
Lemma holding_snoc h o : holding (h ++ [o]) = holds (holding h) o.
Proof. unfold holding. by rewrite foldl_app. Qed.

Definition orderly (h : trace_io) (X : Type) (e : event X) : Prop :=
  match acquired e, released e with
  | Some _, _ => holding h = None
  | None, Some m => holding h = Some m
  | None, None => True
  end.
Definition balanced {A} (p : io A) : Prop :=
  forall h, holding h = None -> wp orderly p h (fun _ h' => holding h' = None).

Lemma lockless_holding {A} (p : io A) h v :
  lockless p -> holding h = v -> wp orderly p h (fun _ h' => holding h' = v).
Proof.
  intros Hp. specialize (Hp h). revert h Hp. induction p as [a|X e k IH]; intros h; [by intros _ Hv|].
  intros [[Ha Hr] Hk] Hv. split; [unfold orderly; by rewrite Ha, Hr|]. intros x. apply IH; [apply Hk|].
  rewrite holding_snoc. unfold holds. by rewrite Ha, Hr.
Qed.
Lemma balanced_lockless {A} (p : io A) : lockless p -> balanced p.
Proof. intros Hp h. by apply lockless_holding. Qed.
Lemma balanced_ret {A} (a : A) : balanced (Ret a).
Proof. by intros h Hh. Qed.
Lemma balanced_bind {A B} (p : io A) (f : A -> io B) : balanced p -> (forall a, balanced (f a)) -> balanced (p ≫= f).
Proof. intros Hp Hf h Hh. eapply wp_call; [by apply Hp|]. intros a h' _ Hh'. by apply Hf. Qed.
Lemma balanced_try {Er A B} (p : io (result Er A)) (f : A -> io (result Er B)) :
  balanced p -> (forall a, balanced (f a)) -> balanced (try_bind p f).
Proof. intros Hp Hf. apply balanced_bind; [done|]. intros [a|e]; [apply Hf|apply balanced_ret]. Qed.
Lemma balanced_lock {A} m (body : io A) : lockless body -> balanced (with_lock m body).
Proof.
  intros Hb h Hh. split; [done|]. intros u. apply (wp_bind orderly body).
  eapply wp_mono; [apply (lockless_holding _ _ (Some m) Hb); by rewrite holding_snoc|].
  intros a h' _ Hh'. split; [done|]. intros u'. cbn. by rewrite holding_snoc.
Qed.
End discipline.

(** The structure of a program decides; what it calls is looked up among the hints. *)
Create HintDb lockless.
Create HintDb balanced.
#[export] Hint Resolve balanced_lockless : balanced.
Ltac lockless := repeat first
  [ match goal with |- forall _, _ => intro end | solve [auto with lockless nocore]
  | match goal with |- only _ (let _ := _ in _) => cbv zeta | |- only _ (match ?x with _ => _ end) => destruct x end
  | apply only_try | apply only_bind | apply only_ret | apply only_vis; [by split|] ].
Ltac balanced := repeat first
  [ match goal with |- forall _, _ => intro end | solve [auto with balanced lockless nocore]
  | match goal with |- balanced (let _ := _ in _) => cbv zeta | |- balanced (match ?x with _ => _ end) => destruct x end
  | apply balanced_try | apply balanced_bind | apply balanced_ret | apply balanced_lockless; solve [lockless] ].

(** ** Tasks and clients that leave *)
Section pool.
Context `{jwt : Jwt} {S R : Type} (serve : forall X, event X -> S -> X -> S -> Prop) `{!MutexServer S serve}.

(** A task answers; when it is abandoned it gives back the mutex it holds, and
    nothing else it began is undone or completed. *)
Definition answering (p : io R) : io (option R) := a ← p; mret (Some a).
Definition abandoned (h : trace_io) : io (option R) :=
  match holding h with Some m => _ ← trigger (Release m); mret None | None => mret None end.
(** The tasks, and those that were abandoned. *)
Definition state : Type := config event S (option R) * gset nat.
Inductive step : state -> state -> Prop :=
| moves c c' gone : pool_step serve c c' -> step (c, gone) (c', gone)
| leaves s ts h i X (e : event X) k gone :
    ts !! i = Some (Vis e k) -> i ∉ gone ->
    step (Config s ts h, gone) (Config s (<[i := abandoned (of_task i h)]> ts) h, {[i]} ∪ gone).
Definition begin (s : S) (ps : gmap nat (io R)) : state := (initial s (answering <$> ps), ∅).

(** Each mutex is held by one task at most, and is then taken. *)
Definition exclusive (s : S) (h : list (nat * obs_io)) : Prop := forall i m, holding (of_task i h) = Some m ->
  taken s m = true /\ forall j, holding (of_task j h) = Some m -> j = i.
Context (ps : gmap nat (io R)) (bound : nat -> nat).
(** What every state that tasks of the discipline reach satisfies. *)
Record sound (x : state) : Prop := {
  sound_dom : dom (tasks x.1) = dom ps;
  sound_orderly i p : tasks x.1 !! i = Some p -> wp orderly p (of_task i (history x.1)) (fun _ h' => holding h' = None);
  sound_budget i p : tasks x.1 !! i = Some p -> exists n,
    len_bound p n /\ length (of_task i (history x.1)) + n = bound i;
  sound_taken m : taken (server x.1) m = true ->
    exists i p, tasks x.1 !! i = Some p /\ holding (of_task i (history x.1)) = Some m;
  sound_exclusive : exclusive (server x.1) (history x.1);
  sound_runs i p : tasks x.1 !! i = Some p -> i ∉ x.2 -> exists q, ps !! i = Some q /\
    forall t r, runs p t r -> runs (answering q) (of_task i (history x.1) ++ t) r;
}.

Lemma of_task_step i j h (o : obs_io) : of_task j (h ++ [(i, o)]) = if decide (i = j) then of_task i h ++ [o] else of_task j h.
Proof. rewrite of_task_snoc. case_decide as Hij; [by subst|by rewrite app_nil_r]. Qed.

Lemma sound_begin s :
  (forall m, taken s m = false) -> (forall i p, ps !! i = Some p -> balanced p /\ len_bound p (bound i)) ->
  sound (begin s ps).
Proof.
  intros Hs Hp. split; cbn; try done.
  - by rewrite dom_fmap_L.
  - intros i p (q & <- & Hq)%lookup_fmap_Some. eapply wp_call; [by eapply (Hp i q Hq)|]. by intros a h' _ Hh'.
  - intros i p (q & <- & Hq)%lookup_fmap_Some. exists (bound i). split; [|done]. rewrite <- (Nat.add_0_r (bound i)).
    apply len_bound_bind; [by apply (Hp i q)|done].
  - intros m. by rewrite Hs.
  - intros i p (q & <- & Hq)%lookup_fmap_Some _. by exists q.
Qed.

(** What a task holds after an event of its own. *)
Lemma holds_event h X (e : event X) x m : orderly h X e ->
  holds (holding h) (Obs e x) = Some m <->
  acquired e = Some m \/ (holding h = Some m /\ released e <> Some m).
Proof.
  unfold orderly, holds. destruct (acquired e) as [ma|] eqn:Ha; [intros ->; naive_solver|].
  destruct (released e) as [mr|] eqn:Hr; [intros ->; naive_solver|]. naive_solver.
Qed.
Lemma released_held h X (e : event X) m : orderly h X e -> released e = Some m -> holding h = Some m /\ acquired e = None.
Proof. unfold orderly. destruct e; cbn; naive_solver. Qed.
Lemma holding_step i j h (o : obs_io) :
  holding (of_task j (h ++ [(i, o)])) = if decide (i = j) then holds (holding (of_task i h)) o else holding (of_task j h).
Proof. rewrite of_task_step. case_decide; [|done]. apply holding_snoc. Qed.
Lemma holding_after s h i X (e : event X) x s' j m :
  exclusive s h -> orderly (of_task i h) X e -> serve X e s x s' ->
  holding (of_task j (h ++ [(i, Obs e x)])) = Some m ->
  (j = i /\ acquired e = Some m) \/ (holding (of_task j h) = Some m /\ acquired e <> Some m /\ released e <> Some m).
Proof.
  intros He Ho Hs. rewrite holding_step. case_decide as Hij; [subst j|].
  - intros [Ha|[Hh Hr]]%(holds_event _ _ _ _ _ Ho); [by left|]. right. split_and!; [done| |done].
    intros Ha. destruct (He i m Hh) as [Ht _]. by rewrite (serve_waits _ _ _ _ _ m Hs Ha) in Ht.
  - intros Hh. destruct (He j m Hh) as [Ht Hj]. right. split_and!; [done| |].
    + intros Ha. by rewrite (serve_waits _ _ _ _ _ m Hs Ha) in Ht.
    + intros Hr. destruct Hij. apply (Hj i). by apply (released_held _ _ e).
Qed.
Lemma sound_moves c c' gone : sound (c, gone) -> pool_step serve c c' -> sound (c', gone).
Proof.
  intros Hx Hs. destruct Hs as [s ts h i X e k x s' Hi Hs].
  pose proof (sound_orderly _ Hx i _ Hi) as [Ho Hk]. cbn [fst snd tasks history server] in Ho, Hk.
  split; cbn [fst snd tasks history server].
  - rewrite dom_insert_lookup_L by by eexists. apply (sound_dom _ Hx).
  - intros j p Hp. rewrite of_task_step. case_decide as Hj; [|apply (sound_orderly _ Hx)]; [subst j|].
    + rewrite lookup_insert_eq in Hp. injection Hp as <-. apply Hk.
    + by rewrite lookup_insert_ne in Hp.
  - intros j p Hp. rewrite of_task_step. case_decide as Hj; [subst j|].
    + rewrite lookup_insert_eq in Hp. injection Hp as <-. destruct (sound_budget _ Hx i _ Hi) as ([|n] & Hb & Hn); [done|].
      exists n. split; [apply Hb|]. cbn [fst tasks history] in Hn.
      rewrite length_app. cbn [length]. lia.
    + rewrite lookup_insert_ne in Hp by done. by apply (sound_budget _ Hx).
  - intros m. rewrite (serve_taken _ _ _ _ _ m Hs). intros Ht.
    assert (exists j p, ts !! j = Some p /\ holding (of_task j (h ++ [(i, Obs e x)])) = Some m) as (j & p & Hp & Hj).
    { case_decide as Ha; [|case_decide as Hr; [done|]].
      - exists i, (Vis e k). rewrite holding_step, decide_True by done. split; [done|]. apply holds_event; auto.
      - destruct (sound_taken _ Hx m Ht) as (j & p & Hp & Hj). exists j, p. split; [done|]. rewrite holding_step.
        case_decide as Hij; [subst j|done]. apply holds_event; auto. }
    destruct (decide (i = j)) as [->|Hne]; [exists j, (k x)|exists j, p]; (split; [|done]);
      [by rewrite lookup_insert_eq|by rewrite lookup_insert_ne].
  - intros j m. rewrite (serve_taken _ _ _ _ _ m Hs). pose proof (sound_exclusive _ Hx) as He. cbn in He.
    pose proof (fun j => holding_after s h i X e x s' j m He Ho Hs) as Hh.
    intros Hj. apply Hh in Hj as [[-> Ha]|(Hj & Ha & Hr)].
    + split; [by rewrite decide_True|]. by intros j' [[-> _]|(_ & Ha' & _)]%Hh.
    + destruct (He j m Hj) as [Ht Hx']. split; [by rewrite !decide_False|].
      intros j' [[_ Ha']|(Hj' & _)]%Hh; [done|by apply Hx'].
  - intros j p Hp Hg. rewrite of_task_step. case_decide as Hj; [subst j|].
    + rewrite lookup_insert_eq in Hp. injection Hp as <-. destruct (sound_runs _ Hx i _ Hi Hg) as (q & Hq & Hr).
      exists q. split; [done|]. intros t r Ht. rewrite <- app_assoc. apply Hr. cbn. eauto.
    + rewrite lookup_insert_ne in Hp by done. by apply (sound_runs _ Hx).
Qed.
Lemma sound_leaves s ts h i X (e : event X) k gone :
  sound (Config s ts h, gone) -> ts !! i = Some (Vis e k) ->
  sound (Config s (<[i := abandoned (of_task i h)]> ts) h, {[i]} ∪ gone).
Proof.
  intros Hx Hi. split; cbn [fst snd tasks history server].
  - rewrite dom_insert_lookup_L by by eexists. apply (sound_dom _ Hx).
  - intros j p Hp. destruct (decide (i = j)) as [->|Hne]; [|rewrite lookup_insert_ne in Hp by done; by apply (sound_orderly _ Hx)].
    rewrite lookup_insert_eq in Hp. injection Hp as <-. unfold abandoned. destruct (holding (of_task j h)) as [m|] eqn:Hm; [|exact Hm].
    split; [exact Hm|]. intros []. cbn. by rewrite holding_snoc.
  - intros j p Hp. destruct (decide (i = j)) as [->|Hne]; [|rewrite lookup_insert_ne in Hp by done; by apply (sound_budget _ Hx)].
    rewrite lookup_insert_eq in Hp. injection Hp as <-. destruct (sound_budget _ Hx j _ Hi) as ([|n] & Hb & Hn); [done|].
    exists (Datatypes.S n). split; [|done]. unfold abandoned. by destruct (holding _).
  - intros m (j & p & Hp & Hj)%(sound_taken _ Hx).
    destruct (decide (i = j)) as [->|Hne]; [exists j; eexists|exists j, p]; (split; [|done]);
      [by rewrite lookup_insert_eq|by rewrite lookup_insert_ne].
  - apply (sound_exclusive _ Hx).
  - intros j p Hp Hg. apply not_elem_of_union in Hg as [Hj Hg]. rewrite lookup_insert_ne in Hp by set_solver.
    by apply (sound_runs _ Hx).
Qed.
Lemma sound_step x x' : sound x -> step x x' -> sound x'.
Proof. intros Hx Hs. destruct Hs; [by eapply sound_moves|by eapply sound_leaves]. Qed.
Lemma sound_reachable x x' : sound x -> rtc step x x' -> sound x'.
Proof. intros Hx. induction 1 as [|x y z Hs _ IH]; [done|]. by apply IH, (sound_step x). Qed.

(** A state in which a task has not ended has a next step. *)
Lemma sound_progress x : sound x ->
  (exists c', pool_step serve x.1 c') \/ forall i p, tasks x.1 !! i = Some p -> exists a, p = Ret a.
Proof.
  destruct x as [[s ts h] gone]. intros Hx. cbn [fst tasks].
  destruct (decide (map_Forall (fun _ p => (if p is Ret _ then true else false) = true) ts)) as [Hd|Hn].
  { right. intros i p Hp. specialize (Hd i p Hp). destruct p as [a|]; [by exists a|done]. }
  left. apply map_not_Forall in Hn as (i & p & Hi & Hp); [|apply _]. destruct p as [a|X e k]; [done|].
  assert (forall j Y (e' : event Y) k', ts !! j = Some (Vis e' k') ->
    (forall m, acquired e' = Some m -> taken s m = false) -> exists c', pool_step serve (Config s ts h) c') as Hmove.
  { intros j Y e' k' Hj (y & s' & Hs)%serve_enabled. eexists. by constructor. }
  destruct (acquired e) as [m|] eqn:Ha; [|apply (Hmove i X e k Hi); by rewrite Ha].
  destruct (taken s m) eqn:Ht; [|apply (Hmove i X e k Hi); rewrite Ha; by intros ? [= <-]].
  destruct (sound_taken _ Hx m Ht) as (j & p & Hj & Hm). pose proof (sound_orderly _ Hx j p Hj) as Ho. cbn [fst tasks history] in *.
  destruct p as [a|Y e' k']; [cbn in Ho; congruence|]. apply (Hmove j Y e' k' Hj). intros m' Ha'.
  destruct Ho as [Ho _]. unfold orderly in Ho. rewrite Ha' in Ho. congruence.
Qed.

(** What is left to do: the events of every task, and its client's leaving. *)
Definition left_of (x : state) (i : nat) : nat :=
  (bound i - length (of_task i (history x.1))) + if decide (i ∈ x.2) then 0 else 1.
Definition left_to_do (x : state) : nat := sum_list_with (left_of x) (elements (dom ps)).
Lemma sum_list_lt {A} (f g : A -> nat) l a :
  (forall b, f b <= g b) -> a ∈ l -> f a < g a -> sum_list_with f l < sum_list_with g l.
Proof.
  intros Hle Ha Hlt. assert (forall l, sum_list_with f l <= sum_list_with g l) as Hs.
  { induction l0 as [|b l0 IH]; cbn; [done|]. specialize (Hle b). lia. }
  induction l as [|b l IH]; cbn; [by apply elem_of_nil in Ha|]. apply elem_of_cons in Ha as [->|Ha].
  - specialize (Hs l). lia.
  - specialize (IH Ha). specialize (Hle b). lia.
Qed.
Lemma step_does_work x x' : sound x -> step x x' -> left_to_do x' < left_to_do x.
Proof.
  intros Hx Hs. assert (exists i p, tasks x.1 !! i = Some p /\ left_of x' i < left_of x i
    /\ forall j, left_of x' j <= left_of x j) as (i & p & Hi & Hlt & Hle).
  { destruct Hs as [c c' gone Hs|s ts h i X e k gone Hi Hg].
    - destruct Hs as [s ts h i X e k x s' Hi Hs]. exists i, (Vis e k). destruct (sound_budget _ Hx i _ Hi) as ([|n] & Hb & Hn); [done|].
      unfold left_of. cbn [fst snd tasks history] in *. split_and!; [done| |].
      + rewrite of_task_step, decide_True, length_app by done. cbn [length]. lia.
      + intros j. rewrite of_task_step. case_decide as Hj; [|done]. subst j. rewrite length_app. lia.
    - exists i, (Vis e k). unfold left_of. cbn [fst snd tasks history]. split_and!; [done| |].
      + rewrite decide_True by set_solver. rewrite decide_False by done. lia.
      + intros j. repeat case_decide; try lia. set_solver. }
  apply (sum_list_lt _ _ _ i); [done| |done]. apply elem_of_elements. rewrite <- (sound_dom _ Hx). by eapply elem_of_dom_2.
Qed.
(** No schedule goes on forever. *)
Lemma sound_terminates x : sound x -> Acc (fun x' x => step x x') x.
Proof.
  remember (left_to_do x) as n eqn:Hn. revert x Hn. induction n as [n IH] using lt_wf_ind. intros x -> Hx.
  constructor. intros x' Hs. eapply (IH (left_to_do x')); [by apply step_does_work|done|by eapply sound_step].
Qed.

(** The tasks of the discipline, together. *)
Lemma pool_answers s c gone :
  (forall m, taken s m = false) -> (forall i p, ps !! i = Some p -> balanced p /\ len_bound p (bound i)) ->
  rtc step (begin s ps) (c, gone) ->
  Acc (fun x' x => step x x') (c, gone)
  /\ ((exists c', pool_step serve c c')
      \/ forall i p, ps !! i = Some p -> i ∉ gone -> exists a, finished c i (Some a) /\ runs p (of_task i (history c)) a)
  /\ (forall i p, ps !! i = Some p -> length (of_task i (history c)) <= bound i)
  /\ exclusive (server c) (history c).
Proof.
  intros Hs Hp Hr. pose proof (sound_reachable _ _ (sound_begin s Hs Hp) Hr) as Hx.
  assert (forall i p, ps !! i = Some p -> exists q, tasks (c, gone).1 !! i = Some q) as Hq.
  { intros i p Hi. apply elem_of_dom. rewrite (sound_dom _ Hx). by eapply elem_of_dom_2. }
  split_and!; [by apply sound_terminates| | |apply (sound_exclusive _ Hx)].
  - destruct (sound_progress _ Hx) as [Hm|Hd]; [by left|]. right. intros i p Hi Hg.
    destruct (Hq i p Hi) as [q Hi']. destruct (Hd i q Hi') as [a ->].
    destruct (sound_runs _ Hx i _ Hi' Hg) as (p' & Hp' & Hrun). simplify_eq.
    specialize (Hrun [] a (conj eq_refl eq_refl)). rewrite app_nil_r in Hrun.
    apply runs_bind in Hrun as (t1 & t2 & r & Ht & Hr1 & -> & ->). rewrite app_nil_r in Ht. exists r.
    split; [exact Hi'|]. cbn [fst] in Ht. by rewrite Ht.
  - intros i p Hi. destruct (Hq i p Hi) as [q Hi']. destruct (sound_budget _ Hx i _ Hi') as (n & _ & Hn). cbn in Hn. lia.
Qed.
End pool.

(** All tasks have ended. *)
Definition all_ended {E : Type -> Type} {S R} (c : config E S R) : bool :=
  forallb (fun p => if p.2 is Ret _ then true else false) (map_to_list (tasks c)).
Lemma all_ended_stays {E : Type -> Type} {S R} (serve : forall X, E X -> S -> X -> S -> Prop) (c : config E S R) :
  all_ended c = true -> ~ exists c', pool_step serve c c'.
Proof.
  intros Ha [c' Hs]. destruct Hs as [s ts h i X e k x s' Hi Hs]. unfold all_ended in Ha. rewrite List.forallb_forall in Ha.
  specialize (Ha (i, Vis e k)). cbn in Ha. assert (false = true); [|done]. apply Ha, list_elem_of_In. by rewrite elem_of_map_to_list.
Qed.

(** ** Schedules *)
Section schedules.
Context `{jwt : Jwt} {S R : Type} (enabled : forall X, event X -> S -> bool) (h : forall X, event X -> S -> X * S).
Definition enabled_serve (X : Type) (e : event X) (s : S) (x : X) (s' : S) : Prop :=
  enabled X e s = true /\ h X e s = (x, s').
Inductive turn := Moves (i : nat) | Leaves (i : nat).
(** A turn of a task that has ended or has to wait is passed over. *)
Definition take_turn (x : config event S (option R) * gset nat) (t : turn) : config event S (option R) * gset nat :=
  match t with
  | Moves i => (exec_step_if enabled h x.1 i, x.2)
  | Leaves i =>
      match tasks x.1 !! i with
      | Some (Vis _ _) =>
          if decide (i ∈ x.2) then x
          else (Config (server x.1) (<[i := abandoned (of_task i (history x.1))]> (tasks x.1)) (history x.1), {[i]} ∪ x.2)
      | _ => x
      end
  end.
Lemma take_turns_reachable x turns : rtc (step enabled_serve) x (foldl take_turn x turns).
Proof.
  revert x. induction turns as [|t turns IH]; intros x; [apply rtc_refl|]. cbn [foldl]. etrans; [|apply IH].
  destruct x as [[s ts hist] gone], t as [i|i]; unfold take_turn, exec_step_if, exec_step; cbn [fst snd tasks server history].
  all: destruct (ts !! i) as [[a|X e k]|] eqn:Hi; try apply rtc_refl.
  - destruct (enabled X e s) eqn:He; [|apply rtc_refl]. destruct (h X e s) as [x w'] eqn:Hh.
    apply rtc_once. do 2 constructor; done.
  - case_decide; [apply rtc_refl|]. apply rtc_once. by econstructor.
Qed.
End schedules.

(** The simulator, with mutexes. *)
Section simulated.
Context `{jwt : Jwt}.
Definition mutex_enabled (X : Type) (e : event X) (s : World * (mutex -> bool)) : bool :=
  match acquired e with Some m => negb (s.2 m) | None => true end.
Definition mutex_handle (X : Type) (e : event X) (s : World * (mutex -> bool)) : X * (World * (mutex -> bool)) :=
  let '(x, w) := handle X e s.1 in
  (x, (w, fun m => if decide (acquired e = Some m) then true else if decide (released e = Some m) then false else s.2 m)).
#[export,refine] Instance simulated_mutexes : MutexServer (World * (mutex -> bool)) (enabled_serve mutex_enabled mutex_handle) := {|
  taken s := s.2
|}.
Proof.
  - intros X e s Hf. destruct (mutex_handle X e s) as [x s'] eqn:Hh. exists x, s'. split; [|done].
    unfold mutex_enabled. destruct (acquired e) as [m|]; [|done]. by rewrite Hf.
  - intros X e s x s' m [He _] Ha. unfold mutex_enabled in He. rewrite Ha in He. by apply negb_true_iff in He.
  - intros X e s x s' m [_ Hh]. unfold mutex_handle in Hh. destruct (handle X e s.1) as [y w]. by injection Hh as <- <-.
Defined.
End simulated.
