(* ===== verification/LedgerRefinement.v ===== *)
(** * The ledger as a set of records

    The abstract ledger is the set of the names that are spent.  Against the
    in-memory Lease API of [Simulator], [use_once] with its conflicts, its reclaim
    of expired records and its clean-up refines the abstract use: it is refused
    exactly when the name is spent, and adds exactly the name. *)
From S2P Require Import Prelude Text Prog Libs State Concrete Replay Simulator ReplaySafety.

(** ** The specification *)
Definition abstract_use (n : string) (spent : gset string) : result ReplayError () * gset string :=
  if decide (n ∈ spent) then (Err Replayed, spent) else (Ok (), {[n]} ∪ spent).

(** ** Executions of composed programs *)
Section run.
Context {E : Type -> Type} {W : Type} (h : forall X, E X -> W -> X * W).
Lemma run_bind {A B} (p : prog E A) (f : A -> prog E B) w :
  run h (p ≫= f) w = let '(a, w') := run h p w in run h (f a) w'.
Proof.
  unfold mbind, prog_mbind. revert w. induction p as [a|X e k IH]; intros w; [done|]. cbn.
  destruct (h X e w) as [x w']. apply IH.
Qed.
Lemma run_bind_to {A B} (p : prog E A) (f : A -> prog E B) w a w' :
  run h p w = (a, w') -> run h (p ≫= f) w = run h (f a) w'.
Proof. intros Hp. by rewrite run_bind, Hp. Qed.
Lemma run_try_to {Er A B} (p : prog E (result Er A)) (f : A -> prog E (result Er B)) w a w' :
  run h p w = (Ok a, w') -> run h (try_bind p f) w = run h (f a) w'.
Proof. intros Hp. unfold try_bind. by rewrite (run_bind_to _ _ _ _ _ Hp). Qed.
Lemma run_try_err {Er A B} (p : prog E (result Er A)) (f : A -> prog E (result Er B)) w e w' :
  run h p w = (Err e, w') -> run h (try_bind p f) w = (Err e, w').
Proof. intros Hp. unfold try_bind. by rewrite (run_bind_to _ _ _ _ _ Hp). Qed.
Lemma run_try_some {Er A B} (e : Er) (a : A) (f : A -> prog E (result Er B)) w :
  run h (try_bind (mret (ok_or e (Some a))) f) w = run h (f a) w.
Proof. done. Qed.
End run.

(** ** The refinement *)
Section refinement.
Context `{jwt : Jwt, url : UrlLib, sha : Sha2, chrono : Chrono, laws : !ChronoLaws}.
Context (self : KubernetesLeaseReplayLedger).

(** The names that are spent at a time. *)
Definition spent (w : World) (now : datetime) : gset string :=
  dom (filter (fun entry => expired entry.2 now = false) (leases w)).
Lemma elem_of_spent n w now : n ∈ spent w now <-> exists l, leases w !! n = Some l /\ expired l now = false.
Proof.
  unfold spent. rewrite elem_of_dom. split.
  - intros [l [Hl He]%map_lookup_filter_Some]. by exists l.
  - intros (l & Hl & He). exists l. by apply map_lookup_filter_Some.
Qed.
(** The API is up, the credential can be read, and the Leases are as the API keeps
    them: under their names and with a version. *)
Record serving (w : World) : Prop := {
  serving_up : api_up w = true;
  serving_credential : exists contents, files w !! credential_file self = Some contents /\ trim contents <> "";
  serving_urls n : is_Some (url_parse (url_as_str (collection_url self) +:+ "/" +:+ n));
  serving_leases n l : leases w !! n = Some l ->
    name (metadata l) = n /\ exists v, resource_version (metadata l) = Some v /\ v <> "";
  serving_next : (0 <= next_version w)%Z;
}.

(** A new record is spent from the start. *)
Lemma Lease_new_live nm ret now l : Lease_new nm ret now = Ok l -> expired l now = false.
Proof.
  intros (_ & _ & _ & _ & Hr)%Lease_new_fields. apply not_true_is_false. rewrite expired_spec, Hr. unfold ns_per_s.
  intros (_ & Hpos & r & Hp & Hle). destruct (rfc3339_round_trip now) as (d & Hd' & ->).
  simplify_eq. pose proof (Z.div_mod now 1000). pose proof (Z.mod_pos_bound now 1000). lia.
Qed.

Lemma run_credential w : serving w -> exists c, run handle (credential self) w = (Ok c, w).
Proof.
  intros [_ (contents & Hc & Ht) _ _ _]. unfold credential. cbn. rewrite Hc. exists (trim contents). cbn.
  by rewrite (proj2 (is_empty_false _) Ht).
Qed.
Lemma run_create w l : serving w ->
  run handle (create_lease self l) w =
    match leases w !! name (metadata l) with
    | Some _ => (Ok CreateConflict, w)
    | None => (Ok Created, put_lease w (name (metadata l)) l)
    end.
Proof.
  intros Hs. destruct (run_credential w Hs) as [c Hc]. unfold create_lease. rewrite (run_try_to _ _ _ _ _ _ Hc).
  cbn. rewrite (serving_up w Hs). by destruct (leases w !! _).
Qed.
Lemma run_get w n : serving w -> run handle (get_lease self n) w = (Ok (leases w !! n), w).
Proof.
  intros Hs. destruct (run_credential w Hs) as [c Hc]. unfold get_lease. rewrite (run_try_to _ _ _ _ _ _ Hc).
  unfold item_url. destruct (serving_urls w Hs n) as [u ->]. cbn. rewrite (serving_up w Hs).
  by destruct (leases w !! n).
Qed.
Lemma run_update w n l cur : serving w -> leases w !! n = Some cur ->
  resource_version (metadata cur) = resource_version (metadata l) ->
  run handle (update_lease self n l) w = (Ok Updated, put_lease w n l).
Proof.
  intros Hs Hn Hv. destruct (run_credential w Hs) as [c Hc]. unfold update_lease. rewrite (run_try_to _ _ _ _ _ _ Hc).
  unfold item_url. destruct (serving_urls w Hs n) as [u ->]. cbn. rewrite (serving_up w Hs), Hn.
  by rewrite decide_True.
Qed.
Lemma run_delete w n v cur : serving w -> leases w !! n = Some cur -> resource_version (metadata cur) = Some v ->
  run handle (delete_lease self n v) w = (Ok (), set_leases w (delete n (leases w)) (versions w) (next_version w)).
Proof.
  intros Hs Hn Hv. destruct (run_credential w Hs) as [c Hc]. unfold delete_lease. rewrite (run_try_to _ _ _ _ _ _ Hc).
  unfold item_url. destruct (serving_urls w Hs n) as [u ->]. cbn. rewrite (serving_up w Hs), Hn.
  by rewrite decide_True.
Qed.
Lemma run_list w token : serving w ->
  run handle (list_leases self token) w = (Ok {| items := snd <$> map_to_list (leases w);
                                                 list_metadata := {| continue_token := "" |} |}, w).
Proof.
  intros Hs. destruct (run_credential w Hs) as [c Hc]. unfold list_leases. rewrite (run_try_to _ _ _ _ _ _ Hc).
  cbn. by rewrite (serving_up w Hs).
Qed.

(** The retention is short enough for a record. *)
Lemma Lease_new_total nm e now ret :
  retained_until e (timestamp_of now) = Ok ret -> exists l, Lease_new nm ret now = Ok l.
Proof.
  intros (-> & _ & Hb)%retained_until_spec. rewrite timestamp_of_spec in Hb. unfold Lease_new.
  rewrite num_seconds_spec. unfold to_i32. rewrite bool_decide_true; [by eexists|].
  unfold ns_per_s in *. pose proof (Z.div_mod now 1000000000). pose proof (Z.mod_pos_bound now 1000000000).
  rewrite Z.quot_div_nonneg by lia.
  split; [apply Z.le_trans with 0%Z; [lia|apply Z.div_pos; lia]|]. apply Z.div_le_upper_bound; lia.
Qed.

(** The only error. *)
Lemma retained_until_err e now x : retained_until e now = Err x -> x = Unavailable.
Proof.
  unfold retained_until. destruct (i64_checked_add _ _) as [r|]; cbn -[i64_checked_sub from_timestamp]; [|by intros [= <-]].
  destruct (i64_checked_sub _ _) as [d|]; cbn; [|by intros [= <-]].
  destruct (_ || _); cbn; [by intros [= <-]|]. destruct (from_timestamp r); cbn; [done|by intros [= <-]].
Qed.
(** Every expiry near the current time has a retention that fits in a record. *)
Lemma retained_until_total `{!ChronoRange} e now :
  (0 <= now < 253402290000)%Z -> (now - 300 < e <= now + 660)%Z -> exists ret, retained_until e now = Ok ret.
Proof.
  intros Hnow He. unfold retained_until, LEASE_RETENTION_SECONDS, MAX_LEASE_DURATION_SECONDS.
  assert (i64_checked_add e 300 = Some (e + 300)%Z) as ->.
  { apply i64_checked_add_Some. unfold is_i64, i64_min, i64_max. lia. }
  cbn -[i64_checked_sub].
  assert (i64_checked_sub (e + 300) now = Some (e + 300 - now)%Z) as ->.
  { apply i64_checked_sub_Some. unfold is_i64, i64_min, i64_max. lia. }
  cbn. rewrite !bool_decide_false by lia. cbn.
  destruct (from_timestamp_range (e + 300)) as [d ->]; [lia|]. by exists d.
Qed.

(** Writing a record under a name, and removing an expired one. *)
Lemma put_serving w l : serving w -> serving (put_lease w (name (metadata l)) l).
Proof.
  intros [? ? ? Hl Hn]. split; try done; [|cbn; lia]. intros n l'. cbn.
  intros [[<- <-]|[_ ?]]%lookup_insert_Some; [|by apply Hl].
  split; [done|]. exists (decimal (next_version w)). split; [done|].
  rewrite decimal_of_nonneg by done. destruct (pretty_N_nonempty (Z.to_N (next_version w))) as (a & s & ->). done.
Qed.
Lemma put_spent w n l now : expired l now = false -> spent (put_lease w n l) now = {[n]} ∪ spent w now.
Proof.
  intros He. apply set_eq. intros m. rewrite elem_of_union, elem_of_singleton, !elem_of_spent. cbn.
  destruct (decide (m = n)) as [->|Hne].
  - rewrite lookup_insert_eq. split; [by left|]. intros _. eexists. split; [done|]. by rewrite expired_set_version.
  - rewrite lookup_insert_ne by done. naive_solver.
Qed.
Lemma delete_keeps w n cur now vs nv :
  serving w -> leases w !! n = Some cur -> expired cur now = true -> (0 <= nv)%Z ->
  serving (set_leases w (delete n (leases w)) vs nv)
  /\ spent (set_leases w (delete n (leases w)) vs nv) now = spent w now.
Proof.
  intros [? ? ? Hl ?] Hn He Hv. split.
  - split; try done. cbn. intros m l [_ Hm]%lookup_delete_Some. by apply Hl.
  - apply set_eq. intros m. rewrite !elem_of_spent. cbn. destruct (decide (m = n)) as [->|Hne].
    + rewrite lookup_delete_eq. split; intros (l & Hl' & ?); simplify_eq; congruence.
    + by rewrite lookup_delete_ne.
Qed.

(** ** The clean-up changes nothing that is spent *)
Definition keeps (w w' : World) (now : datetime) : Prop := serving w' /\ spent w' now = spent w now.
Lemma store_keeps w now t : serving w -> keeps w (handle_store CleanupContinue w t) now.
Proof. intros [? ? ? ? ?]. by split; [split|]. Qed.

Lemma run_candidates w l now : serving w ->
  exists b w', run handle (cleanup_candidates self l now) w = (b, w') /\ keeps w w' now.
Proof.
  intros Hs. induction l as [|x l IH]; [by exists false, w|].
  cbn [cleanup_candidates]. rewrite (run_bind_to _ _ _ _ _ _ (run_get w _ Hs)).
  destruct (leases w !! name (metadata x)) as [cur|] eqn:Hn; [|done].
  destruct (negb (owned_ledger_lease cur) || negb (expired cur now)) eqn:Hg; [done|].
  apply orb_false_iff in Hg as [_ He%negb_false_iff].
  destruct (serving_leases w Hs _ _ Hn) as (_ & v & Hv & _). rewrite Hv.
  rewrite (run_bind_to _ _ _ _ _ _ (run_delete w _ _ _ Hs Hn Hv)).
  eexists true, _. split; [done|]. apply (delete_keeps w _ cur); try done. apply (serving_next w Hs).
Qed.
Lemma run_cleanup w now : serving w ->
  exists w', run handle (cleanup_one self now) w = ((), w') /\ keeps w w' now.
Proof.
  intros Hs. unfold cleanup_one.
  rewrite (run_bind_to handle cleanup_continue _ w (continue_cell w) w eq_refl).
  change MAX_CLEANUP_PAGES_PER_EXCHANGE with 2. cbn beta delta [cleanup_pages] iota fix.
  rewrite (run_bind_to _ _ _ _ _ _ (run_list w _ Hs)). cbn [State.continue_token list_metadata].
  rewrite (run_bind_to handle (set_cleanup_continue None) _ w () (handle_store CleanupContinue w None) eq_refl).
  destruct (store_keeps w now None Hs) as [Hs' Hsp].
  edestruct (run_candidates (handle_store CleanupContinue w None)) as (b & w' & Hr & Hk & Hk'); [done|].
  rewrite (run_bind_to _ _ _ _ _ _ Hr). exists w'. split; [by destruct b|]. split; [done|]. etrans; [exact Hk'|exact Hsp].
Qed.

(** ** Reclaiming *)
Lemma run_reclaim w l cur now : serving w -> expired l now = false ->
  leases w !! name (metadata l) = Some cur ->
  run handle (reclaim_expired self (name (metadata l)) l now) w =
    if expired cur now
    then (Ok (), put_lease w (name (metadata l)) (set_resource_version l (resource_version (metadata cur))))
    else (Err Replayed, w).
Proof.
  intros Hs Hl Hn. unfold reclaim_expired. cbn [reclaim_attempts].
  rewrite (run_try_to _ _ _ _ _ _ (run_get w _ Hs)), Hn. destruct (expired cur now); [|done]. cbn [negb].
  destruct (serving_leases w Hs _ _ Hn) as (_ & v & Hv & Hne). rewrite Hv, (proj2 (is_empty_false v) Hne).
  by rewrite (run_try_to _ _ _ _ _ _ (run_update w _ _ _ Hs Hn (Hv : _ = resource_version (metadata (set_resource_version l (Some v)))))).
Qed.

Lemma run_finish (w w0 : World) (l : Lease) now :
  serving w0 -> spent w0 now = {[name (metadata l)]} ∪ spent w now ->
  exists w', run handle (cleanup_one self now ≫= fun _ => mret (Ok ())) w0 = (Ok () : result ReplayError (), w')
    /\ serving w' /\ spent w' now = {[name (metadata l)]} ∪ spent w now.
Proof.
  intros Hs Hsp. destruct (run_cleanup w0 now Hs) as (w' & Hr & Hs' & Hk).
  exists w'. rewrite (run_bind_to _ _ _ _ _ _ Hr). split; [done|]. split; [done|]. congruence.
Qed.

Lemma run_use_once w jti e ret :
  serving w ->
  retained_until e (timestamp_of (clock w)) = Ok ret ->
  exists r w', run handle (use_once self jti e) w = (r, w')
    /\ serving w'
    /\ abstract_use (lease_name jti) (spent w (clock w)) = (r, spent w' (clock w)).
Proof.
  intros Hs Hr. destruct (Lease_new_total (lease_name jti) _ _ _ Hr) as [l Hl].
  remember (clock w) as now eqn:Hnow. pose proof (Lease_new_live _ _ _ _ Hl) as Hlive.
  destruct (Lease_new_fields _ _ _ _ Hl) as (Hname & _). unfold use_once.
  rewrite (run_bind_to handle utc_now _ w now w) by (by rewrite Hnow).
  rewrite (run_try_to handle (mret _) _ w ret w) by (cbn; by rewrite Hr).
  rewrite (run_try_to handle (mret _) _ w l w) by (cbn; by rewrite Hl).
  pose proof (run_create w l Hs) as Hc. unfold abstract_use.
  destruct (leases w !! name (metadata l)) as [cur|] eqn:Hn; rewrite (run_try_to _ _ _ _ _ _ Hc).
  - pose proof (run_reclaim w l cur now Hs Hlive Hn) as Hrec. destruct (expired cur now) eqn:He.
    + rewrite (run_try_to _ _ _ _ _ _ Hrec).
      edestruct (run_finish w) as (w' & Hrun & Hs' & Hsp); [by apply (put_serving w (set_resource_version l (resource_version (metadata cur))) Hs)|by apply put_spent|].
      exists (Ok ()), w'. rewrite decide_False.
      * rewrite <- Hname. by rewrite Hsp.
      * rewrite elem_of_spent, <- Hname. intros (? & ? & ?). simplify_eq. congruence.
    + rewrite (run_try_err _ _ _ _ _ _ Hrec). exists (Err Replayed), w.
      rewrite decide_True; [done|]. apply elem_of_spent. rewrite <- Hname. by exists cur.
  - edestruct (run_finish w) as (w' & Hrun & Hs' & Hsp); [by apply (put_serving w l)|by apply put_spent|].
    exists (Ok ()), w'. rewrite decide_False.
    * rewrite <- Hname. by rewrite Hsp.
    * rewrite elem_of_spent, <- Hname, Hn. naive_solver.
Qed.

(** C3: the ledger refines the abstract use of a name.  While the Lease API
    serves requests one at a time, [use_once] answers as the abstract operation on
    the set of the spent names and leaves that set as the abstract operation does,
    whichever of its paths it takes: the creation, the refusal of a live record, the
    reclaim of an expired one, and the clean-up that follows. *)
Theorem use_once_refines w jti e ret :
  serving w ->
  retained_until e (timestamp_of (clock w)) = Ok ret ->
  exists r w', run handle (use_once self jti e) w = (r, w')
    /\ serving w'
    /\ abstract_use (lease_name jti) (spent w (clock w)) = (r, spent w' (clock w)).
Proof. apply run_use_once. Qed.
End refinement.

(** ** A concrete ledger: an assertion is used, then used again *)
Lemma sample_serving `{jwt : Jwt} w :
  api_up w = true -> files w = {["/token" := "secret"]} -> leases w = ∅ -> (0 <= next_version w)%Z ->
  serving sample_ledger w.
Proof.
  intros Ha Hf Hl Hn. split; [done| | |by rewrite Hl|done].
  - exists "secret". rewrite Hf. by split; vm_compute.
  - intros n. by eexists.
Qed.
#[local] Existing Instance sample_jwt.
Lemma use_once_refines_witness :
  exists r w', run handle (use_once sample_ledger "jti-1" 1700000300) sample_world = (r, w')
    /\ serving sample_ledger w'
    /\ abstract_use (lease_name "jti-1") (spent sample_world (clock sample_world)) = (r, spent w' (clock sample_world)).
Proof.
  apply (use_once_refines sample_ledger sample_world "jti-1" 1700000300 sample_retained).
  - by apply sample_serving.
  - by vm_compute.
Defined.
