(* ===== verification/Exchange.v ===== *)
(** * What the exchanges share

    The accounting of their metrics, which every exchange must get right, and the
    interface [Exchange]: a program that redeems an assertion under the ledger's
    discipline.  Against the interface, [calls_at_most_once] shows that tasks of
    any exchanges that share a Lease API redeem a record at most once. *)
From S2P Require Import Prelude Text Prog Libs State Replay ReplaySafety.

(** ** Accounting *)
Section accounting.
Context `{jwt : Jwt}.
Definition added (c : counter) (o : obs_io) : Z :=
  match o with
  | Obs e _ => match e with FetchAdd c' n => if decide (c' = c) then n else 0%Z | _ => 0%Z end
  end.
(** What a trace adds to a counter. *)
Fixpoint total (c : counter) (t : trace_io) : Z :=
  match t with [] => 0%Z | o :: t => (added c o + total c t)%Z end.
Lemma total_app c t1 t2 : total c (t1 ++ t2) = (total c t1 + total c t2)%Z.
Proof. induction t1 as [|o t1 IH]; cbn; [done|]. rewrite IH. lia. Qed.

Lemma wp_uncounted (permit : trace_io -> forall X, event X -> Prop) {A} (p : io A) h
    (Q : A -> trace_io -> Prop) :
  (forall h X (e : event X), permit h X e -> service_metric e = false) ->
  wp permit p h Q ->
  wp permit p h (fun a h' => Q a h' /\ forall c, c <> RefreshFailures -> total c h' = total c h).
Proof.
  intros Hp. revert h. induction p as [a|X e k IH]; intros h; cbn; [done|].
  intros [He Hk]. split; [done|]. intros x. eapply wp_mono; [by apply IH|].
  intros a h' _ [HQ Hw]. split; [done|]. intros c Hc. rewrite (Hw c Hc), total_app.
  apply Hp in He. destruct e; try done; cbn; try lia. destruct c0; try done. rewrite decide_False by done. lia.
Qed.

(** The counters of the duration histogram. *)
Definition is_duration (c : counter) : bool :=
  match c with DurationBucket _ | DurationCount | DurationSumMicros => true | _ => false end.
(** Of the counters that are not of durations or key refreshes, those in [cs]
    have moved by one and the others not at all. *)
Definition moved (cs : list counter) (h h' : trace_io) : Prop :=
  forall c, is_duration c = false -> c <> RefreshFailures ->
    total c h' = (total c h + if decide (c ∈ cs) then 1 else 0)%Z.
Lemma moved_refl h : moved [] h h.
Proof. intros c _ _. rewrite decide_False by (by intros ?%elem_of_nil). lia. Qed.
Lemma moved_same cs h h1 h2 :
  (forall c, c <> RefreshFailures -> total c h2 = total c h1) -> moved cs h h1 -> moved cs h h2.
Proof. intros Hs Hm c Hd Hr. rewrite Hs by done. by apply Hm. Qed.
Lemma moved_other cs h0 h X (e : event X) x :
  service_metric e = false -> moved cs h0 h -> moved cs h0 (h ++ [Obs e x]).
Proof.
  intros He. apply moved_same. intros c Hc. rewrite total_app. cbn. destruct e; try done; cbn; try lia.
  destruct c0; try done. rewrite decide_False by done. lia.
Qed.
Lemma moved_count cs h0 h s o u :
  Count s o ∉ cs -> moved cs h0 h -> moved (Count s o :: cs) h0 (h ++ [Obs (FetchAdd (Count s o) 1) u]).
Proof.
  intros Hn Hm c Hd Hr. rewrite total_app. cbn. rewrite (Hm c Hd Hr).
  repeat case_decide; set_solver by lia.
Qed.
Lemma moved_prog (permit : trace_io -> forall X, event X -> Prop) {A} (p : io A) cs h0 h
    (Q : A -> trace_io -> Prop) :
  (forall h X (e : event X), permit h X e -> service_metric e = false) ->
  moved cs h0 h -> wp permit p h Q ->
  wp permit p h (fun a h' => Q a h' /\ moved cs h0 h').
Proof.
  intros Hp Hm Hw. eapply wp_mono; [by apply wp_uncounted|].
  intros a h' _ [HQ Ht]. split; [done|]. by eapply moved_same.
Qed.
Lemma writes_other n h X (e : event X) x : lease_write e = false -> writes n (h ++ [Obs e x]) = writes n h.
Proof. intros He. rewrite writes_app. destruct e; try done; cbn; lia. Qed.
(** Counting and logging the end of a request. *)
Lemma wp_settle {A} (permit : trace_io -> forall X, event X -> Prop) cs h0 h s o ev fields (a : A)
    (Q : A -> trace_io -> Prop) :
  (forall h X (e : event X), lease_write e = false -> permit h X e) ->
  moved cs h0 h -> Count s o ∉ cs ->
  (forall h', h `prefix_of` h' -> moved (Count s o :: cs) h0 h' ->
     (forall n, writes n h' = writes n h) -> Q a h') ->
  wp permit (_ ← count s o; _ ← log ev fields; mret a) h Q.
Proof.
  intros Hp Hm Hn HQ. cbn. split; [by apply Hp|]. intros u1.
 split; [by apply Hp|]. intros u2. apply HQ.
  - rewrite <- app_assoc. by apply prefix_app_r.
  - apply moved_other; [done|]. by apply moved_count.
  - intros n. by rewrite !writes_other.
Qed.
End accounting.
Create HintDb accounting.
#[export] Hint Resolve moved_other : accounting.

(** ** The interface *)
Section discipline.
Context `{jwt : Jwt, sha : Sha2, chrono : Chrono} (P : string -> Z -> Prop).
Lemma lease_discipline_allows h X (e : event X) : lease_write e = false -> lease_discipline P h X e.
Proof. by destruct e. Qed.

End discipline.

(** [C]: the requests, [A]: the answers; [identifies] is the record a request
    is redeemed under and the expiry it is recorded with, which the request alone
    determines, and [issues] tells, from what the request has seen, the answers that
    need the record. *)
Class Exchange `{jwt : Jwt, sha : Sha2, chrono : Chrono} (C A : Type) := {
  perform_call : C -> io A;
  identifies : C -> option (string * Z);
  issues : C -> A -> trace_io -> Prop;
  perform_spec (P : string -> Z -> Prop) c h :
    (forall id e, identifies c = Some (id, e) -> P id e) ->
    wp (lease_discipline P) (perform_call c) h (fun a h' =>
      issues c a h' -> exists id e, identifies c = Some (id, e) /\ 1 <= writes (lease_name id) h');
}.

Section sum.
Context `{jwt : Jwt, sha : Sha2, chrono : Chrono} {C1 A1 C2 A2 : Type}.
Context `{!Exchange C1 A1, !Exchange C2 A2}.
(** Requests of two kinds. *)
#[export,refine] Instance sum_exchange : Exchange (C1 + C2) (A1 + A2) := {|
  perform_call c := match c with inl c => a ← perform_call c; mret (inl a) | inr c => a ← perform_call c; mret (inr a) end;
  identifies c := match c with inl c => identifies c | inr c => identifies c end;
  issues c a h := match c, a with inl c, inl a => issues c a h | inr c, inr a => issues c a h | _, _ => False end;
|}.
Proof. intros P [c|c] h HP; (eapply wp_call; [by apply perform_spec|]); by intros a h' _ Ha. Defined.
End sum.

Section replicas.
Context `{jwt : Jwt, sha : Sha2, !Sha2Laws, chrono : Chrono, !ChronoLaws} {C A : Type} `{!Exchange C A}.
Definition perform_task (c : C) : io (C * A) := a ← perform_call c; mret (c, a).
Definition redeems (n : string) (a : C * A) (h : trace_io) : Prop :=
  issues a.1 a.2 h /\ exists id e, identifies a.1 = Some (id, e) /\ lease_name id = n.

Lemma perform_task_obeys P n i c :
  (forall id e, identifies c = Some (id, e) -> P i id e) -> obeys P n (redeems n) i (perform_task c) [].
Proof.
  intros HP. unfold obeys, perform_task. eapply wp_call; [by apply (perform_spec (P i))|].
  intros a h _ Ha (Hi & id & e & Hc & <-). destruct (Ha Hi) as (id' & e' & Hc' & Hw). cbn in Hc. by simplify_eq.
Qed.
Lemma perform_task_issues c : wp (lease_discipline (fun _ _ => True)) (perform_task c) [] (fun a h =>
  issues a.1 a.2 h -> exists id e, identifies a.1 = Some (id, e) /\ 1 <= writes (lease_name id) h).
Proof. unfold perform_task. eapply wp_call; [by apply perform_spec|]. by intros a h _ Ha. Qed.
(** A task answers the request it was given. *)
Lemma perform_task_call (c : C) t (a : C * A) : runs (perform_task c) t a -> a.1 = c.
Proof. by intros (t1 & t2 & x & _ & _ & _ & ->)%runs_bind. Qed.

(** Of two requests that are answered as a record of theirs allows, the record is
    recorded with an expiry at which the other cannot be: other requests, with
    whatever expiry they name the record, do not matter. *)
Lemma calls_at_most_once {S} serve `{!LeaseServer S serve} (calls : gmap nat C) s c i j c1 c2 a1 a2 id1 id2 e1 e2 :
  server_ok s -> reachable serve s (perform_task <$> calls) c ->
  identifies c1 = Some (id1, e1) -> identifies c2 = Some (id2, e2) -> lease_name id1 = lease_name id2 ->
  clocks_ok (Z.min e1 e2) (history c) ->
  finished c i (c1, a1) -> finished c j (c2, a2) ->
  issues c1 a1 (of_task i (history c)) -> issues c2 a2 (of_task j (history c)) -> i = j.
Proof.
  intros Hok Hr Hc1 Hc2 Hn Hclock Hi Hj H1 H2.
  assert (forall k ck ak, finished c k (ck, ak) -> calls !! k = Some ck) as Hcall.
  { intros k ck ak Hk. destruct (finished_runs _ _ _ _ _ _ Hr Hk) as (p & (c' & <- & Hc')%lookup_fmap_Some & Hruns).
    apply perform_task_call in Hruns. cbn in Hruns. by subst. }
  eapply (pool_at_most_once serve
    (fun k id e => exists c', calls !! k = Some c' /\ identifies c' = Some (id, e)) (lease_name id1) (Z.min e1 e2)
    (fun k => k = i \/ k = j)) with (succeeded := redeems (lease_name id1)); try done; [| |by left|by right|..].
  - intros k id e [-> | ->] (c' & Hk & Hc) _.
    + rewrite (Hcall i c1 a1 Hi) in Hk. simplify_eq. lia.
    + rewrite (Hcall j c2 a2 Hj) in Hk. simplify_eq. lia.
  - intros k p Hp. apply lookup_fmap_Some in Hp as (c' & <- & Hk).
    apply perform_task_obeys. intros id e Hc. by exists c'.
  - split; [done|]. by exists id1, e1.
  - split; [done|]. by exists id2, e2.
Qed.
End replicas.
