(* ===== verification/Keys.v ===== *)
(** * Signing keys (keys.rs)

    The two keyrings differ in the key they parse and in their messages; the
    loop that loads them, the validity window and the published set are shared
    here by [ring].  [KeyRing] holds P-256 keys (ES256) and [RsaKeyRing] RSA keys
    (RS256). *)
From Stdlib Require Import Ascii.
From S2P Require Import Prelude Text Prog Libs State Constants Concrete.

Inductive KeyError :=
| KeyInvalid (message : string)
| Signing.
#[export] Instance KeyError_eq_dec : EqDecision KeyError.
Proof. solve_decision. Defined.

(** [KeyRing] and [RsaKeyRing], by the type of their keys; the threshold is in
    nanoseconds. *)
Record ring (Key : Type) := {
  current_kid : string;
  current_not_before : datetime;
  current_not_after : datetime;
  readiness_threshold : Z;
  ring_keys : gmap string Key;
}.
Arguments current_kid {Key}.
Arguments current_not_before {Key}.
Arguments current_not_after {Key}.
Arguments readiness_threshold {Key}.
Arguments ring_keys {Key}.

(** One entry of a keyring file, with its key material still encoded. *)
Record KeySpec := {
  spec_kid : string;
  spec_material : string;   (** [seed], or [private_key_pkcs8_pem] *)
  not_before : datetime;
  not_after : datetime;
}.
Record KeyRingFile := {
  file_version : string;
  file_current_kid : string;
  file_keys : list KeySpec;
}.

Record EcPublicJwk := { ec_kid : string; ec_x : string; ec_y : string }.
Record RsaPublicJwk := { rsa_kid : string; rsa_n : string; rsa_e : string }.
Inductive PublicJwk := Ec (k : EcPublicJwk) | RsaKey (k : RsaPublicJwk).
Definition jwk_kid (jwk : PublicJwk) : string :=
  match jwk with Ec k => ec_kid k | RsaKey k => rsa_kid k end.
Definition JwkSet := list PublicJwk.
(** The order [sort_by] uses. *)
Definition jwk_le (a b : PublicJwk) : Prop := String.le (jwk_kid a) (jwk_kid b).
#[export] Instance jwk_le_dec : RelDecision jwk_le.
Proof. intros a b. unfold jwk_le. apply _. Defined.
Definition sort_jwks (l : list PublicJwk) : JwkSet := merge_sort jwk_le l.
(** [JwkSet::extend]. *)
Definition extend (self other : JwkSet) : JwkSet := sort_jwks (self ++ other).

(** The serialized set. *)
Definition public_jwk_value (jwk : PublicJwk) : Value :=
  match jwk with
  | Ec k => object [("kty", VString "EC"); ("use", VString "sig"); ("alg", VString "ES256");
                    ("kid", VString (ec_kid k)); ("crv", VString "P-256");
                    ("x", VString (ec_x k)); ("y", VString (ec_y k))]
  | RsaKey k => object [("kty", VString "RSA"); ("use", VString "sig"); ("alg", VString "RS256");
                        ("kid", VString (rsa_kid k)); ("n", VString (rsa_n k)); ("e", VString (rsa_e k))]
  end.
Definition jwk_set_value (s : JwkSet) : Value := object [("keys", VArray (public_jwk_value <$> s))].

(** ** Loading *)
Section loading.
Context `{!SerdeJson, !Chrono}.

Definition datetime_deserialize (v : Value) : option datetime := s ← as_str v; datetime_from_str s.
Definition key_spec_deserialize (material_field : string) (v : Value) : option KeySpec :=
  if only_fields ["kid"; material_field; "not_before"; "not_after"] v then
    kid ← field v "kid" as_str;
    material ← field v material_field as_str;
    before ← field v "not_before" datetime_deserialize;
    after ← field v "not_after" datetime_deserialize;
    Some {| spec_kid := kid; spec_material := material; not_before := before; not_after := after |}
  else None.
Definition keyring_file_deserialize (material_field : string) (v : Value) : option KeyRingFile :=
  if only_fields ["version"; "current_kid"; "keys"] v then
    version ← field v "version" as_str;
    current ← field v "current_kid" as_str;
    keys ← field v "keys" (fun v => l ← as_array v; mapM (key_spec_deserialize material_field) l);
    Some {| file_version := version; file_current_kid := current; file_keys := keys |}
  else None.

Context {Key : Type} (parse_key : string -> result KeyError Key).

Record LoadState := {
  loaded : gmap string Key;
  key_ids : gset string;
  current_valid : bool;
  current_window : option (datetime * datetime);
}.
Definition load_initial : LoadState :=
  {| loaded := ∅; key_ids := ∅; current_valid := false; current_window := None |}.

(** The body of the loop over [input.keys]. *)
Definition load_spec (current : string) (now : datetime) (st : LoadState) (spec : KeySpec) :
  result KeyError LoadState :=
  let kid := spec_kid spec in
  _ ← reject_if (is_empty kid || bool_decide (not_after spec <= not_before spec)%Z
                 || bool_decide (kid ∈ key_ids st))
        (KeyInvalid "key IDs and validity windows are required");
  key ← parse_key (spec_material spec);
  let is_current := bool_decide (kid = current) in
  Ok {| loaded := if bool_decide (now < not_after spec)%Z then <[kid := key]> (loaded st) else loaded st;
        key_ids := {[kid]} ∪ key_ids st;
        current_valid := if is_current
                         then bool_decide (not_before spec <= now)%Z && bool_decide (now < not_after spec)%Z
                         else current_valid st;
        current_window := if is_current then Some (not_before spec, not_after spec)
                          else current_window st |}.

(** [load_with_readiness_threshold] after parsing; [name] is the algorithm in
    the messages ("" or "RSA "). *)
Definition load_ring (version name material_field : string) (now threshold : Z) (contents : string) :
  result KeyError (ring Key) :=
  value ← ok_or (KeyInvalid (json_error contents)) (parse_json contents);
  input ← ok_or (KeyInvalid (value_error value)) (keyring_file_deserialize material_field value);
  _ ← reject_if (bool_decide (file_version input <> version) || is_empty (file_current_kid input)
                 || bool_decide (file_keys input = []))
        (KeyInvalid ("unsupported or empty " +:+ name +:+ "keyring"));
  st ← try_fold (load_spec (file_current_kid input) now) load_initial (file_keys input);
  _ ← reject_if (negb (current_valid st) || bool_decide (loaded st !! file_current_kid input = None))
        (KeyInvalid ("current " +:+ name +:+ "signing key is missing or outside its validity window"));
  '(before, after) ← ok_or (KeyInvalid ("current " +:+ name +:+ "signing key validity window is unavailable"))
                       (current_window st);
  Ok {| current_kid := file_current_kid input; current_not_before := before;
        current_not_after := after; readiness_threshold := threshold; ring_keys := loaded st |}.
End loading.

(** ** Use *)
Section use.
Context `{!Jwt, !Chrono}.
Context {Key : Type}.
Implicit Types r : ring Key.

Definition current_key_seconds_until_expiry r (now : datetime) : Z :=
  Z.max (num_seconds (current_not_after r - now)) 0.
Definition is_ready_at r (now : datetime) : bool :=
  bool_decide (current_not_before r <= now)%Z
  && bool_decide (now < current_not_after r)%Z
  && bool_decide (as_secs (readiness_threshold r) < current_key_seconds_until_expiry r now)%Z.
Definition contains_kid r (kid : string) : bool := bool_decide (is_Some (ring_keys r !! kid)).

(** The header of an issued token. *)
Definition signing_header (algorithm : Algorithm) (kid : string) : Header :=
  {| alg := alg (header_new algorithm); typ := typ (header_new algorithm); kid := Some kid |}.

(** [sign_at], from the key's DER encoding. *)
Definition sign_ring (name : string) (algorithm : Algorithm) (der : Key -> option string)
    (encoding : string -> EncodingKey) r (claims : Value) (now : datetime) : result KeyError string :=
  _ ← reject_if (bool_decide (now < current_not_before r)%Z || bool_decide (current_not_after r <= now)%Z)
        (KeyInvalid ("current " +:+ name +:+ "signing key is outside its validity window"));
  key ← ok_or (KeyInvalid ("current " +:+ name +:+ "signing key is unavailable"))
          (ring_keys r !! current_kid r);
  document ← ok_or Signing (der key);
  ok_or Signing (encode (signing_header algorithm (current_kid r)) claims (encoding document)).
End use.

(** ** P-256 *)
Section es256.
Context `{!Jwt, !SerdeJson, !Chrono, !Base64, !P256}.
Definition KeyRing := ring SecretKey.

Definition parse_p256 (seed : string) : result KeyError SecretKey :=
  seed ← ok_or (KeyInvalid "signing seeds must be Base64") (base64_decode seed);
  _ ← reject_if (bool_decide (length seed <> 32))
        (KeyInvalid "P-256 private scalars must decode to exactly 32 bytes");
  ok_or (KeyInvalid "P-256 private scalar is outside the valid range") (from_slice seed).

(** From the outcome of reading the file. *)
Definition keyring_of_file (now threshold : Z) (file : result string string) : result KeyError KeyRing :=
  contents ← map_err KeyInvalid file;
  load_ring parse_p256 KEYRING_VERSION "" "seed" now threshold contents.
Definition load_keyring (path : string) (now threshold : Z) : io (result KeyError KeyRing) :=
  file ← trigger (ReadFile path); mret (keyring_of_file now threshold file).
Definition sign_at : KeyRing -> Value -> datetime -> result KeyError string :=
  sign_ring "" ES256 to_pkcs8_der from_ec_der.
Definition sign (self : KeyRing) (claims : Value) : io (result KeyError string) :=
  now ← utc_now; mret (sign_at self claims now).
Definition ec_jwk (entry : string * SecretKey) : option PublicJwk :=
  x ← public_x entry.2; y ← public_y entry.2;
  Some (Ec {| ec_kid := entry.1; ec_x := base64_url_encode x; ec_y := base64_url_encode y |}).
Definition jwks (self : KeyRing) : JwkSet := sort_jwks (omap ec_jwk (map_to_list (ring_keys self))).
End es256.

(** ** RSA *)
Section rs256.
Context `{!Jwt, !SerdeJson, !Chrono, !Base64, !P256, !Rsa}.
Definition RsaKeyRing := ring RsaPrivateKey.

Definition parse_rsa (pem : string) : result KeyError RsaPrivateKey :=
  key ← ok_or (KeyInvalid "RSA private keys must be PKCS#8 PEM") (from_pkcs8_pem pem);
  _ ← reject_if (bool_decide (n_bits key < 3072)%Z)
        (KeyInvalid "RSA private keys must be at least 3072 bits");
  _ ← reject_if (negb (rsa_validate key)) (KeyInvalid "RSA private key failed validation");
  Ok key.

Definition rsa_keyring_of_file (now threshold : Z) (file : result string string) : result KeyError RsaKeyRing :=
  contents ← map_err KeyInvalid file;
  load_ring parse_rsa RSA_KEYRING_VERSION "RSA " "private_key_pkcs8_pem" now threshold contents.
Definition load_rsa_keyring (path : string) (now threshold : Z) : io (result KeyError RsaKeyRing) :=
  file ← trigger (ReadFile path); mret (rsa_keyring_of_file now threshold file).
Definition rsa_sign_at : RsaKeyRing -> Value -> datetime -> result KeyError string :=
  sign_ring "RSA " RS256 to_pkcs1_der from_rsa_der.
Definition rsa_sign (self : RsaKeyRing) (claims : Value) : io (result KeyError string) :=
  now ← utc_now; mret (rsa_sign_at self claims now).
Definition rsa_jwk (entry : string * RsaPrivateKey) : PublicJwk :=
  RsaKey {| rsa_kid := entry.1; rsa_n := base64_url_encode (n_bytes entry.2);
            rsa_e := base64_url_encode (e_bytes entry.2) |}.
Definition rsa_jwks (self : RsaKeyRing) : JwkSet := sort_jwks (rsa_jwk <$> map_to_list (ring_keys self)).
Definition ensure_disjoint_from (self : RsaKeyRing) (keyring : KeyRing) : result KeyError () :=
  reject_if (existsb (contains_kid keyring) (map_to_list (ring_keys self)).*1)
    (KeyInvalid "P-256 and RSA keyrings must use globally unique key IDs").
End rs256.

(** ** What loading guarantees *)
Section loading_theorems.
Context `{serde : SerdeJson, chrono : Chrono} {Key : Type} (parse_key : string -> result KeyError Key).
Implicit Types (st : LoadState (Key := Key)) (r : ring Key).

Definition spec_valid (spec : KeySpec) : Prop :=
  spec_kid spec <> "" /\ (not_before spec < not_after spec)%Z
  /\ exists key, parse_key (spec_material spec) = Ok key.
(** The entry that supplies key [k], if it is still valid at [now]. *)
Definition supplies (now : Z) (specs : list KeySpec) (k : string) (key : Key) : Prop :=
  exists spec, spec ∈ specs /\ spec_kid spec = k /\ (now < not_after spec)%Z
    /\ parse_key (spec_material spec) = Ok key.

(** The state of the loop after [done_]. *)
Record loop_state (current : string) (now : Z) (done_ : list KeySpec) st : Prop := {
  loop_valid : Forall spec_valid done_;
  loop_unique : NoDup (spec_kid <$> done_);
  loop_ids : forall k, k ∈ key_ids st <-> k ∈ spec_kid <$> done_;
  loop_keys : forall k key, loaded st !! k = Some key <-> supplies now done_ k key;
  loop_current : forall spec, spec ∈ done_ -> spec_kid spec = current ->
    current_window st = Some (not_before spec, not_after spec)
    /\ current_valid st = bool_decide (not_before spec <= now)%Z && bool_decide (now < not_after spec)%Z;
  loop_no_current : current ∉ spec_kid <$> done_ -> current_window st = None /\ current_valid st = false;
}.

Lemma supplies_snoc now done_ x k key :
  spec_kid x ∉ spec_kid <$> done_ ->
  supplies now (done_ ++ [x]) k key <->
  (k = spec_kid x /\ (now < not_after x)%Z /\ parse_key (spec_material x) = Ok key)
  \/ (k <> spec_kid x /\ supplies now done_ k key).
Proof.
  intros Hx. unfold supplies. setoid_rewrite elem_of_app. setoid_rewrite list_elem_of_singleton. split.
  - intros (s & [Hs| ->] & <- & Hn & Hp); [right|by left].
    split; [|eauto]. intros Heq. apply Hx. rewrite <- Heq. by apply list_elem_of_fmap_2.
  - intros [(-> & Hn & Hp)|(_ & s & Hs & <- & Hn & Hp)]; eauto 10.
Qed.

Lemma loop_state_initial current now : loop_state current now [] load_initial.
Proof.
  split; cbn; [constructor|constructor|set_solver| |set_solver|done].
  intros k key. rewrite lookup_empty. split; [done|]. intros (s & Hs & _). by apply elem_of_nil in Hs.

Qed.

Lemma loop_state_step current now done_ x st st' :
  loop_state current now done_ st -> load_spec parse_key current now st x = Ok st' ->
  loop_state current now (done_ ++ [x]) st'.
Proof.
  intros [H1 H2 H3 H4 H5 H6] Hs. unfold load_spec in Hs. result_simpl.
  match goal with H : spec_kid x ∉ _ |- _ => rewrite H3 in H; rename H into Hx end.
  match goal with H : is_empty _ = false |- _ => apply is_empty_false in H end.
  split; cbn [loaded key_ids current_valid current_window].
  - apply Forall_app. split; [done|]. constructor; [|done]. split_and!; [done|lia|eauto].
  - rewrite fmap_app. apply NoDup_app. split_and!; [done| |apply NoDup_singleton].
    intros k Hk Hk'%list_elem_of_singleton. by subst.
  - intros k. rewrite fmap_app, elem_of_app, elem_of_union, elem_of_singleton, H3. cbn.
    rewrite list_elem_of_singleton. tauto.
  - intros k key. rewrite supplies_snoc by done. case_bool_decide as Hn.
    + rewrite lookup_insert_Some, H4.
      match goal with H : parse_key _ = Ok _ |- _ => rewrite H end. clear -Hn.
      split; [intros [[<- <-]|[? ?]]; auto|intros [(-> & _ & [= ->])|[? ?]]; auto].
    + rewrite H4. split; [|intros [(_ & ? & _)|[_ ?]]; done]. intros Hk.
right. split; [|done].
      intros ->. apply Hx. destruct Hk as (s & Hin & <- & _). by apply list_elem_of_fmap_2.
  - intros s [Hin|Hin%list_elem_of_singleton]%elem_of_app Hc; [|subst; by rewrite bool_decide_true].
    rewrite bool_decide_false; [by apply H5|]. intros Heq. apply Hx.
    rewrite Heq, <- Hc. by apply list_elem_of_fmap_2.
  - rewrite fmap_app. intros [Hn Hnx]%not_elem_of_app. cbn in Hnx.
    rewrite list_elem_of_singleton in Hnx. rewrite bool_decide_false by congruence. by apply H6.
Qed.

Lemma loop_state_fold current now specs st :
  try_fold (load_spec parse_key current now) load_initial specs = Ok st -> loop_state current now specs st.
Proof.
  apply (try_fold_ind (fun d s => loop_state current now d s)); [apply loop_state_initial|].
  intros d x s1 s2 _. apply loop_state_step.
Qed.

Lemma load_spec_progress current now done_ x st :
  loop_state current now done_ st -> spec_valid x -> spec_kid x ∉ spec_kid <$> done_ ->
  exists st', load_spec parse_key current now st x = Ok st'.
Proof.
  intros Hst (Hk & Hw & key & Hp) Hx. unfold load_spec.
  rewrite (proj2 (is_empty_false _) Hk), (bool_decide_false (not_after x <= not_before x)%Z) by lia.
  rewrite (bool_decide_false (spec_kid x ∈ _)) by (by rewrite (loop_ids _ _ _ _ Hst)).
cbn. rewrite Hp. cbn. eauto.
Qed.
Lemma load_fold_progress current now specs :
  Forall spec_valid specs -> NoDup (spec_kid <$> specs) ->
  exists st, try_fold (load_spec parse_key current now) load_initial specs = Ok st.
Proof.
  induction specs as [|x specs IH] using rev_ind; [by eexists|].
  intros [Hv Hx]%Forall_app Hd. rewrite fmap_app in Hd. apply NoDup_app in Hd as (Hd & Hn & _).
  destruct (IH Hv Hd) as [st Hst]. rewrite try_fold_app, Hst. cbn.
  inversion Hx; subst.
  destruct (load_spec_progress current now specs x st) as [st' ->]; eauto.
  { by apply loop_state_fold. }
  intros Hin. apply (Hn _ Hin). cbn. by apply list_elem_of_singleton.
Qed.

(** The keyring a file yields at [now]. *)
Record ring_of (input : KeyRingFile) (now threshold : Z) r : Prop := {
  ring_current : exists spec, spec ∈ file_keys input /\ spec_kid spec = current_kid r
    /\ current_not_before r = not_before spec /\ current_not_after r = not_after spec
    /\ (not_before spec <= now < not_after spec)%Z;
  ring_current_kid : current_kid r = file_current_kid input;
  ring_threshold : readiness_threshold r = threshold;
  ring_published : forall k key, ring_keys r !! k = Some key <-> supplies now (file_keys input) k key;
}.
(** What makes a file acceptable at [now]. *)
Definition file_ok (version : string) (input : KeyRingFile) (now : Z) : Prop :=
  file_version input = version /\ file_current_kid input <> ""
  /\ Forall spec_valid (file_keys input) /\ NoDup (spec_kid <$> file_keys input)
  /\ exists spec, spec ∈ file_keys input /\ spec_kid spec = file_current_kid input
       /\ (not_before spec <= now < not_after spec)%Z.

Lemma current_in_window current now specs st :
  loop_state current now specs st ->
  current_valid st = true ->
  exists spec, spec ∈ specs /\ spec_kid spec = current
    /\ current_window st = Some (not_before spec, not_after spec)
    /\ (not_before spec <= now < not_after spec)%Z
    /\ is_Some (loaded st !! current).
Proof.
  intros [Hv Hu _ Hk Hc Hn] Hval.
  destruct (decide (current ∈ spec_kid <$> specs)) as [Hin|Hnin]; [|by rewrite (proj2 (Hn Hnin)) in Hval].
  apply list_elem_of_fmap in Hin as (spec & -> & Hin).
  destruct (Hc spec Hin eq_refl) as [Hw Hb]. rewrite Hval in Hb. symmetry in Hb. result_simpl.
  exists spec. split_and!; try done.
  eapply Forall_forall in Hv as (_ & _ & key & Hp); [|exact Hin]. exists key. apply Hk. by exists spec.
Qed.

(** A keyring loads exactly from the files that are well formed at [now]; it
    signs with the file's current key, and publishes exactly the keys that have
    not expired. *)
Lemma load_ring_spec version nm fieldname now threshold contents :
  (forall r, load_ring parse_key version nm fieldname now threshold contents = Ok r ->
     exists v input, parse_json contents = Some v /\ keyring_file_deserialize fieldname v = Some input
       /\ file_ok version input now /\ ring_of input now threshold r)
  /\ (forall v input, parse_json contents = Some v -> keyring_file_deserialize fieldname v = Some input ->
        file_ok version input now ->
        exists r, load_ring parse_key version nm fieldname now threshold contents = Ok r).
Proof.
  unfold load_ring. split.
  - intros r H. apply result_bind_ok in H as (v & Hv%ok_or_ok & H).
    apply result_bind_ok in H as (input & Hin%ok_or_ok & H).
    apply result_bind_ok in H as ([] & Hg%reject_if_ok & H).
    apply result_bind_ok in H as (st & Hst%loop_state_fold & H).
    apply result_bind_ok in H as ([] & Hc%reject_if_ok & H).
    apply result_bind_ok in H as ([b a] & Hw%ok_or_ok & H). injection H as <-.
    apply orb_false_elim in Hc as [Hval%negb_false_iff _]. result_simpl.
    destruct (current_in_window _ _ _ _ Hst Hval) as (spec & Hspec & Hkid & Hwin & Hnow & _).
    rewrite Hwin in Hw. injection Hw as <- <-.
    match goal with H : is_empty _ = false |- _ => apply is_empty_false in H as Hne end.
    match goal with H : ¬ (_ ≠ _) |- _ => apply dec_stable in H as Hver end.
    exists v, input. split_and!; [done..| |].
    + split_and!; try done; [apply Hst|apply Hst|eauto].
    + split; cbn; try done; [eauto 10|apply Hst].
  - intros v input -> Hd (Hver & Hne & Hv & Hu & spec & Hin & Hkid & Hnow). cbn. rewrite Hd. cbn.
    rewrite (bool_decide_false (file_version input <> version)) by (by intros []).
    rewrite (proj2 (is_empty_false _) Hne).
    rewrite (bool_decide_false (file_keys input = [])) by (intros He; rewrite He in Hin; by apply elem_of_nil in Hin).
    cbn. destruct (load_fold_progress (file_current_kid input) now _ Hv Hu) as [st Hst]. rewrite Hst. cbn.
    apply loop_state_fold in Hst. destruct (loop_current _ _ _ _ Hst spec Hin Hkid) as [Hw Hb].
    rewrite !bool_decide_true in Hb by lia. cbn in Hb.
    destruct (current_in_window _ _ _ _ Hst Hb) as (_ & _ & _ & _ & _ & key & Hl).
    rewrite Hb, Hw, Hl. cbn. eauto.
Qed.
End loading_theorems.

(** C24: A P-256 (or RSA) keyring file loads exactly when it is well formed: the
    version, unique non-empty key IDs, increasing windows, parseable keys, and a
    current key whose window contains the present.  The loaded keyring signs with
    that key and holds exactly the keys that have not expired. *)
Theorem keyring_load_correct `{!SerdeJson, !Chrono, !Base64, !P256, !Rsa} now threshold contents :
  let ec := load_ring parse_p256 KEYRING_VERSION "" "seed" now threshold contents in
  let rsa := load_ring parse_rsa RSA_KEYRING_VERSION "RSA " "private_key_pkcs8_pem" now threshold contents in
  let file material := (parse_json contents ≫= keyring_file_deserialize material) in
  (is_ok ec = true <-> exists input, file "seed" = Some input /\ file_ok parse_p256 KEYRING_VERSION input now)
  /\ (is_ok rsa = true <-> exists input, file "private_key_pkcs8_pem" = Some input
        /\ file_ok parse_rsa RSA_KEYRING_VERSION input now)
  /\ (forall r, ec = Ok r -> exists input, file "seed" = Some input /\ ring_of parse_p256 input now threshold r)
  /\ (forall r, rsa = Ok r -> exists input, file "private_key_pkcs8_pem" = Some input
        /\ ring_of parse_rsa input now threshold r).
Proof.
  assert (forall Key (parse : string -> result KeyError Key) version nm m,
    let l := load_ring parse version nm m now threshold contents in
    (is_ok l = true <-> exists input, parse_json contents ≫= keyring_file_deserialize m = Some input
       /\ file_ok parse version input now)
    /\ (forall r, l = Ok r -> exists input, parse_json contents ≫= keyring_file_deserialize m = Some input
       /\ ring_of parse input now threshold r)) as G.
  { intros Key parse version nm m l. destruct (load_ring_spec parse version nm m now threshold contents) as [Hs Hc].
    fold l in Hs, Hc. split; [split|].
    - destruct l as [r|]; [|done]. intros _. destruct (Hs r eq_refl) as (v & input & Hv & Hi & Hf & _).
      exists input. by rewrite Hv.
    - intros (input & (v & Hv & Hi)%bind_Some & Hf). by destruct (Hc v input Hv Hi Hf) as [r ->].
    - intros r Hr. destruct (Hs r Hr) as (v & input & Hv & Hi & _ & Hring). exists input. by rewrite Hv. }
  cbn zeta. destruct (G _ parse_p256 KEYRING_VERSION "" "seed") as [? ?].
  destruct (G _ parse_rsa RSA_KEYRING_VERSION "RSA " "private_key_pkcs8_pem") as [? ?]. by split_and!.
Qed.

(** ** Signing *)
Section signing_theorems.
Context `{jwt : Jwt, serde : SerdeJson, chrono : Chrono, !ChronoLaws} {Key : Type}.
Context (parse_key : string -> result KeyError Key).
Context (nm : string) (algorithm : Algorithm) (der : Key -> option string) (encoding : string -> EncodingKey).

Lemma ring_current_key input now threshold (r : ring Key) :
  ring_of parse_key input now threshold r -> Forall (spec_valid parse_key) (file_keys input) ->
  is_Some (ring_keys r !! current_kid r).
Proof.
  intros [(spec & Hin & Hk & _ & _ & Hw) _ _ Hp] Hv.
  eapply Forall_forall in Hv as (_ & _ & key & Hkey); [|exact Hin].
  exists key. apply Hp. exists spec. split_and!; try done. lia.
Qed.

(** A token is signed only within the window, under the current key and its ID. *)
Lemma sign_ring_spec (r : ring Key) claims now token :
  sign_ring nm algorithm der encoding r claims now = Ok token <->
  (current_not_before r <= now < current_not_after r)%Z
  /\ exists key document, ring_keys r !! current_kid r = Some key /\ der key = Some document
       /\ encode (signing_header algorithm (current_kid r)) claims (encoding document) = Some token.
Proof.
  unfold sign_ring. split.
  - intros Hs. result_simpl. split; [lia|eauto].
  - intros (Hw & key & d & Hk & Hd & He). rewrite !bool_decide_false by lia. cbn.
    by rewrite Hk; cbn; rewrite Hd; cbn; rewrite He.
Qed.
Lemma is_ready_window (r : ring Key) now :
  is_ready_at r now = true -> (current_not_before r <= now < current_not_after r)%Z.
Proof. unfold is_ready_at. intros Hs. result_simpl. lia. Qed.
End signing_theorems.

(** C25: A keyring reported ready has a current key to sign with, and what it
    signs carries that key's ID and ES256; it never signs outside the window of
    the current key, nor once the remaining seconds fall to the threshold is it
    reported ready. *)
Theorem ready_keyring_signs `{!Jwt, !JwtLaws, !SerdeJson, !Chrono, !ChronoLaws, !Base64, !P256}
    loaded_at threshold contents (r : KeyRing) now claims :
  load_ring parse_p256 KEYRING_VERSION "" "seed" loaded_at threshold contents = Ok r ->
  (is_ready_at r now = true -> exists key, ring_keys r !! current_kid r = Some key
     /\ (as_secs threshold * ns_per_s < current_not_after r - now)%Z
     /\ sign_at r claims now =
          (document ← ok_or Signing (to_pkcs8_der key);
           ok_or Signing (encode (signing_header ES256 (current_kid r)) claims (from_ec_der document))))
  /\ (forall token, sign_at r claims now = Ok token -> (current_not_before r <= now < current_not_after r)%Z)
  /\ alg (signing_header ES256 (current_kid r)) = ES256.
Proof.
  intros Hl. apply load_ring_spec in Hl as (v & input & _ & _ & (_ & _ & Hv & _) & Hring). split_and!.
  - intros Hready. pose proof (is_ready_window _ _ Hready) as Hw.
    destruct (ring_current_key _ _ _ _ _ Hring Hv) as [key Hk]. exists key. split_and!; [done| |].
    + unfold is_ready_at in Hready. result_simpl.
      match goal with H : (_ < current_key_seconds_until_expiry _ _)%Z |- _ =>
        unfold current_key_seconds_until_expiry in H; rewrite num_seconds_spec, (ring_threshold _ _ _ _ _ Hring) in H;
        rewrite Z.quot_div_nonneg in H by (unfold ns_per_s; lia) end.
      unfold ns_per_s in *. pose proof (Z.div_mod (current_not_after r - now) 1000000000).
      pose proof (Z.mod_pos_bound (current_not_after r - now) 1000000000). lia.
    + unfold sign_at, sign_ring. rewrite !bool_decide_false by lia. cbn. by rewrite Hk.
  - intros token Ht. by apply sign_ring_spec in Ht as [Hw _].
  - cbn. apply header_new_alg.
Qed.

(** ** The published key set *)
#[export] Instance jwk_le_total : Total jwk_le.
Proof. intros a b. unfold jwk_le. destruct (total String.le (jwk_kid a) (jwk_kid b)); auto. Qed.
#[export] Instance jwk_le_trans : Transitive jwk_le.
Proof. intros a b c. unfold jwk_le. by etrans. Qed.
Lemma sort_jwks_sorted l : Sorted jwk_le (sort_jwks l).
Proof. apply Sorted_merge_sort, _. Qed.
Lemma sort_jwks_perm l : sort_jwks l ≡ₚ l.
Proof. apply merge_sort_Permutation. Qed.

Section published.
Context `{b64 : Base64, p256 : P256, rsalib : Rsa}.
Implicit Types (ec : KeyRing) (rsa : RsaKeyRing).

Lemma jwks_perm ec : jwks ec ≡ₚ omap ec_jwk (map_to_list (ring_keys ec)).
Proof. apply sort_jwks_perm. Qed.
Lemma ec_jwk_kid e j : ec_jwk e = Some j -> jwk_kid j = e.1.
Proof. unfold ec_jwk. intros (x & _ & (y & _ & [= <-])%bind_Some)%bind_Some. done. Qed.
Lemma omap_kids (l : list (string * SecretKey)) :
  exists l', jwk_kid <$> omap ec_jwk l = l'.*1 /\ l' `sublist_of` l
    /\ forall e, e ∈ l' <-> e ∈ l /\ is_Some (ec_jwk e).
Proof.
  induction l as [|e l (l' & Hl & Hs & Hin)]; [by exists []; set_solver|]. cbn.
  destruct (ec_jwk e) as [j|] eqn:Hj.
  - exists (e :: l'). cbn. rewrite Hl, (ec_jwk_kid e j Hj). split_and!; [done|by constructor|].
    intros e'. rewrite !elem_of_cons, Hin. naive_solver.
  - exists l'. split_and!; [done|by constructor|]. intros e'. rewrite elem_of_cons, Hin.
    split; [naive_solver|]. intros [[->|?] [j' Hj']]; [congruence|]. split; [done|by eexists].
Qed.
Lemma jwks_kids ec :
  NoDup (jwk_kid <$> jwks ec)
  /\ forall k, k ∈ jwk_kid <$> jwks ec <-> exists key, ring_keys ec !! k = Some key /\ is_Some (ec_jwk (k, key)).
Proof.
  destruct (omap_kids (map_to_list (ring_keys ec))) as (l' & Hl & Hs & Hin).
  assert (jwk_kid <$> jwks ec ≡ₚ l'.*1) as Hp by (by rewrite jwks_perm, Hl).
  split; [rewrite Hp|intros k; rewrite Hp].
  - eapply sublist_NoDup; [|by apply (fmap_sublist fst)]. apply NoDup_fst_map_to_list.
  - rewrite list_elem_of_fmap. split.
    + intros ([k' key] & -> & [Hk%elem_of_map_to_list Hj]%Hin). eauto.
    + intros (key & Hk & Hj). exists (k, key). split; [done|]. apply Hin.
      by rewrite elem_of_map_to_list.
Qed.
Lemma rsa_jwks_kids rsa :
  NoDup (jwk_kid <$> rsa_jwks rsa)
  /\ forall k, k ∈ jwk_kid <$> rsa_jwks rsa <-> is_Some (ring_keys rsa !! k).
Proof.
  assert (jwk_kid <$> rsa_jwks rsa ≡ₚ (map_to_list (ring_keys rsa)).*1) as Hp.
  { unfold rsa_jwks. by rewrite sort_jwks_perm, <- list_fmap_compose. }
  split; [rewrite Hp; apply NoDup_fst_map_to_list|].
  intros k. rewrite Hp, list_elem_of_fmap. split.
  - intros ([k' key] & -> & Hk%elem_of_map_to_list). by exists key.
  - intros [key Hk]. exists (k, key). by rewrite elem_of_map_to_list.
Qed.

Lemma ensure_disjoint_spec rsa ec :
  ensure_disjoint_from rsa ec = Ok () -> forall k, is_Some (ring_keys rsa !! k) -> ring_keys ec !! k = None.
Proof.
  unfold ensure_disjoint_from. intros H%reject_if_ok k [key Hk].
  destruct (ring_keys ec !! k) eqn:He; [|done]. exfalso.
  assert (existsb (contains_kid ec) (map_to_list (ring_keys rsa)).*1 = true); [|congruence].
  apply existsb_exists. exists k. split; [|by unfold contains_kid; rewrite He; apply bool_decide_eq_true].
  apply list_elem_of_In, list_elem_of_fmap. exists (k, key). by rewrite elem_of_map_to_list.
Qed.
End published.

(** C26: The set published for two disjoint keyrings is sorted by key ID, names no
    ID twice, and names exactly the RSA keys and the P-256 keys that have affine
    coordinates. *)
Theorem published_keys `{!Base64, !P256, !Rsa} (ec : KeyRing) (rsa : RsaKeyRing) :
  ensure_disjoint_from rsa ec = Ok () ->
  let s := extend (jwks ec) (rsa_jwks rsa) in
  Sorted jwk_le s /\ NoDup (jwk_kid <$> s)
  /\ forall k, k ∈ jwk_kid <$> s <->
       is_Some (ring_keys rsa !! k)
       \/ exists key, ring_keys ec !! k = Some key /\ is_Some (ec_jwk (k, key)).
Proof.
  intros Hd s. unfold s, extend. split; [apply sort_jwks_sorted|].
  assert (jwk_kid <$> sort_jwks (jwks ec ++ rsa_jwks rsa)
          ≡ₚ (jwk_kid <$> jwks ec) ++ (jwk_kid <$> rsa_jwks rsa)) as Hp
    by (by rewrite sort_jwks_perm, fmap_app).
  destruct (jwks_kids ec) as [Hn Hk], (rsa_jwks_kids rsa) as [Hn' Hk'].
  split; [rewrite Hp|intros k; rewrite Hp].
  - apply NoDup_app. split_and!; [done| |done]. intros k (key & Hkey & _)%Hk Hr%Hk'.
    by rewrite (ensure_disjoint_spec rsa ec Hd k Hr) in Hkey.
  - rewrite elem_of_app, Hk, Hk'. tauto.
Qed.

(** ** A concrete keyring *)
Definition sample_seed : string := "0123456789abcdef0123456789abcdef".
Definition sample_key (kid before after : string) : Value :=
  object [("kid", VString kid); ("seed", VString sample_seed);
          ("not_before", VString before); ("not_after", VString after)].
Definition sample_keyring_value : Value :=
  object [("version", VString KEYRING_VERSION); ("current_kid", VString "k2");
          ("keys", VArray [sample_key "k1" "0" "1000000000"; sample_key "k2" "0" "9000000000000"])].
#[local] Instance sample_serde : SerdeJson := concrete_serde {["keyring" := sample_keyring_value]}.
#[local] Instance sample_keys_jwt : Jwt := concrete_jwt ∅.
Definition sample_ring : KeyRing :=
  {| current_kid := "k2"; current_not_before := 0%Z; current_not_after := 9000000000000%Z;
     readiness_threshold := 600000000000%Z; ring_keys := {["k2" := bytes_of sample_seed]} |}.

(** [k1] has expired at [now], so only [k2] is kept. *)
Lemma ready_keyring_signs_witness :
  load_ring parse_p256 KEYRING_VERSION "" "seed" 5000000000%Z 600000000000%Z "keyring" = Ok sample_ring
  /\ is_ready_at sample_ring 6000000000%Z = true
  /\ exists key, ring_keys sample_ring !! current_kid sample_ring = Some key.
Proof.
  assert (load_ring parse_p256 KEYRING_VERSION "" "seed" 5000000000%Z 600000000000%Z "keyring" = Ok sample_ring) as Hl
    by by vm_compute.
  assert (is_ready_at sample_ring 6000000000%Z = true) as Hr by by vm_compute.
  split_and!; [exact Hl|exact Hr|].
  pose proof (concrete_jwt_laws ∅) as Hlaws.
  destruct (@ready_keyring_signs sample_keys_jwt Hlaws _ _ _ _ _ 5000000000%Z 600000000000%Z "keyring" sample_ring
              6000000000%Z Null Hl) as [Hs _]. destruct (Hs Hr) as (key & Hk & _). by exists key.
Defined.

Definition sample_rsa_ring : RsaKeyRing :=
  {| current_kid := "r1"; current_not_before := 0%Z; current_not_after := 9000000000000%Z;
     readiness_threshold := 0%Z; ring_keys := {["r1" := "pem"]} |}.
Lemma published_keys_witness :
  ensure_disjoint_from sample_rsa_ring sample_ring = Ok ()
  /\ Sorted jwk_le (extend (jwks sample_ring) (rsa_jwks sample_rsa_ring)).
Proof.
  split; [by vm_compute|]. apply (published_keys sample_ring sample_rsa_ring). by vm_compute.
Defined.
