(* ===== verification/LedgerCauses.v ===== *)
(** * Why a record is refused

    What the exchanges share when they explain their answers: the facts of an
    execution, the faults of the clock and of the ledger, and what each answer of
    [use_once] shows. *)
From S2P Require Import Prelude Text Prog Libs State Replay ReplaySafety LedgerRefinement Keys.

(** ** Facts of an execution *)
Section facts.
Context `{jwt : Jwt, chrono : Chrono}.
(** The times of a trace, in seconds. *)
Definition read_seconds (o : obs_io) : option Z :=
  match o with
  | Obs e x =>
      match e in event X return X -> option Z with
      | UtcNow => fun now => Some (timestamp_of now)
      | CurrentTimestamp => fun now => Some now
      | _ => fun _ => None
      end x
  end.
Definition reads (t : trace_io) (now : Z) : Prop := exists o, o ∈ t /\ read_seconds o = Some now.
(** A fact of an execution before another. *)
Definition followed (P Q : trace_io -> Prop) (t : trace_io) : Prop := exists t1 t2, t = t1 ++ t2 /\ P t1 /\ Q t2.

Lemma elem_of_prefix {A} (o : A) (h h' : list A) : h `prefix_of` h' -> o ∈ h -> o ∈ h'.
Proof. intros [k ->] Ho. apply elem_of_app. by left. Qed.
Lemma elem_of_last {A} (o : A) (h : list A) : o ∈ h ++ [o].
Proof. apply elem_of_app. right. by apply list_elem_of_singleton. Qed.
Lemma seconds_prefix h h' now : h `prefix_of` h' -> reads h now -> reads h' now.
Proof. intros Hp (o & Ho & Hr). exists o. split; [by eapply elem_of_prefix|done]. Qed.
Lemma reads_now h now : reads (h ++ [Obs UtcNow now]) (timestamp_of now).
Proof. exists (Obs UtcNow now). split; [apply elem_of_last|done]. Qed.
Lemma followed_prefix P Q h h' : (forall t t', t `prefix_of` t' -> Q t -> Q t') ->
  h `prefix_of` h' -> followed P Q h -> followed P Q h'.
Proof.
  intros HQ [k ->] (t1 & t2 & -> & HP & Hq). exists t1, (t2 ++ k). rewrite app_assoc. split_and!; [done..|].
  eapply HQ, Hq. by apply prefix_app_r.
Qed.

(** The clock jumps between two readings, or is out of range. *)
Inductive clock_fault (t : trace_io) : Prop :=
| clock_jumped now1 now2 : followed (fun t => reads t now1) (fun t => reads t now2) t ->
    ~ (now1 - 30 <= now2 < now1 + 270)%Z -> clock_fault t
| clock_out_of_range now : reads t now -> ~ (0 <= now < 253402290000)%Z -> clock_fault t.
Lemma clock_fault_prefix h h' : h `prefix_of` h' -> clock_fault h -> clock_fault h'.
Proof.
  intros Hp. destruct 1 as [now1 now2|].
  - apply clock_jumped with now1 now2; [|done]. eapply followed_prefix; eauto using seconds_prefix.
  - eapply clock_out_of_range; eauto using seconds_prefix.
Qed.
End facts.
Abbreviation wpt := (wp (fun _ _ _ => True)).
(** What is not looked at only extends the execution. *)
Lemma wpt_skip `{jwt : Jwt} {A B} (p : io B) (f : B -> io A) h (Q : A -> trace_io -> Prop) :
  (forall b h', h `prefix_of` h' -> wpt (f b) h' Q) -> wpt (p ≫= f) h Q.
Proof. intros Hf. eapply wp_call; [by apply wp_true|]. intros b h' Hp _. by apply Hf. Qed.

(** ** The ledger *)
Section ledger.
Context `{jwt : Jwt, chrono : Chrono, sha : Sha2, url : UrlLib}.
Context (ledger : KubernetesLeaseReplayLedger).
(** An answer by which the ledger fails: an unreadable credential, an answer of the
    Lease API outside its protocol, a Lease without a version, or an update that
    lost a race. *)
Definition ledger_fault (o : obs_io) : bool :=
  match o with
  | Obs e x =>
      match e in event X return X -> bool with
      | ReadFile path => fun r => bool_decide (path = credential_file ledger)
          && match r with Ok contents => is_empty (trim contents) | Err _ => true end
      | LeasePost _ _ => fun x => bool_decide (x <> Some 201%Z) && bool_decide (x <> Some 409%Z)
      | LeaseGet _ _ => fun x =>
          match x with
          | Some (status, body) =>
              if decide (status = 200)%Z then
                match body with Some l => is_empty (default "" (resource_version (metadata l))) | None => true end
              else bool_decide (status <> 404)%Z
          | None => true
          end
      | LeasePut _ _ _ => fun x => bool_decide (x <> Some 200%Z)
      | _ => fun _ => false
      end x
  end.
Inductive ledger_failed (t : trace_io) : Prop :=
| ledger_answer o : o ∈ t -> ledger_fault o = true -> ledger_failed t
| record_reappeared c1 m body c2 l :
    followed (elem_of (Obs (LeaseGet c1 m) (Some (404%Z, body)))) (elem_of (Obs (LeasePost c2 l) (Some 409%Z))) t ->
    ledger_failed t
| ledger_url_invalid m : item_url ledger m = Err Unavailable -> ledger_failed t.
Lemma ledger_failed_prefix h h' : h `prefix_of` h' -> ledger_failed h -> ledger_failed h'.
Proof.
  intros Hp. destruct 1.
  - eapply ledger_answer; eauto using elem_of_prefix.
  - eapply record_reappeared, followed_prefix; eauto using elem_of_prefix.
  - by eapply ledger_url_invalid.
Qed.

(** A request fails because a dependency does. *)
Definition fails (e : ReplayError) (h : trace_io) : Prop := e <> Replayed /\ ledger_failed h.
Lemma fails_answer h o e : o ∈ h -> ledger_fault o = true -> e <> Replayed -> fails e h.
Proof. intros Ho Hf He. split; [done|]. by apply ledger_answer with o. Qed.
Lemma credential_causes h : wpt (credential ledger) h (fun r h' => forall e, r = Err e -> fails e h').
Proof.
  split; [done|]. intros contents. pose proof (elem_of_last (Obs (ReadFile (credential_file ledger)) contents) h) as Hin.
  pose proof (fails_answer _ _ Unavailable Hin) as Hf. cbn in Hf. rewrite bool_decide_true in Hf by done.
  destruct contents as [contents|error]; cbn; [|intros e [= <-]; by apply Hf].
  destruct (is_empty (trim contents)) eqn:He; [|done]. intros e [= <-]. by apply Hf.
Qed.
(** A request under the credential, to a valid address. *)
Lemma request_causes {A} (request : string -> io (result ReplayError A)) m h (Q : result ReplayError A -> trace_io -> Prop) :
  (forall e h', fails e h' -> Q (Err e) h') -> (forall c h', h `prefix_of` h' -> wpt (request c) h' Q) ->
  wpt (c ←? credential ledger; _ ←? mret (item_url ledger m); request c) h Q.
Proof.
  intros HQ Hr. eapply wp_try_call; [apply credential_causes| |intros e h' _ Hb; by apply HQ, Hb].
  intros c h' Hp _. destruct (item_url ledger m) as [u|e] eqn:Hu; [by apply Hr|]. apply HQ.
  unfold item_url in Hu. destruct (url_parse _) eqn:Hp'; [done|]. injection Hu as <-. split; [done|].
  apply ledger_url_invalid with m. unfold item_url. by rewrite Hp'.
Qed.
Lemma get_lease_causes m h : wpt (get_lease ledger m) h (fun r h' =>
  match r with
  | Ok (Some l) => exists c, Obs (LeaseGet c m) (Some (200%Z, Some l)) ∈ h'
                     /\ (is_empty (default "" (resource_version (metadata l))) = true -> ledger_failed h')
  | Ok None => exists c body, Obs (LeaseGet c m) (Some (404%Z, body)) ∈ h'
  | Err e => fails e h'
  end).
Proof.
  apply request_causes; [done|]. intros c h' _. split; [done|]. intros response.
  pose proof (elem_of_last (Obs (LeaseGet c m) response) h') as Hin. pose proof (ledger_answer _ _ Hin) as Hb.
  destruct response as [[status body]|]; cbn; [|by split; [|apply Hb]]. cbn in Hb.
  case_decide as H200; [subst; destruct body as [l|]; cbn; [by exists c|by split; [|apply Hb]]|].
  case_decide as H404; [subst; by exists c, body|]. split; [done|]. apply Hb. by apply bool_decide_eq_true.
Qed.
Lemma create_lease_causes l h : wpt (create_lease ledger l) h (fun r h' =>
  match r with
  | Ok Created => True
  | Ok CreateConflict => exists c k, h' = h ++ k /\ Obs (LeasePost c l) (Some 409%Z) ∈ k
  | Err e => fails e h'
  end).
Proof.
  eapply wp_try_call; [apply credential_causes| |intros e h' _ Hb; by apply Hb].
  intros c h' [k ->] _. split; [done|]. intros response. pose proof (elem_of_last (Obs (LeasePost c l) response) (h ++ k)) as Hin.
  destruct response as [status|]; cbn; [|by eapply fails_answer].
  case_decide as H201; [done|]. case_decide as H409.
  { subst. exists c, (k ++ [Obs (LeasePost c l) (Some 409%Z)]). rewrite app_assoc. split; [done|apply elem_of_last]. }
  eapply fails_answer; [exact Hin| |done]. cbn. by rewrite !bool_decide_true by congruence.
Qed.
Lemma update_lease_causes m l h : wpt (update_lease ledger m l) h (fun r h' =>
  match r with Ok Updated => True | Ok UpdateConflict => ledger_failed h' | Err e => fails e h' end).
Proof.
  apply request_causes; [done|]. intros c h' _. split; [done|]. intros response.
  pose proof (elem_of_last (Obs (LeasePut c m l) response) h') as Hin.
  destruct (decide (response = Some 200%Z)) as [->|Hne]; [done|].
  apply ledger_answer in Hin; [|cbn; by rewrite bool_decide_true].
  destruct response as [status|]; cbn; [|by split]. case_decide; [congruence|]. case_decide; [done|by split].
Qed.
(** A live record of the name was read. *)
Definition live_record (m : string) (now : datetime) (h : trace_io) : Prop :=
  exists c l, Obs (LeaseGet c m) (Some (200%Z, Some l)) ∈ h /\ expired l now = false.
Definition ledger_explained (m : string) (now : datetime) (r : result ReplayError ()) (h : trace_io) : Prop :=
  match r with Ok _ => True | Err Replayed => live_record m now h | Err _ => ledger_failed h end.
Lemma fails_explained m now e h : fails e h -> ledger_explained m now (Err e) h.
Proof. intros [Hne Hd]. by destruct e. Qed.
Lemma reclaim_causes n m l now h : wpt (reclaim_attempts ledger (S n) m l now) h (ledger_explained m now).
Proof.
  revert h. induction n as [|n IH]; intros h.
  all: eapply wp_try_call; [apply get_lease_causes| |intros e h1 _ He; by apply fails_explained]; intros [cur|] h1 _ Hg.
  2,4: destruct Hg as (c & body & Hg); eapply wp_try_call; [apply create_lease_causes| |intros e h2 _ He; by apply fails_explained];
       intros [] h2 Hp Hc; [done|]; destruct Hc as (c' & k & -> & Hc); eapply record_reappeared; by exists h1, k.
  all: destruct Hg as (c & Hg & Hv); destruct (expired cur now) eqn:He; [|by exists c, cur]; cbn [negb].
  all: destruct (resource_version (metadata cur)) as [v|]; [|by apply Hv]; cbn in Hv; destruct (is_empty v); [by apply Hv|].
  all: eapply wp_try_call; [apply update_lease_causes| |intros e h2 _ Hf; by apply fails_explained].
  all: intros [] h2 _ Hu; [done|]; first [exact Hu|apply IH].
Qed.
(** The use of an identifier, up to the retention of its record. *)
Definition use_explained (id : string) (e : Z) (h : trace_io) (r : result ReplayError ()) (h' : trace_io) : Prop :=
  exists now, (h ++ [Obs UtcNow now]) `prefix_of` h'
    /\ ((exists x, retained_until e (timestamp_of now) = Err x) \/ ledger_explained (lease_name id) now r h')
    /\ (r = Err Replayed -> live_record (lease_name id) now h').
Lemma use_once_causes `{!ChronoLaws} id e h : wpt (use_once ledger id e) h (use_explained id e h).
Proof.
  apply wp_event; [done|]. intros now. set (h1 := h ++ _).
  destruct (retained_until e (timestamp_of now)) as [ret|x] eqn:Hr.
  2:{ pose proof (retained_until_err _ _ _ Hr) as ->. exists now. split_and!; [done|by left; eexists|done]. }
  destruct (Lease_new_total (lease_name id) _ _ _ Hr) as [l Hl].
  destruct (Lease_new_fields _ _ _ _ Hl) as (Hn & _).
  assert (wpt (created ←? create_lease ledger l;
    match created with
    | Created => _ ← cleanup_one ledger now; mret (Ok ())
    | CreateConflict => _ ←? reclaim_expired ledger (name (metadata l)) l now; _ ← cleanup_one ledger now; mret (Ok ())
    end) h1 (ledger_explained (lease_name id) now)) as He.
  { assert (forall h', wpt (_ ← cleanup_one ledger now; mret (Ok ())) h' (ledger_explained (lease_name id) now)) as Hclean.
    { intros h'. eapply wp_call; [by apply wp_true|]. done. }
    eapply wp_try_call; [apply create_lease_causes| |intros x h2 _ Hf; by apply fails_explained].
    intros [] h2 _ _; [apply Hclean|]. rewrite Hn.
    eapply wp_try_call; [apply reclaim_causes|intros; apply Hclean|by intros]. }
  eapply wp_mono; [|intros r h' Hp Hx; exists now; split_and!; [exact Hp|right; exact Hx|intros ->; exact Hx]].
  cbn -[create_lease reclaim_expired cleanup_one]. rewrite Hl. exact He.
Qed.

(** A record of the identifier that has not expired was read. *)
Definition spent_before (id : string) (t : trace_io) : Prop := exists now c l,
  Obs UtcNow now ∈ t /\ Obs (LeaseGet c (lease_name id)) (Some (200%Z, Some l)) ∈ t /\ expired l now = false.
Lemma spent_before_prefix id h h' : h `prefix_of` h' -> spent_before id h -> spent_before id h'.
Proof. intros Hp (now & c & l & ? & ? & ?). exists now, c, l. eauto using elem_of_prefix. Qed.
(** What the ledger answers after the events [h]: a record that cannot be kept is
    refused at once. *)
Definition spend_explained (id : string) (e : Z) (h : trace_io) (r : result ReplayError ()) (h' : trace_io) : Prop :=
  match r with
  | Ok _ => True
  | Err Replayed => spent_before id h'
  | Err _ => ledger_failed h' \/ exists now x, (h ++ [Obs UtcNow now]) `prefix_of` h' /\ retained_until e (timestamp_of now) = Err x
  end.
Lemma spend_fails id e h r h' x (F : Prop) :
  spend_explained id e h r h' -> r = Err x -> x <> Replayed -> (ledger_failed h' -> F) ->
  (forall now y, (h ++ [Obs UtcNow now]) `prefix_of` h' -> retained_until e (timestamp_of now) = Err y -> F) -> F.
Proof.
  intros Hx -> Hne Hl Hr. assert (ledger_failed h' \/ exists now x, (h ++ [Obs UtcNow now]) `prefix_of` h'
    /\ retained_until e (timestamp_of now) = Err x) as [H|(now & y & Hp & H)] by by destruct x.
  - by apply Hl.
  - by eapply Hr.
Qed.
Lemma spend_causes `{!ChronoLaws} id e h : wpt (use_once ledger id e) h (spend_explained id e h).
Proof.
  eapply wp_mono; [apply use_once_causes|]. intros r h' _ (now & Hp & Hx & Hl).
  destruct r as [[]|[| |d]]; cbn; [done| | |].
  - destruct (Hl eq_refl) as (c & l & ? & ?). exists now, c, l. split_and!; [|done..]. eapply elem_of_prefix, elem_of_last. exact Hp.
  - destruct Hx as [[x Hx]|Hx]; [right; by exists now, x|by left].
  - destruct Hx as [[x Hx]|Hx]; [right; by exists now, x|by left].
Qed.
End ledger.

(** A claim that was checked at [z] and decoded at [d] has a retention unless the
    clock misbehaves. *)
Lemma retention_fault `{jwt : Jwt, chrono : Chrono, !ChronoRange} h h' now e z d x :
  reads h z -> reads h d -> (h ++ [Obs UtcNow now]) `prefix_of` h' ->
  ((0 <= z < 253402290000)%Z -> (d - 30 <= e <= z + 630)%Z) ->
  retained_until e (timestamp_of now) = Err x -> clock_fault h'.
Proof.
  intros R1 R2 [k ->] Hz Hr.
  assert (reads ([Obs UtcNow now] ++ k) (timestamp_of now)) as R3
    by (eexists (Obs UtcNow now); split; [apply elem_of_app; left; by apply list_elem_of_singleton|done]).
  rewrite <- app_assoc. remember ([Obs UtcNow now] ++ k) as t eqn:Ht. clear Ht.
  assert (forall z, reads h z \/ reads t z -> ~ (0 <= z < 253402290000)%Z -> clock_fault (h ++ t)) as Hrange.
  { intros y Hy. apply clock_out_of_range. destruct Hy as [(o & Ho & ?)|(o & Ho & ?)]; exists o; rewrite elem_of_app; auto. }
  assert (forall z, reads h z -> ~ (z - 30 <= timestamp_of now < z + 270)%Z -> clock_fault (h ++ t)) as Hjump.
  { intros y Hy. apply clock_jumped. by exists h, t. }
  destruct (decide (0 <= timestamp_of now < 253402290000)%Z); [|by apply (Hrange (timestamp_of now)); [right|]].
  destruct (decide (0 <= z < 253402290000)%Z) as [Hin|]; [|by apply (Hrange z); [left|]]. specialize (Hz Hin).
  destruct (decide (z - 30 <= timestamp_of now < z + 270)%Z); [|by apply (Hjump z)].
  destruct (decide (d - 30 <= timestamp_of now < d + 270)%Z); [|by apply (Hjump d)].
  destruct (retained_until_total e (timestamp_of now)) as [ret Hret]; [lia|lia|congruence].
Qed.
(** A keyring refuses to sign. *)
Definition signing_fault `{jwt : Jwt} {A} (sign_at : Value -> datetime -> result A string) (t : trace_io) : Prop :=
  exists now claims e, Obs UtcNow now ∈ t /\ sign_at claims now = Err e.
Lemma signing_fault_prefix `{jwt : Jwt} {A} (sign_at : Value -> datetime -> result A string) h h' :
  h `prefix_of` h' -> signing_fault sign_at h -> signing_fault sign_at h'.
Proof. intros Hp (now & claims & e & Hn & He). exists now, claims, e. split; [by eapply elem_of_prefix|done]. Qed.
Lemma sign_causes `{jwt : Jwt, serde : SerdeJson, chrono : Chrono, b64 : Base64, p256 : P256} (keys : KeyRing) claims h :
  wpt (sign keys claims) h (fun r h' => forall e, r = Err e -> signing_fault (sign_at keys) h').
Proof. split; [done|]. intros now e He. exists now, claims, e. split; [apply elem_of_last|exact He]. Qed.
Lemma rsa_sign_causes `{jwt : Jwt, serde : SerdeJson, chrono : Chrono, b64 : Base64, p256 : P256, rsa : Rsa} (keys : RsaKeyRing) claims h :
  wpt (rsa_sign keys claims) h (fun r h' => forall e, r = Err e -> signing_fault (rsa_sign_at keys) h').
Proof. split; [done|]. intros now e He. exists now, claims, e. split; [apply elem_of_last|exact He]. Qed.
