(* ===== verification/Github.v ===== *)
(** * Verification of GitHub assertions (github.rs)

    The verifier's shared key cache with its refresh discipline, as programs over
    the events of [State], and [verify]: header, signature, time and claim
    checks.  The test-only injected key source is not modelled. *)
From S2P Require Import Prelude Text Prog Libs State Constants GithubClaims Concrete.

Definition JWKS_URL : string := "https://token.actions.githubusercontent.com/.well-known/jwks".
Definition MAX_ASSERTION_BYTES : nat := 32 * 1024.
Definition JWKS_SOFT_REFRESH_SECONDS : Z := 300.
Definition JWKS_REFRESH_RETRY_SECONDS : Z := 30.
Definition DEFAULT_JWKS_MAX_STALENESS_SECONDS : Z := 21600.

Inductive VerifyError :=
| InvalidAssertion
| KeysUnavailable (stage detail : string).
#[export] Instance VerifyError_eq_dec : EqDecision VerifyError.
Proof. solve_decision. Defined.
Definition keys_unavailable (stage detail : string) : VerifyError := KeysUnavailable stage detail.
(** The [Display] text. *)
Definition verify_error_text (e : VerifyError) : string :=
  match e with
  | InvalidAssertion => "assertion is invalid"
  | KeysUnavailable stage detail =>
      "GitHub signing keys are unavailable while " +:+ stage +:+ ": " +:+ detail
  end.

Record GitHubVerifier := {
  audience : string;
  jwks_url : string;
  max_staleness : Z;   (** a [Duration], in nanoseconds *)
}.
Inductive RefreshAttempt := Refreshed | Skipped.

(** ** Pure parts *)
Definition attempted_recently (last_attempt now : Z) : bool :=
  bool_decide (0 < last_attempt)%Z
  && bool_decide (i64_saturating_sub now last_attempt < JWKS_REFRESH_RETRY_SECONDS)%Z.

Definition cache_age (fetched_at now : Z) : Z :=
  if bool_decide (fetched_at <= 0)%Z then u64_max
  else let age := i64_saturating_sub now fetched_at in
       if bool_decide (0 <= age)%Z then age else 0%Z.

Definition MAX_CAUSES : nat := 8.
Fixpoint append_causes (fuel : nat) (detail : string) (causes : list string) : string :=
  match fuel, causes with
  | S fuel, current :: causes =>
      append_causes fuel
        (if negb (is_empty current) && negb (ends_with detail current)
         then detail +:+ ": " +:+ current else detail) causes
  | _, _ => detail
  end.
Definition error_chain_detail (error : error_chain) : string :=
  append_causes MAX_CAUSES (error_text error) (error_causes error).

(** [GitHubVerifier::new_with_max_staleness]. *)
Definition new_verifier `{!Reqwest} (audience : string) (max_staleness : Z) : result VerifyError GitHubVerifier :=
  _ ← map_err (keys_unavailable "initializing the JWKS HTTP client") (client_build None);
  Ok {| audience := audience; jwks_url := JWKS_URL; max_staleness := max_staleness |}.

Section verifier.
Context `{!Jwt, !Chrono}.
Context (self : GitHubVerifier).

Definition cache_is_usable (cache : KeyCache) (now max_staleness : Z) : bool :=
  negb (bool_decide (keys cache = ∅))
  && bool_decide (cache_age (fetched_at cache) now <= as_secs max_staleness)%Z.

(** [Utc::now().timestamp()]. *)
Definition unix_now : io Z := now ← utc_now; mret (timestamp_of now).

(** [cache_age_seconds(&self)]. *)
Definition cache_age_seconds : io Z :=
  cache ← load GithubCache; now ← unix_now; mret (cache_age (fetched_at cache) now).

(** The usable keys of a document. *)
Definition insert_jwk (keys : gmap string DecodingKey) (jwk : Jwk) : gmap string DecodingKey :=
  match key_id jwk with
  | None => keys
  | Some kid =>
      if decide (key_algorithm jwk <> Some KeyRS256) then keys
      else if decide (public_key_use jwk <> Some Signature) then keys
      else match from_jwk jwk with
           | Some key => <[kid := key]> keys
           | None => keys
           end
  end.
Definition usable_keys (document : list Jwk) : gmap string DecodingKey := foldl insert_jwk ∅ document.

Definition refresh_now : io (result VerifyError ()) :=
  response ← trigger (JwksGet (jwks_url self));
  response ←? mret (map_err (fun error =>
    keys_unavailable "fetching the GitHub JWKS" (error_chain_detail error)) response);
  _ ←? mret (match status_error response with
             | Some error => Err (keys_unavailable "checking the GitHub JWKS HTTP status"
                                    (error_chain_detail error))
             | None => Ok ()
             end);
  document ←? mret (map_err (fun error =>
    keys_unavailable "decoding the GitHub JWKS" (error_chain_detail error)) (jwks_body response));
  let keys := usable_keys document in
  if bool_decide (keys = ∅) then
    mret (Err (keys_unavailable "validating the GitHub JWKS"
                 "the document contains no usable RS256 signing keys"))
  else
    now ← unix_now;
    _ ← store GithubCache {| keys := keys; fetched_at := now |};
    mret (Ok ()).

Definition record_refresh_failure (error : VerifyError) : io () :=
  _ ← trigger (FetchAdd RefreshFailures 1);
  age ← cache_age_seconds;
  log "github_jwks_refresh_failed"
    [("cache_age_seconds", decimal age); ("detail", verify_error_text error)].

Definition run_refresh : io (result VerifyError RefreshAttempt) :=
  r ← refresh_now;
  match r with
  | Ok () => mret (Ok Refreshed)
  | Err error => _ ← record_refresh_failure error; mret (Err error)
  end.

Definition refresh_soft_if_due : io (result VerifyError RefreshAttempt) :=
  with_lock GithubRefresh (
    refresh ← load GithubRefreshState;
    now ← unix_now;
    age ← cache_age_seconds;
    if bool_decide (age < JWKS_SOFT_REFRESH_SECONDS)%Z
       || attempted_recently (last_soft_attempt refresh) now
    then mret (Ok Skipped)
    else
      _ ← store GithubRefreshState
            {| last_soft_attempt := now; last_forced_attempt := last_forced_attempt refresh;
               last_forced_failed := last_forced_failed refresh |};
      run_refresh).

Definition refresh_for_unknown_kid_if_due (kid : string) : io (result VerifyError RefreshAttempt) :=
  with_lock GithubRefresh (
    refresh ← load GithubRefreshState;
    now ← unix_now;
    cache ← load GithubCache;
    if bool_decide (is_Some (keys cache !! kid)) then mret (Ok Skipped)
    else if attempted_recently (last_forced_attempt refresh) now then
      mret (if last_forced_failed refresh then
              Err (keys_unavailable "refreshing the GitHub JWKS for an unknown key ID"
                     "a recent forced refresh failed and retry is rate-limited")
            else Ok Skipped)
    else
      _ ← store GithubRefreshState
            {| last_soft_attempt := last_soft_attempt refresh; last_forced_attempt := now;
               last_forced_failed := last_forced_failed refresh |};
      result ← run_refresh;
      _ ← store GithubRefreshState
            {| last_soft_attempt := last_soft_attempt refresh; last_forced_attempt := now;
               last_forced_failed := is_err result |};
      mret result).

(** The signing key for a key ID. *)
Definition key (kid : string) : io (result VerifyError DecodingKey) :=
  cache ← load GithubCache;
  now ← unix_now;
  match (if cache_is_usable cache now (max_staleness self) then keys cache !! kid else None) with
  | Some key => mret (Ok key)
  | None =>
      if bool_decide (is_Some (keys cache !! kid)) then
        mret (Err (keys_unavailable "using the cached GitHub JWKS"
                     "the cache is past the configured hard-staleness bound"))
      else
        refresh_result ← refresh_for_unknown_kid_if_due kid;
        cache ← load GithubCache;
        now ← unix_now;
        mret (if cache_is_usable cache now (max_staleness self) then
                match keys cache !! kid with
                | Some key => Ok key
                | None => match refresh_result with
                          | Ok _ => Err InvalidAssertion
                          | Err error => Err error
                          end
                end
              else match refresh_result with
                   | Err error => Err error
                   | Ok _ => Err (keys_unavailable "using the cached GitHub JWKS"
                                    "the cache is empty or past the configured hard-staleness bound")
                   end)
  end.

Definition validation : Validation := {|
  validation_algorithm := RS256;
  validation_issuer := [GITHUB_ISSUER];
  validation_audience := [audience self];
  required_spec_claims := ["iss"; "sub"; "aud"; "exp"; "iat"; "nbf"; "jti"];
  validate_nbf := true;
  leeway := 30;
|}.

Definition verify (assertion : string) : io (result VerifyError GitHubClaims) :=
  if is_empty assertion || bool_decide (MAX_ASSERTION_BYTES < len assertion)
  then mret (Err InvalidAssertion)
  else
  header ←? mret (ok_or InvalidAssertion (decode_header assertion));
  if bool_decide (alg header <> RS256) || bool_decide (typ header <> Some "JWT")
  then mret (Err InvalidAssertion)
  else
  kid ←? mret (ok_or InvalidAssertion (kid header));
  key ←? key kid;
  decoded_at ← get_current_timestamp;
  claims ←? mret (ok_or InvalidAssertion
                    (decode assertion key validation decoded_at ≫= github_claims_deserialize));
  now ← unix_now;
  lifetime ←? mret (ok_or InvalidAssertion (i64_checked_sub (exp claims) (iat claims)));
  mret (if claims_rejected (audience self) now lifetime claims then Err InvalidAssertion
        else Ok claims).

Definition warm_up : io (result VerifyError ()) :=
  with_lock GithubRefresh (
    result ← refresh_now;
    _ ← match result with Err error => record_refresh_failure error | Ok _ => mret () end;
    mret result).

Definition verifier_check_ready : io (result VerifyError ()) :=
  now ← unix_now;
  cache ← load GithubCache;
  mret (if cache_is_usable cache now (max_staleness self) then Ok ()
        else Err (keys_unavailable "checking the cached GitHub JWKS"
                    "the last successful refresh is past the configured hard-staleness bound")).

Definition refresh_failures : io Z := load (CounterCell RefreshFailures).

(** The background task, for a number of iterations of its endless loop. *)
Fixpoint run_refresh_loop_with_interval (iterations : nat) (interval : Z) : io () :=
  match iterations with
  | 0 => mret ()
  | S iterations =>
      _ ← trigger (Sleep interval);
      _ ← refresh_soft_if_due;
      run_refresh_loop_with_interval iterations interval
  end.
Definition run_refresh_loop (iterations : nat) : io () :=
  run_refresh_loop_with_interval iterations (JWKS_REFRESH_RETRY_SECONDS * ns_per_s).
End verifier.

(** ** Pure facts *)
Lemma cache_age_le fetched now bound :
  (0 <= bound < u64_max)%Z ->
  (cache_age fetched now <= bound)%Z <-> (0 < fetched)%Z /\ (i64_saturating_sub now fetched <= bound)%Z.

Proof.
  unfold cache_age. intros Hb. case_bool_decide; [lia|]. case_bool_decide; lia.
Qed.
Lemma i64_saturating_sub_exact a b : is_i64 (a - b) -> i64_saturating_sub a b = (a - b)%Z.
Proof. unfold i64_saturating_sub, is_i64, i64_min, i64_max. lia. Qed.

(** [KeyCache] entries come from RS256 signature keys of the document. *)
Lemma usable_keys_spec `{jwt : Jwt} document kid k :
  usable_keys document !! kid = Some k ->
  exists j, j ∈ document /\ key_id j = Some kid /\ key_algorithm j = Some KeyRS256
    /\ public_key_use j = Some Signature /\ from_jwk j = Some k.
Proof.
  unfold usable_keys. induction document as [|j l IH] using rev_ind; [cbn; by rewrite lookup_empty|].
  rewrite foldl_snoc. intros Hl.
  assert (foldl insert_jwk ∅ l !! kid = Some k \/
    (key_id j = Some kid /\ key_algorithm j = Some KeyRS256 /\ public_key_use j = Some Signature
     /\ from_jwk j = Some k)) as [H|H].
  { unfold insert_jwk in Hl at 1. destruct (key_id j) as [kid'|]; [|by left].
    case_decide as Ha; [by left|].
    case_decide as Hu; [by left|].
    destruct (from_jwk j) as [k'|]; [|by left].
    apply lookup_insert_Some in Hl as [[-> ->]|[_ ?]]; [by right|by left]. }
  - destruct (IH H) as (j' & Hj & ?). exists j'. split; [|done]. apply elem_of_app. by left.
  - exists j. split; [|done]. apply elem_of_app. right. by apply list_elem_of_singleton.
Qed.

Section verifier_theorems.
Context `{jwt : Jwt, chrono : Chrono}.
Context (self : GitHubVerifier).

(** The key is an RS256 signature key of the document, with that ID. *)
Definition usable_key (document : list Jwk) (kid : string) (k : DecodingKey) : Prop :=
  exists j, j ∈ document /\ key_id j = Some kid /\ key_algorithm j = Some KeyRS256
    /\ public_key_use j = Some Signature /\ from_jwk j = Some k.
(** The cache holds the usable keys of a document that the key endpoint answered,
    and the time that was read afterwards. *)
Definition fetched (h : trace_io) (cache : KeyCache) : Prop := exists document at_,
  [Obs (JwksGet (jwks_url self)) (Ok {| status_error := None; jwks_body := Ok document |}); Obs UtcNow at_] `sublist_of` h
  /\ fetched_at cache = timestamp_of at_
  /\ forall kid k, keys cache !! kid = Some k -> usable_key document kid k.
(** The key cache is only replaced, as a whole, by usable keys. *)
Definition good_cache_store (h : trace_io) (X : Type) (e : event X) : Prop :=
  match e with
  | Store c x =>
      match c in cell X return X -> Prop with
      | GithubCache => fun cache => keys cache <> ∅ /\ fetched h cache
      | _ => fun _ => True
      end x
  | _ => True
  end.
Definition verifier_permit (h : trace_io) (X : Type) (e : event X) : Prop :=
  good_cache_store h X e /\ lease_write e = false /\ service_metric e = false.
Definition is_key_error {A} (r : result VerifyError A) : Prop :=
  forall e, r = Err e -> exists stage detail, e = KeysUnavailable stage detail.

Lemma is_key_error_ok {A} (a : A) : is_key_error (Ok a).
Proof. by intros e. Qed.
Lemma is_key_error_err {A} stage detail : is_key_error (A := A) (Err (keys_unavailable stage detail)).
Proof. intros e [= <-]. by do 2 eexists. Qed.

Lemma wp_refresh_now h :
  wp verifier_permit (refresh_now self) h (fun r _ => is_key_error r).
Proof.
  cbn. split; [done|]. intros [response|error]; cbn; [|apply is_key_error_err].
  destruct response as [[err|] body]; cbn; [apply is_key_error_err|].
  destruct body as [document|err]; cbn; [|apply is_key_error_err].
  case_bool_decide as He; cbn; [apply is_key_error_err|].
  split; [done|]. intros now. split; [|intros []; apply is_key_error_ok].
  split; [|done]. split; [done|]. exists document, now. split_and!; [|done|exact (usable_keys_spec document)].
  rewrite <- app_assoc. by apply sublist_inserts_l.
Qed.
Lemma wp_record_refresh_failure h error :
  wp verifier_permit (record_refresh_failure error) h (fun _ _ => True).
Proof. cbn. repeat (split; [done|]; intros ?). done. Qed.
Lemma wp_run_refresh h : wp verifier_permit (run_refresh self) h (fun r _ => is_key_error r).
Proof.
  eapply wp_call; [apply wp_refresh_now|]. intros [[]|e] h1 _ He; [apply is_key_error_ok|].
  eapply wp_call; [apply wp_record_refresh_failure|]. intros [] h2 _ _ e' [= <-]. by apply He.
Qed.
Lemma wp_refresh_for_unknown kid h :
  wp verifier_permit (refresh_for_unknown_kid_if_due self kid) h (fun r _ => is_key_error r).
Proof.
  unfold refresh_for_unknown_kid_if_due, with_lock. cbn -[run_refresh].
  do 4 (split; [done|]; intros ?). apply wp_bind.
  case_bool_decide; cbn -[run_refresh]; [split; [done|]; intros ?; apply is_key_error_ok|].
  destruct (attempted_recently _ _); cbn -[run_refresh].
  { split; [done|]. intros u. destruct (last_forced_failed _); [apply is_key_error_err|apply is_key_error_ok]. }
  split; [done|]. intros u. apply wp_bind. eapply wp_mono; [apply wp_run_refresh|].
  intros r h1 _ Hr. cbn. by do 2 (split; [done|]; intros ?).
Qed.

(** Where the key of a successful lookup comes from: the last two events read
    a usable cache that holds it.  Only such a cache without the key makes the
    lookup blame the assertion. *)
Definition key_answer (kid : string) (r : result VerifyError DecodingKey) (h : trace_io) : Prop :=
  (exists h0 cache now,
     h = h0 ++ [Obs (Load GithubCache) cache; Obs UtcNow now]
     /\ (forall k, r = Ok k -> cache_is_usable cache (timestamp_of now) (max_staleness self) = true
          /\ keys cache !! kid = Some k)
     /\ (r = Err InvalidAssertion ->
          cache_is_usable cache (timestamp_of now) (max_staleness self) = true
          /\ keys cache !! kid = None))
  /\ (forall e, r = Err e -> e = InvalidAssertion \/ exists stage detail, e = KeysUnavailable stage detail).

Lemma key_after_refresh kid (r : result VerifyError RefreshAttempt) h :
  is_key_error r ->
  wp verifier_permit
    (cache ← load GithubCache;
     now ← unix_now;
     mret (if cache_is_usable cache now (max_staleness self) then
             match keys cache !! kid with
             | Some key => Ok key
             | None => match r with Ok _ => Err InvalidAssertion | Err error => Err error end
             end
           else match r with
                | Err error => Err error
                | Ok _ => Err (keys_unavailable "using the cached GitHub JWKS"
                                 "the cache is empty or past the configured hard-staleness bound")
                end)) h (key_answer kid).
Proof.
  intros Hr. cbn. split; [done|]. intros cache. split; [done|]. intros now. split.
  - exists h, cache, now. rewrite <- app_assoc. split; [done|].
    destruct (cache_is_usable _ _ _); [destruct (keys cache !! kid)|]; (split; [|]); intros;
      simplify_eq; try done; destruct r as [?|e]; simplify_eq; try done;
      by destruct (Hr _ eq_refl) as (? & ? & ?).
  - destruct (cache_is_usable _ _ _); [destruct (keys cache !! kid)|]; intros e He; simplify_eq;
      destruct r as [?|e']; simplify_eq; auto; right; by do 2 eexists.
Qed.
Lemma wp_key kid h : wp verifier_permit (key self kid) h (key_answer kid).
Proof.
  cbn -[refresh_for_unknown_kid_if_due]. do 2 (split; [done|]; intros ?).
  match goal with |- context [cache_is_usable ?c ?t ?m] => destruct (cache_is_usable c t m) eqn:Hu end.
  - destruct (keys x !! kid) as [k|] eqn:Hk.
    + split; [|done]. exists h, x, x0. rewrite <- app_assoc. split_and!; [done| |done].
      intros k' [= <-]. done.
    + rewrite bool_decide_false by (by intros []). apply wp_bind.
      eapply wp_mono; [apply wp_refresh_for_unknown|]. intros r h1 _ Hr. by apply key_after_refresh.
  - case_bool_decide.
    + split; [|intros e [= <-]; right; by do 2 eexists].
      exists h, x, x0. rewrite <- app_assoc. by split_and!.
    + apply wp_bind. eapply wp_mono; [apply wp_refresh_for_unknown|]. intros r h1 _ Hr.
      by apply key_after_refresh.
Qed.


(** What a successful verification has established, from what it was told. *)
Record verified (t : trace_io) (assertion : string) (claims : GitHubClaims) : Prop := {
  verified_length : 0 < len assertion <= MAX_ASSERTION_BYTES;
  verified_signature : exists header kid key cache read_at decoded_at,
    decode_header assertion = Some header
    /\ alg header = RS256 /\ typ header = Some "JWT" /\ Libs.kid header = Some kid
    /\ Obs (Load GithubCache) cache ∈ t /\ Obs UtcNow read_at ∈ t
    /\ cache_is_usable cache (timestamp_of read_at) (max_staleness self) = true
    /\ keys cache !! kid = Some key
    /\ Obs CurrentTimestamp decoded_at ∈ t
    /\ (decode assertion key (validation self) decoded_at ≫= github_claims_deserialize) = Some claims;
  verified_claims : exists now, Obs UtcNow now ∈ t /\ accepted (audience self) (timestamp_of now) claims;
}.

Lemma verified_prefix h h' assertion claims :
  h `prefix_of` h' -> verified h assertion claims -> verified h' assertion claims.
Proof.
  intros [k ->] [Hl (hd & kid & key & cache & r & d & ?&?&?&?&?&?&?&?&?&?) (now & ? & ?)]. split.
  - done.
  - exists hd, kid, key, cache, r, d. rewrite !elem_of_app. split_and!; auto.
  - exists now. rewrite elem_of_app. auto.
Qed.

Lemma elem_of_snoc {A : Type} (x y : A) l : x ∈ l ++ [y] <-> x ∈ l \/ x = y.
Proof. by rewrite elem_of_app, list_elem_of_singleton. Qed.

(** The final checks, as one decision. *)
Definition judge (now : Z) (claims : GitHubClaims) : result VerifyError GitHubClaims :=
  lifetime ← ok_or InvalidAssertion (i64_checked_sub (exp claims) (iat claims));
  if claims_rejected (audience self) now lifetime claims then Err InvalidAssertion else Ok claims.
Lemma judge_ok now claims c : judge now claims = Ok c <-> c = claims /\ accepted (audience self) now claims.
Proof.
  unfold judge. split.
  - intros (lifetime & Hl%ok_or_ok & H)%result_bind_ok. destruct (claims_rejected _ _ _ _) eqn:Hr; [done|].
    injection H as <-. split; [done|]. by eapply claims_accepted.
  - intros [-> Ha]. destruct (i64_checked_sub (exp claims) (iat claims)) as [lifetime|] eqn:Hl; cbn.
    + by rewrite (proj2 (claims_accepted _ _ _ _ Hl) Ha).
    + exfalso. pose proof (accepted_lifetime _ _ _ Ha) as Hb.
      assert (i64_checked_sub (exp claims) (iat claims) = Some (exp claims - iat claims)%Z); [|congruence].
      apply i64_checked_sub_Some. unfold is_i64, i64_min, i64_max. lia.
Qed.
Lemma judge_cases now claims : judge now claims = Ok claims \/ judge now claims = Err InvalidAssertion.
Proof.
  unfold judge. destruct (i64_checked_sub _ _); cbn; [|by right]. destruct (claims_rejected _ _ _ _); auto.
Qed.

Definition verify_answer (assertion : string) (r : result VerifyError GitHubClaims) (h : trace_io) : Prop :=
  forall claims, r = Ok claims -> verified h assertion claims.
Lemma wp_verify assertion h : wp verifier_permit (verify self assertion) h (verify_answer assertion).
Proof.
  unfold verify. destruct (_ || _) eqn:Hlen; [done|]. result_simpl.
  destruct (decode_header assertion) as [header|] eqn:Hh; [|done]. cbn -[key].
  destruct (_ || _) eqn:Halg; [done|]. result_simpl.
  destruct (Libs.kid header) as [kid|] eqn:Hkid; [|done]. cbn -[key].
  apply wp_bind. eapply wp_mono; [apply wp_key|]. intros [k|e] h1 _ [Hk _]; [|done].
  destruct Hk as (h0 & cache & now & -> & Hok & _). destruct (Hok k eq_refl) as [Hu Hl].
  cbn. split; [done|]. intros decoded_at.
  destruct (decode assertion k (validation self) decoded_at ≫= github_claims_deserialize)
    as [claims|] eqn:Hd; [|done].
  cbn -[i64_checked_sub claims_rejected]. split; [done|]. intros now2.
  match goal with |- wp _ ?p _ _ =>
    replace p with (Ret (E := event) (judge (timestamp_of now2) claims))
      by (unfold judge; by destruct (i64_checked_sub _ _)) end.
  intros c [-> Hacc]%judge_ok.
  repeat match goal with H : ¬ (_ ≠ _) |- _ => apply dec_stable in H end.
  match goal with H : is_empty _ = false |- _ => apply is_empty_false in H end.
  split.
  - rewrite <- len_0 in *. lia.
  - exists header, kid, k, cache, now, decoded_at.
    rewrite !elem_of_app, !elem_of_cons. split_and!; auto 10.
  - exists now2. rewrite !elem_of_app, !elem_of_cons. auto 10.
Qed.
End verifier_theorems.

(** ** The verifier's guarantees *)
Lemma deserialize_exp v c :
  github_claims_deserialize v = Some c -> (get_field v "exp" ≫= as_i64) = Some (exp c).
Proof.
  unfold github_claims_deserialize. intros H.
  do 3 (apply bind_Some in H as (? & _ & H)). apply bind_Some in H as (e & He & H).
  repeat (apply bind_Some in H as (? & _ & H)). injection H as <-. exact He.
Qed.

(** With a usable cache that holds the key, verification makes no request: it
    reads the cache and three clocks, and accepts exactly the assertions whose
    signed claims pass every check; everything else is invalid. *)
Theorem verify_warm `{!Jwt, !Chrono} self assertion header kid k cache now1 decoded_at now2 r :
  0 < len assertion <= MAX_ASSERTION_BYTES ->
  decode_header assertion = Some header -> alg header = RS256 -> typ header = Some "JWT" ->
  Libs.kid header = Some kid ->
  cache_is_usable cache (timestamp_of now1) (max_staleness self) = true -> keys cache !! kid = Some k ->
  let signed : option GitHubClaims := decode assertion k (validation self) decoded_at ≫= github_claims_deserialize in
  let times := [Obs (Load GithubCache) cache; Obs UtcNow now1; Obs CurrentTimestamp decoded_at] in
  runs (verify self assertion) (times ++ if signed is Some _ then [Obs UtcNow now2] else []) r <->
  match signed with
  | Some claims =>
      (accepted (audience self) (timestamp_of now2) claims /\ r = Ok claims)
      \/ (~ accepted (audience self) (timestamp_of now2) claims /\ r = Err InvalidAssertion)
  | None => r = Err InvalidAssertion
  end.
Proof.
  intros Hlen Hh Ha Ht Hk Hu Hkey signed times. unfold verify.
  assert (is_empty assertion = false) as -> by (apply is_empty_false; rewrite <- len_0; lia).
  rewrite bool_decide_false by lia. cbn -[key]. rewrite Hh. cbn -[key].
  rewrite !bool_decide_false by (by intros []). cbn -[key]. rewrite Hk. cbn -[refresh_for_unknown_kid_if_due times runs].
  unfold times. cbn [app]. rewrite !runs_vis, Hu, Hkey. cbn -[runs i64_checked_sub claims_rejected].
  rewrite runs_vis. fold signed.
  destruct signed as [claims|]; cbn -[runs i64_checked_sub claims_rejected]; [|rewrite runs_ret; naive_solver].
  rewrite runs_vis.
  match goal with |- runs ?p _ _ <-> _ =>
    replace p with (Ret (E := event) (judge self (timestamp_of now2) claims))
      by (unfold judge; by destruct (i64_checked_sub _ _)) end.
  rewrite runs_ret. pose proof (judge_ok self (timestamp_of now2) claims claims) as Hj.
  destruct (judge_cases self (timestamp_of now2) claims) as [Hc|Hc]; rewrite Hc in *; naive_solver.
Qed.

(** The requests of a trace to the key endpoint. *)
Definition is_fetch `{jwt : Jwt} (o : obs_io) : bool :=
  match o with Obs e _ => match e with JwksGet _ => true | _ => false end end.
Definition fetches `{jwt : Jwt} (t : trace_io) : nat := length (List.filter is_fetch t).

Section refresh_theorems.
Context `{jwt : Jwt, chrono : Chrono}.
Context (self : GitHubVerifier).

Lemma runs_refresh_now t r :
  runs (refresh_now self) t r ->
  exists x t', t = Obs (JwksGet (jwks_url self)) x :: t' /\ fetches t' = 0.
Proof.
  unfold refresh_now. intros (t1 & t2 & x & -> & Hx%runs_trigger & H)%runs_bind. subst.
  exists x, t2. split; [done|]. clear -H.
  destruct x as [[[e1|] [document|e2]]|e3]; cbn in H;
    repeat match goal with
    | H : _ /\ _ |- _ => destruct H as [? ?]
    | H : exists _, _ |- _ => destruct H as [? H]
    | H : context [bool_decide ?P] |- _ => destruct (bool_decide P); cbn in H
    end; subst; done.
Qed.
Lemma runs_run_refresh t r : runs (run_refresh self) t r -> fetches t = 1.
Proof.
  unfold run_refresh. intros (t1 & t2 & x & -> & (y & t' & -> & Hf)%runs_refresh_now & H)%runs_bind.
  unfold fetches in *. rewrite List.filter_app, length_app. cbn. rewrite Hf.
  destruct x as [[]|e]; [destruct H as [-> _]; done|].
  cbn in H.
  repeat match goal with
    | H : _ /\ _ |- _ => destruct H as [? ?]
    | H : exists _, _ |- _ => destruct H as [? H]
    end; subst; done.
Qed.

(** An unknown key ID causes at most one request to the key endpoint, made
    under the refresh lock, only when the ID is still missing from the cache
    and the last forced attempt is at least 30 seconds old; the attempt's time
    and outcome are stored for the next caller. *)
Theorem forced_refresh_limited kid t r :
  runs (refresh_for_unknown_kid_if_due self kid) t r ->
  exists refresh now cache t',
    t = [Obs (Acquire GithubRefresh) (); Obs (Load GithubRefreshState) refresh; Obs UtcNow now;
         Obs (Load GithubCache) cache] ++ t' ++ [Obs (Release GithubRefresh) ()]
    /\ ((t' = [] /\ (is_Some (keys cache !! kid)
                      \/ attempted_recently (last_forced_attempt refresh) (timestamp_of now) = true))
        \/ (keys cache !! kid = None
            /\ (last_forced_attempt refresh <= 0
                \/ 30 <= i64_saturating_sub (timestamp_of now) (last_forced_attempt refresh))%Z
            /\ fetches t' = 1
            /\ exists t0, t' = t0 ++ [Obs (Store GithubRefreshState
                 {| last_soft_attempt := last_soft_attempt refresh;
                    last_forced_attempt := timestamp_of now;
                    last_forced_failed := is_err r |}) ()])).
Proof.
  unfold refresh_for_unknown_kid_if_due, with_lock. cbn -[run_refresh runs].
  intros H. cbn -[run_refresh] in H.
  destruct H as ([] & ? & -> & refresh & ? & -> & now & ? & -> & cache & t1 & -> & H).
  exists refresh, now, cache. case_bool_decide as Hk; cbn -[run_refresh] in H.
  { destruct H as ([] & ? & -> & -> & ->). exists []. auto. }
  destruct (attempted_recently _ _) eqn:Ha; cbn -[run_refresh] in H.
  { destruct H as ([] & ? & -> & -> & ->). exists []. auto. }
  destruct H as ([] & ? & -> & H).
  change (runs ((run_refresh self ≫= fun x => _ ← trigger (Store GithubRefreshState
     {| last_soft_attempt := last_soft_attempt refresh; last_forced_attempt := timestamp_of now;
        last_forced_failed := is_err x |}); mret x)
     ≫= fun a => _ ← trigger (Release GithubRefresh); mret a) x r) in H.
  apply runs_bind in H as (t2 & t3 & a & -> & H & H3).
  apply runs_bind in H as (t4 & t5 & b & -> & H4%runs_run_refresh & H).
  cbn in H, H3. destruct H as ([] & ? & -> & -> & ->), H3 as ([] & ? & -> & -> & ->).
  eexists (_ :: t4 ++ [_]). split; [cbn; by rewrite <- !app_assoc|]. right. split_and!.
  - by destruct (keys cache !! kid); [destruct Hk|].
  - unfold attempted_recently, JWKS_REFRESH_RETRY_SECONDS in Ha. apply andb_false_iff in Ha as [Ha|Ha]; result_simpl; lia.
  - unfold fetches in *. cbn. rewrite List.filter_app, length_app. cbn. lia.
  - by eexists (_ :: t4).
Qed.

(** A cache is used exactly while it is non-empty, was fetched, and its age
    is at most the configured number of seconds. *)
Theorem cache_is_usable_spec cache now max :
  (0 <= as_secs max < u64_max)%Z -> is_i64 (now - fetched_at cache) ->
  cache_is_usable cache now max = true <->
  keys cache <> ∅ /\ (0 < fetched_at cache)%Z /\ (now - fetched_at cache <= as_secs max)%Z.
Proof.
  intros Hm Hi. unfold cache_is_usable.
  rewrite andb_true_iff, negb_true_iff, bool_decide_eq_false, bool_decide_eq_true.
  rewrite cache_age_le by done. by rewrite i64_saturating_sub_exact.
Qed.
End refresh_theorems.

Section cache_theorems.
Context `{jwt : Jwt, chrono : Chrono}.
Context (self : GitHubVerifier).

Lemma wp_warm_up h : wp (verifier_permit self) (warm_up self) h (fun r _ => is_key_error r).
Proof.
  unfold warm_up, with_lock. cbn -[refresh_now]. split; [done|]. intros u. apply wp_bind, wp_bind.
  eapply wp_mono; [apply wp_refresh_now|]. intros [[]|e] h1 _ Hr; cbn.
  - split; [done|]. intros _. exact Hr.
  - do 5 (split; [done|]; intros ?). exact Hr.
Qed.
Lemma wp_refresh_soft h : wp (verifier_permit self) (refresh_soft_if_due self) h (fun r _ => is_key_error r).
Proof.
  unfold refresh_soft_if_due, with_lock. cbn -[run_refresh].
  do 5 (split; [done|]; intros ?). apply wp_bind. destruct (_ || _); cbn -[run_refresh].
  - split; [done|]. intros u. apply is_key_error_ok.
  - split; [done|]. intros u. eapply wp_mono; [apply wp_run_refresh|].
    intros r h1 _ Hr. cbn. split; [done|]. by intros [].
Qed.
Lemma wp_refresh_loop n interval h :
  wp (verifier_permit self) (run_refresh_loop_with_interval self n interval) h (fun _ _ => True).
Proof.
  revert h. induction n as [|n IH]; intros h; [done|]. split; [done|]. intros u.
  eapply wp_call; [apply wp_refresh_soft|]. intros r h1 _ _. apply IH.
Qed.

(** C30: The key cache is only ever replaced as a whole, by a non-empty map each
    of whose keys comes from an RS256 signature key, with that ID, of a document
    just fetched, with the time that was read after its arrival; nothing the verifier does touches a Lease or an exchange
    metric. *)
Theorem cache_replacements_usable assertion n interval :
  (forall t r t1 X (e : event X) x t2, runs (verify self assertion) t r -> t = t1 ++ Obs e x :: t2 ->
     verifier_permit self t1 X e)
  /\ (forall t r t1 X (e : event X) x t2, runs (warm_up self) t r -> t = t1 ++ Obs e x :: t2 ->
     verifier_permit self t1 X e)
  /\ (forall t r t1 X (e : event X) x t2, runs (run_refresh_loop_with_interval self n interval) t r ->
     t = t1 ++ Obs e x :: t2 -> verifier_permit self t1 X e).
Proof.
  split_and!; intros t r t1 X e x t2 Hr Ht.
  - exact (wp_permitted _ _ [] _ _ _ _ _ _ _ _ (wp_verify self assertion []) Hr Ht).
  - exact (wp_permitted _ _ [] _ _ _ _ _ _ _ _ (wp_warm_up []) Hr Ht).
  - exact (wp_permitted _ _ [] _ _ _ _ _ _ _ _ (wp_refresh_loop n interval []) Hr Ht).
Qed.

Lemma bound_refresh_now : len_bound (refresh_now self) 3.
Proof.
  apply (len_bound_bind _ _ 1 2); [done|]. intros [[[e1|] [d|e2]]|e3]; cbn; try done.
  by case_bool_decide.
Qed.
Lemma bound_run_refresh : len_bound (run_refresh self) 7.
Proof. apply (len_bound_bind _ _ 3 4); [apply bound_refresh_now|]. by intros [[]|e]. Qed.
Lemma bound_forced kid : len_bound (refresh_for_unknown_kid_if_due self kid) 14.
Proof.
  unfold refresh_for_unknown_kid_if_due, with_lock.
  apply (len_bound_bind _ _ 1 13); [done|]. intros _.
  apply (len_bound_bind _ _ 12 1); [|done].
  apply (len_bound_bind _ _ 1 11); [done|]. intros refresh.
  apply (len_bound_bind _ _ 1 10); [done|]. intros now.
  apply (len_bound_bind _ _ 1 9); [done|]. intros cache.
  case_bool_decide; [done|]. destruct (attempted_recently _ _); [done|].
  apply (len_bound_bind _ _ 1 8); [done|]. intros _.
  by apply (len_bound_bind _ _ 7 1); [apply bound_run_refresh|].
Qed.
Lemma bound_key kid : len_bound (key self kid) 18.
Proof.
  apply (len_bound_bind _ _ 1 17); [done|]. intros cache.
  apply (len_bound_bind _ _ 1 16); [done|]. intros now.
  match goal with |- len_bound (match ?x with _ => _ end) _ => destruct x end; [done|]. case_bool_decide; [done|].
  by apply (len_bound_bind _ _ 14 2); [apply bound_forced|].
Qed.
Lemma bound_verify assertion : len_bound (verify self assertion) 20.
Proof.
  unfold verify. destruct (_ || _); [done|].
  apply (len_bound_try_bind _ _ 0 20); [done|]. intros h. destruct (_ || _); [done|].
  apply (len_bound_try_bind _ _ 0 20); [done|]. intros kid.
  apply (len_bound_try_bind _ _ 18 2); [apply bound_key|]. intros k.
  apply (len_bound_bind _ _ 1 1); [done|]. intros d.
  destruct (decode assertion k (validation self) d ≫= github_claims_deserialize) as [c|]; [|done].
  cbn -[i64_checked_sub]. intros now. by destruct (i64_checked_sub _ _).
Qed.
End cache_theorems.
