(* ===== verification/Service.v ===== *)
(** * The GitHub exchange (service.rs)

    [exchange] verifies an assertion, authorizes it, records its use and signs the
    output token, counting exactly one outcome and auditing every refusal. *)
From S2P Require Import Prelude Text Prog Libs State Constants GithubClaims Concrete Replay Simulator ReplaySafety Keys Exchange.
From S2P Require Policy Github.

Inductive ExchangeError := ExchangeUnauthorized | ExchangeUnavailable.
#[export] Instance ExchangeError_eq_dec : EqDecision ExchangeError.
Proof. solve_decision. Defined.

(** ** Output claims *)
Record SourceRepository := { source_id : string; source_owner_id : string; source_name : string }.
Record SourceRun := { source_run_id : string; source_attempt : Z }.
Record SourceWorkflow := { source_workflow_ref : string; source_workflow_sha : string }.
Record SourceProvenance := {
  contract_version : string;
  provider : string;
  source_repository : SourceRepository;
  triggered_sha : string;
  source_run : SourceRun;
  source_event : string;
  source_git_ref : string;
  source_actor_id : string;
  source_actor : string;
  caller_workflow : SourceWorkflow;
  reusable_workflow : SourceWorkflow;
}.
Record OutputClaims := {
  out_iss : string;
  out_sub : string;
  out_aud : list string;
  out_exp : Z;
  out_iat : Z;
  out_nbf : Z;
  out_jti : string;
  out_actor_login : option string;
  out_email : option string;
  out_email_verified : option bool;
  out_groups : option (list string);
  out_identity_contract : string;
  out_source_provenance : SourceProvenance;
}.

Definition typed_git_sha1 (value : string) : string := "git:sha1:" +:+ value.
(** [SourceProvenance::from]. *)
Definition source_provenance (claims : GitHubClaims) : SourceProvenance := {|
  contract_version := SOURCE_PROVENANCE_CONTRACT;
  provider := "github";
  source_repository := {| source_id := repository_id claims;
                          source_owner_id := repository_owner_id claims;
                          source_name := repository claims |};
  triggered_sha := typed_git_sha1 (sha claims);
  source_run := {| source_run_id := run_id claims; source_attempt := run_attempt claims |};
  source_event := event_name claims;
  source_git_ref := git_ref claims;
  source_actor_id := actor_id claims;
  source_actor := actor claims;
  caller_workflow := {| source_workflow_ref := workflow_ref claims;
                        source_workflow_sha := typed_git_sha1 (workflow_sha claims) |};
  reusable_workflow := {| source_workflow_ref := job_workflow_ref claims;
                          source_workflow_sha := typed_git_sha1 (job_workflow_sha claims) |};
|}.

(** The derived [Serialize]. *)
Definition source_workflow_value (w : SourceWorkflow) : Value :=
  object [("ref", VString (source_workflow_ref w)); ("sha", VString (source_workflow_sha w))].
Definition source_provenance_value (p : SourceProvenance) : Value := object [
  ("contractVersion", VString (contract_version p));
  ("provider", VString (provider p));
  ("repository", object [("id", VString (source_id (source_repository p)));
                         ("ownerId", VString (source_owner_id (source_repository p)));
                         ("name", VString (source_name (source_repository p)))]);
  ("triggeredSha", VString (triggered_sha p));
  ("run", object [("id", VString (source_run_id (source_run p)));
                  ("attempt", num (source_attempt (source_run p)))]);
  ("event", VString (source_event p));
  ("ref", VString (source_git_ref p));
  ("actorId", VString (source_actor_id p));
  ("actor", VString (source_actor p));
  ("callerWorkflow", source_workflow_value (caller_workflow p));
  ("reusableWorkflow", source_workflow_value (reusable_workflow p))].
Definition output_claims_value (c : OutputClaims) : Value := object (
  [("iss", VString (out_iss c)); ("sub", VString (out_sub c)); ("aud", str_list (out_aud c));
   ("exp", num (out_exp c)); ("iat", num (out_iat c)); ("nbf", num (out_nbf c));
   ("jti", VString (out_jti c))]
  ++ optional "actor_login" VString (out_actor_login c)
  ++ optional "email" VString (out_email c)
  ++ optional "email_verified" VBool (out_email_verified c)
  ++ optional "groups" str_list (out_groups c)
  ++ [("identity_contract", VString (out_identity_contract c));
      ("source_provenance", source_provenance_value (out_source_provenance c))]).

(** ** Metrics *)
(** [EXCHANGE_DURATION_BUCKET_SECONDS], in nanoseconds. *)
Definition EXCHANGE_DURATION_BUCKETS : list Z :=
  [10000000; 25000000; 50000000; 100000000; 250000000; 500000000; 1000000000; 5000000000]%Z.

Section metrics.
Context `{!Jwt}.
Fixpoint observe_buckets (bucket : nat) (bounds : list Z) (elapsed_ns : Z) : io () :=
  match bounds with
  | [] => mret ()
  | upper_bound :: bounds =>
      _ ← (if bool_decide (elapsed_ns <= upper_bound)%Z
           then trigger (FetchAdd (DurationBucket bucket) 1) else mret ());
      observe_buckets (S bucket) bounds elapsed_ns
  end.
Definition observe_duration (elapsed_ns : Z) : io () :=
  let micros := Z.min (elapsed_ns / 1000) u64_max in
  _ ← trigger (FetchAdd DurationCount 1);
  _ ← trigger (FetchAdd DurationSumMicros micros);
  observe_buckets 0 EXCHANGE_DURATION_BUCKETS elapsed_ns.

Fixpoint load_buckets (n bucket : nat) : io (list Z) :=
  match n with
  | 0 => mret []
  | S n => x ← load (CounterCell (DurationBucket bucket)); l ← load_buckets n (S bucket); mret (x :: l)
  end.
Definition duration_snapshot : io (list Z * Z * Z) :=
  buckets ← load_buckets 8 0;
  n ← load (CounterCell DurationCount);
  sum ← load (CounterCell DurationSumMicros);
  mret (buckets, n, sum).

(** A body under an [ExchangeTimer], which observes when it is dropped. *)
Definition timed {A} (body : io A) : io A :=
  started ← trigger InstantNow;
  a ← body;
  ended ← trigger InstantNow;
  _ ← observe_duration (elapsed ended started);
  mret a.
End metrics.

(** ** Identifiers in the audit log *)
Section hash.
Context `{!Sha2}.
Definition hash_identifier (value : string) : string :=
  if is_empty value then "" else hex (take 8 (sha256 value)).
End hash.

Record ExchangeService `{!P256} := {
  verifier : Github.GitHubVerifier;
  policy : Policy.Policy;
  service_keys : KeyRing;
  issuer : string;
  output_audience : string;
  token_ttl : Z;   (** a [Duration], in nanoseconds *)
}.

(** The [Display] text of a key error. *)
Definition key_error_text (e : KeyError) : string :=
  match e with
  | KeyInvalid message => "keyring is invalid: " +:+ message
  | Signing => "token signing failed"
  end.

Section exchange.
Context `{!Jwt, !SerdeJson, !Chrono, !Base64, !P256, !Sha2}.
Context `{L : !ReplayLedger}.
Context (self : ExchangeService).

Definition audit (ev : string) (claims : GitHubClaims) (reason : string) (detail : option string) : io () :=
  log ev [("actor_id", actor_id claims);
          ("repository_owner_id", repository_owner_id claims);
          ("repository_id", repository_id claims);
          ("workflow_ref", workflow_ref claims);
          ("job_workflow_ref", job_workflow_ref claims);
          ("source_jti_hash", hash_identifier (jti claims));
          ("reason", reason);
          ("detail", default "" detail)].
Definition deny (claims : GitHubClaims) (reason : string) : io () :=
  _ ← count GithubExchange Denied;
  audit "exchange_denied" claims reason None.
Definition fail (claims : GitHubClaims) (reason : string) (detail : option string) : io () :=
  _ ← count GithubExchange Errors;
  audit "exchange_failed" claims reason detail.

(** The claims of the issued token. *)
Definition output_claims (claims : GitHubClaims) (identity : Policy.Identity) (now : Z) (jti : string) :
  OutputClaims := {|
  out_iss := issuer self;
  out_sub := Policy.id_subject identity;
  out_aud := [output_audience self];
  out_exp := u64_add now (as_secs (token_ttl self));
  out_iat := now;
  out_nbf := u64_saturating_sub now 5;
  out_jti := jti;
  out_actor_login := Policy.id_actor_login identity;
  out_email := Policy.id_email identity;
  out_email_verified := Policy.id_email_verified identity;
  out_groups := Policy.id_groups identity;
  out_identity_contract := Policy.id_identity_contract identity;
  out_source_provenance := source_provenance claims;
|}.

(** After the use of the assertion is recorded. *)
Definition issue (claims : GitHubClaims) (identity : Policy.Identity) : io (result ExchangeError string) :=
  now ← get_current_timestamp;
  uuid ← trigger NewUuid;
  signed ← sign (service_keys self) (output_claims_value (output_claims claims identity now uuid));
  match signed with
  | Err error =>
      _ ← fail claims "signing_unavailable" (Some (key_error_text error));
      mret (Err ExchangeUnavailable)
  | Ok token =>
      _ ← count GithubExchange Issued;
      _ ← log "exchange_issued"
            [("actor_id", Policy.id_actor_id identity);
             ("repository", Policy.id_repository identity);
             ("workflow_ref", Policy.id_workflow_ref identity);
             ("job_workflow_ref", Policy.id_job_workflow_ref identity);
             ("source_jti_hash", hash_identifier (jti claims))];
      mret (Ok token)
  end.

(** After the assertion is verified. *)
Definition redeem (claims : GitHubClaims) : io (result ExchangeError string) :=
  match Policy.authorize (policy self) claims with
  | Err _ =>
      _ ← deny claims "identity is not authorized";
      mret (Err ExchangeUnauthorized)
  | Ok identity =>
      used ← ledger_use_once (jti claims) (exp claims);
      match used with
      | Ok () => issue claims identity
      | Err Replayed =>
          _ ← count GithubExchange State.Replayed;
          _ ← audit "exchange_replayed" claims "replay" None;
          mret (Err ExchangeUnauthorized)
      | Err _ =>
          _ ← fail claims "ledger_unavailable" None;
          mret (Err ExchangeUnavailable)
      end
  end.

Definition exchange (assertion : string) : io (result ExchangeError string) :=
  _ ← count GithubExchange Requests;
  timed (
    verified ← Github.verify (verifier self) assertion;
    match verified with
    | Err Github.InvalidAssertion =>
        _ ← deny default_claims "assertion is invalid";
        mret (Err ExchangeUnauthorized)
    | Err error =>
        _ ← fail default_claims (Github.verify_error_text error) None;
        mret (Err ExchangeUnavailable)
    | Ok claims => redeem claims
    end).
End exchange.

(** ** The timer *)
Section counting.
Context `{jwt : Jwt}.
Definition sees_nothing {A} (h : trace_io) (_ : A) (h' : trace_io) : Prop :=
  (forall n, writes n h' = writes n h) /\ (forall c, is_duration c = false -> total c h' = total c h).

Lemma wp_observe_buckets bucket bounds elapsed_ns permit h :
  (forall h X (e : event X), lease_write e = false -> permit h X e) ->
  wp permit (observe_buckets bucket bounds elapsed_ns) h (sees_nothing h).
Proof.
  intros Hp. revert bucket h. induction bounds as [|b bounds IH]; intros bucket h; [done|].
  cbn [observe_buckets]. destruct (bool_decide _); cbn; [|apply IH].
  split; [by apply Hp|]. intros u. eapply wp_mono; [apply IH|]. intros [] h' _ [Hw Ht]. split.
  - intros n. rewrite Hw, writes_app. cbn. lia.
  - intros c Hc. rewrite (Ht c Hc), total_app. cbn. rewrite decide_False by (by intros <-). lia.
Qed.

Lemma wp_timed {A} (body : io A) permit h (Q : A -> trace_io -> Prop) :
  (forall h X (e : event X), lease_write e = false -> permit h X e) ->
  (forall a h1 h2, h1 `prefix_of` h2 -> sees_nothing h1 () h2 -> Q a h1 -> Q a h2) ->
  (forall started, wp permit body (h ++ [Obs InstantNow started]) Q) ->
  wp permit (timed body) h Q.
Proof.
  intros Hp HQ Hb. unfold timed. split; [by apply Hp|]. intros started.
  change (wp permit (body ≫= fun a => ended ← trigger InstantNow;
    _ ← observe_duration (elapsed ended started); mret a) (h ++ [Obs InstantNow started]) Q).
  apply wp_bind. eapply wp_mono; [apply Hb|]. intros a h1 _ Ha. unfold observe_duration.
  do 3 (split; [by apply Hp|]; intros ?).
  change (wp permit (observe_buckets 0 EXCHANGE_DURATION_BUCKETS (elapsed x started) ≫= fun _ => mret a)
    (((h1 ++ [Obs InstantNow x]) ++ [Obs (FetchAdd DurationCount 1) x0])
     ++ [Obs (FetchAdd DurationSumMicros (Z.min (elapsed x started / 1000) u64_max)) x1]) Q).
  eapply wp_call; [by apply wp_observe_buckets|]. intros [] h2 Hpre [Hw Ht]. cbn.
  eapply HQ; [| |exact Ha].
  - etrans; [|exact Hpre]. rewrite <- !app_assoc. by apply prefix_app_r.
  - split.
    + intros n. rewrite Hw, !writes_app. cbn. lia.
    + intros c Hc. rewrite (Ht c Hc), !total_app. cbn.
      rewrite !decide_False by (by intros <-). lia.
Qed.
End counting.

(** ** The exchange *)
Section exchange_theorems.
Context `{jwt : Jwt, serde : SerdeJson, chrono : Chrono, b64 : Base64, p256 : P256, sha : Sha2}.
Context `{L : !ReplayLedger, !LeaseLedger L}.
Context (self : ExchangeService).

(** Which outcome counters a result allows. *)
Definition outcome_of {A} (r : result ExchangeError A) (o : outcome) : Prop :=
  match r with
  | Ok _ => o = Issued
  | Err ExchangeUnauthorized => o = Denied \/ o = State.Replayed
  | Err ExchangeUnavailable => o = Errors
  end.
Definition counted {A} (h : trace_io) (r : result ExchangeError A) (h' : trace_io) : Prop :=
  exists o, outcome_of r o /\ moved [Count GithubExchange o] h h'.

(** What stands behind an issued token. *)
Record issued (h : trace_io) (assertion token : string) : Prop := {
  issued_from : exists claims identity now uuid signed_at,
    Github.verified (verifier self) h assertion claims
    /\ Policy.authorize (policy self) claims = Ok identity
    /\ 1 <= writes (lease_name (jti claims)) h
    /\ Obs CurrentTimestamp now ∈ h /\ Obs NewUuid uuid ∈ h /\ Obs UtcNow signed_at ∈ h
    /\ sign_at (service_keys self) (output_claims_value (output_claims self claims identity now uuid)) signed_at
       = Ok token
}.
Lemma issued_prefix h h' assertion token :
  h `prefix_of` h' -> issued h assertion token -> issued h' assertion token.
Proof.
  intros Hp [(claims & identity & now & uuid & at_ & Hv & Ha & Hw & H1 & H2 & H3 & Hs)]. split.
  exists claims, identity, now, uuid, at_. split_and!; try done.
  - by eapply Github.verified_prefix.
  - destruct Hp as [k ->]. rewrite writes_app. lia.
  - destruct Hp as [k ->]. by apply elem_of_app; left.
  - destruct Hp as [k ->]. by apply elem_of_app; left.
  - destruct Hp as [k ->]. by apply elem_of_app; left.
Qed.

Definition exchange_post (h : trace_io) (assertion : string) (r : result ExchangeError string)
    (h' : trace_io) : Prop :=
  counted h r h'
  /\ (forall token, r = Ok token -> issued h' assertion token)
  /\ (r = Err ExchangeUnauthorized -> forall n, writes n h' = writes n h).

(** Counting and auditing a refusal. *)
Lemma wp_refusal {A} permit h0 h (s : service) (o : outcome) ev fields (r : result ExchangeError A)
    (Q : result ExchangeError A -> trace_io -> Prop) :
  (forall h X (e : event X), lease_write e = false -> permit h X e) ->
  moved [] h0 h ->
  (forall h', h `prefix_of` h' -> moved [Count s o] h0 h' -> (forall n, writes n h' = writes n h) -> Q r h') ->
  wp permit (_ ← count s o; _ ← log ev fields; mret r) h Q.
Proof.
  intros Hp Hm HQ. cbn. split; [by apply Hp|]. intros u1. split; [by apply Hp|]. intros u2.
  apply HQ.
  - rewrite <- app_assoc. by apply prefix_app_r.
  - intros c Hd Hr. rewrite !total_app. cbn. rewrite (Hm c Hd Hr).
    rewrite (decide_False (P := c ∈ [])) by (by intros ?%elem_of_nil).
    repeat case_decide; set_solver by lia.
  - intros n. rewrite !writes_app. cbn. lia.
Qed.

Lemma wp_issue permit assertion claims identity h0 h :
  (forall h X (e : event X), lease_write e = false -> permit h X e) ->
  Github.verified (verifier self) h assertion claims ->
  Policy.authorize (policy self) claims = Ok identity ->
  1 <= writes (lease_name (jti claims)) h ->
  moved [] h0 h ->
  wp permit (issue self claims identity) h (exchange_post h0 assertion).
Proof.
  intros Hp Hv Ha Hw Hm. unfold issue. do 2 (split; [by apply Hp|]; intros ?).
  split; [by apply Hp|]. intros signed_at.
  set (h1 := ((h ++ _) ++ _) ++ _).
  assert (h `prefix_of` h1) as Hpre by (unfold h1; rewrite <- !app_assoc; by apply prefix_app_r).
  assert (moved [] h0 h1) as Hm1.
  { eapply moved_same; [|exact Hm]. intros c _. unfold h1. rewrite !total_app. cbn. lia. }
  match goal with |- wp _ ?p _ _ => change p with
    (match sign_at (service_keys self) (output_claims_value (output_claims self claims identity x x0)) signed_at with
     | Err error => _ ← fail claims "signing_unavailable" (Some (key_error_text error));
                    mret (Err ExchangeUnavailable)
     | Ok token => _ ← count GithubExchange Issued;
                   _ ← log "exchange_issued"
                         [("actor_id", Policy.id_actor_id identity);
                          ("repository", Policy.id_repository identity);
                          ("workflow_ref", Policy.id_workflow_ref identity);
                          ("job_workflow_ref", Policy.id_job_workflow_ref identity);
                          ("source_jti_hash", hash_identifier (jti claims))];
                   mret (Ok token)
     end : io (result ExchangeError string)) end.
  destruct (sign_at _ _ _) as [token|error] eqn:Hs.
  - eapply wp_refusal; [done|exact Hm1|]. intros h2 Hpre2 Hm2 Hw2. split; [|split].
    + exists Issued. by split.
    + intros token' [= <-]. eapply issued_prefix; [exact Hpre2|]. split.
      exists claims, identity, x, x0, signed_at. split_and!; try done.
      * by eapply Github.verified_prefix.
      * destruct Hpre as [k ->]. rewrite writes_app. lia.
      * unfold h1. rewrite !elem_of_app, !list_elem_of_singleton. auto.
      * unfold h1. rewrite !elem_of_app, !list_elem_of_singleton. auto.
      * unfold h1. rewrite !elem_of_app, !list_elem_of_singleton. auto.
    + done.
  - eapply (wp_refusal _ h0 h1 GithubExchange Errors); [done|exact Hm1|].
    intros h2 Hpre2 Hm2 Hw2. split; [by exists Errors|]. done.
Qed.

Context (P : string -> Z -> Prop).
Lemma wp_redeem assertion claims h0 h :
  P (jti claims) (exp claims) ->
  Github.verified (verifier self) h assertion claims ->
  moved [] h0 h -> (forall n, writes n h = writes n h0) ->
  wp (lease_discipline P) (redeem self claims) h (exchange_post h0 assertion).
Proof.
  intros HP Hv Hm Hq. unfold redeem.
  destruct (Policy.authorize (policy self) claims) as [identity|e] eqn:Ha.
  2:{ eapply (wp_refusal _ h0 h GithubExchange Denied); [apply lease_discipline_allows|done|].
      intros h2 _ Hm2 Hw2. split; [exists Denied; split; [by left|done]|]. split; [done|].
      intros _ n. by rewrite Hw2, Hq. }
  apply wp_bind. eapply wp_mono.
  { apply (wp_discipline P), (wp_uncounted (ledger_permit P)); [by intros ? ? ? (_ & ? & _)|].
    by apply use_once_spec. }
  intros used h1 Hpre [Hw Ht]. assert (moved [] h0 h1) as Hm1 by by eapply moved_same.
  destruct used as [[]|[| |d]].
  - apply wp_issue; [apply lease_discipline_allows|by eapply Github.verified_prefix|done| |done].
    rewrite Hw. cbn. rewrite decide_True by done. lia.
  - eapply (wp_refusal _ h0 h1 GithubExchange State.Replayed); [apply lease_discipline_allows|done|].
    intros h2 _ Hm2 Hw2. split; [exists State.Replayed; split; [by right|done]|]. split; [done|].
    intros _ n. rewrite Hw2, Hw, Hq. cbn. lia.
  - eapply (wp_refusal _ h0 h1 GithubExchange Errors); [apply lease_discipline_allows|done|].
    intros h2 _ Hm2 Hw2. split; [by exists Errors|]. done.
  - eapply (wp_refusal _ h0 h1 GithubExchange Errors); [apply lease_discipline_allows|done|].
    intros h2 _ Hm2 Hw2. split; [by exists Errors|]. done.
Qed.

(** The claims a token carries, whatever key verifies it. *)
Definition claims_of (assertion : string) : option GitHubClaims :=
  insecure_decode assertion ≫= github_claims_deserialize.
Lemma verified_claims_of `{!JwtLaws} v h assertion claims :
  Github.verified v h assertion claims -> claims_of assertion = Some claims.
Proof.
  intros Hv. destruct (Github.verified_signature _ _ _ _ Hv)
    as (hd & kid & k & cache & r & d & _&_&_&_&_&_&_&_&_& (c & Hd & Hc)%bind_Some).
  unfold claims_of. by rewrite (decode_payload _ _ _ _ _ Hd).
Qed.

(** The whole exchange, from the request on. *)
Definition exchange_result (h : trace_io) (assertion : string) (r : result ExchangeError string)
    (h' : trace_io) : Prop :=
  (exists o, outcome_of r o /\ moved [Count GithubExchange Requests; Count GithubExchange o] h h')
  /\ (forall token, r = Ok token -> issued h' assertion token)
  /\ (r = Err ExchangeUnauthorized -> forall n, writes n h' = writes n h).

Lemma wp_exchange `{!JwtLaws} assertion h :
  (forall claims, claims_of assertion = Some claims -> P (jti claims) (exp claims)) ->
  wp (lease_discipline P) (exchange self assertion) h (exchange_result h assertion).
Proof.
  intros HP. split; [done|]. intros u. set (h0 := h ++ [_]).
  eapply (wp_mono _ _ _ (exchange_post h0 assertion)).
  2:{ intros r h' _ ((o & Ho & Hm) & Hi & Hw). split; [|split; [done|]].
      - exists o. split; [done|]. intros c Hd Hr. rewrite (Hm c Hd Hr). unfold h0. rewrite total_app. cbn.
        assert (o <> Requests) by (destruct r as [|[]]; cbn in Ho; naive_solver).
        repeat case_decide; set_solver by (simplify_eq; lia).
      - intros Hr n. rewrite (Hw Hr n). unfold h0. rewrite writes_app. cbn. lia. }
  apply wp_timed; [apply lease_discipline_allows| |].
  { intros r h1 h2 Hpre [Hw Ht] ((o & Ho & Hm) & Hi & Hd). split; [|split].
    - exists o. split; [done|]. intros c Hdur Hr. rewrite Ht by done. by apply Hm.
    - intros token Hr. eapply issued_prefix; [done|]. by apply Hi.
    - intros Hr n. rewrite Hw. by apply Hd. }
  intros started. set (h1 := h0 ++ [_]).
  apply wp_bind. eapply wp_mono.
  { eapply (wp_permit_mono (Github.verifier_permit (verifier self))).
    { intros h' X e (_ & ? & _). by apply lease_discipline_allows. }
    apply wp_uncounted; [by intros ? ? ? (_ & _ & ?)|].
    apply wp_quiet; [by intros ? ? ? (_ & ? & _)|]. apply Github.wp_verify. }
  intros v h2 _ [[Hv Hw] Ht].
  assert (moved [] h0 h2) as Hm.
  { eapply moved_same; [exact Ht|]. eapply moved_same; [|apply moved_refl].
    intros c _. unfold h1. rewrite total_app. cbn. lia. }
  assert (forall n, writes n h2 = writes n h0) as Hq.
  { intros n. rewrite Hw. unfold h1. rewrite writes_app. cbn. lia. }
  destruct v as [claims|[|stage detail]].
  - specialize (Hv claims eq_refl). apply wp_redeem; try done. apply HP.
    by eapply verified_claims_of.
  - eapply (wp_refusal _ h0 h2 GithubExchange Denied); [apply lease_discipline_allows|done|].
    intros h3 _ Hm2 Hw2. split; [exists Denied; split; [by left|done]|]. split; [done|].
    intros _ n. by rewrite Hw2, Hq.
  - eapply (wp_refusal _ h0 h2 GithubExchange Errors); [apply lease_discipline_allows|done|].
    intros h3 _ Hm2 Hw2. split; [by exists Errors|]. done.
Qed.
End exchange_theorems.

(** ** What the exchange guarantees *)
Section exchange_properties.
Context `{jwt : Jwt, !JwtLaws, serde : SerdeJson, chrono : Chrono, b64 : Base64, p256 : P256, sha : Sha2}.
Context `{L : !ReplayLedger, !LeaseLedger L}.

Lemma exchange_runs self assertion t r :
  runs (exchange self assertion) t r -> exchange_result self [] assertion r t.
Proof. exact (wp_runs _ _ [] _ _ _ (wp_exchange self (fun _ _ => True) assertion [] (fun _ _ => I))). Qed.

(** C38: Every exchange counts one request and exactly one outcome, which its
    answer determines (a refusal is a denial or a replay, a failure an error);
    no other counter of an exchange moves, and a refused assertion is not
    consumed. *)
Theorem exchange_accounting self assertion t r :
  runs (exchange self assertion) t r ->
  (exists o, outcome_of r o /\ forall c, is_duration c = false -> c <> RefreshFailures ->
     total c t = if decide (c = Count GithubExchange Requests \/ c = Count GithubExchange o) then 1%Z else 0%Z)
  /\ (r = Err ExchangeUnauthorized -> forall n, writes n t = 0).
Proof.
  intros ((o & Ho & Hm) & _ & Hw)%exchange_runs. split; [|exact Hw].
  exists o. split; [done|]. intros c Hd Hr. rewrite (Hm c Hd Hr). cbn.
  repeat case_decide; set_solver.
Qed.

(** ** The interface *)
#[export,refine] Instance github_exchange : Exchange (ExchangeService * string) (result ExchangeError string) := {|
  perform_call c := exchange c.1 c.2;
  identifies c := claims ← claims_of c.2; Some (jti claims, exp claims);
  issues _ r _ := is_ok r = true;
|}.
Proof.
  intros P [self assertion] h HP. eapply wp_mono; [apply (wp_exchange self P)|].
  - intros claims Hc. apply HP. cbn in Hc |- *. by rewrite Hc.
  - intros r h' _ (_ & Hi & _) Hr. cbn. destruct r as [token|]; [|done].
    destruct (Hi token eq_refl) as [(claims & ?&?&?&?& Hv & _ & Hw & _)].
    cbn in Hv. rewrite (verified_claims_of _ _ _ _ Hv). by do 2 eexists.
Defined.
End exchange_properties.

(** ** The issued claims *)
(** The claims of a token as the consumer contract lists them: the issuer and the
    single audience of the configuration, the subject named after the actor, the
    times, the token's own identifier; the actor's login under policy v6; the e-mail
    and groups of a mapped actor; and the contracts of identity and provenance. *)
Definition contract_claims `{p256 : P256} (self : ExchangeService) (claims : GitHubClaims) (now : Z) (uuid : string)
    (mapped : option (string * list string)) : Value :=
  let text := VString in
  let v5 := bool_decide (Policy.version (policy self) = POLICY_VERSION) in
  object (
    [("iss", text (issuer self)); ("sub", text ("github-actions:actor:" +:+ actor_id claims));
     ("aud", VArray [text (output_audience self)]);
     ("exp", num ((now + token_ttl self / 1000000000) mod 2 ^ 64)); ("iat", num now); ("nbf", num (Z.max 0 (now - 5)));
     ("jti", text uuid)]
    ++ (if v5 then [] else [("actor_login", text (actor claims))])
    ++ match mapped with
       | Some (email, groups) =>
           [("email", text email); ("email_verified", VBool true); ("groups", VArray (VString <$> groups))]
       | None => []
       end
    ++ [("identity_contract", text (if v5 then "steward-task-v2" else "steward-task-v3"));
        ("source_provenance", object [
          ("contractVersion", text "steward.source-provenance/v1"); ("provider", text "github");
          ("repository", object [("id", text (repository_id claims)); ("ownerId", text (repository_owner_id claims));
                                 ("name", text (repository claims))]);
          ("triggeredSha", text ("git:sha1:" +:+ sha claims));
          ("run", object [("id", text (run_id claims)); ("attempt", num (run_attempt claims))]);
          ("event", text (event_name claims)); ("ref", text (git_ref claims));
          ("actorId", text (actor_id claims)); ("actor", text (actor claims));
          ("callerWorkflow", object [("ref", text (workflow_ref claims));
                                     ("sha", text ("git:sha1:" +:+ workflow_sha claims))]);
          ("reusableWorkflow", object [("ref", text (job_workflow_ref claims));
                                       ("sha", text ("git:sha1:" +:+ job_workflow_sha claims))])])])%Z.
(** The e-mail and the groups, in byte order, of an actor the policy maps; none when
    it maps no actors. *)
Definition actor_mapped (p : Policy.Policy) (claims : GitHubClaims) (mapped : option (string * list string)) : Prop :=
  match Policy.actors p with
  | None => mapped = None
  | Some actors => exists a prefix groups, actors !! actor_id claims = Some a /\ Policy.verified a = true
      /\ Policy.acting_group_prefix p = Some prefix /\ mapped = Some (Policy.actor_email a, groups)
      /\ groups ≡ₚ [Policy.service_group p; prefix +:+ Policy.actor_email a;
                     "agents.apelogic.ai/canonical-user:" +:+ Policy.canonical_user_id_of a]
      /\ Sorted String.le groups
  end.
Lemma authorized_version p claims identity : Policy.authorize p claims = Ok identity ->
  Policy.version p = POLICY_VERSION \/ Policy.version p = SOURCE_AUTH_POLICY_VERSION.
Proof. unfold Policy.authorize. case_decide; [by left|]. case_decide; [by right|done]. Qed.
Lemma output_claims_contract `{p256 : P256} (self : ExchangeService) claims identity now uuid :
  Policy.authorize (policy self) claims = Ok identity ->
  exists mapped, actor_mapped (policy self) claims mapped
    /\ output_claims_value (output_claims self claims identity now uuid) = contract_claims self claims now uuid mapped.
Proof.
  intros Ha. pose proof (authorized_version _ _ _ Ha) as Hversion. apply Policy.authorize_identity_of in Ha as [_ Hsub Hcon _ _ _ Hlogin Hmail].
  unfold actor_mapped. unfold output_claims_value, output_claims, contract_claims.
  cbn [out_iss out_sub out_aud out_exp out_iat out_nbf out_jti out_actor_login out_email
       out_email_verified out_groups out_identity_contract out_source_provenance].
  rewrite Hsub, Hcon, Hlogin. unfold Policy.identity_contract.
  assert (POLICY_VERSION <> SOURCE_AUTH_POLICY_VERSION) as Hne by done.
  destruct (Policy.actors (policy self)) as [actors|].
  - destruct Hmail as (a & prefix & Hl & Hv & Hp & -> & -> & ->).
    exists (Some (Policy.actor_email a, Policy.actor_groups (policy self) prefix a)). split.
    + exists a, prefix, (Policy.actor_groups (policy self) prefix a). split_and!; try done; apply Policy.actor_groups_spec.
    + by destruct Hversion as [-> | ->].
  - destruct Hmail as (-> & -> & ->). exists None. split; [done|]. by destruct Hversion as [-> | ->].
Qed.
(** What stands behind a token, in the terms of the contract. *)
Definition issued_by_contract `{jwt : Jwt, chrono : Chrono, p256 : P256, sha : Sha2} (self : ExchangeService)
    (h : trace_io) (assertion token : string) : Prop :=
  exists claims identity now uuid signed_at mapped key der,
    Github.verified (verifier self) h assertion claims
    /\ Policy.authorize (policy self) claims = Ok identity
    /\ 1 <= writes (lease_name (jti claims)) h
    /\ Obs CurrentTimestamp now ∈ h /\ Obs NewUuid uuid ∈ h /\ Obs UtcNow signed_at ∈ h
    /\ actor_mapped (policy self) claims mapped
    /\ (current_not_before (service_keys self) <= signed_at < current_not_after (service_keys self))%Z
    /\ ring_keys (service_keys self) !! current_kid (service_keys self) = Some key /\ to_pkcs8_der key = Some der
    /\ encode {| alg := ES256; typ := typ (header_new ES256); kid := Some (current_kid (service_keys self)) |}
         (contract_claims self claims now uuid mapped) (from_ec_der der) = Some token.

(** C9: a token is issued only for an assertion that was verified and authorized and
    whose use was recorded.  It is the ES256 signature, under the current key, within
    its window and under its ID, of exactly the documented claims: the configured
    issuer and audience, the actor's subject, the present time, an expiry one lifetime
    later, a start five seconds earlier, a fresh identifier, the e-mail and groups of
    a mapped actor only, and the contract and the provenance of the assertion. *)
Theorem exchange_issues `{jwt : Jwt, !JwtLaws, serde : SerdeJson, chrono : Chrono, b64 : Base64, p256 : P256, sha : Sha2}
    `{L : !ReplayLedger, !LeaseLedger L} self assertion t token :
  runs (exchange self assertion) t (Ok token) -> issued_by_contract self t assertion token.
Proof.
  intros (_ & Hi & _)%exchange_runs.
  destruct (Hi token eq_refl) as [(claims & identity & now & uuid & at_ & Hv & Ha & Hw & H1 & H2 & H3 & Hs)].
  destruct (output_claims_contract self claims identity now uuid Ha) as (mapped & Hm & Heq).
  apply sign_ring_spec in Hs as [Hwin (key & der & Hk & Hd & He)]. rewrite Heq in He. unfold signing_header in He.
  rewrite header_new_alg in He. exists claims, identity, now, uuid, at_, mapped, key, der. destruct Hwin. by split_and!.
Qed.

(** The claims that are signed name the configured issuer and audience, last
    the configured time from the present, start five seconds before it, carry the
    policy's identity contract and the verified provenance, and hold an e-mail and
    groups only when the policy maps actors. *)
Theorem output_claims_fields `{p256 : P256} (self : ExchangeService) claims identity now jti_ :
  Policy.authorize (policy self) claims = Ok identity ->
  (5 <= now)%Z -> (0 <= as_secs (token_ttl self))%Z -> is_u64 (now + as_secs (token_ttl self)) ->
  let v := output_claims_value (output_claims self claims identity now jti_) in
  get_field v "iss" = Some (VString (issuer self))
  /\ get_field v "aud" = Some (VArray [VString (output_audience self)])
  /\ get_field v "sub" = Some (VString ("github-actions:actor:" +:+ actor_id claims))
  /\ get_field v "jti" = Some (VString jti_)
  /\ get_field v "iat" = Some (VNumber (PosInt now))
  /\ get_field v "nbf" = Some (VNumber (PosInt (now - 5)))
  /\ get_field v "exp" = Some (VNumber (PosInt (now + as_secs (token_ttl self))))
  /\ get_field v "identity_contract" = Some (VString (Policy.identity_contract (policy self)))
  /\ get_field v "source_provenance" = Some (source_provenance_value (source_provenance claims))
  /\ (Policy.actors (policy self) = None -> get_field v "email" = None /\ get_field v "groups" = None).
Proof.
  intros Ha Hn Ht Hu. apply Policy.authorize_identity_of in Ha.
  pose proof (Policy.identity_subject _ _ _ Ha) as Hsub.
  pose proof (Policy.identity_contract_ok _ _ _ Ha) as Hcon.
  pose proof (Policy.identity_email _ _ _ Ha) as Hmail.
  assert (u64_saturating_sub now 5 = now - 5)%Z as Hnbf by (unfold u64_saturating_sub; lia).
  assert (u64_add now (as_secs (token_ttl self)) = now + as_secs (token_ttl self))%Z as Hexp
    by (by apply wrap_u64_id).
  assert (forall z, (0 <= z)%Z -> num z = VNumber (PosInt z)) as Hnum
    by (intros z Hz; unfold num; by rewrite bool_decide_true).
  intros v. unfold v, output_claims_value, output_claims.
  cbn [out_iss out_sub out_aud out_exp out_iat out_nbf out_jti out_actor_login out_email
       out_email_verified out_groups out_identity_contract out_source_provenance].
  rewrite Hsub, Hcon, Hnbf, Hexp, !Hnum by lia. generalize (source_provenance_value (source_provenance claims)) as sp.
  intros sp. split_and!; [..|intros Hnone; rewrite Hnone in Hmail; destruct Hmail as (-> & -> & ->)];
    destruct (Policy.id_actor_login identity), (Policy.id_email identity), (Policy.id_email_verified identity),
      (Policy.id_groups identity); try done.
Qed.

(** ** The duration histogram *)
Section durations.
Context `{jwt : Jwt}.
Lemma runs_observe_buckets bucket bounds d t :
  runs (observe_buckets bucket bounds d) t () ->
  (forall c, is_duration c = false \/ c = DurationCount \/ c = DurationSumMicros -> total c t = 0%Z)
  /\ forall i, total (DurationBucket i) t =
       match (i - bucket, bounds !! (i - bucket)) with
       | (k, Some b) => if bool_decide (bucket <= i) && bool_decide (d <= b)%Z then 1%Z else 0%Z
       | _ => 0%Z
       end.
Proof.
  revert bucket t. induction bounds as [|b bounds IH]; intros bucket t; cbn [observe_buckets].
  { intros [-> _]. split; [done|]. intros i. by rewrite lookup_nil. }
  intros (t1 & t2 & u & -> & H1 & H2)%runs_bind.
  destruct (IH (S bucket) t2 H2) as [Ho Hb].
  assert ((forall c, total c t1 = if decide (c = DurationBucket bucket) then
             (if bool_decide (d <= b)%Z then 1 else 0)%Z else 0%Z)) as H0.
  { intros c. case_bool_decide; cbn in H1.
    - destruct H1 as (x & t' & -> & -> & _). cbn. repeat case_decide; simplify_eq; lia.
    - destruct H1 as [-> _]. cbn. by case_decide. }
  split.
  - intros c Hc. rewrite total_app, H0, (Ho c Hc), decide_False; [lia|].
    intros ->. destruct Hc as [|[]]; done.
  - intros i. rewrite total_app, H0, Hb. destruct (decide (i = bucket)) as [->|Hne].
    + rewrite decide_True by done. rewrite Nat.sub_diag. cbn [lookup list_lookup].
      rewrite (bool_decide_true (bucket <= bucket)) by lia. cbn.
      replace (bucket - S bucket) with 0 by lia. rewrite (bool_decide_false (S bucket <= bucket)) by lia.
      destruct (bounds !! 0); cbn; lia.
    + rewrite decide_False by (intros [= ?]; done). destruct (decide (bucket < i)) as [Hlt|Hge].
      * replace (i - bucket) with (S (i - S bucket)) by lia. cbn [lookup list_lookup].
        rewrite !bool_decide_true by lia. destruct (bounds !! (i - S bucket)); lia.
      * rewrite !(bool_decide_false (_ <= i)) by lia. destruct (bounds !! _); cbn; destruct ((_ :: _) !! _); cbn; lia.
Qed.

(** One observation adds one to the count, its microseconds to the sum, and
    one to exactly the buckets whose bound it does not exceed; so the buckets
    stay cumulative. *)
Theorem observe_duration_spec d t :
  runs (observe_duration d) t () ->
  total DurationCount t = 1%Z /\ total DurationSumMicros t = Z.min (d / 1000) u64_max
  /\ (forall i, total (DurationBucket i) t =
        match EXCHANGE_DURATION_BUCKETS !! i with
        | Some b => if bool_decide (d <= b)%Z then 1%Z else 0%Z
        | None => 0%Z
        end)
  /\ (forall i j, i <= j -> j < 8 -> (total (DurationBucket i) t <= total (DurationBucket j) t)%Z).
Proof.
  unfold observe_duration. intros H. destruct H as ([] & ? & -> & [] & t' & -> & H).
  apply runs_observe_buckets in H as [Ho Hb].
  assert (forall i, total (DurationBucket i) (Obs (FetchAdd DurationCount 1) ()
      :: Obs (FetchAdd DurationSumMicros (Z.min (d / 1000) u64_max)) () :: t') =
        match EXCHANGE_DURATION_BUCKETS !! i with
        | Some b => if bool_decide (d <= b)%Z then 1%Z else 0%Z
        | None => 0%Z
        end) as Hbuckets.
  { intros i. cbn [total added]. rewrite !decide_False by done. rewrite Hb, Nat.sub_0_r.
    rewrite (bool_decide_true (0 <= i)) by lia. by destruct (_ !! i). }
  split_and!.
  - cbn [total added]. rewrite decide_True, decide_False, Ho by auto. lia.
  - cbn [total added]. rewrite decide_False, decide_True, Ho by auto. lia.
  - exact Hbuckets.
  - intros i j Hij Hj. rewrite !Hbuckets.
    assert (forall k, k < 8 -> k = 0 \/ k = 1 \/ k = 2 \/ k = 3 \/ k = 4 \/ k = 5 \/ k = 6 \/ k = 7) as Hk by lia.
    destruct (Hk i ltac:(lia)) as [->|[->|[->|[->|[->|[->|[->| ->]]]]]]];
    destruct (Hk j Hj) as [->|[->|[->|[->|[->|[->|[->| ->]]]]]]]; try lia; cbn;
      repeat case_bool_decide; lia.
Qed.
End durations.

(** ** Termination *)
Section termination.
Context `{jwt : Jwt, serde : SerdeJson, chrono : Chrono, b64 : Base64, p256 : P256, sha : Sha2, url : UrlLib}.
Context (self : ExchangeService) (ledger : KubernetesLeaseReplayLedger).

Lemma bound_observe d : len_bound (observe_duration d) 10.
Proof.
  assert (forall bounds b, len_bound (observe_buckets b bounds d) (length bounds)) as G.
  { induction bounds as [|bound l IH]; intros b; [done|]. cbn [observe_buckets].
    destruct (bool_decide _); cbn; [intros u; apply IH|]. eapply len_bound_mono; [apply IH|]. lia. }
  apply (len_bound_bind _ _ 1 9); [done|]. intros _.
  apply (len_bound_bind _ _ 1 8); [done|]. intros _. apply (G EXCHANGE_DURATION_BUCKETS).
Qed.

(** Whatever the environment answers, an exchange ends after at most 64
    events, refresh, ledger, clean-up, signing and metrics included. *)
Lemma bound_service_exchange assertion :
  len_bound (exchange (L := kubernetes_ledger ledger) self assertion) 64.
Proof.
  apply (len_bound_bind _ _ 1 63); [done|]. intros _.
  apply (len_bound_bind _ _ 1 62); [done|]. intros started.
  apply (len_bound_bind _ _ 51 11).
  2:{ intros r. apply (len_bound_bind _ _ 1 10); [done|]. intros e.
      apply (len_bound_bind _ _ 10 0); [apply bound_observe|done]. }
  apply (len_bound_bind _ _ 20 31); [apply Github.bound_verify|].
  intros [claims|[|stage detail]]; [|done..]. unfold redeem.
  destruct (Policy.authorize _ _) as [identity|]; [|done].
  apply (len_bound_bind _ _ 26 5); [apply bound_use_once|].
  intros [[]|[| |d]]; [|done..]. unfold issue.
  apply (len_bound_bind _ _ 1 4); [done|]. intros now.
  apply (len_bound_bind _ _ 1 3); [done|]. intros uuid.
  apply (len_bound_bind _ _ 1 2); [done|]. by intros [token|error].
Qed.
End termination.

(** ** A concrete exchange *)
(** The sample assertion, signed for the exchange. *)
Definition sample_claims_value : Value := object [
  ("iss", VString GITHUB_ISSUER); ("sub", VString (sub sample_claims)); ("aud", VString "exchange");
  ("exp", num (exp sample_claims)); ("iat", num (iat sample_claims)); ("nbf", num (nbf sample_claims));
  ("jti", VString "jti-1"); ("actor_id", VString "12"); ("actor", VString "octocat");
  ("repository", VString "octo/app"); ("repository_id", VString "5"); ("repository_owner_id", VString "10");
  ("sha", VString sample_sha); ("run_id", VString "99"); ("run_attempt", VString "1");
  ("workflow_ref", VString (workflow_ref sample_claims)); ("workflow_sha", VString sample_sha);
  ("job_workflow_ref", VString (job_workflow_ref sample_claims)); ("job_workflow_sha", VString sample_sha);
  ("event_name", VString "push"); ("ref", VString "refs/heads/main")].
Definition sample_tokens : gmap string Token :=
  {["assertion" := {| signed_by := "github-key";
                      token_header := {| alg := RS256; typ := Some "JWT"; kid := Some "gh1" |};
                      token_claims := sample_claims_value |}]}.
#[local] Instance exchange_jwt : Jwt := concrete_jwt sample_tokens.
#[local] Instance exchange_serde : SerdeJson := concrete_serde ∅.
#[local] Instance exchange_ledger : ReplayLedger := kubernetes_ledger sample_ledger.
#[local] Instance exchange_lease_ledger : LeaseLedger exchange_ledger := kubernetes_lease_ledger sample_ledger.

Definition sample_service : ExchangeService := {|
  verifier := {| Github.audience := "exchange"; Github.jwks_url := Github.JWKS_URL;
                 Github.max_staleness := (21600 * ns_per_s)%Z |};
  policy := Policy.sample_policy_v6;
  service_keys := {| current_kid := "k1"; current_not_before := 0%Z;
                     current_not_after := (1800000000 * ns_per_s)%Z; readiness_threshold := 0%Z;
                     ring_keys := {["k1" := bytes_of sample_seed]} |};
  issuer := "https://exchange.example"; output_audience := "steward"; token_ttl := (300 * ns_per_s)%Z |}.
Definition exchange_world : World :=
  let w := world_at 1700000000 {["/token" := "secret"]} in
  set_cells w {| keys := {["gh1" := "github-key"]}; fetched_at := 1699999000 |}
    (github_refresh w) (oidc_caches w) (oidc_refreshes w) (continue_cell w) (readiness_cell w).
Definition exchange_trace : trace_io := run_trace handle (exchange sample_service "assertion") exchange_world.
Definition issued_token : string :=
  match (run handle (exchange sample_service "assertion") exchange_world).1 with Ok t => t | Err _ => "" end.

Lemma exchange_run : runs (exchange sample_service "assertion") exchange_trace (Ok issued_token).
Proof. apply run_trace_runs. by vm_compute. Qed.

Lemma exchange_issues_witness : issued_by_contract sample_service exchange_trace "assertion" issued_token.
Proof.
  pose proof (concrete_jwt_laws sample_tokens) as Hlaws.
  apply (exchange_issues sample_service "assertion" exchange_trace issued_token exchange_run).
Defined.

Lemma exchange_accounting_witness :
  exists o, outcome_of (Ok issued_token) o
  /\ total (Count GithubExchange o) exchange_trace = 1%Z.
Proof.
  pose proof (concrete_jwt_laws sample_tokens) as Hlaws.
  destruct (exchange_accounting sample_service "assertion" exchange_trace (Ok issued_token) exchange_run)
    as [(o & Ho & Hc) _].
  exists o. split; [exact Ho|]. rewrite (Hc (Count GithubExchange o)); [|done..].
  rewrite decide_True; [done|by right].
Defined.

Lemma output_claims_fields_witness :
  exists identity, Policy.authorize Policy.sample_policy_v6 sample_claims = Ok identity
  /\ get_field (output_claims_value (output_claims sample_service sample_claims identity 1700000000 "u")) "exp"
     = Some (VNumber (PosInt 1700000300)).
Proof.
  destruct (Policy.authorize Policy.sample_policy_v6 sample_claims) as [identity|] eqn:Ha; [|by vm_compute in Ha].
  exists identity. split; [done|].
  destruct (output_claims_fields sample_service sample_claims identity 1700000000 "u" Ha)
    as (_ & _ & _ & _ & _ & _ & He & _); [done|by vm_compute|split; by vm_compute|]. exact He.
Defined.

Lemma observe_duration_spec_witness :
  total (DurationBucket 2) (run_trace handle (observe_duration 30000000) exchange_world) = 1%Z.
Proof.
  destruct (observe_duration_spec 30000000 (run_trace handle (observe_duration 30000000) exchange_world))
    as (_ & _ & Hb & _); [by apply run_trace_runs; vm_compute|]. rewrite Hb. by vm_compute.
Defined.

(** ** A concrete verification *)
Definition sample_cache : KeyCache := {| keys := {["gh1" := "github-key" : DecodingKey]}; fetched_at := 1699999000 |}.
Lemma verify_warm_witness :
  runs (Github.verify (verifier sample_service) "assertion")
    [Obs (Load GithubCache) sample_cache; Obs UtcNow (1700000000 * ns_per_s)%Z;
     Obs CurrentTimestamp 1700000000%Z; Obs UtcNow (1700000000 * ns_per_s)%Z] (Ok sample_claims).
Proof.
  assert ((decode "assertion" "github-key" (Github.validation (verifier sample_service)) 1700000000
             ≫= github_claims_deserialize) = Some sample_claims) as Hd by by vm_compute.
  pose proof (Github.verify_warm (verifier sample_service) "assertion"
           {| alg := RS256; typ := Some "JWT"; kid := Some "gh1" |} "gh1" "github-key" sample_cache
           (1700000000 * ns_per_s)%Z 1700000000%Z (1700000000 * ns_per_s)%Z (Ok sample_claims)) as Hw.
  cbv zeta in Hw. rewrite Hd in Hw. apply Hw;
    [split; [apply Nat.ltb_lt|apply Nat.leb_le]; by vm_compute|by vm_compute|done|done|done
    |by vm_compute|by vm_compute|left; split; [apply sample_accepted|done]].

Defined.

(** An unknown key ID: one request, which fails here. *)
Definition forced_trace : trace_io :=
  run_trace handle (Github.refresh_for_unknown_kid_if_due (verifier sample_service) "other") exchange_world.
Lemma forced_refresh_limited_witness :
  exists refresh now cache t', forced_trace
    = [Obs (Acquire GithubRefresh) (); Obs (Load GithubRefreshState) refresh; Obs UtcNow now;
       Obs (Load GithubCache) cache] ++ t' ++ [Obs (Release GithubRefresh) ()].
Proof.
  destruct (run handle (Github.refresh_for_unknown_kid_if_due (verifier sample_service) "other") exchange_world)
    as [r w] eqn:Hr.
  destruct (Github.forced_refresh_limited (verifier sample_service) "other" forced_trace r)
    as (refresh & now & cache & t' & Ht & _); [|by exists refresh, now, cache, t'].
  apply run_trace_runs. by rewrite Hr.
Defined.

Lemma cache_is_usable_spec_witness :
  Github.cache_is_usable sample_cache 1700000000 (21600 * ns_per_s) = true
  <-> keys sample_cache <> ∅ /\ (0 < fetched_at sample_cache)%Z
      /\ (1700000000 - fetched_at sample_cache <= as_secs (21600 * ns_per_s))%Z.
Proof. apply Github.cache_is_usable_spec; split; by vm_compute. Defined.
