(* ===== verification/Availability.v ===== *)
(** * A healthy replica answers

    The GitHub exchange against the in-memory environment of [Simulator], when the
    key cache is usable and the Lease API serves.  The exchange then decides every
    assertion: with a token when it is genuine, authorized and unspent and the token
    can be signed, and with a refusal when it is not. *)
From S2P Require Import Prelude Text Prog Libs State Constants GithubClaims Concrete Replay Simulator ReplaySafety LedgerRefinement Keys Exchange Service.
From S2P Require Policy Github.

(** ** Verdicts *)
(** A request is granted a token, refused, or cannot be served. *)
Inductive verdict := Granted | Refused | Unserved.
#[export] Instance verdict_eq_dec : EqDecision verdict.
Proof. solve_decision. Defined.
(** The identifier the environment of [Simulator] gives every token. *)
Definition simulated_uuid : string := "00000000-0000-4000-8000-000000000000".
(** A grant comes to be signed: it cannot be served when that fails. *)
Definition sign_verdict (signed : result KeyError string) : verdict := if is_ok signed then Granted else Unserved.
Definition then_sign (d : verdict * gset string) (signed : result KeyError string) : verdict * gset string :=
  match d.1 with Granted => (sign_verdict signed, d.2) | _ => d end.
Lemma then_sign_unserved d signed : (then_sign d signed).1 = Unserved -> d.1 = Unserved \/ is_ok signed = false.
Proof.
  unfold then_sign, sign_verdict. destruct d as [[] s]; cbn; [|done|by left]. destruct (is_ok _); [done|by right].
Qed.

(** ** What programs leave alone *)
Section frame.
Context `{jwt : Jwt}.
(** The clock never moves, and what the ledger depends on moves only by writes of
    Leases. *)
Record same_store (w w' : World) : Prop := {
  same_clock : clock w' = clock w;
  same_leases : leases w' = leases w;
  same_files : files w' = files w;
  same_api : api_up w' = api_up w;
  same_next : next_version w' = next_version w;
}.
#[export] Instance same_store_preorder : PreOrder same_store.
Proof. split; [by split|]. intros w1 w2 w3 [] []. split; congruence. Qed.
Lemma handle_clock {X} (e : event X) w : clock (handle X e w).2 = clock w.
Proof. destruct e; cbn; repeat (case_match; cbn); try done; by destruct c. Qed.
Lemma handle_same {X} (e : event X) w : lease_write e = false -> same_store w (handle X e w).2.
Proof. intros He. destruct e; try discriminate He; cbn; repeat (case_match; cbn); try (by split); destruct c; by split. Qed.

Lemma run_clock {A} (p : io A) w : clock (run handle p w).2 = clock w.
Proof.
  revert w. induction p as [a|X e k IH]; intros w; [done|]. cbn.
  pose proof (handle_clock e w). destruct (handle X e w) as [x w']. by rewrite IH.
Qed.
Definition writes_nothing {A} (p : io A) : Prop := forall h, wp (fun _ _ e => lease_write e = false) p h (fun _ _ => True).
Lemma run_same {A} (p : io A) h w :
  wp (fun _ _ e => lease_write e = false) p h (fun _ _ => True) -> same_store w (run handle p w).2.
Proof.
  revert h w. induction p as [a|X e k IH]; intros h w Hp; [by split|]. destruct Hp as [He Hk]. cbn.
  pose proof (handle_same e w He) as Hs. destruct (handle X e w) as [x w']. cbn in Hs. etrans; [exact Hs|]. eapply IH, Hk.
Qed.
Lemma run_same_to {A} (p : io A) w a w' : writes_nothing p -> run handle p w = (a, w') -> same_store w w'.
Proof. intros Hp Hr. pose proof (run_same p [] w (Hp [])) as H. by rewrite Hr in H. Qed.
Lemma run_timed {A} (body : io A) w a w1 :
  run handle body w = (a, w1) -> exists w2, run handle (timed body) w = (a, w2) /\ same_store w1 w2.
Proof.
  intros Hr. unfold timed. rewrite (run_bind_to handle (trigger InstantNow) _ w (clock w) w eq_refl).
  rewrite (run_bind_to _ _ _ _ _ _ Hr).
  rewrite (run_bind_to handle (trigger InstantNow) _ w1 (clock w1) w1 eq_refl).
  destruct (run handle (observe_duration (elapsed (clock w1) (clock w))) w1) as [[] w2] eqn:Ho.
  rewrite (run_bind_to _ _ _ _ _ _ Ho). exists w2. split; [done|].
  eapply run_same_to; [|exact Ho]. intros h. do 2 (split; [done|]; intros ?).
  eapply wp_mono; [by apply wp_observe_buckets|done].
Qed.
End frame.

(** ** The exchange *)
Section availability.
Context `{jwt : Jwt, !JwtLaws, serde : SerdeJson, chrono : Chrono, !ChronoLaws, !ChronoRange}.
Context `{b64 : Base64, p256 : P256, sha : Sha2, url : UrlLib}.
Context (self : ExchangeService) (ledger : KubernetesLeaseReplayLedger).
Implicit Types w : World.

(** The claims of a genuine assertion, by the keys of the cache. *)
Definition vouched w (assertion : string) : option GitHubClaims :=
  if is_empty assertion || bool_decide (Github.MAX_ASSERTION_BYTES < len assertion) then None else
  header ← decode_header assertion;
  if bool_decide (alg header <> RS256) || bool_decide (typ header <> Some "JWT") then None else
  kid ← kid header;
  key ← keys (github_cache w) !! kid;
  claims ← decode assertion key (Github.validation (verifier self)) (clock w / ns_per_s) ≫= github_claims_deserialize;
  result_ok (Github.judge (verifier self) (timestamp_of (clock w)) claims).
(** The signature of the claims of an identity. *)
Definition exchange_signed w (claims : GitHubClaims) (identity : Policy.Identity) : result KeyError string :=
  sign_at (service_keys self) (output_claims_value (output_claims self claims identity (clock w / ns_per_s) simulated_uuid)) (clock w).
(** What becomes of an assertion, and the names that are spent afterwards. *)
Definition decide_exchange w (assertion : string) : verdict * gset string :=
  let before := spent w (clock w) in
  match vouched w assertion with
  | None => (Refused, before)
  | Some claims =>
      match Policy.authorize (policy self) claims with
      | Err _ => (Refused, before)
      | Ok allowed =>
          let '(r, after) := abstract_use (lease_name (jti claims)) before in
          then_sign (if is_ok r then Granted else Refused, after) (exchange_signed w claims allowed)
      end
  end.
Definition exchange_verdict (r : result ExchangeError string) : verdict :=
  match r with Ok _ => Granted | Err ExchangeUnauthorized => Refused | Err ExchangeUnavailable => Unserved end.

(** The ledger, the key cache and the clock of a healthy machine. *)
Record available w : Prop := {
  available_ledger : serving ledger w;
  available_cache :
    Github.cache_is_usable (github_cache w) (timestamp_of (clock w)) (Github.max_staleness (verifier self)) = true;
  available_clock : (0 <= clock w < 253402290000 * ns_per_s)%Z;
}.
(** The key an assertion names is cached: another one would first be fetched. *)
Definition key_cached w (assertion : string) : Prop :=
  forall header k, decode_header assertion = Some header -> kid header = Some k -> is_Some (keys (github_cache w) !! k).

Local Ltac option_step :=
  match goal with |- context [mbind (M := option) ?f (Some ?x)] => change (mbind (M := option) f (Some x)) with (f x); cbn beta end.
Lemma run_verify w assertion : available w -> key_cached w assertion ->
  run handle (Github.verify (verifier self) assertion) w =
    (match vouched w assertion with Some claims => Ok claims | None => Err Github.InvalidAssertion end, w).
Proof.
  intros Ha Hk. unfold Github.verify, vouched. destruct (_ || _); [done|].
  destruct (decode_header assertion) as [header|] eqn:Hh; [|done].
  rewrite run_try_some. option_step.
  destruct (_ || _); [done|]. destruct (kid header) as [k|] eqn:Hkid; [|done].
  rewrite run_try_some. option_step.
  destruct (Hk header k Hh Hkid) as [dk Hdk]. rewrite Hdk. option_step.
  assert (run handle (Github.key (verifier self) k) w = (Ok dk, w)) as Hkey.
  { unfold Github.key. cbn -[Github.refresh_for_unknown_kid_if_due]. by rewrite (available_cache w Ha), Hdk. }
  rewrite (run_try_to _ _ _ _ _ _ Hkey).
  rewrite (run_bind_to handle get_current_timestamp _ w (clock w / ns_per_s)%Z w eq_refl).
  destruct (decode _ _ _ _ ≫= _) as [claims|] eqn:Hd; [|done].
  rewrite run_try_some. option_step.
  rewrite (run_bind_to handle Github.unix_now _ w (timestamp_of (clock w)) w eq_refl).
  unfold Github.judge. destruct (i64_checked_sub _ _) as [lifetime|]; [|done].
  rewrite run_try_some. cbn.
  by destruct (claims_rejected _ _ _ _).
Qed.
(** The bounds fit: the retention of a genuine assertion is within that of a record. *)
Lemma vouched_recordable w assertion claims : available w -> vouched w assertion = Some claims ->
  exists ret, retained_until (exp claims) (timestamp_of (clock w)) = Ok ret.
Proof.
  intros Ha. unfold vouched. destruct (_ || _); [done|].
  intros (header & _ & Hv)%bind_Some. destruct (_ || _); [done|].
  apply bind_Some in Hv as (k & _ & (dk & _ & (c & (v & Hd & Hc)%bind_Some & Hj)%bind_Some)%bind_Some).
  destruct (Github.judge _ _ c) as [c'|] eqn:Hjudge; [|done]. injection Hj as ->.
  apply Github.judge_ok in Hjudge as [<- Hacc]. pose proof (available_clock w Ha) as Hclock.
  pose proof (decode_exp _ _ _ _ _ _ Hd (Github.deserialize_exp _ _ Hc)) as Hexp. cbn in Hexp.
  pose proof (accepted_lifetime _ _ _ Hacc). pose proof (accepted_iat _ _ _ Hacc) as Hiat.
  rewrite timestamp_of_spec in *. unfold ns_per_s in *.
  assert (0 <= clock w / 1000000000 < 253402290000)%Z as Hnow.
  { split; [apply Z.div_pos; lia|apply Z.div_lt_upper_bound; lia]. }
  unfold i64_add in Hiat. rewrite wrap_i64_id in Hiat by (unfold is_i64, i64_min, i64_max; lia).
  apply retained_until_total; lia.
Qed.

(** Signing, and what follows it. *)
Lemma run_issue w w0 claims identity : clock w0 = clock w ->
  exists r w1, run handle (issue self claims identity) w0 = (r, w1) /\ same_store w0 w1
    /\ exchange_verdict r = sign_verdict (exchange_signed w claims identity).
Proof.
  intros Hc. destruct (run handle (issue self claims identity) w0) as [r w1] eqn:Hr. exists r, w1. split; [done|]. split.
  { eapply run_same_to; [|exact Hr]. intros h. cbn. do 3 (split; [done|]; intros ?).
    by destruct (sign_at _ _ _); cbn; do 2 (split; [done|]; intros ?). }
  unfold issue in Hr. cbn -[sign_at output_claims_value] in Hr. rewrite Hc in Hr.
  unfold exchange_signed. unfold simulated_uuid. destruct (sign_at _ _ _); by injection Hr as <- <-.
Qed.

Lemma same_spent w w' now : same_store w w' -> spent w' now = spent w now.
Proof. intros Hs. unfold spent. by rewrite (same_leases _ _ Hs). Qed.
Lemma same_serving w w' : same_store w w' -> serving ledger w -> serving ledger w'.
Proof.
  intros [_ Hl Hf Ha Hn] [? ? ? ? ?]. split; rewrite ?Hl, ?Hf, ?Ha, ?Hn; done.
Qed.
(** What an exchange answers and leaves: as the decision says. *)
Definition decided w (d : verdict * gset string) (r : result ExchangeError string) w' : Prop :=
  serving ledger w' /\ d = (exchange_verdict r, spent w' (clock w)).
Lemma decided_same w d r w1 w2 : same_store w1 w2 -> decided w d r w1 -> decided w d r w2.
Proof.
  intros Hs (Hl & ->). split; [by eapply same_serving|]. by rewrite (same_spent w1 w2).
Qed.
(** A refusal that is only counted and logged. *)
Lemma run_refusal w w0 (p : io (result ExchangeError string)) :
  serving ledger w0 -> writes_nothing p -> (run handle p w0).1 = Err ExchangeUnauthorized ->
  exists w1, run handle p w0 = (Err ExchangeUnauthorized, w1) /\ decided w (Refused, spent w0 (clock w)) (Err ExchangeUnauthorized) w1.
Proof.
  intros Hs Hp Hr. destruct (run handle p w0) as [r w1] eqn:Hrun. cbn in Hr. subst r. exists w1. split; [done|].
  pose proof (run_same_to _ _ _ _ Hp Hrun) as Hsame.
  split; [by eapply same_serving|]. by rewrite (same_spent w0 w1).
Qed.
#[local] Instance availability_ledger : ReplayLedger := kubernetes_ledger ledger.
Lemma run_redeem w assertion claims : available w -> vouched w assertion = Some claims ->
  exists r w', run handle (redeem self claims) w = (r, w') /\ decided w (decide_exchange w assertion) r w'.
Proof.
  intros Ha Hv. unfold decide_exchange. rewrite Hv. unfold redeem.
  pose proof (available_ledger w Ha) as Hs.
  destruct (Policy.authorize (policy self) claims) as [identity|e] eqn:Hauth; cbn [is_ok].
  2:{ destruct (run_refusal w w (_ ← deny claims "identity is not authorized"; mret (Err ExchangeUnauthorized)))
        as (w' & Hr & Hd); [done| |done|by exists (Err ExchangeUnauthorized), w'].
      intros h. cbn. by do 2 (split; [done|]; intros ?). }
  destruct (vouched_recordable w assertion claims Ha Hv) as [ret Hret].
  destruct (run_use_once ledger w (jti claims) (exp claims) ret Hs Hret) as (r & w1 & Hr & Hs1 & Hab).
  rewrite Hab. change (ledger_use_once (jti claims) (exp claims)) with (use_once ledger (jti claims) (exp claims)).
  rewrite (run_bind_to _ _ _ _ _ _ Hr).
  assert (clock w1 = clock w) as Hclock by (pose proof (run_clock (use_once ledger (jti claims) (exp claims)) w) as Hcl; by rewrite Hr in Hcl).
  destruct r as [[]|[| |detail]]; unfold abstract_use in Hab; case_decide; simplify_eq.
  - destruct (run_issue w w1 claims identity Hclock) as (r & w2 & Hr2 & Hs2 & Hv2). exists r, w2. split; [done|].
    split; [by eapply same_serving|]. cbn. by rewrite (same_spent w1 w2), Hv2.
  - destruct (run_refusal w w1 (_ ← count GithubExchange State.Replayed; _ ← audit "exchange_replayed" claims "replay" None;
        mret (Err ExchangeUnauthorized)))
        as (w' & Hr' & Hd); [done| |done|by exists (Err ExchangeUnauthorized), w'].
    intros h. cbn. by do 2 (split; [done|]; intros ?).
Qed.

(** The whole exchange. *)
Lemma run_exchange w assertion :
  available w -> key_cached w assertion ->
  exists r w', run handle (exchange self assertion) w = (r, w') /\ decided w (decide_exchange w assertion) r w'.
Proof.
  intros Ha Hk. unfold exchange.
  set (w0 := set_counts w (Count GithubExchange Requests) (wrap_u64 (counts w (Count GithubExchange Requests) + 1))).
  rewrite (run_bind_to handle (count GithubExchange Requests) _ w () w0 eq_refl).
  assert (available w0) as Ha0 by (split; [by apply (same_serving w), Ha|apply Ha..]).
  pose proof (run_verify w0 assertion Ha0 Hk) as Hv.
  assert (exists r w1, run handle (verified ← Github.verify (verifier self) assertion;
    match verified with
    | Err Github.InvalidAssertion => _ ← deny default_claims "assertion is invalid"; mret (Err ExchangeUnauthorized)
    | Err error => _ ← fail default_claims (Github.verify_error_text error) None; mret (Err ExchangeUnavailable)
    | Ok claims => redeem self claims
    end) w0 = (r, w1) /\ decided w0 (decide_exchange w0 assertion) r w1) as (r & w1 & Hr & Hd).
  { rewrite (run_bind_to _ _ _ _ _ _ Hv). destruct (vouched w0 assertion) as [claims|] eqn:Hc.
    - by apply run_redeem.
    - unfold decide_exchange. rewrite Hc.
      destruct (run_refusal w0 w0 (_ ← deny default_claims "assertion is invalid"; mret (Err ExchangeUnauthorized)))
        as (w' & Hr & Hd); [apply Ha0| |done|by exists (Err ExchangeUnauthorized), w'].
      intros h. cbn. by do 2 (split; [done|]; intros ?). }
  destruct (run_timed _ _ _ _ Hr) as (w2 & Hr2 & Hs2). exists r, w2. split; [exact Hr2|].
  by apply (decided_same w0 (decide_exchange w0 assertion) r w1 w2).
Qed.

(** The token an assertion would be granted cannot be signed. *)
Definition exchange_unsigned w (assertion : string) : Prop := exists claims identity,
  vouched w assertion = Some claims /\ Policy.authorize (policy self) claims = Ok identity
  /\ is_ok (exchange_signed w claims identity) = false.
Lemma exchange_unserved w assertion : (decide_exchange w assertion).1 = Unserved -> exchange_unsigned w assertion.
Proof.
  unfold decide_exchange, exchange_unsigned. destruct (vouched w assertion) as [claims|]; [|done].
  destruct (Policy.authorize _ claims) as [identity|] eqn:Ha; [|done]. unfold abstract_use.
  destruct (decide _); intros [Hd|Hs]%then_sign_unserved; try discriminate Hd; by exists claims, identity.
Qed.

(** A healthy replica decides every assertion.  When its ledger and its key cache are
    in order, the exchange answers with a token exactly when the assertion is genuine,
    the policy authorizes it, its record is unspent and the token can be signed; it
    then spends the record, and every other assertion is refused and spends nothing.
    It answers that it is unavailable only if the signature of its token fails: in particular the
    retention of every genuine assertion fits in a record. *)
Theorem exchange_decides w assertion :
  available w -> key_cached w assertion ->
  exists r w', run handle (exchange self assertion) w = (r, w')
    /\ serving ledger w'
    /\ decide_exchange w assertion = (exchange_verdict r, spent w' (clock w))
    /\ (r = Err ExchangeUnavailable -> exchange_unsigned w assertion).
Proof.
  intros Ha Hk. destruct (run_exchange w assertion Ha Hk) as (r & w' & Hr & Hs & Hd). exists r, w'.
  split_and!; try done. intros ->. apply (exchange_unserved w assertion). by rewrite Hd.
Qed.
End availability.

(** ** The sample exchange *)
#[local] Instance available_jwt : Jwt := concrete_jwt sample_tokens.
#[local] Instance available_serde : SerdeJson := concrete_serde ∅.
Lemma exchange_decides_witness :
  exists r w', run handle (exchange (L := kubernetes_ledger sample_ledger) sample_service "assertion") exchange_world = (r, w')
    /\ serving sample_ledger w'
    /\ decide_exchange sample_service exchange_world "assertion" = (exchange_verdict r, spent w' (clock exchange_world))
    /\ (r = Err ExchangeUnavailable -> exchange_unsigned sample_service exchange_world "assertion").
Proof.
  pose proof (concrete_jwt_laws sample_tokens) as Hlaws.
  apply (exchange_decides sample_service sample_ledger).
  - split; [by apply sample_serving|by vm_compute|split; [apply Z.leb_le|apply Z.ltb_lt]; by vm_compute].
  - intros header k Hh Hk. vm_compute in Hh. injection Hh as <-. vm_compute in Hk. injection Hk as <-. by eexists.
Defined.
(** It is granted, and a second one is refused. *)
Example exchange_twice :
  let '(r1, w1) := run handle (exchange (L := kubernetes_ledger sample_ledger) sample_service "assertion") exchange_world in
  let '(r2, _) := run handle (exchange (L := kubernetes_ledger sample_ledger) sample_service "assertion") w1 in
  is_ok r1 = true /\ r2 = Err ExchangeUnauthorized.
Proof. by vm_compute. Qed.
