(* ===== verification/RefreshLimit.v ===== *)
(** * Concurrent refreshes of the GitHub key cache

    The requests of a replica and its background task share the refresh state,
    which a mutex protects.  [RefreshServer] is what the mutex and the cell
    promise; [guarded] is the discipline of a task, by which what it stores follows
    from what it loaded since it took the mutex.  Then, whatever the interleaving,
    however many key IDs are unknown and whichever clients leave before they are
    answered, the requests to the key endpoint are limited by the clock alone. *)
From S2P Require Import Prelude Text Prog Libs State Constants GithubClaims Concrete Replay Simulator ReplaySafety LedgerRefinement Keys Exchange Service Availability.
From S2P Require Policy Github.

(** ** The mutex and what it protects *)
Section interface.
Context `{jwt : Jwt}.
Class RefreshServer (S : Type) (serve : forall X, event X -> S -> X -> S -> Prop) := {
  locked : S -> bool;
  refresh_state : S -> RefreshState;
  serve_acquire s x s' : serve _ (Acquire GithubRefresh) s x s' ->
    locked s = false /\ locked s' = true /\ refresh_state s' = refresh_state s;
  serve_release s x s' : serve _ (Release GithubRefresh) s x s' ->
    locked s' = false /\ refresh_state s' = refresh_state s;
  serve_load s x s' : serve _ (Load GithubRefreshState) s x s' ->
    x = refresh_state s /\ locked s' = locked s /\ refresh_state s' = refresh_state s;
  serve_store rs s x s' : serve _ (Store GithubRefreshState rs) s x s' ->
    locked s' = locked s /\ refresh_state s' = rs;
  serve_fetch url s x s' : serve _ (JwksGet url) s x s' -> locked s' = locked s /\ refresh_state s' = refresh_state s;
  serve_unrelated X (e : event X) s x s' : serve X e s x s' -> refresh_event e = false ->
    locked s' = locked s /\ refresh_state s' = refresh_state s;
}.
End interface.

(** ** The discipline of a task *)
Section discipline.
Context `{jwt : Jwt, chrono : Chrono}.

(** What a task that holds the mutex knows of the state, and whether an attempt it
    has recorded still entitles it to a request. *)
Record hold := { known : option RefreshState; due : bool }.
Definition times (rs : RefreshState) : Z * Z := (last_soft_attempt rs, last_forced_attempt rs).
Definition observe (v : option hold) (o : obs_io) : option hold :=
  match o with
  | Obs e x =>
      match e in event X return X -> option hold with
      | Acquire GithubRefresh => fun _ => Some {| known := None; due := false |}
      | Release GithubRefresh => fun _ => None
      | Load c =>
          match c in cell X return X -> option hold with
          | GithubRefreshState => fun rs => (fun v => {| known := Some rs; due := due v |}) <$> v
          | _ => fun _ => v
          end
      | Store c rs' => fun _ =>
          match c in cell X return X -> option hold with
          | GithubRefreshState => fun rs' =>
              (fun v => {| known := Some rs';
                           due := due v || bool_decide (times <$> known v <> Some (times rs')) |}) <$> v
          | _ => fun _ => v
          end rs'
      | JwksGet _ => fun _ => (fun v => {| known := known v; due := false |}) <$> v
      | _ => fun _ => v
      end x
  end.
Definition view (h : trace_io) : option hold := foldl observe None h.

(** The changes of the state: an attempt at a time that was read and is not within
    the retry interval of the last one of its kind, or a verdict on an attempt. *)
Inductive change (h : trace_io) (rs : RefreshState) : RefreshState -> Prop :=
| soft_attempt now : has_read h now ->
    Github.attempted_recently (last_soft_attempt rs) (timestamp_of now) = false ->
    change h rs {| last_soft_attempt := timestamp_of now; last_forced_attempt := last_forced_attempt rs;
                   last_forced_failed := last_forced_failed rs |}
| forced_attempt now : has_read h now ->
    Github.attempted_recently (last_forced_attempt rs) (timestamp_of now) = false ->
    change h rs {| last_soft_attempt := last_soft_attempt rs; last_forced_attempt := timestamp_of now;
                   last_forced_failed := last_forced_failed rs |}
| verdict failed :
    change h rs {| last_soft_attempt := last_soft_attempt rs; last_forced_attempt := last_forced_attempt rs;
                   last_forced_failed := failed |}.
(** A clock before the epoch was read: nothing is promised then. *)
Definition before_epoch (h : trace_io) : Prop := exists now, has_read h now /\ (timestamp_of now <= 0)%Z.

Definition guarded (h : trace_io) (X : Type) (e : event X) : Prop :=
  match e with
  | Acquire GithubRefresh => view h = None
  | Release GithubRefresh => is_Some (view h)
  | Store c x =>
      match c in cell X return X -> Prop with
      | GithubRefreshState => fun rs' => exists rs d, view h = Some {| known := Some rs; due := d |} /\ change h rs rs'
      | _ => fun _ => True
      end x
  | JwksGet _ => exists k d, view h = Some {| known := k; due := d |} /\ (d = true \/ before_epoch h)
  | _ => True
  end.

Lemma view_snoc h (X : Type) (e : event X) (x : X) : view (h ++ [Obs e x]) = observe (view h) (Obs e x).
Proof. unfold view. by rewrite foldl_app. Qed.
Lemma observe_other v X (e : event X) x : refresh_event e = false -> observe v (Obs e x) = v.
Proof. by destruct e; repeat (done || case_match || match goal with c : cell _ |- _ => destruct c | m : mutex |- _ => destruct m end). Qed.
Lemma guarded_other h X (e : event X) : refresh_event e = false -> guarded h X e.
Proof. by destruct e; repeat (done || case_match || match goal with c : cell _ |- _ => destruct c | m : mutex |- _ => destruct m end). Qed.

(** A program that has nothing to do with the refreshes. *)
Definition unrelated {A} : io A -> Prop := only (fun _ e => refresh_event e = false).
Lemma wp_unrelated {A} (p : io A) h : unrelated p -> wp guarded p h (fun _ h' => view h' = view h).
Proof.
  intros Hp. specialize (Hp h). revert h Hp. induction p as [a|X e k IH]; intros h; [done|].
  intros [He Hk]. split; [by apply guarded_other|]. intros x. eapply wp_mono; [apply IH, Hk|].
  intros a h' _ ->. by rewrite view_snoc, observe_other.
Qed.
End discipline.

(** ** The operations of the verifier obey it *)
Section operations.
Context `{jwt : Jwt, chrono : Chrono}.
Context (self : Github.GitHubVerifier).

(** Holding the mutex with what is known of the state. *)
Definition holding (k : option RefreshState) (h : trace_io) : Prop := exists d, view h = Some {| known := k; due := d |}.
Definition entitled (k : option RefreshState) (h : trace_io) : Prop :=
  exists d, view h = Some {| known := k; due := d |} /\ (d = true \/ before_epoch h).

Lemma wp_frame {A} (p : io A) h v : unrelated p -> view h = v -> wp guarded p h (fun _ h' => view h' = v).
Proof. intros Hp <-. by apply wp_unrelated. Qed.

Lemma unrelated_failure error : unrelated (Github.record_refresh_failure error).
Proof. intros h. cbn. by repeat (split; [done|]; intros ?). Qed.
Lemma guarded_refresh_now k h : entitled k h -> wp guarded (Github.refresh_now self) h (fun _ => holding k).
Proof.
  intros (d & Hv & Hd). split; [by exists k, d|]. intros response.
  assert (holding k (h ++ [Obs (JwksGet (Github.jwks_url self)) response])) as Hh.
  { exists false. by rewrite view_snoc, Hv. }
  destruct response as [response|e]; cbn; [|done].
  destruct (status_error response); cbn; [done|]. destruct (jwks_body response); cbn; [|done].
  case_bool_decide; [done|]. destruct Hh as [d' Hh].
  split; [done|]. intros now. split; [done|]. intros []. exists d'. by rewrite 2!view_snoc, Hh.
Qed.
Lemma guarded_run_refresh k h : entitled k h -> wp guarded (Github.run_refresh self) h (fun _ => holding k).
Proof.
  intros Hh. eapply wp_call; [by apply guarded_refresh_now|]. intros [[]|e] h1 _ Hh1; [done|].
  destruct Hh1 as [d Hh1]. eapply wp_call; [by apply wp_frame, Hh1; apply unrelated_failure|].
  intros [] h2 _ Hh2. by exists d.
Qed.

(** An attempt entitles to a request. *)
Lemma attempt_entitled h rs rs' (x : ()) now :
  view h = Some {| known := Some rs; due := false |} -> has_read h now ->
  (times rs = times rs' -> Github.attempted_recently (timestamp_of now) (timestamp_of now) = false) ->
  entitled (Some rs') (h ++ [Obs (Store GithubRefreshState rs') x]).
Proof.
  intros Hv Hr Ht. eexists. split; [by rewrite view_snoc, Hv|]. cbn.
  destruct (decide (times rs = times rs')) as [He|He]; [|left; rewrite bool_decide_true; [done|congruence]].
  right. exists now. split; [by eapply has_read_prefix, Hr; apply prefix_app_r|].
  specialize (Ht He). unfold Github.attempted_recently, i64_saturating_sub in Ht.
  apply andb_false_iff in Ht as [Hp|Hp]; apply bool_decide_eq_false in Hp; [lia|].
  unfold Github.JWKS_REFRESH_RETRY_SECONDS, i64_min, i64_max in Hp. lia.
Qed.
Lemma has_read_snoc h now : has_read (h ++ [Obs UtcNow now]) now.
Proof. exists (Obs UtcNow now). split; [|done]. apply elem_of_app. right. by apply list_elem_of_singleton. Qed.
Lemma has_read_more h (X : Type) (e : event X) x now : has_read h now -> has_read (h ++ [Obs e x]) now.
Proof. apply has_read_prefix. by apply prefix_app_r. Qed.
Hint Resolve has_read_snoc has_read_more : core.

Lemma guarded_release {A} h k (a : A) : holding k h ->
  wp guarded (_ ← trigger (Release GithubRefresh); mret a) h (fun _ h' => view h' = None).
Proof. intros [d Hd]. split; [by eexists|]. intros []. cbn. by rewrite view_snoc. Qed.

Lemma guarded_forced kid h : view h = None ->
  wp guarded (Github.refresh_for_unknown_kid_if_due self kid) h (fun _ h' => view h' = None).
Proof.
  intros Hv. unfold Github.refresh_for_unknown_kid_if_due, with_lock. cbn -[Github.run_refresh guarded view].
  split; [done|]. intros []. split; [done|]. intros rs. split; [done|]. intros now. split; [done|]. intros cache.
  set (h1 := ((_ ++ _) ++ _) ++ _).
  assert (view h1 = Some {| known := Some rs; due := false |}) as Hv1 by (unfold h1; by rewrite !view_snoc, Hv).
  assert (has_read h1 now) as Hr by (unfold h1; auto).
  case_bool_decide; [by apply (guarded_release _ (Some rs)); exists false|].
  destruct (Github.attempted_recently _ _) eqn:Ha; [by apply (guarded_release _ (Some rs)); exists false|].
  split; [exists rs, false; split; [done|by apply forced_attempt]|]. intros u.
  change (wp guarded ((result ← Github.run_refresh self;
      _ ← trigger (Store GithubRefreshState {| last_soft_attempt := last_soft_attempt rs;
            last_forced_attempt := timestamp_of now; last_forced_failed := is_err result |}); mret result)
    ≫= fun a => _ ← trigger (Release GithubRefresh); mret a) (h1 ++ [Obs (Store GithubRefreshState
      {| last_soft_attempt := last_soft_attempt rs; last_forced_attempt := timestamp_of now;
         last_forced_failed := last_forced_failed rs |}) u]) (fun _ h' => view h' = None)).
  eapply wp_call; [eapply wp_call; [apply guarded_run_refresh|]|].
  - apply (attempt_entitled _ rs _ _ now Hv1 Hr). intros [= He]. by rewrite He in Ha.
  - intros r h2 _ [d Hd]. split; [eexists _, d; split; [exact Hd|]; exact (verdict _ (Build_RefreshState (last_soft_attempt rs) (timestamp_of now) (last_forced_failed rs)) (is_err r))|].
    intros x. instantiate (1 := fun _ h' => exists k, holding k h'). eexists _, _. by rewrite view_snoc, Hd.
  - intros r h2 _ [k Hk]. by apply (guarded_release _ k).
Qed.
Lemma guarded_soft h : view h = None ->
  wp guarded (Github.refresh_soft_if_due self) h (fun _ h' => view h' = None).
Proof.
  intros Hv. unfold Github.refresh_soft_if_due, with_lock. cbn -[Github.run_refresh guarded view].
  split; [done|]. intros []. split; [done|]. intros rs. split; [done|]. intros now.
  split; [done|]. intros cache. split; [done|]. intros later. set (h1 := (((_ ++ _) ++ _) ++ _) ++ _).
  assert (view h1 = Some {| known := Some rs; due := false |}) as Hv1 by (unfold h1; by rewrite !view_snoc, Hv).
  assert (has_read h1 now) as Hr by (unfold h1; auto).
  destruct (_ || _) eqn:Ha; [by apply (guarded_release _ (Some rs)); exists false|]. apply orb_false_iff in Ha as [_ Ha].
  split; [exists rs, false; split; [done|by apply soft_attempt]|]. intros u. apply wp_bind.
  eapply wp_mono; [apply guarded_run_refresh|].
  - apply (attempt_entitled _ rs _ _ now Hv1 Hr). intros [= He]. by rewrite He in Ha.
  - intros r h2 _ Hh. exact (guarded_release _ _ r Hh).
Qed.
Lemma guarded_loop n interval h : view h = None ->
  wp guarded (Github.run_refresh_loop_with_interval self n interval) h (fun _ h' => view h' = None).
Proof.
  revert h. induction n as [|n IH]; intros h Hv; [done|]. split; [done|]. intros u.
  eapply wp_call; [apply guarded_soft; by rewrite view_snoc|]. intros r h1 _ Hv1. by apply IH.
Qed.
Lemma guarded_key kid h : view h = None -> wp guarded (Github.key self kid) h (fun _ h' => view h' = None).
Proof.
  intros Hv. unfold Github.key. cbn -[Github.refresh_for_unknown_kid_if_due guarded view].
  split; [done|]. intros cache. split; [done|]. intros now.
  assert (view ((h ++ [Obs (Load GithubCache) cache]) ++ [Obs UtcNow now]) = None) as Hv1 by by rewrite !view_snoc.
  match goal with |- wp _ (match ?x with _ => _ end) _ _ => destruct x end; [done|].
  case_bool_decide; [done|]. eapply wp_call; [by apply guarded_forced|]. intros r h1 _ Hv2.
  split; [done|]. intros cache'. split; [done|]. intros now'. cbn. by rewrite !view_snoc.
Qed.
(** A step that keeps the mutex free, and what follows. *)
Lemma guarded_try {Er A B} (p : io (result Er A)) (f : A -> io (result Er B)) h :
  wp guarded p h (fun _ h' => view h' = None) ->
  (forall a h', view h' = None -> wp guarded (f a) h' (fun _ h' => view h' = None)) ->
  wp guarded (try_bind p f) h (fun _ h' => view h' = None).
Proof. intros Hp Hf. eapply wp_try_call; [exact Hp| |done]. intros a h' _. apply Hf. Qed.
Lemma guarded_then {A B} (p : io A) (f : A -> io B) h :
  wp guarded p h (fun _ h' => view h' = None) ->
  (forall a h', view h' = None -> wp guarded (f a) h' (fun _ h' => view h' = None)) ->
  wp guarded (p ≫= f) h (fun _ h' => view h' = None).
Proof. intros Hp Hf. eapply wp_call; [exact Hp|]. intros a h' _. apply Hf. Qed.
Lemma guarded_event {X} (e : event X) h : refresh_event e = false -> view h = None ->
  wp guarded (trigger e) h (fun _ h' => view h' = None).
Proof. intros He Hv. split; [by apply guarded_other|]. intros x. cbn. by rewrite view_snoc, observe_other. Qed.
Lemma guarded_verify assertion h : view h = None ->
  wp guarded (Github.verify self assertion) h (fun _ h' => view h' = None).
Proof.
  intros Hv. unfold Github.verify. destruct (_ || _); [done|].
  apply guarded_try; [done|]. intros header h1 Hv1. destruct (_ || _); [done|].
  apply guarded_try; [done|]. intros kid h2 Hv2.
  apply guarded_try; [by apply guarded_key|]. intros dk h3 Hv3.
  apply guarded_then; [by apply guarded_event|]. intros decoded_at h4 Hv4.
  apply guarded_try; [done|]. intros claims h5 Hv5.
  apply guarded_then; [by apply guarded_event|]. intros now h6 Hv6.
  by apply guarded_try.
Qed.
Lemma guarded_ready h : view h = None ->
  wp guarded (Github.verifier_check_ready self) h (fun _ h' => view h' = None).
Proof. intros Hv. apply wp_frame; [|done]. intros h'. by do 2 (split; [done|]; intros ?). Qed.
End operations.

(** ** The exchange obeys it *)
Section exchange.
Context `{jwt : Jwt, serde : SerdeJson, chrono : Chrono, b64 : Base64, p256 : P256, sha : Sha2}.
Context `{L : !ReplayLedger, lease : !LeaseLedger L}.
Context (self : ExchangeService).

Lemma unrelated_use_once id e : unrelated (ledger_use_once id e).
Proof.
  intros h. eapply wp_permit_mono; [|eapply wp_mono; [by apply (use_once_spec (fun _ _ => True))|done]].
  by intros h' X ev (_ & _ & He).
Qed.
Lemma unrelated_buckets bucket bounds ns : unrelated (observe_buckets bucket bounds ns).
Proof.
  revert bucket. induction bounds as [|b bounds IH]; intros bucket; [done|]. cbn [observe_buckets].
  apply only_bind; [by case_bool_decide|]. intros _. apply IH.
Qed.
Lemma guarded_timed {A} (body : io A) h : view h = None ->
  (forall h', view h' = None -> wp guarded body h' (fun _ h'' => view h'' = None)) ->
  wp guarded (timed body) h (fun _ h' => view h' = None).
Proof.
  intros Hv Hb. unfold timed. apply guarded_then; [by apply guarded_event|]. intros started h1 Hv1.
  apply guarded_then; [by apply Hb|]. intros a h2 Hv2.
  apply guarded_then; [by apply guarded_event|]. intros ended h3 Hv3.
  apply guarded_then; [|done]. apply wp_frame; [|done]. intros h'. do 2 (split; [done|]; intros ?).
  apply unrelated_buckets.
Qed.
Lemma unrelated_redeem claims : unrelated (redeem self claims).
Proof.
  unfold redeem. destruct (Policy.authorize _ _) as [identity|e].
  2:{ intros h. by do 2 (split; [done|]; intros ?). }
  apply only_bind; [apply unrelated_use_once|]. intros [[]|[| |d]].
  2-4: intros h; by do 2 (split; [done|]; intros ?).
  intros h. cbn. do 3 (split; [done|]; intros ?). by destruct (sign_at _ _ _); do 2 (split; [done|]; intros ?).
Qed.
Lemma guarded_exchange assertion h : view h = None ->
  wp guarded (exchange self assertion) h (fun _ h' => view h' = None).
Proof.
  intros Hv. unfold exchange. apply guarded_then; [by apply guarded_event|]. intros _ h1 Hv1.
  apply guarded_timed; [done|]. intros h2 Hv2. apply guarded_then; [by apply guarded_verify|].
  intros [claims|[|stage detail]] h3 Hv3; apply wp_frame; try done. apply unrelated_redeem.
Qed.
End exchange.

(** ** The pool *)
Section limit.
Context `{jwt : Jwt, serde : SerdeJson, chrono : Chrono, b64 : Base64, p256 : P256, sha : Sha2}.
Context `{L : !ReplayLedger, lease : !LeaseLedger L}.
Context {St : Type} (serve : forall X, event X -> St -> X -> St -> Prop) `{!RefreshServer St serve}.
Context (self : ExchangeService) (lo hi : Z).

(** What a replica does with the key cache once it has started: it answers
    requests, probes and refreshes in the background. *)
Inductive task := Request (assertion : string) | Readiness | Background (iterations : nat) (interval : Z).
Definition perform_work (t : task) : io () :=
  match t with
  | Request assertion => _ ← exchange self assertion; mret ()
  | Readiness => _ ← Github.verifier_check_ready (verifier self); mret ()
  | Background n interval => Github.run_refresh_loop_with_interval (verifier self) n interval
  end.
Lemma guarded_work t : wp guarded (perform_work t) [] (fun _ h' => view h' = None).
Proof.
  destruct t; cbn [perform_work]; [| |by apply guarded_loop];
    (apply guarded_then; [|done]); [by apply guarded_exchange|by apply guarded_ready].
Qed.

(** Every clock reading, in seconds, is between the two. *)
Definition readings_within (h : trace_io) : Prop := forall now, has_read h now -> (lo <= timestamp_of now <= hi)%Z.
(** [n] attempts within the window, the last at [last]. *)
Definition spaced (n : nat) (last : Z) : Prop := n = 0 \/ (lo + 30 * (Z.of_nat n - 1) <= last <= hi)%Z.
Lemma spaced_attempt n last now :
  (0 < lo)%Z -> is_i64 hi -> (lo <= now <= hi)%Z -> Github.attempted_recently last now = false ->
  spaced n last -> spaced (S n) now.
Proof.
  unfold spaced, Github.attempted_recently, i64_saturating_sub, Github.JWKS_REFRESH_RETRY_SECONDS, is_i64, i64_min, i64_max.
  intros Hlo Hhi Hnow Hr [->|Hn]; right; [lia|].
  apply andb_false_iff in Hr as [Hr|Hr]; apply bool_decide_eq_false in Hr; lia.
Qed.
Lemma spaced_bound n last : (lo <= hi)%Z -> spaced n last -> (Z.of_nat n <= (hi - lo) / 30 + 1)%Z.
Proof.
  intros Hle [->|Hn]; [pose proof (Z.div_pos (hi - lo) 30); lia|].
  assert (Z.of_nat n - 1 <= (hi - lo) / 30)%Z; [|lia]. apply Z.div_le_lower_bound; lia.
Qed.

(** What an event of a disciplined task does to what it knows, to the mutex and to
    the state, and whether it is a request. *)
Inductive move (h : trace_io) : option hold -> bool -> RefreshState -> option hold -> bool -> RefreshState -> bool -> Prop :=
| move_none v l rs : move h v l rs v l rs false
| move_acquire rs : move h None false rs (Some {| known := None; due := false |}) true rs false
| move_release v rs l : move h (Some v) l rs None false rs false
| move_load v l rs : move h v l rs ((fun v => {| known := Some rs; due := due v |}) <$> v) l rs false
| move_store rs0 d l rs rs' : change h rs0 rs' ->
    move h (Some {| known := Some rs0; due := d |}) l rs
      (Some {| known := Some rs'; due := d || bool_decide (Some (times rs0) <> Some (times rs')) |}) l rs' false
| move_fetch k d l rs : d = true \/ before_epoch h ->
    move h (Some {| known := k; due := d |}) l rs (Some {| known := k; due := false |}) l rs true.
Lemma event_moves h X (e : event X) s x s' :
  guarded h X e -> serve X e s x s' ->
  move h (view h) (locked s) (refresh_state s) (observe (view h) (Obs e x)) (locked s') (refresh_state s')
    (Github.is_fetch (Obs e x)).
Proof.
  intros Hp Hs. destruct (refresh_event e) eqn:He.
  2:{ destruct (serve_unrelated _ _ _ _ _ Hs He) as [-> ->]. rewrite observe_other by done.
      assert (Github.is_fetch (Obs e x) = false) as -> by by destruct e. constructor. }
  destruct e as [| | | | |? c|? c rs| |[]|[]| | | | | | | | | |url|]; try done.
  - destruct c; try done. destruct (serve_load _ _ _ Hs) as (-> & -> & ->). constructor.
  - destruct c; try done. destruct (serve_store _ _ _ _ Hs) as (-> & ->).
    destruct Hp as (rs0 & d & -> & Hc). by constructor.
  - destruct (serve_acquire _ _ _ Hs) as (-> & -> & ->). cbn in Hp. rewrite Hp. constructor.
  - destruct (serve_release _ _ _ Hs) as (-> & ->). destruct Hp as [v ->]. constructor.
  - destruct (serve_fetch _ _ _ _ Hs) as (-> & ->). destruct Hp as (k & d & -> & Hd). by constructor.
Qed.

(** At most one task holds the mutex, and what it knows is so. *)
Definition held (V : nat -> option hold) (l : bool) (rs : RefreshState) : Prop := forall i v, V i = Some v ->
  l = true /\ (forall rs', known v = Some rs' -> rs' = rs) /\ forall j, is_Some (V j) -> j = i.
Definition update (V : nat -> option hold) (i : nat) (v : option hold) (j : nat) : option hold :=
  if decide (j = i) then v else V j.
Lemma held_only V l rs i v : held V l rs -> V i = Some v -> forall j, is_Some (V j) -> j = i.
Proof. intros Hh Hv. by apply (Hh i v). Qed.
(** The holder's view changes, with the state; or nobody holds the mutex any more. *)
Lemma held_holder V i v rs' :
  (forall rs0, known v = Some rs0 -> rs0 = rs') -> (forall j, is_Some (V j) -> j = i) -> held (update V i (Some v)) true rs'.
Proof.
  intros Hk Hx j w. unfold update. case_decide as Hj.
  - intros [= <-]. subst j. split_and!; [done..|]. intros j' [w' Hw']. case_decide; [done|]. apply Hx. by eexists.
  - intros Hw. destruct Hj. apply Hx. by eexists.
Qed.
Lemma held_nobody V i l' rs' : (forall j, is_Some (V j) -> j = i) -> held (update V i None) l' rs'.
Proof. intros Hx j w. unfold update. case_decide as Hj; [done|]. intros Hw. destruct Hj. apply Hx. by eexists. Qed.
Lemma held_same V i l rs : held V l rs -> held (update V i (V i)) l rs.
Proof.
  assert (forall j, update V i (V i) j = V j) as He by (intros j; unfold update; by case_decide; subst).
  intros Hh j w. rewrite He. intros Hw. destruct (Hh j w Hw) as (? & ? & Hx). split_and!; [done..|].
  intros j'. rewrite He. apply Hx.
Qed.
Lemma held_move h V i v' l l' rs rs' f :
  held V l rs -> move h (V i) l rs v' l' rs' f -> held (update V i v') l' rs'.
Proof.
  intros Hh Hm. remember (V i) as vi eqn:Hvi. revert Hh. destruct Hm as [| |v|[v|]|rs0 d|k d]; intros Hh.
  - subst v. by apply held_same.
  - apply held_holder; [done|]. intros j [w Hw]. by destruct (Hh j w Hw).
  - eapply held_nobody, held_only; eauto.
  - destruct (Hh i v (eq_sym Hvi)) as (-> & _ & Hx). apply held_holder; [|done]. by intros rs0 [= <-].
  - cbn. rewrite Hvi. by apply held_same.
  - destruct (Hh i _ (eq_sym Hvi)) as (-> & _ & Hx). apply held_holder; [|done]. by intros rs1 [= <-].
  - destruct (Hh i _ (eq_sym Hvi)) as (-> & Hk & Hx). apply held_holder; [|done]. intros rs1 Hrs. by apply Hk.
Qed.
(** The attempts are spaced, and every request was preceded by an attempt. *)
Definition paced (V : nat -> option hold) (rs : RefreshState) (n : nat) : Prop := exists nf ns,
  spaced ns (last_soft_attempt rs) /\ spaced nf (last_forced_attempt rs) /\ n <= nf + ns
  /\ forall i v, V i = Some v -> due v = true -> S n <= nf + ns.
Context (Hlo : (0 < lo)%Z) (Hhi : is_i64 hi).
(** A task whose view entitles it to no more than before. *)
Lemma paced_view V i v' rs n :
  (forall v, v' = Some v -> due v = true -> exists w, V i = Some w /\ due w = true) ->
  paced V rs n -> paced (update V i v') rs n.
Proof.
  intros Hv (nf & ns & Hs & Hf & Hn & Hd). exists nf, ns. split_and!; [done..|]. intros j w. unfold update.
  case_decide as Hj; [|by apply Hd]. intros Hw Hdue. destruct (Hv w Hw Hdue) as (w' & Hw' & Hdue'). by eapply Hd.
Qed.
Lemma paced_store h V i d l rs rs' n :
  readings_within h -> V i = Some {| known := Some rs; due := d |} -> held V l rs -> change h rs rs' -> paced V rs n ->
  paced (update V i (Some {| known := Some rs'; due := d || bool_decide (Some (times rs) <> Some (times rs')) |})) rs' n.
Proof.
  intros Hr Hi Hh Hc Hp. destruct Hc as [now Hnow Ha|now Hnow Ha|failed].
  1,2: destruct Hp as (nf & ns & Hs & Hf & Hn & Hd); specialize (Hr now Hnow).
  - exists nf, (S ns). split_and!; [by eapply spaced_attempt|done|lia|]. intros; lia.
  - exists (S nf), ns. split_and!; [done|by eapply spaced_attempt|lia|]. intros; lia.
  - eapply paced_view in Hp; [exact Hp|]. intros v [= <-]. cbn. rewrite bool_decide_false by (intros Ht; by apply Ht).
    rewrite orb_false_r. intros ->. by eexists.
Qed.
Lemma paced_move h V i v' l l' rs rs' f n :
  readings_within h -> held V l rs -> move h (V i) l rs v' l' rs' f -> paced V rs n ->
  paced (update V i v') rs' (n + if f then 1 else 0).
Proof.
  intros Hr Hh Hm. remember (V i) as vi eqn:Hvi. revert Hh.
  destruct Hm as [v| |v|v|rs0 d l rs rs' Hc|k d l rs Hd]; intros Hh Hp; rewrite ?Nat.add_0_r.
  - apply paced_view; [|done]. intros w -> Hw. by exists w.
  - apply paced_view; [|done]. by intros w [= <-].
  - by apply paced_view.
  - apply paced_view; [|done]. intros w Hw Hdue. destruct v as [v|]; [|done]. injection Hw as <-. by exists v.
  - assert (rs0 = rs) as -> by by eapply (Hh i _ (eq_sym Hvi)). by eapply paced_store.
  - destruct Hp as (nf & ns & Hs & Hf & Hn & Hdue). exists nf, ns.
    assert (S n <= nf + ns).
    { apply (Hdue i {| known := k; due := d |}); [done|]. destruct Hd as [|(now & Hnow & Hz)]; [done|].
      specialize (Hr now Hnow). lia. }
    split_and!; [done..|lia|]. intros j w. unfold update. case_decide as Hj; [by intros [= <-]|].
    intros Hw. destruct Hj. eapply held_only; eauto.
Qed.

Lemma view_task_snoc i j h (X : Type) (e : event X) x :
  view (of_task j (h ++ [(i, Obs e x)])) = if decide (i = j) then observe (view (of_task i h)) (Obs e x) else view (of_task j h).
Proof. rewrite of_task_snoc. case_decide as Hij; [subst; by rewrite view_snoc|by rewrite app_nil_r]. Qed.
Lemma fetches_snoc h o : Github.fetches (h ++ [o]) = Github.fetches h + if Github.is_fetch o then 1 else 0.
Proof. unfold Github.fetches. rewrite List.filter_app, length_app. cbn. by destruct (Github.is_fetch o). Qed.
Lemma has_read_task i h now : has_read (of_task i h) now -> has_read (all_events h) now.
Proof. intros (o & Ho & Hr). exists o. split; [by eapply of_task_incl|done]. Qed.


(** The invariant of the pool. *)
Record refresh_ok (c : config event St ()) : Prop := {
  ok_tasks i p : tasks c !! i = Some p -> wp guarded p (of_task i (history c)) (fun _ h' => view h' = None);
  ok_held : held (fun i => view (of_task i (history c))) (locked (server c)) (refresh_state (server c));
  ok_paced : readings_within (all_events (history c)) ->
    paced (fun i => view (of_task i (history c))) (refresh_state (server c)) (Github.fetches (all_events (history c)));
}.
Lemma held_ext V V' l rs : (forall j, V j = V' j) -> held V l rs -> held V' l rs.
Proof.
  intros He Hh i v. rewrite <- He. intros Hv. destruct (Hh i v Hv) as (? & ? & Hx). split_and!; [done..|].
  intros j. rewrite <- He. apply Hx.
Qed.
Lemma paced_ext V V' rs n : (forall j, V j = V' j) -> paced V rs n -> paced V' rs n.
Proof.
  intros He (nf & ns & Hs & Hf & Hn & Hd). exists nf, ns. split_and!; [done..|]. intros i v. rewrite <- He. apply Hd.
Qed.
Lemma refresh_ok_step c c' : refresh_ok c -> pool_step serve c c' -> refresh_ok c'.
Proof.
  intros [Ht Hh Hp] Hs. destruct Hs as [s ts h i X e k x s' Hi Hs]. cbn [server tasks history] in *.
  pose proof (Ht i _ Hi) as [Hg Hk]. pose proof (event_moves _ _ _ _ _ _ Hg Hs) as Hm.
  assert (forall j, update (fun i => view (of_task i h)) i (observe (view (of_task i h)) (Obs e x)) j
            = view (of_task j (h ++ [(i, Obs e x)]))) as He.
  { intros j. rewrite view_task_snoc. unfold update. repeat case_decide; congruence. }
  split; cbn [server tasks history].
  - intros j p. rewrite of_task_snoc. destruct (decide (i = j)) as [->|Hne].
    + rewrite lookup_insert_eq. intros [= <-]. apply Hk.
    + rewrite lookup_insert_ne by done. rewrite app_nil_r. apply Ht.
  - eapply held_ext; [exact He|]. by eapply held_move.
  - unfold all_events. rewrite fmap_app. cbn. intros Hr. eapply paced_ext; [exact He|]. rewrite fetches_snoc.
    assert (readings_within (all_events h)) as Hr'.
    { intros now Hnow. apply Hr. by eapply has_read_prefix, Hnow; apply prefix_app_r. }
    eapply paced_move; [|exact Hh|exact Hm|by apply Hp]. intros now Hnow. by eapply Hr', has_read_task.
Qed.

(** A client may leave: its request is dropped where it waits, and gives the mutex
    back if it holds it.  Nothing else it began is undone or completed. *)
Definition dropped (v : option hold) : io () :=
  match v with Some _ => trigger (Release GithubRefresh) | None => mret () end.
Inductive drop_step : config event St () -> config event St () -> Prop :=
| drop_task s ts h i X (e : event X) k :
    ts !! i = Some (Vis e k) ->
    drop_step (Config s ts h) (Config s (<[i := dropped (view (of_task i h))]> ts) h).
Definition replica_step (c c' : config event St ()) : Prop := pool_step serve c c' \/ drop_step c c'.
Lemma refresh_ok_drop c c' : refresh_ok c -> drop_step c c' -> refresh_ok c'.
Proof.
  intros [Ht Hh Hp] Hs. destruct Hs as [s ts h i X e k Hi]. cbn [server tasks history] in *. split; [|exact Hh|exact Hp].
  intros j p. cbn [tasks history]. destruct (decide (i = j)) as [->|Hne]; [|by rewrite lookup_insert_ne by done; apply Ht].
  rewrite lookup_insert_eq. intros [= <-]. destruct (view (of_task j h)) as [v|] eqn:Hv; [|exact Hv].
  split; [by exists v|]. intros []. cbn. by rewrite view_snoc.
Qed.

(** C7: however many requests a replica answers at once, with however many key IDs
    that it does not know, and whichever of their clients leave before the answer,
    it asks the key endpoint at most twice, once for unknown key IDs and once in the
    background, per thirty seconds of its clock; and no two tasks are refreshing at
    the same time. *)
Theorem refresh_requests_limited (work : gmap nat task) s c :
  locked s = false -> rtc replica_step (initial s (perform_work <$> work)) c ->
  (readings_within (all_events (history c)) -> (lo <= hi)%Z ->
     (Z.of_nat (Github.fetches (all_events (history c))) <= 2 * ((hi - lo) / 30 + 1))%Z)
  /\ forall i j, is_Some (view (of_task i (history c))) -> is_Some (view (of_task j (history c))) -> i = j.
Proof.
  intros Hs Hr. assert (refresh_ok c) as [_ Hh Hp].
  { revert c Hr. apply rtc_ind_r; [|intros c1 c2 _ [H2|H2] H1; [by eapply refresh_ok_step|by eapply refresh_ok_drop]].
    split; cbn; [|by intros i v|].
    - intros i p (t & <- & _)%lookup_fmap_Some. apply guarded_work.
    - intros _. exists 0, 0. split_and!; [by left|by left|done|done]. }
  split.
  - intros Hread Hle. destruct (Hp Hread) as (nf & ns & Hns & Hnf & Hn & _).
    pose proof (spaced_bound _ _ Hle Hns). pose proof (spaced_bound _ _ Hle Hnf). lia.
  - intros i j [v Hv] Hj. destruct (Hh i v Hv) as (_ & _ & Hx). by rewrite (Hx j Hj).
Qed.
(** An executable schedule of steps, in which clients may leave. *)
Inductive turn := Moves (i : nat) | Leaves (i : nat).
Definition take_turn (enabled : forall X, event X -> St -> bool) (h : forall X, event X -> St -> X * St)
    (c : config event St ()) (t : turn) : config event St () :=
  match t with
  | Moves i => exec_step_if enabled h c i
  | Leaves i =>
      match tasks c !! i with
      | Some (Vis _ _) => Config (server c) (<[i := dropped (view (of_task i (history c)))]> (tasks c)) (history c)
      | _ => c
      end
  end.
Lemma limit_turns_reachable (enabled : forall X, event X -> St -> bool) (h : forall X, event X -> St -> X * St) c turns :
  (forall X e w x w', enabled X e w = true -> h X e w = (x, w') -> serve X e w x w') ->
  rtc replica_step c (foldl (take_turn enabled h) c turns).
Proof.
  intros Hs. revert c. induction turns as [|t turns IH]; intros c; [apply rtc_refl|]. cbn [foldl]. etrans; [|apply IH].
  destruct c as [s ts hist], t as [i|i]; unfold take_turn, exec_step_if, exec_step; cbn [tasks server history].
  all: destruct (ts !! i) as [[a|X e k]|] eqn:Hi; try apply rtc_refl.
  - destruct (enabled X e s) eqn:He; [|apply rtc_refl]. destruct (h X e s) as [x w'] eqn:Hh.
    apply rtc_once. left. constructor; [done|]. by apply Hs.
  - apply rtc_once. right. by econstructor.
Qed.
End limit.

(** ** The mutex and the cells of the simulator *)
Section simulated.
Context `{jwt : Jwt}.
Definition lock_enabled (X : Type) (e : event X) (s : World * bool) : bool :=
  match e with Acquire GithubRefresh => negb s.2 | _ => true end.
Definition lock_handle (X : Type) (e : event X) (s : World * bool) : X * (World * bool) :=
  let '(x, w) := handle X e s.1 in
  (x, (w, match e with Acquire GithubRefresh => true | Release GithubRefresh => false | _ => s.2 end)).
Definition lock_serve (X : Type) (e : event X) (s : World * bool) (x : X) (s' : World * bool) : Prop :=
  lock_enabled X e s = true /\ lock_handle X e s = (x, s').
Lemma handle_refresh_state X (e : event X) w : refresh_event e = false -> github_refresh (handle X e w).2 = github_refresh w.
Proof. intros He. destruct e; try discriminate He; cbn; repeat (case_match; cbn); try done; by destruct c. Qed.
#[export,refine] Instance simulated_refresh : RefreshServer (World * bool) lock_serve := {|
  locked s := s.2;
  refresh_state s := github_refresh s.1;
|}.
Proof.
  - intros [w b] x s' [He Hs]. cbn in He. injection Hs as <- <-. by destruct b.
  - intros [w b] x s' [_ Hs]. by injection Hs as <- <-.
  - intros [w b] x s' [_ Hs]. by injection Hs as <- <-.
  - intros rs [w b] x s' [_ Hs]. by injection Hs as <- <-.
  - intros url [w b] x s' [_ Hs]. by injection Hs as <- <-.
  - intros X e [w b] x s' [_ Hs] He. unfold lock_handle in Hs. cbn in Hs.
    pose proof (handle_refresh_state X e w He) as Hr. destruct (handle X e w) as [y w']. injection Hs as <- <-. cbn in *.
    split; [|done]. destruct e as [| | | | | | | |[]|[]| | | | | | | | | | |]; try done; discriminate He.
Defined.
End simulated.

(** ** Two requests with unknown key IDs, and the background task *)
Definition unknown_token (k : string) : Token := {| signed_by := "github-key";
  token_header := {| alg := RS256; typ := Some "JWT"; kid := Some k |}; token_claims := sample_claims_value |}.
#[local] Instance limit_jwt : Jwt := concrete_jwt {["first" := unknown_token "gh7"; "second" := unknown_token "gh8"]}.
#[local] Instance limit_serde : SerdeJson := concrete_serde ∅.
#[local] Instance limit_ledger : ReplayLedger := kubernetes_ledger sample_ledger.
#[local] Instance limit_lease_ledger : LeaseLedger limit_ledger := kubernetes_lease_ledger sample_ledger.
Definition limit_world : World :=
  let w := world_at 1700000000 {["/token" := "secret"]} in
  set_cells w {| keys := {["gh1" := "github-key"]}; fetched_at := 1699999000 |}
    (github_refresh w) (oidc_caches w) (oidc_refreshes w) (continue_cell w) (readiness_cell w).
Definition limit_work : gmap nat task := {[0 := Request "first"; 1 := Request "second"; 2 := Background 3 30000000000]}.
(** All of them start, the first client leaves when its request is refreshing, and
    the others go on. *)
Definition limit_turns : list turn :=
  mjoin (replicate 14 [Moves 0; Moves 1; Moves 2]) ++ [Leaves 0] ++ mjoin (replicate 60 [Moves 0; Moves 1; Moves 2]).
Definition limit_pool : config event (World * bool) () :=
  foldl (take_turn lock_enabled lock_handle) (initial (limit_world, false) (perform_work sample_service <$> limit_work)) limit_turns.
Definition readings_check (lo hi : Z) (h : trace_io) : bool :=
  forallb (fun o => match read_clock o with Some now => bool_decide (lo <= timestamp_of now <= hi)%Z | None => true end) h.
Lemma readings_checked lo hi h : readings_check lo hi h = true -> readings_within lo hi h.
Proof.
  unfold readings_check, readings_within. rewrite forallb_forall. intros H now (o & Ho & Hr).
  apply list_elem_of_In in Ho. specialize (H o Ho). rewrite Hr in H. by apply bool_decide_eq_true in H.
Qed.
Lemma refresh_requests_limited_witness :
  Github.fetches (all_events (history limit_pool)) = 2
  /\ (Z.of_nat (Github.fetches (all_events (history limit_pool))) <= 2 * ((1700000000 - 1700000000) / 30 + 1))%Z.
Proof.
  split; [by vm_compute|].
  apply (refresh_requests_limited lock_serve sample_service 1700000000 1700000000
    ltac:(done) ltac:(by split; vm_compute) limit_work (limit_world, false) limit_pool).
  - done.
  - apply limit_turns_reachable. intros X e w x w' He Hh. by split.
  - apply readings_checked. by vm_compute.
  - done.
Defined.

(** ** A client that leaves, and another one *)
(** The key endpoint serves a new key, which is not cached yet. *)
Definition rotated_world : World := set_jwks limit_world {[Github.JWKS_URL := [
  {| key_id := Some "gh1"; key_algorithm := Some KeyRS256; public_key_use := Some Signature; material := "github-key" |};
  {| key_id := Some "gh7"; key_algorithm := Some KeyRS256; public_key_use := Some Signature; material := "github-key" |}]]}.
Definition two_requests : gmap nat task := {[0 := Request "first"; 1 := Request "first"]}.
Definition outcomes_after (turns : list turn) : list Z :=
  let c := foldl (take_turn lock_enabled lock_handle) (initial (rotated_world, false) (perform_work sample_service <$> two_requests)) turns in
  counts (server c).1 ∘ Count GithubExchange <$> [Issued; Denied; Errors].
(** A genuine assertion under the new key is granted: the first request refreshes. *)
Example new_key_granted : outcomes_after (replicate 200 (Moves 0)) = [1; 0; 0]%Z.
Proof. by vm_compute. Qed.
(** But when the client of the first request leaves before the key endpoint answers,
    the mutex is given back with the attempt recorded and no failure: the other
    request is refused as if its assertion were not genuine, although no dependency
    failed and the endpoint serves its key. *)
Example departed_client_refuses :
  outcomes_after (replicate 9 (Moves 0) ++ [Leaves 0] ++ [Moves 0] ++ replicate 200 (Moves 1)) = [0; 1; 0]%Z.
Proof. by vm_compute. Qed.
