(* ===== verification/Causes.v ===== *)
(** * Why an exchange is refused

    The GitHub exchange answers "unavailable" only when something it depends on
    failed, and "unauthorized" only when the assertion, the policy or the ledger
    says so.  The causes are stated on the events of the execution. *)
From S2P Require Import Prelude Text Prog Libs State Constants GithubClaims Concrete Replay Simulator ReplaySafety LedgerRefinement LedgerCauses Keys Exchange Service.
From S2P Require Policy Github.

(** ** Causes *)
Section causes.
Context `{jwt : Jwt, serde : SerdeJson, chrono : Chrono, b64 : Base64, p256 : P256, sha : Sha2, url : UrlLib}.
Context (self : ExchangeService) (ledger : KubernetesLeaseReplayLedger).

(** An answer of the key endpoint with a key to use. *)
Definition usable_response (r : result error_chain JwksResponse) : bool :=
  match r with
  | Ok {| status_error := None; jwks_body := Ok document |} => negb (bool_decide (Github.usable_keys document = ∅))
  | _ => false
  end.
(** An answer by which the keys fail the exchange: an unusable key document, or a
    recent failure on record. *)
Definition failed (o : obs_io) : bool :=
  match o with
  | Obs e x =>
      match e in event X return X -> bool with
      | JwksGet _ => fun r => negb (usable_response r)
      | Load c => match c in cell X return X -> bool with
                  | GithubRefreshState => fun rs => last_forced_failed rs
                  | _ => fun _ => false
                  end
      | _ => fun _ => false
      end x
  end.
Inductive dependency_failed (t : trace_io) : Prop :=
| answer_failed o : o ∈ t -> failed o = true -> dependency_failed t
| cache_unusable cache now : Obs (Load GithubCache) cache ∈ t -> reads t now ->
    Github.cache_is_usable cache now (Github.max_staleness (verifier self)) = false -> dependency_failed t
| ledger_fails : ledger_failed ledger t -> dependency_failed t
| clock_fails : clock_fault t -> dependency_failed t
| signing_fails : signing_fault (sign_at (service_keys self)) t -> dependency_failed t.

(** What refuses an assertion. *)
Definition named_key (assertion : string) : option string :=
  if is_empty assertion || bool_decide (Github.MAX_ASSERTION_BYTES < len assertion) then None else
  header ← decode_header assertion;
  if bool_decide (alg header <> RS256) || bool_decide (typ header <> Some "JWT") then None else kid header.
(** The key set is as recent as the service keeps it: it was just fetched, the last
    attempt to fetch it for an unknown key is not on record as failed, or the key
    was there before. *)
Inductive refresh_tried (t : trace_io) (k : string) : Prop :=
| just_fetched response : Obs (JwksGet (Github.jwks_url (verifier self))) response ∈ t -> usable_response response = true ->
    refresh_tried t k
| not_failed rs : Obs (Load GithubRefreshState) rs ∈ t -> last_forced_failed rs = false -> refresh_tried t k
| was_there cache : Obs (Load GithubCache) cache ∈ t -> is_Some (keys cache !! k) -> refresh_tried t k.
Inductive assertion_refused (t : trace_io) (assertion : string) : Prop :=
| malformed : named_key assertion = None -> assertion_refused t assertion
| key_unknown k cache now : named_key assertion = Some k -> Obs (Load GithubCache) cache ∈ t -> reads t now ->
    Github.cache_is_usable cache now (Github.max_staleness (verifier self)) = true -> keys cache !! k = None ->
    refresh_tried t k -> assertion_refused t assertion
| not_genuine k cache key now : named_key assertion = Some k -> Obs (Load GithubCache) cache ∈ t ->
    keys cache !! k = Some key -> reads t now ->
    (decode assertion key (Github.validation (verifier self)) now ≫= github_claims_deserialize) = None ->
    assertion_refused t assertion
| claims_refused claims now : reads t now -> ~ accepted (Github.audience (verifier self)) now claims ->
    (exists key decoded_at, (decode assertion key (Github.validation (verifier self)) decoded_at ≫= github_claims_deserialize) = Some claims) ->
    assertion_refused t assertion
| identity_refused claims e : Github.verified (verifier self) t assertion claims ->
    Policy.authorize (policy self) claims = Err e -> assertion_refused t assertion
| already_spent claims : Github.verified (verifier self) t assertion claims -> spent_before (jti claims) t ->
    assertion_refused t assertion.

(** ** Causes persist *)
Lemma dependency_failed_prefix h h' : h `prefix_of` h' -> dependency_failed h -> dependency_failed h'.
Proof.
  intros Hp. destruct 1.
  - eapply answer_failed; eauto using elem_of_prefix.
  - eapply cache_unusable; eauto using elem_of_prefix, seconds_prefix.
  - by eapply ledger_fails, ledger_failed_prefix.
  - by eapply clock_fails, clock_fault_prefix.
  - by eapply signing_fails, signing_fault_prefix.
Qed.
Lemma refresh_tried_prefix h h' k : h `prefix_of` h' -> refresh_tried h k -> refresh_tried h' k.
Proof.
  intros Hp. destruct 1; [eapply just_fetched|eapply not_failed|eapply was_there]; eauto using elem_of_prefix.
Qed.
Lemma assertion_refused_prefix h h' assertion : h `prefix_of` h' -> assertion_refused h assertion -> assertion_refused h' assertion.
Proof.
  intros Hp. destruct 1.
  - by apply malformed.
  - eapply key_unknown; eauto using elem_of_prefix, seconds_prefix, refresh_tried_prefix.
  - eapply not_genuine; eauto using elem_of_prefix, seconds_prefix.
  - eapply claims_refused; eauto using seconds_prefix.
  - eapply identity_refused; eauto using Github.verified_prefix.
  - eapply already_spent; eauto using Github.verified_prefix, spent_before_prefix.
Qed.

(** ** The key *)
(** A failure to refresh has a cause; a success or an omission none. *)
Definition refresh_explained {A} (r : result Github.VerifyError A) (h : trace_io) : Prop :=
  is_err r = true -> exists o, o ∈ h /\ failed o = true.
Lemma explained_now {A} (r : result Github.VerifyError A) h o : failed o = true -> refresh_explained r (h ++ [o]).
Proof. intros Ho _. exists o. split; [apply elem_of_last|done]. Qed.
Lemma explained_prefix {A B} (r : result Github.VerifyError A) (r' : result Github.VerifyError B) h h' :
  h `prefix_of` h' -> is_err r' = is_err r -> refresh_explained r h -> refresh_explained r' h'.
Proof. unfold refresh_explained. intros Hp -> Hr He. destruct (Hr He) as (o & Ho & ?). exists o. split; [by eapply elem_of_prefix|done]. Qed.

Lemma refresh_now_explained h : wpt (Github.refresh_now (verifier self)) h refresh_explained.
Proof.
  split; [done|]. intros response. set (h1 := h ++ _).
  assert (usable_response response = false -> refresh_explained (Err Github.InvalidAssertion : result Github.VerifyError ()) h1) as Hbad.
  { intros Hr. apply explained_now. cbn. by rewrite Hr. }
  destruct response as [[[e1|] [document|e2]]|e3]; cbn -[usable_response]; cbn in Hbad; try by apply Hbad.
  case_bool_decide as Hd; [by apply Hbad|]. by do 2 (split; [done|]; intros ?).
Qed.
Lemma run_refresh_explained h : wpt (Github.run_refresh (verifier self)) h refresh_explained.
Proof.
  eapply wp_call; [apply refresh_now_explained|]. intros [[]|e] h1 _ Hr; [done|].
  cbn. do 4 (split; [done|]; intros ?). eapply explained_prefix, Hr; [|done]. rewrite <- !app_assoc. by apply prefix_app_r.
Qed.
Lemma forced_explained k h : wpt (Github.refresh_for_unknown_kid_if_due (verifier self) k) h refresh_explained.
Proof.
  unfold Github.refresh_for_unknown_kid_if_due, with_lock. cbn -[Github.run_refresh].
  split; [done|]. intros []. split; [done|]. intros rs. split; [done|]. intros now. split; [done|]. intros cache.
  set (h1 := ((_ ++ _) ++ _) ++ _).
  assert (Obs (Load GithubRefreshState) rs ∈ h1) as Hrs by (unfold h1; rewrite !elem_of_app, !list_elem_of_singleton; auto).
  apply wp_bind. case_bool_decide; [by split|]. destruct (Github.attempted_recently _ _).
  - split; [done|]. intros u. destruct (last_forced_failed rs) eqn:Hf; [|done]. intros _.
    exists (Obs (Load GithubRefreshState) rs). split; [by apply elem_of_app; left|done].
  - split; [done|]. intros u. apply wp_bind. eapply wp_mono; [apply run_refresh_explained|]. intros r h2 _ Hr.
    do 2 (split; [done|]; intros ?). eapply explained_prefix, Hr; [|done]. rewrite <- !app_assoc. by apply prefix_app_r.
Qed.
(** An attempt that succeeds or is omitted leaves a recent key set. *)
Lemma refresh_now_tried k h : wpt (Github.refresh_now (verifier self)) h (fun r h' => is_ok r = true -> refresh_tried h' k).
Proof.
  split; [done|]. intros response. set (h1 := h ++ _).
  assert (usable_response response = true -> refresh_tried h1 k) as Hgood.
  { intros Hr. eapply just_fetched, Hr. apply elem_of_last. }
  destruct response as [[[e1|] [document|e2]]|e3]; cbn -[usable_response]; cbn in Hgood; try done.
  case_bool_decide as Hd; [done|]. do 2 (split; [done|]; intros ?). intros _.
  eapply refresh_tried_prefix, Hgood; [rewrite <- app_assoc; by apply prefix_app_r|done].
Qed.
Lemma run_refresh_tried k h : wpt (Github.run_refresh (verifier self)) h (fun r h' => is_ok r = true -> refresh_tried h' k).
Proof. eapply wp_call; [apply (refresh_now_tried k)|]. intros [[]|e] h1 _ Hr; [exact Hr|]. cbn. by do 4 (split; [done|]; intros ?). Qed.
Lemma forced_tried k h : wpt (Github.refresh_for_unknown_kid_if_due (verifier self) k) h (fun r h' => is_ok r = true -> refresh_tried h' k).
Proof.
  unfold Github.refresh_for_unknown_kid_if_due, with_lock. cbn -[Github.run_refresh].
  split; [done|]. intros []. split; [done|]. intros rs. split; [done|]. intros now. split; [done|]. intros cache.
  set (h1 := ((_ ++ _) ++ _) ++ _).
  assert (Obs (Load GithubRefreshState) rs ∈ h1) as Hrs by (unfold h1; rewrite !elem_of_app, !list_elem_of_singleton; auto).
  assert (Obs (Load GithubCache) cache ∈ h1) as Hc by apply elem_of_last.
  apply wp_bind. case_bool_decide as Hk; [split; [done|]; intros u _; eapply was_there, Hk; by apply elem_of_app; left|].
  destruct (Github.attempted_recently _ _).
  - split; [done|]. intros u. destruct (last_forced_failed rs) eqn:Hf; [done|]. intros _.
    eapply not_failed, Hf. by apply elem_of_app; left.
  - split; [done|]. intros u. apply wp_bind. eapply wp_mono; [apply (run_refresh_tried k)|]. intros r h2 _ Hr.
    do 2 (split; [done|]; intros ?). intros Hok. eapply refresh_tried_prefix, (Hr Hok). rewrite <- !app_assoc. by apply prefix_app_r.
Qed.
Definition key_explained (k : string) (r : result Github.VerifyError DecodingKey) (h : trace_io) : Prop :=
  match r with
  | Ok key => exists cache, Obs (Load GithubCache) cache ∈ h /\ keys cache !! k = Some key
  | Err Github.InvalidAssertion => exists cache now, Obs (Load GithubCache) cache ∈ h /\ reads h now
      /\ Github.cache_is_usable cache now (Github.max_staleness (verifier self)) = true /\ keys cache !! k = None
      /\ refresh_tried h k
  | Err _ => dependency_failed h
  end.
Lemma retry_causes k h (r : result Github.VerifyError Github.RefreshAttempt) :
  refresh_explained r h -> (is_ok r = true -> refresh_tried h k) -> Github.is_key_error r ->
  wpt (cache ← load GithubCache;
       now ← Github.unix_now;
       mret (if Github.cache_is_usable cache now (Github.max_staleness (verifier self)) then
               match keys cache !! k with
               | Some key => Ok key
               | None => match r with Ok _ => Err Github.InvalidAssertion | Err error => Err error end
               end
             else match r with
                  | Err error => Err error
                  | Ok _ => Err (Github.keys_unavailable "using the cached GitHub JWKS"
                                   "the cache is empty or past the configured hard-staleness bound")
                  end)) h (key_explained k).
Proof.
  intros Hr Ht He. cbn. split; [done|]. intros cache. split; [done|]. intros now. set (h1 := (h ++ _) ++ _).
  assert (Obs (Load GithubCache) cache ∈ h1) as Hc by (unfold h1; rewrite !elem_of_app, !list_elem_of_singleton; auto).
  assert (reads h1 (timestamp_of now)) as Hnow by apply reads_now.
  assert (forall error, r = Err error -> dependency_failed h1) as Hfailed.
  { intros error ->. destruct (Hr eq_refl) as (o & Ho & Hf). apply answer_failed with o; [|done].
    unfold h1. rewrite !elem_of_app. auto. }
  destruct (Github.cache_is_usable _ _ _) eqn:Hu; [destruct (keys cache !! k) as [key|] eqn:Hk|].
  - by exists cache.
  - destruct r as [a|e].
    { exists cache, (timestamp_of now). split_and!; [done..|]. eapply refresh_tried_prefix, Ht; [|done].
      unfold h1. rewrite <- app_assoc. by apply prefix_app_r. }
    destruct (He e eq_refl) as (stage & detail & ->). by eapply Hfailed.
  - assert (dependency_failed h1) by by eapply cache_unusable. destruct r as [a|e]; [done|].
    by destruct (He e eq_refl) as (stage & detail & ->).
Qed.
Lemma forced_causes k h : wpt (Github.refresh_for_unknown_kid_if_due (verifier self) k) h
  (fun r h' => refresh_explained r h' /\ (is_ok r = true -> refresh_tried h' k) /\ Github.is_key_error r).
Proof.
  apply wp_and; [apply forced_explained|]. apply wp_and; [apply forced_tried|]. eapply wp_permit_mono; [|apply (Github.wp_refresh_for_unknown (verifier self))]. done.
Qed.
Lemma key_causes k h : wpt (Github.key (verifier self) k) h (key_explained k).
Proof.
  unfold Github.key. cbn -[Github.refresh_for_unknown_kid_if_due]. split; [done|]. intros cache. split; [done|]. intros now.
  set (h1 := (h ++ _) ++ _). assert (Obs (Load GithubCache) cache ∈ h1) as Hc
    by (unfold h1; rewrite !elem_of_app, !list_elem_of_singleton; auto).
  assert (reads h1 (timestamp_of now)) as Hnow by apply reads_now.
  destruct (Github.cache_is_usable _ _ _) eqn:Hu; [destruct (keys cache !! k) as [key|] eqn:Hk; [by exists cache|]|].
  1: rewrite bool_decide_false by (by intros []).
  2: case_bool_decide; [by eapply cache_unusable|].
  all: eapply wp_call; [apply forced_causes|]; intros r h2 _ (Hr & Ht & He); by apply retry_causes.
Qed.

(** ** The assertion *)
Definition verify_explained (assertion : string) (r : result Github.VerifyError GitHubClaims) (h : trace_io) : Prop :=
  match r with
  | Ok claims => Github.verified (verifier self) h assertion claims
  | Err Github.InvalidAssertion => assertion_refused h assertion
  | Err _ => dependency_failed h
  end.
Lemma wp_try_some {Er A B} (e : Er) (a : A) (f : A -> io (result Er B)) h R :
  wpt (f a) h R -> wpt (try_bind (mret (ok_or e (Some a))) f) h R.
Proof. done. Qed.
Lemma verify_errors assertion h : wpt (Github.verify (verifier self) assertion) h (fun r h' =>
  match r with Ok _ => True | Err Github.InvalidAssertion => assertion_refused h' assertion | Err _ => dependency_failed h' end).
Proof.
  assert (named_key assertion = named_key assertion) as Hn by done. unfold named_key at 2 in Hn.
  unfold Github.verify. destruct (_ || _); [by apply malformed|].
  destruct (decode_header assertion) as [header|]; [|by apply malformed]. apply wp_try_some.
  change (Some header ≫= ?f) with (f header) in Hn. cbn beta in Hn.
  destruct (_ || _); [by apply malformed|]. destruct (kid header) as [k|]; [|by apply malformed]. apply wp_try_some.
  eapply wp_try_call; [apply key_causes| |].
  2:{ intros [|stage detail] h1 _ He; [|done]. destruct He as (cache & now & Hc & Hr & Hu & Hk & Ht). by eapply key_unknown. }
  intros key h1 _ (cache & Hc & Hk). apply wp_event; [done|]. intros decoded_at. set (h2 := h1 ++ _).
  assert (Obs (Load GithubCache) cache ∈ h2) as Hc2 by (unfold h2; apply elem_of_app; by left).
  assert (reads h2 decoded_at) as Hd2 by (exists (Obs CurrentTimestamp decoded_at); split; [apply elem_of_last|done]).
  destruct (decode assertion key (Github.validation (verifier self)) decoded_at ≫= github_claims_deserialize)
    as [claims|] eqn:Hd; [|by eapply not_genuine].
  apply wp_try_some.
  split; [done|]. intros now.
  match goal with |- wp _ ?p _ _ =>
    replace p with (Ret (E := event) (Github.judge (verifier self) (timestamp_of now) claims))
      by (unfold Github.judge; by destruct (i64_checked_sub _ _)) end.
  destruct (Github.judge_cases (verifier self) (timestamp_of now) claims) as [Hj|Hj]; cbn; rewrite Hj; [done|].
  apply claims_refused with claims (timestamp_of now); [apply reads_now| |by exists key, decoded_at].
  intros Hacc. pose proof (Github.judge_ok (verifier self) (timestamp_of now) claims claims) as Hok.
  rewrite Hj in Hok. by pose proof (proj2 Hok (conj eq_refl Hacc)).
Qed.
Lemma verify_causes assertion h : wpt (Github.verify (verifier self) assertion) h (verify_explained assertion).
Proof.
  eapply wp_mono; [apply wp_and; [apply verify_errors|]|].
  - eapply wp_permit_mono; [|apply (Github.wp_verify (verifier self))]. done.
  - intros [claims|e] h' _ [He Hv]; [by apply Hv|exact He].
Qed.

(** ** The exchange *)
Context `{!JwtLaws, !ChronoLaws, !ChronoRange}.
Abbreviation jwt_exp := GithubClaims.exp.
(** A verified assertion has a retention unless the clock misbehaves. *)
Lemma retention_causes assertion claims now h h' x :
  Github.verified (verifier self) h assertion claims -> (h ++ [Obs UtcNow now]) `prefix_of` h' ->
  retained_until (jwt_exp claims) (timestamp_of now) = Err x -> dependency_failed h'.
Proof.
  intros Hv [k ->] Hr. destruct (Github.verified_claims _ _ _ _ Hv) as (now1 & Hnow1 & Hacc).
  destruct (Github.verified_signature _ _ _ _ Hv) as (? & ? & ? & ? & ? & d & _ & _ & _ & _ & _ & _ & _ & _ & Hd & Hdec).
  apply bind_Some in Hdec as (v & Hdec & Hc).
  pose proof (decode_exp _ _ _ _ _ _ Hdec (Github.deserialize_exp _ _ Hc)) as Hexp. cbn in Hexp.
  pose proof (accepted_lifetime _ _ _ Hacc). pose proof (accepted_iat _ _ _ Hacc) as Hiat.
  eapply clock_fails, (retention_fault _ _ _ (jwt_exp claims) (timestamp_of now1) d); [| |by eexists| |exact Hr].
  - by exists (Obs UtcNow now1).
  - by exists (Obs CurrentTimestamp d).
  - intros Hz. unfold i64_add in Hiat. rewrite wrap_i64_id in Hiat by (unfold is_i64, i64_min, i64_max; lia). lia.
Qed.

(** What each answer says. *)
Definition answer_explained (assertion : string) (r : result ExchangeError string) (h : trace_io) : Prop :=
  match r with
  | Ok _ => True
  | Err ExchangeUnavailable => dependency_failed h
  | Err ExchangeUnauthorized => assertion_refused h assertion
  end.
#[local] Instance causes_ledger : ReplayLedger := kubernetes_ledger ledger.
Lemma issue_causes assertion claims identity h : wpt (issue self claims identity) h (answer_explained assertion).
Proof.
  unfold issue. do 2 (apply wp_event; [done|]; intros ?). eapply wp_call.
  { apply sign_causes. }
  intros [token|e] h1 _ Hs; cbn; do 2 (split; [done|]; intros ?); [done|].
  eapply dependency_failed_prefix, signing_fails, Hs; [|done]. rewrite <- !app_assoc. by apply prefix_app_r.
Qed.
Lemma redeem_causes assertion claims h : Github.verified (verifier self) h assertion claims ->
  wpt (redeem self claims) h (answer_explained assertion).
Proof.
  intros Hv. unfold redeem. destruct (Policy.authorize (policy self) claims) as [identity|e] eqn:Hauth.
  2:{ cbn. do 2 (split; [done|]; intros ?). eapply identity_refused, Hauth.
      eapply Github.verified_prefix, Hv. rewrite <- app_assoc. by apply prefix_app_r. }
  eapply wp_call; [apply (spend_causes ledger)|]. intros r h1 Hp Hx.
  assert (forall e, r = Err e -> e <> Replayed -> dependency_failed h1) as Hfail.
  { intros e He Hne. eapply (spend_fails ledger _ _ _ _ _ _ _ Hx He Hne); [apply ledger_fails|]. intros. by eapply retention_causes. }
  destruct r as [[]|[| |detail]]; [by apply issue_causes| | |]; cbn; do 2 (split; [done|]; intros ?);
    (apply (assertion_refused_prefix h1) || apply (dependency_failed_prefix h1)); try (rewrite <- app_assoc; by apply prefix_app_r).
  - apply already_spent with claims; [by eapply Github.verified_prefix|exact Hx].
  - by eapply Hfail.
  - by eapply Hfail.
Qed.
Lemma answer_explained_prefix assertion r h h' : h `prefix_of` h' -> answer_explained assertion r h -> answer_explained assertion r h'.
Proof. intros Hp. destruct r as [|[]]; [done|by apply assertion_refused_prefix|by apply dependency_failed_prefix]. Qed.
Lemma timed_causes assertion (body : io (result ExchangeError string)) h :
  (forall h', wpt body h' (answer_explained assertion)) -> wpt (timed body) h (answer_explained assertion).
Proof.
  intros Hb. apply wp_event; [done|]. intros started. eapply wp_call; [apply Hb|]. intros r h1 _ Hr.
  apply wp_event; [done|]. intros ended. eapply wp_call; [by apply wp_true|]. intros [] h2 Hp _.
  eapply answer_explained_prefix, Hr. etrans; [|exact Hp]. by apply prefix_app_r.
Qed.

Lemma exchange_causes assertion h : wpt (exchange self assertion) h (answer_explained assertion).
Proof.
  apply wpt_skip. intros u h0 _. apply timed_causes. intros h'.
  eapply wp_call; [apply verify_causes|]. intros [claims|[|stage detail]] h1 _ Hv; [by apply redeem_causes|..].
  all: apply wpt_skip; intros u' h2 Hp; by (eapply assertion_refused_prefix || eapply dependency_failed_prefix).
Qed.
(** No answer is unexplained.  When the exchange answers that it is unavailable,
    its execution shows a dependency that failed: an answer of the key endpoint
    without a usable key, a key cache past its staleness bound, an unreadable
    credential, an answer of the Lease API outside its protocol, a record that
    came back, an invalid ledger address, a clock that jumps or is out of range, or
    a keyring that cannot sign.  When it refuses the assertion, the assertion is
    malformed, its key is not in a usable key set that was just fetched or whose last
    fetch for an unknown key is not on record as failed, its signature or its claims
    are not accepted, the policy refuses the identity, or a record that has not
    expired was read under its identifier. *)
Theorem errors_have_causes assertion t r :
  runs (exchange self assertion) t r ->
  (r = Err ExchangeUnavailable -> dependency_failed t)
  /\ (r = Err ExchangeUnauthorized -> assertion_refused t assertion).
Proof. intros Hr. pose proof (wp_runs _ _ _ _ _ _ (exchange_causes assertion []) Hr) as Ha. by split; intros ->. Qed.
End causes.

(** ** Both answers, on the sample exchange *)
#[local] Instance causes_jwt : Jwt := concrete_jwt sample_tokens.
#[local] Instance causes_serde : SerdeJson := concrete_serde ∅.
(** The credential of the Lease API is missing. *)
Definition uncredentialed_world : World :=
  let w := world_at 1700000000 ∅ in
  set_cells w (github_cache exchange_world) (github_refresh w) (oidc_caches w) (oidc_refreshes w)
    (continue_cell w) (readiness_cell w).
Definition sample_exchange : io (result ExchangeError string) :=
  exchange (L := kubernetes_ledger sample_ledger) sample_service "assertion".
Definition second_world : World := (run handle sample_exchange exchange_world).2.
Lemma errors_have_causes_witness :
  assertion_refused sample_service (run_trace handle sample_exchange second_world) "assertion"
  /\ dependency_failed sample_service sample_ledger (run_trace handle sample_exchange uncredentialed_world).
Proof.
  pose proof (concrete_jwt_laws sample_tokens) as Hlaws. split.
  - apply (errors_have_causes sample_service sample_ledger "assertion" _ (Err ExchangeUnauthorized)); [|done].
    apply run_trace_runs. by vm_compute.
  - apply (errors_have_causes sample_service sample_ledger "assertion" _ (Err ExchangeUnavailable)); [|done].
    apply run_trace_runs. by vm_compute.
Defined.
