(* ===== verification/WorkloadPolicy.v ===== *)
(** * The workload policy (workload.rs)

    Which Kubernetes service accounts may exchange their tokens, under which
    subject, with which roles or for which task owner: parsing, validation and
    authorization. *)
From Stdlib Require Import Ascii.
From S2P Require Import Prelude Text Prog Libs State Constants Concrete.

Definition SERVICE_ACCOUNT_PREFIX : string := "system:serviceaccount:".
Definition SUBJECT_PREFIX : string := "kubernetes:serviceaccount:".

Record WorkloadTaskBinding := {
  task_service : string;
  owner_canonical_user_id : string;
  owner_email : string;
}.
#[export] Instance WorkloadTaskBinding_eq_dec : EqDecision WorkloadTaskBinding.
Proof. solve_decision. Defined.
Record WorkloadIdentity := {
  identity_username : string;
  identity_subject : string;
  identity_roles : list string;
  identity_task : option WorkloadTaskBinding;
}.
#[export] Instance WorkloadIdentity_eq_dec : EqDecision WorkloadIdentity.
Proof. solve_decision. Defined.
Record WorkloadPolicy := {
  workload_version : string;
  identities : list WorkloadIdentity;
}.
Inductive WorkloadPolicyError := WorkloadInvalid (message : string) | WorkloadUnauthorized.
#[export] Instance WorkloadPolicyError_eq_dec : EqDecision WorkloadPolicyError.
Proof. solve_decision. Defined.
Definition invalid_policy (message : string) : WorkloadPolicyError := WorkloadInvalid message.

Definition bounded_non_whitespace (value : string) (maximum : nat) : bool :=
  negb (is_empty value) && bool_decide (len value <= maximum) && negb (contains_whitespace value).
Definition canonical_email (value : string) : bool :=
  match split_once "@" value with
  | None => false
  | Some (local, domain) =>
      negb (is_empty local) && contains_char domain "."%char && negb (contains_whitespace value)
      && bool_decide (value = to_ascii_lowercase value)
  end.
Definition canonical_user_id (value : string) : bool :=
  match strip_prefix "usr_" value with
  | Some suffix => bool_decide (len suffix = 32) && bytes_all is_lower_hex suffix
  | None => false
  end.

(** ** Validation *)
Definition task_valid (task : WorkloadTaskBinding) : bool :=
  bounded_non_whitespace (task_service task) 128 && canonical_user_id (owner_canonical_user_id task)
  && canonical_email (owner_email task).
(** The loop body: [usernames] and [subjects] are those of the entries before. *)
Definition validate_identity (seen : gset string * gset string) (identity : WorkloadIdentity) :
  result WorkloadPolicyError (gset string * gset string) :=
  suffix ← ok_or (invalid_policy "usernames must be exact Kubernetes service-account usernames")
             (strip_prefix SERVICE_ACCOUNT_PREFIX (identity_username identity));
  '(namespace, service_account) ←
    match split ":"%char suffix with
    | [namespace; service_account] => Ok (namespace, service_account)
    | _ => Err (invalid_policy "usernames must contain one namespace and service-account name")
    end;
  _ ← reject_if (is_empty namespace || is_empty service_account
                 || contains_char (identity_username identity) "*"%char
                 || bool_decide (identity_subject identity
                                 <> SUBJECT_PREFIX +:+ namespace +:+ ":" +:+ service_account)
                 || bool_decide (identity_username identity ∈ seen.1)
                 || bool_decide (identity_subject identity ∈ seen.2))
        (invalid_policy "workload usernames and subjects must be exact, unique, and corresponding");
  let unique_roles : gset string := list_to_set (identity_roles identity) in
  _ ← reject_if ((bool_decide (identity_roles identity = []) && bool_decide (identity_task identity = None))
                 || bool_decide (size unique_roles <> length (identity_roles identity))
                 || existsb (fun role => is_empty role || contains_whitespace role
                                         || contains_char role "*"%char) (identity_roles identity))
        (invalid_policy "roles must contain unique non-empty exact values for non-task identities");
  _ ← reject_if (match identity_task identity with Some task => negb (task_valid task) | None => false end)
        (invalid_policy "task bindings require an exact service, canonical user ID, and owner email");
  Ok ({[identity_username identity]} ∪ seen.1, {[identity_subject identity]} ∪ seen.2).

Definition validate (self : WorkloadPolicy) : result WorkloadPolicyError () :=
  _ ← reject_if (bool_decide (workload_version self <> WORKLOAD_POLICY_VERSION)
                 || bool_decide (identities self = []))
        (invalid_policy "unsupported or empty workload policy");
  _ ← try_fold validate_identity (∅, ∅) (identities self);
  Ok ().

Definition with_sorted_roles (identity : WorkloadIdentity) : WorkloadIdentity := {|
  identity_username := identity_username identity;
  identity_subject := identity_subject identity;
  identity_roles := sort_strings (identity_roles identity);
  identity_task := identity_task identity;
|}.
Definition authorize (self : WorkloadPolicy) (username : string) :
  result WorkloadPolicyError WorkloadIdentity :=
  match filter (fun identity => identity_username identity = username) (identities self) with
  | [] => Err WorkloadUnauthorized
  | [identity] => Ok (with_sorted_roles identity)
  | _ => Err WorkloadUnauthorized
  end.

(** ** Parsing *)
Definition task_binding_deserialize (v : Value) : option WorkloadTaskBinding :=
  if negb (only_fields ["service"; "owner_canonical_user_id"; "owner_email"] v) then None else
  service ← field v "service" as_str;
  owner ← field v "owner_canonical_user_id" as_str;
  email ← field v "owner_email" as_str;
  Some {| task_service := service; owner_canonical_user_id := owner; owner_email := email |}.
(** A [Vec] field with [serde(default)]: absent is empty, [null] an error. *)
Definition default_strings (v : Value) (n : string) : option (list string) :=
  match get_field v n with None => Some [] | Some x => strings x end.
Definition identity_deserialize (v : Value) : option WorkloadIdentity :=
  if negb (only_fields ["username"; "subject"; "roles"; "task"] v) then None else
  username ← field v "username" as_str;
  subject ← field v "subject" as_str;
  roles ← default_strings v "roles";
  task ← optional_field v "task" task_binding_deserialize;
  Some {| identity_username := username; identity_subject := subject;
          identity_roles := roles; identity_task := task |}.
Definition workload_policy_deserialize (v : Value) : option WorkloadPolicy :=
  if negb (only_fields ["version"; "identities"] v) then None else
  version ← field v "version" as_str;
  entries ← field v "identities" as_array;
  identities ← mapM identity_deserialize entries;
  Some {| workload_version := version; identities := identities |}.
(** [WorkloadPolicy::load], from the outcome of reading the file. *)
Definition workload_policy_load `{!SerdeJson} (file : result string string) :
  result WorkloadPolicyError WorkloadPolicy :=
  contents ← map_err WorkloadInvalid file;
  value ← ok_or (invalid_policy (json_error contents)) (parse_json contents);
  policy ← ok_or (invalid_policy (value_error value)) (workload_policy_deserialize value);
  _ ← validate policy;
  Ok policy.

(** ** What validation accepts *)
Record identity_valid (identity : WorkloadIdentity) : Prop := {
  valid_account : exists namespace service_account,
    identity_username identity = SERVICE_ACCOUNT_PREFIX +:+ namespace +:+ ":" +:+ service_account
    /\ identity_subject identity = SUBJECT_PREFIX +:+ namespace +:+ ":" +:+ service_account
    /\ namespace <> "" /\ service_account <> ""
    /\ contains_char namespace ":"%char = false /\ contains_char service_account ":"%char = false
    /\ contains_char (identity_username identity) "*"%char = false;
  valid_roles : NoDup (identity_roles identity)
    /\ Forall (fun role => role <> "" /\ contains_whitespace role = false
                           /\ contains_char role "*"%char = false) (identity_roles identity);
  valid_purpose : identity_roles identity <> [] \/ identity_task identity <> None;
  valid_task : forall task, identity_task identity = Some task -> task_valid task = true;
}.

(** ** Strings and sets *)
Lemma split_two c s a b :
  split c s = [a; b] <->
  s = a +:+ String c b /\ contains_char a c = false /\ contains_char b c = false.
Proof.
  split.
  - intros H. pose proof (join_split c s) as Hj. pose proof (split_no_sep c s) as Hn.
    rewrite H in *. split; [by rewrite <- Hj|]. by rewrite !Forall_cons in Hn; destruct_and!.
  - intros (-> & Ha & Hb). by rewrite split_app, split_no_occurrence.
Qed.
Lemma size_list_to_set_le (l : list string) : size (list_to_set l : gset string) <= length l.
Proof.
  induction l as [|x l IH]; [done|]. cbn. destruct (decide (x ∈ (list_to_set l : gset string))).
  - rewrite subseteq_union_1_L by set_solver. lia.
  - rewrite size_union, size_singleton by set_solver. lia.
Qed.
Lemma NoDup_size (l : list string) : size (list_to_set l : gset string) = length l <-> NoDup l.
Proof.
  split; [|apply size_list_to_set]. induction l as [|x l IH]; [constructor|]. intros Hs.
  pose proof (size_list_to_set_le l) as Hle. cbn in Hs.
  destruct (decide (x ∈ (list_to_set l : gset string))) as [Hin|Hnin].
  - rewrite subseteq_union_1_L in Hs by set_solver. lia.

  - rewrite size_union, size_singleton in Hs by set_solver. constructor; [set_solver|]. apply IH. lia.
Qed.

Lemma validate_identity_spec seen identity seen' :
  validate_identity seen identity = Ok seen' <->
  identity_valid identity /\ (identity_username identity ∉ seen.1) /\ (identity_subject identity ∉ seen.2)
  /\ seen' = ({[identity_username identity]} ∪ seen.1, {[identity_subject identity]} ∪ seen.2).
Proof.
  unfold validate_identity. split.
  - intros H. apply result_bind_ok in H as (suffix & Hs%ok_or_ok & H).
    apply strip_prefix_Some in Hs. apply result_bind_ok in H as ([ns sa] & Hp & H).
    destruct (split ":" suffix) as [|a [|b [|]]] eqn:Hsp; try done. injection Hp as -> ->.
    apply split_two in Hsp as (-> & Hns & Hsa). result_simpl.
    repeat match goal with
      | H : ¬ (_ ≠ _) |- _ => apply dec_stable in H
      | H : is_empty _ = false |- _ => apply is_empty_false in H
      | H : existsb _ _ = false |- _ => apply existsb_false in H
      end.
    split_and!; try done. split.
    + exists ns, sa. done.
    + split; [by apply NoDup_size|]. eapply Forall_impl; [done|]. cbn beta. intros role Hr. result_simpl.
      split_and!; [by apply is_empty_false|done..].
    + match goal with H : bool_decide _ && bool_decide _ = false |- _ => apply andb_false_iff in H as [H|H] end;
        result_simpl; auto.
    + intros task Ht. match goal with H : match identity_task _ with _ => _ end = false |- _ => rewrite Ht in H end.
      by result_simpl.
  - intros ([(ns & sa & Hu & Hsub & Hn & Hs & Hnc & Hsc & Hst) [Hnd Hr] Hp Ht] & Hnu & Hns & ->).
    rewrite Hu. rewrite (proj2 (strip_prefix_Some _ _ _) eq_refl). cbn [ok_or mbind result_bind].
    rewrite (proj2 (split_two ":" _ ns sa)) by done. cbn -[reject_if contains_whitespace existsb]. rewrite <- Hu.
    rewrite (proj2 (is_empty_false ns)), (proj2 (is_empty_false sa)), Hst by done.
    rewrite (bool_decide_false (identity_subject identity ≠ _)) by (intros Hf; by apply Hf).
    rewrite (bool_decide_false _ Hnu), (bool_decide_false _ Hns). cbn -[contains_whitespace existsb].
    replace (bool_decide (size (list_to_set (identity_roles identity) : gset string)
                          ≠ length (identity_roles identity))) with false
      by (symmetry; apply bool_decide_eq_false; intros Hf; by apply Hf, NoDup_size).
    replace (existsb _ (identity_roles identity)) with false.
    2:{ symmetry. apply existsb_false. eapply Forall_impl; [exact Hr|]. intros role (He & Hw & Hc).
        by rewrite (proj2 (is_empty_false role)), Hw, Hc. }
    replace (bool_decide (identity_roles identity = []) && bool_decide (identity_task identity = None)) with false
      by (symmetry; apply andb_false_iff; rewrite !bool_decide_eq_false; destruct Hp; auto).
    cbn. destruct (identity_task identity) as [task|]; [|done]. by rewrite (Ht task).
Qed.

Lemma validate_identities_spec seen l :
  (exists seen', try_fold validate_identity seen l = Ok seen') <->
  Forall identity_valid l /\ NoDup (identity_username <$> l) /\ NoDup (identity_subject <$> l)
  /\ forall x, x ∈ l -> (identity_username x ∉ seen.1) /\ (identity_subject x ∉ seen.2).
Proof.
  revert seen. induction l as [|x l IH]; intros seen; cbn [try_fold fmap list_fmap].
  - split; [|by eexists]. intros _. split_and!; [constructor..|]. by intros x ?%elem_of_nil.
  - rewrite Forall_cons, !NoDup_cons. split.
    + intros (s & (s1 & (Hv & Hu & Hs & ->)%validate_identity_spec & Hf)%result_bind_ok).
      destruct (proj1 (IH _) (ex_intro _ _ Hf)) as (Hl & Hnu & Hns & Hfr). cbn in Hfr.
      split_and!; try done.
      * rewrite list_elem_of_fmap. intros (y & Hy & Hin). destruct (Hfr y Hin). set_solver.
      * rewrite list_elem_of_fmap. intros (y & Hy & Hin). destruct (Hfr y Hin). set_solver.
      * intros y [->|Hin]%elem_of_cons; [done|]. destruct (Hfr y Hin). set_solver.
    + intros ((Hx & Hl) & (Hxu & Hnu) & (Hxs & Hns) & Hfr).
      destruct (Hfr x ltac:(set_solver)) as [Hu Hs].
      rewrite (proj2 (validate_identity_spec seen x _)) by done. cbn [mbind result_bind].
      apply IH. split_and!; try done. cbn. intros y Hy. destruct (Hfr y ltac:(set_solver)).
      assert (identity_username y <> identity_username x)
        by (intros Heq; apply Hxu, list_elem_of_fmap; by exists y).
      assert (identity_subject y <> identity_subject x)
        by (intros Heq; apply Hxs, list_elem_of_fmap; by exists y).
      split; set_solver.

Qed.

(** The subject of a valid entry determines its username, and conversely. *)
Lemma subject_username i j :
  identity_valid i -> identity_valid j ->
  identity_subject i = identity_subject j <-> identity_username i = identity_username j.
Proof.
  intros [(n1 & s1 & -> & -> & _) _ _ _] [(n2 & s2 & -> & -> & _) _ _ _].
  split; by intros ->%(inj (String.append _)).
Qed.

Definition policy_valid (self : WorkloadPolicy) : Prop :=
  workload_version self = WORKLOAD_POLICY_VERSION /\ identities self <> []
  /\ Forall identity_valid (identities self) /\ NoDup (identity_username <$> identities self).
Lemma validate_spec self : validate self = Ok () <-> policy_valid self.
Proof.
  unfold validate, policy_valid. split.
  - intros H. apply result_bind_ok in H as ([] & Hg & H). apply result_bind_ok in H as (s & Hf & _).
    destruct (proj1 (validate_identities_spec _ _) (ex_intro _ _ Hf)) as (Hl & Hu & _ & _).
    result_simpl. split_and!; try done. by apply dec_stable.
  - intros (Hv & Hn & Hl & Hu). rewrite Hv, !bool_decide_false by (try done; by intros []). cbn [orb reject_if].
    cbn [mbind result_bind].
    destruct (proj2 (validate_identities_spec (∅, ∅) (identities self))) as [s ->]; [|done].
    split_and!; try done. clear Hn Hv. induction (identities self) as [|x l IH]; [constructor|].
    cbn in *. apply Forall_cons in Hl as [Hx Hl]. apply NoDup_cons in Hu as [Hxu Hu].
    constructor; [|by apply IH]. rewrite list_elem_of_fmap. intros (y & Hy & Hin). apply Hxu.
    apply list_elem_of_fmap. exists y. split; [|done]. rewrite Forall_forall in Hl.
    apply subject_username; auto.
Qed.

Lemma filter_username (l : list WorkloadIdentity) u i :
  NoDup (identity_username <$> l) -> i ∈ l -> identity_username i = u ->
  filter (fun identity => identity_username identity = u) l = [i].
Proof.
  intros Hnd Hin Hu. induction l as [|x l IH]; [by apply elem_of_nil in Hin|].
  cbn in Hnd. apply NoDup_cons in Hnd as [Hx Hl]. rewrite filter_cons.
  apply elem_of_cons in Hin as [->|Hin].
  - rewrite decide_True by done. f_equal. destruct (filter _ l) as [|y r] eqn:Hf; [done|]. exfalso.
    assert (y ∈ filter (fun identity => identity_username identity = u) l) as [Hy Hyl]%list_elem_of_filter
      by (rewrite Hf; apply elem_of_cons; by left).
    apply Hx, list_elem_of_fmap. exists y. by rewrite Hu, Hy.
  - rewrite decide_False; [by apply IH|]. intros Hxu. apply Hx, list_elem_of_fmap. exists i. by rewrite Hxu, Hu.
Qed.
Lemma authorize_in self u w :
  authorize self u = Ok w -> exists i, i ∈ identities self /\ identity_username i = u /\ w = with_sorted_roles i.
Proof.
  unfold authorize. destruct (filter _ _) as [|i [|]] eqn:Hf; try done. intros [= <-]. exists i.
  assert (i ∈ filter (fun identity => identity_username identity = u) (identities self)) as [Hi Hil]%list_elem_of_filter
    by (rewrite Hf; by apply list_elem_of_singleton). done.
Qed.
Lemma authorize_valid self u i :
  policy_valid self -> i ∈ identities self -> identity_username i = u ->
  authorize self u = Ok (with_sorted_roles i).
Proof. intros (_ & _ & _ & Hu) Hi Hn. unfold authorize. by rewrite (filter_username _ _ i). Qed.

(** C33: a policy validates exactly when it has the supported version and entries,
    each for one namespace and service account with the corresponding subject,
    with sound unique roles or a sound task, and no username twice. *)
Theorem workload_validate_exact self : validate self = Ok () <-> policy_valid self.
Proof. apply validate_spec. Qed.

(** Under a validated policy a username is authorized exactly when it has an
    entry, and gets that entry with its roles sorted; different usernames get
    different subjects. *)
Theorem workload_authorize_exact self :
  validate self = Ok () ->
  (forall u w, authorize self u = Ok w <->
     exists i, i ∈ identities self /\ identity_username i = u /\ w = with_sorted_roles i)
  /\ (forall u w, authorize self u = Ok w ->
        Sorted String.le (identity_roles w) /\ NoDup (identity_roles w)
        /\ (identity_roles w <> [] \/ identity_task w <> None))
  /\ (forall u1 u2 w1 w2, authorize self u1 = Ok w1 -> authorize self u2 = Ok w2 ->
        identity_subject w1 = identity_subject w2 -> u1 = u2).
Proof.
  intros Hv%validate_spec. pose proof Hv as (_ & _ & Hl & _). rewrite Forall_forall in Hl. split_and!.
  - intros u w. split; [apply authorize_in|]. intros (i & Hi & Hu & ->). by apply authorize_valid.
  - intros u w (i & Hi & Hu & ->)%authorize_in. cbn. destruct (Hl i Hi) as [_ [Hr _] Hp _]. split_and!.
    + apply sort_strings_sorted.
    + by rewrite sort_strings_perm.
    + destruct Hp as [Hp|]; [left|by right]. intros Hs. apply Hp.
      apply Permutation_nil. by rewrite <- Hs, sort_strings_perm.
  - intros u1 u2 w1 w2 (i & Hi & <- & ->)%authorize_in (j & Hj & <- & ->)%authorize_in. cbn.
    apply subject_username; auto.
Qed.

(** ** A policy *)
Definition sample_task : WorkloadTaskBinding := {|
  task_service := "runner"; owner_canonical_user_id := "usr_0123456789abcdef0123456789abcdef";
  owner_email := "owner@example.com" |}.
Definition sample_identity (name : string) (roles : list string) (task : option WorkloadTaskBinding) :
  WorkloadIdentity := {|
  identity_username := "system:serviceaccount:steward:" +:+ name;
  identity_subject := "kubernetes:serviceaccount:steward:" +:+ name;
  identity_roles := roles; identity_task := task |}.
Definition sample_workload_policy : WorkloadPolicy := {|
  workload_version := WORKLOAD_POLICY_VERSION;
  identities := [sample_identity "gateway" ["reader"; "browser-hop1-issuer"] None;
                 sample_identity "runner" [] (Some sample_task)] |}.
Lemma workload_authorize_exact_witness :
  validate sample_workload_policy = Ok ()
  /\ authorize sample_workload_policy "system:serviceaccount:steward:gateway"
     = Ok (sample_identity "gateway" ["browser-hop1-issuer"; "reader"] None).
Proof.
  assert (validate sample_workload_policy = Ok ()) as Hv by by vm_compute. split; [exact Hv|].
  apply (workload_authorize_exact sample_workload_policy Hv).
  exists (sample_identity "gateway" ["reader"; "browser-hop1-issuer"] None).
  split; [apply elem_of_cons; by left|split; by vm_compute].
Defined.
