(* ===== verification/Workload.v ===== *)
(** * The workload exchange (workload.rs)

    A Kubernetes service-account token, authenticated by a TokenReview, is
    exchanged for a role token, or, for a task identity, for a task token whose
    source is recorded in the replay ledger. *)
From Stdlib Require Import Ascii.
From S2P Require Import Prelude Text Prog Libs State Constants Concrete Replay Simulator ReplaySafety Exchange Keys WorkloadPolicy.

Definition MAX_ASSERTION_BYTES : nat := 32 * 1024.
Definition TOKEN_REVIEW_PATH : string := "/apis/authentication.k8s.io/v1/tokenreviews".

(** ** Token review *)
Record ReviewedWorkload := { reviewed_username : string }.
Inductive ReviewError := ReviewInvalid | ReviewUnavailable.
#[export] Instance ReviewError_eq_dec : EqDecision ReviewError.
Proof. solve_decision. Defined.

(** Trait [TokenReviewer]. *)
Class TokenReviewer `{!Jwt} := {
  review : string -> string -> io (result ReviewError ReviewedWorkload);
}.

Record KubernetesTokenReviewer := { endpoint : Url; reviewer_credential_file : string }.

Section in_cluster.
Context `{!Jwt, !UrlLib, !Reqwest}.
(** [env::var]: the process environment. *)
Context (env : string -> option string).
Definition reviewer_in_cluster : io (result ReviewError KubernetesTokenReviewer) :=
  match env "KUBERNETES_SERVICE_HOST" with
  | None => mret (Err ReviewUnavailable)
  | Some host =>
  if is_empty host || contains_char host "/" || contains_char host "?" || contains_char host "#" then
    mret (Err ReviewUnavailable)
  else
  let port := default "443" (env "KUBERNETES_SERVICE_PORT_HTTPS") in
  if bool_decide (parse_uint 65535 port = None) then mret (Err ReviewUnavailable)
  else
  let authority := if contains_char host ":" then "[" +:+ host +:+ "]" else host in
  match url_parse ("https://" +:+ authority +:+ ":" +:+ port +:+ TOKEN_REVIEW_PATH) with
  | None => mret (Err ReviewUnavailable)
  | Some endpoint =>
  let ca_file := default "/var/run/secrets/kubernetes.io/serviceaccount/ca.crt"
                   (env "KUBERNETES_CA_CERTIFICATE_FILE") in
  let credential := default "/var/run/secrets/kubernetes.io/serviceaccount/token"
                      (env "KUBERNETES_SERVICE_ACCOUNT_TOKEN_FILE") in
  pem ← trigger (ReadFile ca_file);
  mret (
    pem ← map_err (fun _ => ReviewUnavailable) pem;
    _ ← map_err (fun _ => ReviewUnavailable) (certificate_from_pem pem);
    _ ← map_err (fun _ => ReviewUnavailable) (client_build (Some pem));
    Ok {| endpoint := endpoint; reviewer_credential_file := credential |})
  end
  end.
End in_cluster.

(** The request body. *)
Definition token_review_request (token audience : string) : Value := object [
  ("apiVersion", VString "authentication.k8s.io/v1");
  ("kind", VString "TokenReview");
  ("spec", object [("token", VString token); ("audiences", str_list [audience])])].

(** The response, as far as it is decoded. *)
Record TokenReviewUser := { user_username : option string }.
Record TokenReviewStatus := {
  authenticated : option bool;
  status_audiences : option (list string);
  user : option TokenReviewUser;
}.
Record TokenReviewResponse := { response_status : option TokenReviewStatus }.

Definition is_object (v : Value) : bool := bool_decide (is_Some (as_object v)).
Definition user_deserialize (v : Value) : option TokenReviewUser :=
  if negb (is_object v) then None else
  username ← optional_field v "username" as_str;
  Some {| user_username := username |}.
Definition review_status_deserialize (v : Value) : option TokenReviewStatus :=
  if negb (is_object v) then None else
  authenticated ← optional_field v "authenticated" as_bool;
  audiences ← optional_field v "audiences" strings;
  user ← optional_field v "user" user_deserialize;
  Some {| authenticated := authenticated; status_audiences := audiences; user := user |}.
Definition token_review_deserialize (v : Value) : option TokenReviewResponse :=
  if negb (is_object v) then None else
  status ← optional_field v "status" review_status_deserialize;
  Some {| response_status := status |}.

Definition validate_token_review (response : TokenReviewResponse) (audience : string) :
  result ReviewError string :=
  status ← ok_or ReviewInvalid (response_status response);
  let exact_audience :=
    match status_audiences status with
    | Some [reviewed_audience] => bool_decide (reviewed_audience = audience)
    | _ => false
    end in
  if bool_decide (authenticated status <> Some true) || negb exact_audience then Err ReviewInvalid
  else
    match user status ≫= user_username with
    | Some username => if is_empty username then Err ReviewInvalid else Ok username
    | None => Err ReviewInvalid
    end.

Section reviewer.
Context `{!Jwt}.
Definition kubernetes_review (self : KubernetesTokenReviewer) (token audience : string) :
  io (result ReviewError ReviewedWorkload) :=
  if is_empty token || bool_decide (MAX_ASSERTION_BYTES < len token) || is_empty audience
  then mret (Err ReviewInvalid)
  else
  contents ← trigger (ReadFile (reviewer_credential_file self));
  contents ←? mret (map_err (fun _ => ReviewUnavailable) contents);
  let credential := trim contents in
  if is_empty credential then mret (Err ReviewUnavailable)
  else
  response ← trigger (TokenReviewPost credential (token_review_request token audience));
  mret (
    response ← ok_or ReviewUnavailable response;
    _ ← reject_if (negb response.1) ReviewUnavailable;
    body ← ok_or ReviewUnavailable (response.2 ≫= token_review_deserialize);
    username ← validate_token_review body audience;
    Ok {| reviewed_username := username |}).
Definition kubernetes_reviewer (self : KubernetesTokenReviewer) : TokenReviewer :=
  {| review := kubernetes_review self |}.
End reviewer.

(** The claims read from a token the review authenticated. *)
Record ProjectedTokenClaims := { projected_jti : string; projected_exp : Z }.
Definition projected_deserialize (v : Value) : option ProjectedTokenClaims :=
  jti ← field v "jti" as_str;
  exp ← field v "exp" as_i64;
  Some {| projected_jti := jti; projected_exp := exp |}.

(** ** Output claims *)
Record WorkloadOutputClaims := {
  wo_iss : string; wo_sub : string; wo_aud : list string;
  wo_exp : Z; wo_iat : Z; wo_nbf : Z; wo_jti : string;
  wo_roles : list string;
  wo_identity_contract : string;
}.
Record WorkloadTaskOutputClaims := {
  wt_iss : string; wt_sub : string; wt_aud : list string;
  wt_exp : Z; wt_iat : Z; wt_nbf : Z; wt_jti : string;
  wt_email : string; wt_email_verified : bool; wt_groups : list string;
  wt_identity_contract : string;
}.
Definition workload_output_value (c : WorkloadOutputClaims) : Value := object [
  ("iss", VString (wo_iss c)); ("sub", VString (wo_sub c)); ("aud", str_list (wo_aud c));
  ("exp", num (wo_exp c)); ("iat", num (wo_iat c)); ("nbf", num (wo_nbf c)); ("jti", VString (wo_jti c));
  ("roles", str_list (wo_roles c)); ("identity_contract", VString (wo_identity_contract c))].
Definition task_output_value (c : WorkloadTaskOutputClaims) : Value := object [
  ("iss", VString (wt_iss c)); ("sub", VString (wt_sub c)); ("aud", str_list (wt_aud c));
  ("exp", num (wt_exp c)); ("iat", num (wt_iat c)); ("nbf", num (wt_nbf c)); ("jti", VString (wt_jti c));
  ("email", VString (wt_email c)); ("email_verified", VBool (wt_email_verified c));
  ("groups", str_list (wt_groups c)); ("identity_contract", VString (wt_identity_contract c))].
(** The groups that name a task's service and owner. *)
Definition task_groups (task : WorkloadTaskBinding) : list string := [
  "agents.apelogic.ai/service-principal:" +:+ task_service task;
  "agents.apelogic.ai/canonical-user:" +:+ owner_canonical_user_id task;
  "agents.apelogic.ai/task-owner:" +:+ owner_email task].

Inductive WorkloadExchangeError := WorkloadExchangeUnauthorized | WorkloadExchangeUnavailable.
#[export] Instance WorkloadExchangeError_eq_dec : EqDecision WorkloadExchangeError.
Proof. solve_decision. Defined.

Record WorkloadExchangeService `{!P256, !Rsa} := {
  workload_policy : WorkloadPolicy;
  workload_keys : RsaKeyRing;
  task_keys : KeyRing;
  workload_issuer : string;
  input_audience : string;
  workload_output_audience : string;
  task_output_audience : string;
  workload_token_ttl : Z;   (** a [Duration], in nanoseconds *)
}.

Section exchange.
Context `{!Jwt, !SerdeJson, !Chrono, !Base64, !P256, !Rsa, !Sha2}.
Context `{R : !TokenReviewer, L : !ReplayLedger}.
Context (self : WorkloadExchangeService).

Definition hash_identifier (value : string) : string := hex (take 8 (sha256 value)).

Definition deny (reason : string) : io () :=
  _ ← count WorkloadExchange Denied;
  log "workload_exchange_denied" [("reason", reason)].
Definition fail (reason : string) : io () :=
  _ ← count WorkloadExchange Errors;
  log "workload_exchange_failed" [("reason", reason)].

Definition task_output (identity : WorkloadIdentity) (task : WorkloadTaskBinding) (now : Z) (jti : string) :
  WorkloadTaskOutputClaims := {|
  wt_iss := workload_issuer self; wt_sub := identity_subject identity; wt_aud := [task_output_audience self];
  wt_exp := u64_add now (as_secs (workload_token_ttl self)); wt_iat := now;
  wt_nbf := u64_saturating_sub now 5; wt_jti := jti;
  wt_email := owner_email task; wt_email_verified := true; wt_groups := task_groups task;
  wt_identity_contract := IDENTITY_CONTRACT |}.
Definition role_output (identity : WorkloadIdentity) (now : Z) (jti : string) : WorkloadOutputClaims := {|
  wo_iss := workload_issuer self; wo_sub := identity_subject identity; wo_aud := [workload_output_audience self];
  wo_exp := u64_add now (as_secs (workload_token_ttl self)); wo_iat := now;
  wo_nbf := u64_saturating_sub now 5; wo_jti := jti;
  wo_roles := identity_roles identity; wo_identity_contract := WORKLOAD_IDENTITY_CONTRACT |}.

(** The common end: a signed token is counted and audited, a failure refused. *)
Definition issue (username : string) (signed : result KeyError string) : io (result WorkloadExchangeError string) :=
  match signed with
  | Err _ => _ ← fail "signing_unavailable"; mret (Err WorkloadExchangeUnavailable)
  | Ok token =>
      _ ← count WorkloadExchange Issued;
      _ ← log "workload_exchange_issued" [("source_username_hash", hash_identifier username)];
      mret (Ok token)
  end.
(** The branch of a task identity. *)
Definition redeem_task (assertion username : string) (identity : WorkloadIdentity)
    (task : WorkloadTaskBinding) (now : Z) : io (result WorkloadExchangeError string) :=
  match insecure_decode assertion ≫= projected_deserialize with
  | None => _ ← deny "source_claims_invalid"; mret (Err WorkloadExchangeUnauthorized)
  | Some claims =>
      if negb (bounded_non_whitespace (projected_jti claims) 128)
         || bool_decide (projected_exp claims <= wrap_i64 now)%Z
      then _ ← deny "source_claims_invalid"; mret (Err WorkloadExchangeUnauthorized)
      else
        used ← ledger_use_once (projected_jti claims) (projected_exp claims);
        match used with
        | Ok () =>
            uuid ← trigger NewUuid;
            signed ← sign (task_keys self) (task_output_value (task_output identity task now uuid));
            issue username signed
        | Err Replayed => _ ← deny "source_replay"; mret (Err WorkloadExchangeUnauthorized)
        | Err _ => _ ← fail "ledger_unavailable"; mret (Err WorkloadExchangeUnavailable)
        end
  end.
Definition exchange (assertion : string) : io (result WorkloadExchangeError string) :=
  _ ← count WorkloadExchange Requests;
  reviewed ← review assertion (input_audience self);
  match reviewed with
  | Err ReviewInvalid => _ ← deny "token_review_rejected"; mret (Err WorkloadExchangeUnauthorized)
  | Err ReviewUnavailable => _ ← fail "token_review_unavailable"; mret (Err WorkloadExchangeUnavailable)
  | Ok reviewed =>
      match authorize (workload_policy self) (reviewed_username reviewed) with
      | Err _ => _ ← deny "workload_unmapped"; mret (Err WorkloadExchangeUnauthorized)
      | Ok caller =>
          now ← get_current_timestamp;
          match identity_task caller with
          | Some task => redeem_task assertion (reviewed_username reviewed) caller task now
          | None =>
              uuid ← trigger NewUuid;
              signed ← rsa_sign (workload_keys self) (workload_output_value (role_output caller now uuid));
              issue (reviewed_username reviewed) signed
          end
      end
  end.
End exchange.

(** ** The reviewer as the exchange sees it *)
(** [reviewed h token audience username]: the review service answered, for
    exactly this token and audience, that it belongs to [username]. *)
Class AuditedReviewer `{jwt : Jwt} (R : TokenReviewer) := {
  reviewed : trace_io -> string -> string -> string -> Prop;
  reviewed_prefix h h' token audience username :
    h `prefix_of` h' -> reviewed h token audience username -> reviewed h' token audience username;
  review_spec token audience h :
    wp (fun _ _ e => lease_write e = false /\ service_metric e = false) (review token audience) h
      (fun r h' => forall w, r = Ok w -> reviewed h' token audience (reviewed_username w));
}.

Definition vouches (response : TokenReviewResponse) (audience username : string) : Prop :=
  exists s, response_status response = Some s /\ authenticated s = Some true
  /\ status_audiences s = Some [audience] /\ (user s ≫= user_username) = Some username /\ username <> "".
Lemma validate_token_review_spec response audience username :
  validate_token_review response audience = Ok username <-> vouches response audience username.
Proof.
  unfold validate_token_review, vouches. split.
  - intros H. apply result_bind_ok in H as (s & Hs%ok_or_ok & H). exists s.
    destruct (_ || _) eqn:G; [done|]. result_simpl. apply dec_stable in H0.
    destruct (status_audiences s) as [[|a [|]]|]; try done. apply bool_decide_eq_true in H1 as ->.
    destruct (user s ≫= user_username) as [u|]; [|done]. destruct (is_empty u) eqn:He; [done|].
    injection H as ->. by apply is_empty_false in He.
  - intros (s & -> & Ha & Hau & Hu & He). cbn [ok_or mbind result_bind].
    rewrite Ha, Hau, Hu, bool_decide_false, bool_decide_true by (try done; by intros []). cbn.
    by rewrite (proj2 (is_empty_false username)).
Qed.

#[export,refine] Instance kubernetes_audited `{jwt : Jwt} self : AuditedReviewer (kubernetes_reviewer self) := {|
  reviewed h token audience username := exists credential body response,
    Obs (TokenReviewPost credential (token_review_request token audience)) (Some (true, Some body)) ∈ h
    /\ token_review_deserialize body = Some response /\ vouches response audience username;
|}.
Proof.
  - intros h h' token audience username [k ->] (c & b & r & Hin & ?). exists c, b, r.
    split; [by apply elem_of_app; left|done].
  - intros token audience h. cbn [review kubernetes_reviewer]. unfold kubernetes_review.
    destruct (_ || _); [done|]. split; [done|]. intros [contents|e]; [|done]. cbn.
    destruct (is_empty _); [done|]. split; [done|]. intros x.
    destruct x as [[ok body]|]; [|done]. cbn. destruct ok; [|done]. cbn.
    destruct body as [b|]; [|done]. cbn. destruct (token_review_deserialize b) as [response|] eqn:Hd; [|done].
    cbn. destruct (validate_token_review response audience) as [u|] eqn:Hv; [|done]. cbn.
    intros w [= <-]. apply validate_token_review_spec in Hv. eexists _, b, response.
    split; [|done]. apply elem_of_app. right. by apply list_elem_of_singleton.
Defined.

(** C22: a review answer is accepted exactly when it authenticates the token for
    the one audience asked for, with a non-empty username; and an accepted token
    was sent, itself, to the review API in a request for that audience whose
    answer is such. *)
Theorem review_exact `{jwt : Jwt} self token audience :
  (forall response username, validate_token_review response audience = Ok username <->
     vouches response audience username)
  /\ (forall t w, runs (kubernetes_review self token audience) t (Ok w) ->
     exists credential body response,
       Obs (TokenReviewPost credential (token_review_request token audience)) (Some (true, Some body)) ∈ t
       /\ token_review_deserialize body = Some response
       /\ vouches response audience (reviewed_username w)).
Proof.
  split; [intros; apply validate_token_review_spec|]. intros t w Hr.
  exact (wp_runs _ _ [] _ _ _ (review_spec (R := kubernetes_reviewer self) token audience []) Hr w eq_refl).
Qed.

(** ** The exchange *)
Section exchange_theorems.
Context `{jwt : Jwt, serde : SerdeJson, chrono : Chrono, b64 : Base64, p256 : P256, rsa : Rsa, sha : Sha2}.
Context `{R : !TokenReviewer, !AuditedReviewer R, L : !ReplayLedger, !LeaseLedger L}.
Context (self : WorkloadExchangeService).

Definition outcome_of (r : result WorkloadExchangeError string) (o : outcome) : Prop :=
  match r with
  | Ok _ => o = Issued
  | Err WorkloadExchangeUnauthorized => o = Denied
  | Err WorkloadExchangeUnavailable => o = Errors
  end.
(** The claims a token carries. *)
Definition projected_of (assertion : string) : option ProjectedTokenClaims :=
  insecure_decode assertion ≫= projected_deserialize.

(** What stands behind an issued token. *)
Record issued (h : trace_io) (assertion token : string) : Prop := {
  issued_from : exists username caller now uuid signed_at,
    reviewed h assertion (input_audience self) username
    /\ authorize (workload_policy self) username = Ok caller
    /\ Obs CurrentTimestamp now ∈ h /\ Obs NewUuid uuid ∈ h /\ Obs UtcNow signed_at ∈ h
    /\ match identity_task caller with
       | Some task => exists claims, projected_of assertion = Some claims
           /\ bounded_non_whitespace (projected_jti claims) 128 = true
           /\ (wrap_i64 now < projected_exp claims)%Z
           /\ 1 <= writes (lease_name (projected_jti claims)) h
           /\ sign_at (task_keys self) (task_output_value (task_output self caller task now uuid)) signed_at = Ok token
       | None =>
           rsa_sign_at (workload_keys self) (workload_output_value (role_output self caller now uuid)) signed_at
           = Ok token
       end
}.
Lemma workload_issued_prefix h h' assertion token :
  h `prefix_of` h' -> issued h assertion token -> issued h' assertion token.
Proof.
  intros Hp [(u & w & now & uuid & at_ & Hr & Ha & H1 & H2 & H3 & Hs)]. split.
  exists u, w, now, uuid, at_. pose proof Hp as [k ->].
  split_and!; try done; [by eapply reviewed_prefix|by apply elem_of_app; left..|].
  destruct (identity_task w); [|done]. destruct Hs as (c & Hc & Hb & He & Hw & Hs).
  exists c. split_and!; try done. rewrite writes_app. lia.
Qed.

Definition exchange_post (h : trace_io) (assertion : string) (r : result WorkloadExchangeError string)
    (h' : trace_io) : Prop :=
  (exists o, outcome_of r o /\ moved [Count WorkloadExchange o; Count WorkloadExchange Requests] h h')
  /\ (forall token, r = Ok token -> issued h' assertion token)
  /\ (r = Err WorkloadExchangeUnauthorized -> forall n, writes n h' = writes n h).

Context (P : string -> Z -> Prop) (assertion : string) (h0 : trace_io).
Abbreviation requested := (moved [Count WorkloadExchange Requests] h0).
Abbreviation post := (exchange_post h0 assertion).

Lemma wp_refuse h ev fields o (e : WorkloadExchangeError) :
  outcome_of (Err e) o -> requested h ->
  (e = WorkloadExchangeUnauthorized -> forall n, writes n h = writes n h0) ->
  wp (lease_discipline P) (_ ← count WorkloadExchange o; _ ← log ev fields; mret (Err e)) h post.
Proof.
  intros Ho Hm Hw. eapply wp_settle; [apply lease_discipline_allows|done| |].
  - destruct e; cbn in Ho; subst; set_solver.
  - intros h' _ Hm' Hw'. split; [by exists o|]. split; [done|]. intros [= He] n. rewrite Hw'. by apply Hw.
Qed.
Lemma wp_workload_issue h username signed :
  requested h -> (forall token, signed = Ok token -> issued h assertion token) ->
  wp (lease_discipline P) (issue username signed) h post.
Proof.
  intros Hm Hi. destruct signed as [token|e]; [|by apply (wp_refuse h _ _ Errors WorkloadExchangeUnavailable)].
  eapply (wp_settle _ _ h0); [apply lease_discipline_allows|exact Hm|set_solver|].

  intros h' Hp Hm' _. split; [by exists Issued|]. split; [|done].
  intros t [= <-]. eapply workload_issued_prefix; [exact Hp|]. by apply Hi.
Qed.

Context (HP : forall claims, projected_of assertion = Some claims ->
  P (projected_jti claims) (projected_exp claims)).

Lemma wp_redeem_task h username caller task now :
  requested h -> (forall n, writes n h = writes n h0) ->
  reviewed h assertion (input_audience self) username ->
  authorize (workload_policy self) username = Ok caller ->
  identity_task caller = Some task -> Obs CurrentTimestamp now ∈ h ->
  wp (lease_discipline P) (redeem_task self assertion username caller task now) h post.
Proof.
  intros Hm Hw Hr Ha Ht Hn. unfold redeem_task. fold (projected_of assertion).
  destruct (projected_of assertion) as [claims|] eqn:Hc; [|by eapply wp_refuse].
  destruct (_ || _) eqn:G; [by eapply wp_refuse|]. result_simpl.
  apply wp_bind. eapply wp_mono.
  { apply (wp_discipline P), (moved_prog (ledger_permit P)); [by intros ? ? ? (_ & ? & _)|exact Hm|].
    apply use_once_spec. by apply HP. }
  intros used h1 Hp [Hwr Hm1]. destruct used as [[]|[| |d]].
  - cbn -[issue]. split; [done|]. intros uuid. split; [done|]. intros signed_at.
    set (h2 := (h1 ++ _) ++ _). assert (h1 `prefix_of` h2) as Hp2
      by (unfold h2; rewrite <- app_assoc; by apply prefix_app_r).
    apply wp_workload_issue; [unfold h2; by auto with accounting|]. intros token Hs. split.
    exists username, caller, now, uuid, signed_at. split_and!; try done.
    + eapply reviewed_prefix; [|exact Hr]. by etrans.
    + destruct Hp as [k ->]. unfold h2. rewrite !elem_of_app. auto.
    + unfold h2. rewrite !elem_of_app, !list_elem_of_singleton. auto.
    + unfold h2. rewrite !elem_of_app, !list_elem_of_singleton. auto.
    + rewrite Ht. exists claims. split_and!; try done; [lia|].
      unfold h2. rewrite !writes_other, Hwr by done. cbn. rewrite decide_True by done. lia.
  - eapply wp_refuse; [done..|]. intros _ n. rewrite Hwr, Hw. cbn. lia.
  - by apply (wp_refuse h1 _ _ Errors WorkloadExchangeUnavailable).
  - by apply (wp_refuse h1 _ _ Errors WorkloadExchangeUnavailable).
Qed.

Lemma wp_workload_exchange : wp (lease_discipline P) (exchange self assertion) h0 post.
Proof.
  split; [done|]. intros u.
  assert (moved [Count WorkloadExchange Requests] h0
            (h0 ++ [Obs (FetchAdd (Count WorkloadExchange Requests) 1) u])) as Hm
    by (apply moved_count; [set_solver|apply moved_refl]).
  set (h1 := h0 ++ [_]) in *. assert (forall n, writes n h1 = writes n h0) as Hw by (intros n; by apply writes_other).
  apply wp_bind. eapply wp_mono.
  { eapply (wp_permit_mono (fun _ _ e => lease_write e = false /\ service_metric e = false)).
    { intros h0' X e [He _]. by apply lease_discipline_allows. }
    apply moved_prog; [by intros ? ? ? [_ ?]|exact Hm|].
    apply wp_quiet; [by intros ? ? ? [? _]|]. apply review_spec. }
  intros r h2 Hp [[Hr Hw2] Hm2]. assert (forall n, writes n h2 = writes n h0) as Hq by (intros n; by rewrite Hw2).
  destruct r as [w|[|]].
  2:{ by eapply wp_refuse. }
  2:{ by apply (wp_refuse h2 _ _ Errors WorkloadExchangeUnavailable). }
  specialize (Hr w eq_refl).
  destruct (authorize _ _) as [caller|e] eqn:Ha; [|by eapply wp_refuse].
  split; [done|]. intros now. set (h3 := h2 ++ [_]).
  assert (moved [Count WorkloadExchange Requests] h0 h3) as Hm3 by by apply moved_other.
  assert (reviewed h3 assertion (input_audience self) (reviewed_username w)) as Hr3
    by (eapply reviewed_prefix; [|exact Hr]; by apply prefix_app_r).

  assert (Obs CurrentTimestamp now ∈ h3) as Hn by (apply elem_of_app; right; by apply list_elem_of_singleton).
  cbn [prog_bind]. change (prog_bind ?f (Ret now)) with (f now). cbn beta.
  destruct (identity_task caller) as [task|] eqn:Ht.
  - apply wp_redeem_task; try done. intros n. unfold h3. by rewrite writes_other.
  - cbn -[issue]. split; [done|]. intros uuid. split; [done|]. intros signed_at.
    set (h4 := (h3 ++ _) ++ _). apply wp_workload_issue; [unfold h4; by auto with accounting|].
    intros token Hs. split. exists (reviewed_username w), caller, now, uuid, signed_at. split_and!; try done.
    + eapply reviewed_prefix; [|exact Hr3]. unfold h4. rewrite <- app_assoc. by apply prefix_app_r.
    + unfold h4. rewrite !elem_of_app. auto.
    + unfold h4. rewrite !elem_of_app, !list_elem_of_singleton. auto.
    + unfold h4. rewrite !elem_of_app, !list_elem_of_singleton. auto.
    + by rewrite Ht.
Qed.
End exchange_theorems.

Section exchange_properties.
Context `{jwt : Jwt, serde : SerdeJson, chrono : Chrono, b64 : Base64, p256 : P256, rsa : Rsa, sha : Sha2}.
Context `{R : !TokenReviewer, !AuditedReviewer R, L : !ReplayLedger, !LeaseLedger L}.

Lemma workload_exchange_runs self assertion t r :
  runs (exchange self assertion) t r -> exchange_post self [] assertion r t.
Proof.
  exact (wp_runs _ _ [] _ _ _
    (wp_workload_exchange self (fun _ _ => True) assertion [] (fun _ _ => I))).
Qed.

(** C11: a workload token is issued only to a service account that the review
    service vouched for with this very assertion and audience and that the policy
    authorizes.  A task identity gets a task token, only after the assertion's own
    identifier was sound, unexpired and recorded; any other gets a role token. *)
Theorem workload_issues self assertion t token :
  runs (exchange self assertion) t (Ok token) -> issued self t assertion token.
Proof. intros (_ & Hi & _)%workload_exchange_runs. by apply Hi. Qed.

(** Every workload exchange counts one request and exactly the outcome of its
    answer, and a refused assertion is not consumed. *)
Theorem workload_accounting self assertion t r :
  runs (exchange self assertion) t r ->
  exists o, outcome_of r o
  /\ (forall c, is_duration c = false -> c <> RefreshFailures ->
        total c t = if decide (c = Count WorkloadExchange Requests \/ c = Count WorkloadExchange o) then 1%Z else 0%Z)
  /\ (r = Err WorkloadExchangeUnauthorized -> forall n, writes n t = 0).
Proof.
  intros ((o & Ho & Hm) & _ & Hw)%workload_exchange_runs. exists o. split_and!; try done.
  intros c Hd Hr. rewrite (Hm c Hd Hr). cbn. repeat case_decide; set_solver.
Qed.

(** The review service vouched for a caller to which the policy gives roles, not a
    task: its token needs no record. *)
Definition role_caller (self : WorkloadExchangeService) (assertion : string) (h : trace_io) : Prop :=
  exists username caller, reviewed h assertion (input_audience self) username
    /\ authorize (workload_policy self) username = Ok caller /\ identity_task caller = None.
#[export,refine] Instance workload_exchange :
  Exchange (WorkloadExchangeService * string) (result WorkloadExchangeError string) := {|
  perform_call c := exchange c.1 c.2;
  identifies c := claims ← projected_of c.2; Some (projected_jti claims, projected_exp claims);
  issues c r h := is_ok r = true /\ ~ role_caller c.1 c.2 h;
|}.
Proof.
  intros P [self assertion] h HP. eapply wp_mono; [apply (wp_workload_exchange self P assertion h)|].
  - intros claims Hc. apply HP. cbn in Hc |- *. by rewrite Hc.
  - cbn. intros r h' _ (_ & Hi & _) [Hr Hrole]. destruct r as [token|]; [|done].
    destruct (Hi token eq_refl) as [(u & w & now & uuid & at_ & Hu & Ha & _ & _ & _ & Hs)].
    cbn in Hs. destruct (identity_task w) as [task|] eqn:Ht; [|by destruct Hrole; exists u, w].
    destruct Hs as (c & -> & _ & _ & Hw & _). by do 2 eexists.
Defined.
End exchange_properties.

(** ** Termination *)
Section termination.
Context `{jwt : Jwt, serde : SerdeJson, chrono : Chrono, b64 : Base64, p256 : P256, rsa : Rsa, sha : Sha2, url : UrlLib}.

Lemma bound_review reviewer token audience : len_bound (kubernetes_review reviewer token audience) 2.
Proof.
  unfold kubernetes_review. destruct (_ || _); [done|].
  apply (len_bound_bind _ _ 1 1); [done|]. intros c.
  apply (len_bound_try_bind _ _ 0 1); [done|]. intros contents. by destruct (is_empty _).
Qed.
Lemma bound_issue username signed : len_bound (issue username signed) 2.
Proof. by destruct signed. Qed.
Lemma bound_exchange self reviewer ledger assertion :
  len_bound (exchange (R := kubernetes_reviewer reviewer) (L := kubernetes_ledger ledger) self assertion) 34.
Proof.
  apply (len_bound_bind _ _ 1 33); [done|]. intros _.
  apply (len_bound_bind _ _ 2 31); [apply bound_review|].
  intros [w|[|]]; [|done..]. destruct (authorize _ _) as [caller|]; [|done].
  apply (len_bound_bind _ _ 1 30); [done|]. intros now. destruct (identity_task caller) as [task|].
  - unfold redeem_task. destruct (insecure_decode _ ≫= _) as [claims|]; [|done].
    destruct (_ || _); [done|]. apply (len_bound_bind _ _ 26 4); [apply bound_use_once|].
    intros [[]|[| |d]]; [|done..]. apply (len_bound_bind _ _ 1 3); [done|]. intros uuid.
    apply (len_bound_bind _ _ 1 2); [done|]. apply bound_issue.
  - apply (len_bound_bind _ _ 1 29); [done|]. intros uuid.
    apply (len_bound_bind _ _ 1 28); [done|]. intros signed.
    eapply len_bound_mono; [apply bound_issue|]. lia.
Qed.
End termination.

(** ** A concrete exchange *)
Definition sample_review : Value := object [("status", object [
  ("authenticated", VBool true); ("audiences", str_list ["exchange"]);
  ("user", object [("username", VString "system:serviceaccount:steward:runner")])])].
Definition workload_tokens : gmap string Token :=
  {["projected" := {| signed_by := "cluster";
                      token_header := {| alg := RS256; typ := Some "JWT"; kid := Some "c1" |};
                      token_claims := object [("jti", VString "projected-1"); ("exp", num 1700000300)] |}]}.
#[local] Instance workload_jwt : Jwt := concrete_jwt workload_tokens.
#[local] Instance workload_serde : SerdeJson := concrete_serde ∅.
Definition sample_reviewer : KubernetesTokenReviewer := {|
  endpoint := collection_url sample_ledger; reviewer_credential_file := "/token" |}.
#[local] Instance workload_reviewer : TokenReviewer := kubernetes_reviewer sample_reviewer.
#[local] Instance workload_audited : AuditedReviewer workload_reviewer := kubernetes_audited sample_reviewer.
#[local] Instance workload_ledger : ReplayLedger := kubernetes_ledger sample_ledger.
#[local] Instance workload_lease_ledger : LeaseLedger workload_ledger := kubernetes_lease_ledger sample_ledger.
Definition sample_key_ring : KeyRing := {|
  current_kid := "k1"; current_not_before := 0%Z; current_not_after := (1800000000 * ns_per_s)%Z;
  readiness_threshold := 0%Z; ring_keys := {["k1" := bytes_of sample_seed]} |}.
Definition sample_workload_service : WorkloadExchangeService := {|
  workload_policy := sample_workload_policy;
  workload_keys := {| current_kid := "r1"; current_not_before := 0%Z;
                      current_not_after := (1800000000 * ns_per_s)%Z; readiness_threshold := 0%Z;
                      ring_keys := {["r1" := "rsa key" : RsaPrivateKey]} |};
  task_keys := sample_key_ring;
  workload_issuer := "https://exchange.example"; input_audience := "exchange";
  workload_output_audience := "openshell"; task_output_audience := "steward";
  workload_token_ttl := (300 * ns_per_s)%Z |}.
Definition workload_world : World :=
  let w := world_at 1700000000 {["/token" := "secret"]} in set_reviews w {["projected" := sample_review]}.
Definition workload_trace : trace_io :=
  run_trace handle (exchange sample_workload_service "projected") workload_world.
Definition workload_token : string :=
  match (run handle (exchange sample_workload_service "projected") workload_world).1 with Ok t => t | Err _ => "" end.
Lemma workload_run : runs (exchange sample_workload_service "projected") workload_trace (Ok workload_token).
Proof. apply run_trace_runs. by vm_compute. Qed.

Lemma review_exact_witness :
  exists credential body response,
    Obs (TokenReviewPost credential (token_review_request "projected" "exchange")) (Some (true, Some body))
      ∈ run_trace handle (kubernetes_review sample_reviewer "projected" "exchange") workload_world
    /\ token_review_deserialize body = Some response
    /\ vouches response "exchange" "system:serviceaccount:steward:runner".
Proof.
  apply (proj2 (review_exact sample_reviewer "projected" "exchange")
           (run_trace handle (kubernetes_review sample_reviewer "projected" "exchange") workload_world)
           {| reviewed_username := "system:serviceaccount:steward:runner" |}).
  apply run_trace_runs. by vm_compute.
Defined.
Lemma workload_issues_witness : issued sample_workload_service workload_trace "projected" workload_token.
Proof. apply (workload_issues sample_workload_service "projected" workload_trace workload_token workload_run). Defined.
Lemma workload_accounting_witness :
  exists o, outcome_of (Ok workload_token) o /\ total (Count WorkloadExchange o) workload_trace = 1%Z.
Proof.
  destruct (workload_accounting sample_workload_service "projected" workload_trace (Ok workload_token) workload_run)
    as (o & Ho & Hc & _).
  exists o. split; [exact Ho|]. rewrite (Hc (Count WorkloadExchange o)); [|done..].
  rewrite decide_True; [done|by right].
Defined.
