(* ===== verification/OidcPolicy.v ===== *)
(** * The generic OIDC policy (oidc.rs)

    Which claims of which issuers are bound to which task owner: parsing,
    validation (in particular, that no assertion can match two bindings) and
    authorization. *)
From Stdlib Require Import Ascii.
From S2P Require Import Prelude Text Prog Libs State Constants Concrete WorkloadPolicy.

Definition OIDC_POLICY_VERSION : string := "github-oidc-exchange.apelogic.io/oidc-policy-v1".

Record OidcBinding := {
  binding_claims : gmap string string;   (** a [BTreeMap] *)
  binding_task : WorkloadTaskBinding;
}.
Record OidcProviderPolicy := {
  provider_issuer : string;
  provider_audience : string;
  provider_bindings : list OidcBinding;
}.
Record OidcPolicy := {
  oidc_version : string;
  providers : list OidcProviderPolicy;
}.
Inductive OidcPolicyError := OidcPolicyInvalid (message : string) | OidcPolicyUnauthorized.
#[export] Instance OidcPolicyError_eq_dec : EqDecision OidcPolicyError.
Proof. solve_decision. Defined.
Definition invalid_policy (message : string) : OidcPolicyError := OidcPolicyInvalid message.

(** The claims of a verified assertion. *)
Record OidcClaims := {
  claims_issuer : string;
  claims_subject : string;
  expires_at : Z;
  issued_at : Z;
  claims_jti : option string;
  build_number : option Z;
  values : gmap string Value;
}.

Definition bounded_graphic (value : string) (maximum : nat) : bool :=
  negb (is_empty value) && bool_decide (len value <= maximum) && bytes_all is_ascii_graphic value.
Definition valid_claim_name (value : string) : bool :=
  bounded_graphic value 128
  && negb (contains_char value "." || contains_char value "[" || contains_char value "]").
Definition valid_task_binding (task : WorkloadTaskBinding) : bool :=
  bounded_graphic (task_service task) 128
  && match strip_prefix "usr_" (owner_canonical_user_id task) with
     | Some suffix => bool_decide (len suffix = 32) && bytes_all is_lower_hex suffix
     | None => false
     end
  && bool_decide (owner_email task = to_ascii_lowercase (owner_email task))
  && negb (contains_whitespace (owner_email task))
  && match split_once "@" (owner_email task) with
     | Some (local, domain) => negb (is_empty local) && contains_char domain "."
     | None => false
     end.
(** Some assertion could match both. *)
Definition claim_bindings_overlap (left right : gmap string string) : bool :=
  negb (existsb (fun '(name, left_value) =>
          match right !! name with
          | Some right_value => bool_decide (right_value <> left_value)
          | None => false
          end) (map_to_list left)).

(** ** Validation *)
(** The loop body over bindings: [seen] are the claims of those before. *)
Definition validate_binding (seen : list (gmap string string)) (binding : OidcBinding) :
  result OidcPolicyError (list (gmap string string)) :=
  let claims := binding_claims binding in
  _ ← reject_if (bool_decide (claims = ∅)
                 || bool_decide (16 < size claims)
                 || existsb (fun existing => claim_bindings_overlap existing claims) seen
                 || negb (match claims !! "sub" with Some value => bounded_graphic value 2048 | None => false end)
                 || existsb (fun '(name, value) =>
                      negb (valid_claim_name name) || negb (bounded_graphic value 2048)
                      || bool_decide (name ∈ ["iss"; "aud"; "exp"; "iat"; "nbf"; "jti"])) (map_to_list claims)
                 || negb (valid_task_binding (binding_task binding)))
        (invalid_policy "bindings require unique exact claims including sub and a valid task owner");
  Ok (seen ++ [claims]).

Section urls.
Context `{!UrlLib}.
Definition valid_issuer (value : string) : bool :=
  bool_decide (len value <= 2048) && negb (ends_with value "/")
  && match url_parse value with
     | Some url =>
         bool_decide (scheme url = "https")
         && match host_str url with
            | Some host => negb (is_empty host)
                && bytes_all (fun byte => is_ascii_alphanumeric byte
                                          || bool_decide (byte = "."%char) || bool_decide (byte = "-"%char)) host
            | None => false
            end
         && bool_decide (port_or_known_default url = Some 443%Z)
         && is_empty (username url) && bool_decide (password url = None)
         && bool_decide (query url = None) && bool_decide (fragment url = None)
     | None => false
     end.
(** The loop body over providers. *)
Definition validate_provider (issuers : gset string) (provider : OidcProviderPolicy) :
  result OidcPolicyError (gset string) :=
  _ ← reject_if (negb (valid_issuer (provider_issuer provider))
                 || negb (bounded_graphic (provider_audience provider) 255)
                 || bool_decide (provider_issuer provider ∈ issuers)
                 || bool_decide (provider_bindings provider = [])
                 || bool_decide (256 < length (provider_bindings provider)))
        (invalid_policy "providers require unique HTTPS issuers, exact audiences, and bindings");
  _ ← try_fold validate_binding [] (provider_bindings provider);
  Ok ({[provider_issuer provider]} ∪ issuers).
Definition validate (self : OidcPolicy) : result OidcPolicyError () :=
  _ ← reject_if (bool_decide (oidc_version self <> OIDC_POLICY_VERSION)) (invalid_policy "unsupported version");
  _ ← reject_if (bool_decide (providers self = []) || bool_decide (32 < length (providers self)))
        (invalid_policy "providers must contain between 1 and 32 entries");
  _ ← try_fold validate_provider ∅ (providers self);
  Ok ().
End urls.

Definition claim_matches (claims : OidcClaims) (entry : string * string) : bool :=
  bool_decide ((values claims !! entry.1 ≫= as_str) = Some entry.2).
Definition binding_matches (claims : OidcClaims) (binding : OidcBinding) : bool :=
  forallb (claim_matches claims) (map_to_list (binding_claims binding)).
Definition authorize (self : OidcPolicy) (claims : OidcClaims) : result OidcPolicyError WorkloadTaskBinding :=
  provider ← ok_or OidcPolicyUnauthorized
    (List.find (fun provider => bool_decide (provider_issuer provider = claims_issuer claims)) (providers self));
  match List.filter (binding_matches claims) (provider_bindings provider) with
  | [] => Err OidcPolicyUnauthorized
  | [binding] => Ok (binding_task binding)
  | _ => Err OidcPolicyUnauthorized
  end.

(** ** Parsing *)
Definition string_map (v : Value) : option (gmap string string) :=
  m ← as_object v;
  entries ← mapM (fun '(k, x) => s ← as_str x; Some (k, s)) (map_to_list m);
  Some (list_to_map entries).
Definition binding_deserialize (v : Value) : option OidcBinding :=
  if negb (only_fields ["claims"; "task"] v) then None else
  claims ← field v "claims" string_map;
  task ← field v "task" task_binding_deserialize;
  Some {| binding_claims := claims; binding_task := task |}.
Definition provider_deserialize (v : Value) : option OidcProviderPolicy :=
  if negb (only_fields ["issuer"; "audience"; "bindings"] v) then None else
  issuer ← field v "issuer" as_str;
  audience ← field v "audience" as_str;
  entries ← field v "bindings" as_array;
  bindings ← mapM binding_deserialize entries;
  Some {| provider_issuer := issuer; provider_audience := audience; provider_bindings := bindings |}.
Definition oidc_policy_deserialize (v : Value) : option OidcPolicy :=
  if negb (only_fields ["version"; "providers"] v) then None else
  version ← field v "version" as_str;
  entries ← field v "providers" as_array;
  providers ← mapM provider_deserialize entries;
  Some {| oidc_version := version; providers := providers |}.
(** [OidcPolicy::load], from the outcome of reading the file. *)
Definition oidc_policy_load `{!SerdeJson, !UrlLib} (file : result string string) :
  result OidcPolicyError OidcPolicy :=
  contents ← map_err OidcPolicyInvalid file;
  value ← ok_or (invalid_policy (json_error contents)) (parse_json contents);
  policy ← ok_or (invalid_policy (value_error value)) (oidc_policy_deserialize value);
  _ ← validate policy;
  Ok policy.

(** ** Matching *)
Definition matches (claims : OidcClaims) (bound : gmap string string) : Prop :=
  map_Forall (fun name expected => (values claims !! name ≫= as_str) = Some expected) bound.
Lemma binding_matches_spec claims b : binding_matches claims b = true <-> matches claims (binding_claims b).
Proof.
  unfold binding_matches, matches. rewrite List.forallb_forall. split.
  - intros H name expected Hb. apply elem_of_map_to_list, list_elem_of_In, H in Hb.
    by apply bool_decide_eq_true in Hb.
  - intros H [name expected] Hb%list_elem_of_In%elem_of_map_to_list. apply bool_decide_eq_true. by apply (H name).
Qed.
Lemma overlap_false l r :
  claim_bindings_overlap l r = false <->
  exists name lv rv, l !! name = Some lv /\ r !! name = Some rv /\ rv <> lv.
Proof.
  unfold claim_bindings_overlap. rewrite negb_false_iff, List.existsb_exists. split.
  - intros ([name lv] & Hl%list_elem_of_In%elem_of_map_to_list & Hr).
    destruct (r !! name) as [rv|] eqn:Hr'; [|done]. apply bool_decide_eq_true in Hr. by exists name, lv, rv.
  - intros (name & lv & rv & Hl & Hr & Hn). exists (name, lv).
    split; [by apply list_elem_of_In, elem_of_map_to_list|]. rewrite Hr. by apply bool_decide_eq_true.
Qed.
(** No assertion matches both of two bindings that do not overlap. *)
Lemma matches_exclusive claims l r :
  (exists name lv rv, l !! name = Some lv /\ r !! name = Some rv /\ rv <> lv) ->
  matches claims l -> matches claims r -> False.
Proof.
  intros (name & lv & rv & Hl & Hr & Hn) Hml Hmr.
  pose proof (Hml name lv Hl) as H1. pose proof (Hmr name rv Hr) as H2. cbn in *. congruence.
Qed.

(** ** What validation accepts *)
(** A bounded text of printable bytes. *)
Lemma bounded_graphic_spec value maximum :
  bounded_graphic value maximum = true
  <-> value <> "" /\ len value <= maximum /\ bytes_all is_ascii_graphic value = true.
Proof.
  unfold bounded_graphic. rewrite !andb_true_iff, negb_true_iff, is_empty_false, bool_decide_eq_true. naive_solver.
Qed.
(** The owner of a task. *)
Record task_owner_valid (task : WorkloadTaskBinding) : Prop := {
  owner_service : task_service task <> "" /\ len (task_service task) <= 128
    /\ bytes_all is_ascii_graphic (task_service task) = true;
  owner_id : exists suffix, owner_canonical_user_id task = "usr_" +:+ suffix
    /\ len suffix = 32 /\ bytes_all is_lower_hex suffix = true;
  owner_lower_case : owner_email task = to_ascii_lowercase (owner_email task);
  owner_address : contains_whitespace (owner_email task) = false
    /\ exists local domain, split_once "@" (owner_email task) = Some (local, domain)
       /\ local <> "" /\ contains_char domain "." = true;
}.
Lemma valid_task_binding_spec task : valid_task_binding task = true <-> task_owner_valid task.
Proof.
  unfold valid_task_binding. rewrite !andb_true_iff, negb_true_iff, bool_decide_eq_true, bounded_graphic_spec. split.
  - intros ((((Hs & Hi) & He) & Hw) & Ha). split; [done| |done|split; [done|]].
    + destruct (strip_prefix "usr_" _) as [suffix|] eqn:Hp; [|done]. apply strip_prefix_Some in Hp. exists suffix. by result_simpl.
    + destruct (split_once "@" _) as [[local domain]|]; [|done]. exists local, domain.
      apply andb_prop in Ha as [Hl Hd]. by apply negb_true_iff, is_empty_false in Hl.
  - intros [(Hs1 & Hs2 & Hs3) (suffix & Hi & Hn & Hh) He [Hw (local & domain & Ha & Hl & Hd)]]. split_and!; [done..| |done|done|].
    + rewrite (proj2 (strip_prefix_Some _ _ _) Hi). by rewrite bool_decide_true.
    + rewrite Ha, Hd. by rewrite (proj2 (is_empty_false local) Hl).
Qed.
(** A claim that a binding may name. *)
Definition claim_name_valid (name : string) : Prop :=
  name <> "" /\ len name <= 128 /\ bytes_all is_ascii_graphic name = true
  /\ contains_char name "." = false /\ contains_char name "[" = false /\ contains_char name "]" = false
  /\ name ∉ ["iss"; "aud"; "exp"; "iat"; "nbf"; "jti"].
Lemma valid_claim_name_spec name :
  valid_claim_name name = true /\ name ∉ ["iss"; "aud"; "exp"; "iat"; "nbf"; "jti"] <-> claim_name_valid name.
Proof.
  unfold valid_claim_name, claim_name_valid. rewrite andb_true_iff, bounded_graphic_spec, negb_true_iff, !orb_false_iff. naive_solver.
Qed.
Record binding_valid (b : OidcBinding) : Prop := {
  valid_size : 1 <= size (binding_claims b) <= 16;
  valid_sub : exists value, binding_claims b !! "sub" = Some value;
  valid_entries : map_Forall (fun name value => claim_name_valid name
    /\ value <> "" /\ len value <= 2048 /\ bytes_all is_ascii_graphic value = true) (binding_claims b);
  valid_binding_task : task_owner_valid (binding_task b);
}.
Lemma validate_binding_spec seen b seen' :
  validate_binding seen b = Ok seen' <->
  binding_valid b /\ Forall (fun e => claim_bindings_overlap e (binding_claims b) = false) seen
  /\ seen' = seen ++ [binding_claims b].
Proof.
  unfold validate_binding. split.
  - intros H. result_simpl. apply existsb_false in H3, H1. split_and!; [|done|done].
    assert (map_Forall (fun name value => claim_name_valid name
      /\ value <> "" /\ len value <= 2048 /\ bytes_all is_ascii_graphic value = true) (binding_claims b)) as He.
    { intros name value Hl. rewrite Forall_forall in H1. apply elem_of_map_to_list, H1 in Hl. cbn beta iota in Hl.
      result_simpl. rewrite <- bounded_graphic_spec, <- valid_claim_name_spec. by split_and!. }
    split; [|destruct (binding_claims b !! "sub") as [v|]; [by exists v|done]|done|by apply valid_task_binding_spec].
    split; [|lia]. apply map_size_non_empty_iff in H. lia.
  - intros ([[Hn Hm] [v Hv] He Ht] & Hs & ->).
    rewrite bool_decide_false by (intros Hz; rewrite Hz, map_size_empty in Hn; lia).
    rewrite bool_decide_false by lia. rewrite (proj2 (existsb_false _ _) Hs), Hv, (proj2 (valid_task_binding_spec _) Ht).
    rewrite (proj2 (bounded_graphic_spec v 2048) (proj2 (He "sub" v Hv))). cbn [negb orb].
    rewrite (proj2 (existsb_false _ _)); [done|]. apply Forall_forall.
    intros [name value] Hin%elem_of_map_to_list. destruct (He name value Hin) as [[-> Hk]%valid_claim_name_spec Hvalue].
    by rewrite (proj2 (bounded_graphic_spec value 2048) Hvalue), (bool_decide_false _ Hk).
Qed.

(** Two bindings exclude each other: they bind some claim to different values. *)
Definition excludes (a b : OidcBinding) : Prop :=
  exists name va vb, binding_claims a !! name = Some va /\ binding_claims b !! name = Some vb /\ vb <> va.
(** Every two bindings of the list do. *)
Definition exclusive : list OidcBinding -> Prop := List.ForallOrdPairs excludes.
Lemma exclusive_snoc l b : exclusive (l ++ [b]) <-> exclusive l /\ Forall (fun a => excludes a b) l.
Proof.
  induction l as [|a l IH]; cbn.
  - split; [intros _|intros _]; [split; constructor|]. constructor; constructor.
  - split.
    + intros H. inversion H as [|? ? Ha Hl]; subst. apply IH in Hl as [Hl Hb].
      apply List.Forall_app in Ha as [Ha Hab]. inversion Hab; subst.
      split; [by constructor|]. by constructor.
    + intros [H Hb]. inversion H as [|? ? Ha Hl]; subst. apply Forall_cons in Hb as [Hab Hb].
      constructor; [|by apply IH]. apply List.Forall_app. split; [done|]. by constructor.
Qed.
Lemma validate_bindings_spec l :
  (exists seen, try_fold validate_binding [] l = Ok seen) <-> Forall binding_valid l /\ exclusive l.
Proof.
  enough (forall seen, try_fold validate_binding [] l = Ok seen <->
            Forall binding_valid l /\ exclusive l /\ seen = binding_claims <$> l) as G.
  { split; [intros [s Hs]; by apply G in Hs as (? & ? & _)|]. intros [? ?]. eexists. by apply G. }
  induction l as [|b l IH] using rev_ind; intros seen.
  { cbn. split; [intros [= <-]; split_and!; [constructor..|done]|by intros (_ & _ & ->)]. }
  rewrite try_fold_app, exclusive_snoc, Forall_app, fmap_app. split.
  - intros (s & (Hl & He & ->)%IH & H)%result_bind_ok. cbn in H.
    apply result_bind_ok in H as (s' & (Hv & Hs & ->)%validate_binding_spec & [= <-]).
    apply Forall_fmap in Hs. split_and!; try done; [by constructor|].
    eapply Forall_impl; [exact Hs|]. intros a. apply overlap_false.
  - intros ((Hl & Hb) & (He & Hs) & ->). rewrite (proj2 (IH (binding_claims <$> l))) by done. cbn [try_fold mbind result_bind].
    rewrite Forall_singleton in Hb.
    rewrite (proj2 (validate_binding_spec (binding_claims <$> l) b ((binding_claims <$> l) ++ [binding_claims b])));
      [done|]. split_and!; [done| |done].
    apply Forall_fmap. eapply Forall_impl; [exact Hs|]. intros a. apply overlap_false.

Qed.

Section validity.
Context `{url : UrlLib}.
(** An HTTPS issuer at the default port of a named host, without credentials, query
    or fragment. *)
Definition issuer_valid (value : string) : Prop :=
  len value <= 2048 /\ ends_with value "/" = false /\ exists u host,
    url_parse value = Some u /\ scheme u = "https" /\ host_str u = Some host /\ host <> ""
    /\ bytes_all (fun byte => is_ascii_alphanumeric byte
                              || bool_decide (byte = "."%char) || bool_decide (byte = "-"%char)) host = true
    /\ port_or_known_default u = Some 443%Z /\ username u = "" /\ password u = None
    /\ query u = None /\ fragment u = None.
Lemma valid_issuer_spec value : valid_issuer value = true <-> issuer_valid value.
Proof.
  unfold valid_issuer, issuer_valid. rewrite !andb_true_iff, bool_decide_eq_true, negb_true_iff. split.
  - intros ((Hl & He) & Hu). destruct (url_parse value) as [u|]; [|done]. split_and!; [done..|].
    destruct (host_str u) as [host|] eqn:Hh; [|by rewrite andb_false_r in Hu]. exists u, host. result_simpl.
    split_and!; try done; [by apply is_empty_false|by apply is_empty_true].
  - intros (Hl & He & u & host & -> & Hs & -> & Hh%is_empty_false & Hb & Hp & Hu%is_empty_true & Hw & Hq & Hf).
    rewrite Hh, Hb, Hu, !bool_decide_true by done. done.
Qed.
Record provider_valid (p : OidcProviderPolicy) : Prop := {
  valid_provider_issuer : issuer_valid (provider_issuer p);
  valid_provider_audience : provider_audience p <> "" /\ len (provider_audience p) <= 255
    /\ bytes_all is_ascii_graphic (provider_audience p) = true;
  valid_binding_count : 1 <= length (provider_bindings p) <= 256;
  valid_bindings : Forall binding_valid (provider_bindings p);
  bindings_exclusive : exclusive (provider_bindings p);
}.
Lemma validate_provider_spec issuers p issuers' :
  validate_provider issuers p = Ok issuers' <->
  provider_valid p /\ (provider_issuer p ∉ issuers) /\ issuers' = {[provider_issuer p]} ∪ issuers.
Proof.
  unfold validate_provider. split.
  - intros H. apply result_bind_ok in H as ([] & Hg & H). apply result_bind_ok in H as (s & Hb & H).
    destruct (proj1 (validate_bindings_spec _) (ex_intro _ _ Hb)) as [Hv He]. result_simpl.
    split_and!; [split|..]; try done; [by apply valid_issuer_spec|by apply bounded_graphic_spec|]. split; [|lia].
    destruct (provider_bindings p); [done|cbn; lia].
  - intros ([Hi%valid_issuer_spec Ha%bounded_graphic_spec [Hn Hm] Hv He] & Hf & ->). rewrite Hi, Ha, (bool_decide_false _ Hf).
    rewrite (bool_decide_false (_ = [])) by (intros Hz; rewrite Hz in Hn; cbn in Hn; lia).
    rewrite bool_decide_false by lia. cbn [negb orb reject_if mbind result_bind].
    by destruct (proj2 (validate_bindings_spec _) (conj Hv He)) as [s ->].
Qed.
Lemma validate_providers_spec issuers l :
  (exists issuers', try_fold validate_provider issuers l = Ok issuers') <->
  Forall provider_valid l /\ NoDup (provider_issuer <$> l) /\ forall p, p ∈ l -> provider_issuer p ∉ issuers.
Proof.
  revert issuers. induction l as [|p l IH]; intros issuers; cbn [try_fold fmap list_fmap].
  - split; [|by eexists]. intros _. split_and!; [constructor..|]. by intros x ?%elem_of_nil.
  - rewrite Forall_cons, NoDup_cons. split.
    + intros (s & (s1 & (Hv & Hf & ->)%validate_provider_spec & Hr)%result_bind_ok).
      destruct (proj1 (IH _) (ex_intro _ _ Hr)) as (Hl & Hn & Hfr). split_and!; try done.
      * rewrite list_elem_of_fmap. intros (y & Hy & Hin). specialize (Hfr y Hin). set_solver.
      * intros y [->|Hin]%elem_of_cons; [done|]. specialize (Hfr y Hin). set_solver.
    + intros ((Hp & Hl) & (Hx & Hn) & Hfr).
      rewrite (proj2 (validate_provider_spec issuers p _)) by (split_and!; [done|apply Hfr; set_solver|done]).
      cbn [mbind result_bind]. apply IH. split_and!; try done. intros y Hy.
      assert (provider_issuer y <> provider_issuer p)
        by (intros Heq; apply Hx, list_elem_of_fmap; by exists y).
      specialize (Hfr y ltac:(set_solver)). set_solver.
Qed.

Definition policy_valid (self : OidcPolicy) : Prop :=
  oidc_version self = OIDC_POLICY_VERSION /\ 1 <= length (providers self) <= 32
  /\ Forall provider_valid (providers self) /\ NoDup (provider_issuer <$> providers self).
Lemma oidc_validate_spec self : validate self = Ok () <-> policy_valid self.
Proof.
  unfold validate, policy_valid. split.
  - intros H. apply result_bind_ok in H as ([] & Hg & H). apply result_bind_ok in H as ([] & Hc & H).
    apply result_bind_ok in H as (s & Hf & _).
    destruct (proj1 (validate_providers_spec _ _) (ex_intro _ _ Hf)) as (Hl & Hn & _). result_simpl.
    split_and!; try done; [by apply dec_stable|destruct (providers self); [done|cbn; lia]|lia].
  - intros (Hv & [Hn Hm] & Hl & Hd). rewrite Hv, (bool_decide_false (_ ≠ _)) by (intros Hf; by apply Hf).
    rewrite (bool_decide_false (_ = [])) by (intros Hz; rewrite Hz in Hn; cbn in Hn; lia).
    rewrite bool_decide_false by lia. cbn [orb reject_if mbind result_bind].
    by destruct (proj2 (validate_providers_spec ∅ (providers self))) as [s ->].
Qed.
End validity.

(** ** Authorization *)
Lemma filter_exclusive claims l b :
  exclusive l -> b ∈ l -> binding_matches claims b = true -> List.filter (binding_matches claims) l = [b].
Proof.
  intros He. revert b. induction l as [|a l IH]; intros b Hin Hb; [by apply elem_of_nil in Hin|].
  inversion He as [|? ? Ha Hl]; subst. rewrite List.Forall_forall in Ha. cbn.
  apply elem_of_cons in Hin as [->|Hin].
  - rewrite Hb. f_equal. destruct (List.filter _ l) as [|y r] eqn:Hf; [done|]. exfalso.
    assert (List.In y (List.filter (binding_matches claims) l)) as [Hy Hm]%List.filter_In
      by (rewrite Hf; by left).
    apply (matches_exclusive claims (binding_claims a) (binding_claims y)); [by apply Ha|by apply binding_matches_spec..].
  - destruct (binding_matches claims a) eqn:Hm; [exfalso|by apply IH].
    apply (matches_exclusive claims (binding_claims a) (binding_claims b));
      [by apply Ha, list_elem_of_In|by apply binding_matches_spec..].
Qed.
Lemma oidc_authorize_in self claims task :
  authorize self claims = Ok task ->
  exists p b, p ∈ providers self /\ provider_issuer p = claims_issuer claims
    /\ b ∈ provider_bindings p /\ matches claims (binding_claims b) /\ task = binding_task b.
Proof.
  unfold authorize. intros (p & [Hp Hi]%ok_or_ok%List.find_some & H)%result_bind_ok.
  destruct (List.filter _ _) as [|b [|]] eqn:Hf; try done. injection H as <-.
  assert (List.In b (List.filter (binding_matches claims) (provider_bindings p))) as [Hb Hm]%List.filter_In
    by (rewrite Hf; by left).
  apply bool_decide_eq_true in Hi. exists p, b. rewrite !list_elem_of_In. by rewrite <- binding_matches_spec.
Qed.
Lemma find_provider (l : list OidcProviderPolicy) p i :
  NoDup (provider_issuer <$> l) -> p ∈ l -> provider_issuer p = i ->
  List.find (fun p => bool_decide (provider_issuer p = i)) l = Some p.
Proof.
  induction l as [|x l IH]; intros Hnd Hin Hi; [by apply elem_of_nil in Hin|].
  cbn in Hnd |- *. apply NoDup_cons in Hnd as [Hx Hl]. apply elem_of_cons in Hin as [->|Hin].
  - by rewrite bool_decide_true.
  - rewrite bool_decide_false; [by apply IH|]. intros Hxi. apply Hx, list_elem_of_fmap. exists p. by rewrite Hi.
Qed.

(** C34: a generic OIDC policy validates exactly when its issuers are distinct and
    well formed and, for each, the bindings are well formed and pairwise exclude
    each other by a claim they bind to different values. *)
Theorem oidc_validate_exact `{!UrlLib} self : validate self = Ok () <-> policy_valid self.
Proof. apply oidc_validate_spec. Qed.

(** C35: under a validated policy, an assertion is authorized exactly when some
    binding of its issuer matches all its claims; the binding is then the only
    one that matches, and it fixes the assertion's [sub]. *)
Theorem oidc_authorize_exact `{!UrlLib} self claims task :
  validate self = Ok () ->
  (authorize self claims = Ok task <->
     exists p b, p ∈ providers self /\ provider_issuer p = claims_issuer claims
       /\ b ∈ provider_bindings p /\ matches claims (binding_claims b) /\ task = binding_task b)
  /\ (authorize self claims = Ok task ->
        exists b subject, binding_task b = task /\ binding_claims b !! "sub" = Some subject
          /\ (values claims !! "sub" ≫= as_str) = Some subject).
Proof.
  intros (_ & _ & Hl & Hn)%oidc_validate_spec. rewrite Forall_forall in Hl. split.
  - split; [apply oidc_authorize_in|]. intros (p & b & Hp & Hi & Hb & Hm & ->). unfold authorize.
    rewrite (find_provider _ p) by done. cbn [ok_or mbind result_bind].
    by rewrite (filter_exclusive _ _ b) by (try apply binding_matches_spec; try done; by apply Hl).
  - intros (p & b & Hp & _ & Hb & Hm & ->)%oidc_authorize_in. destruct (Hl p Hp) as [_ _ _ Hv _].
    rewrite Forall_forall in Hv. destruct (Hv b Hb) as [_ [s Hs] _ _]. exists b, s.
    split_and!; [done..|]. exact (Hm "sub" s Hs).
Qed.

(** ** A policy *)
Definition sample_binding (job : string) : OidcBinding := {|
  binding_claims := {["sub" := "job"; "branch" := job]}; binding_task := sample_task |}.
Definition sample_oidc_policy : OidcPolicy := {|
  oidc_version := OIDC_POLICY_VERSION;
  providers := [{| provider_issuer := "https://ci.example"; provider_audience := "exchange";
                   provider_bindings := [sample_binding "main"; sample_binding "release"] |}] |}.
Definition sample_oidc_values : gmap string Value := {[
  "iss" := VString "https://ci.example"; "aud" := VString "exchange"; "sub" := VString "job";
  "exp" := VNumber (PosInt 1700000300); "iat" := VNumber (PosInt 1700000000);
  "branch" := VString "main"; "build_number" := VNumber (PosInt 7)]}.
Definition sample_oidc_claims : OidcClaims := {|
  claims_issuer := "https://ci.example"; claims_subject := "job"; expires_at := 1700000300;
  issued_at := 1700000000; claims_jti := None; build_number := Some 7%Z; values := sample_oidc_values |}.
Lemma oidc_authorize_exact_witness :
  authorize sample_oidc_policy sample_oidc_claims = Ok sample_task
  /\ exists b subject, binding_task b = sample_task /\ binding_claims b !! "sub" = Some subject
       /\ (values sample_oidc_claims !! "sub" ≫= as_str) = Some subject.
Proof.
  assert (authorize sample_oidc_policy sample_oidc_claims = Ok sample_task) as Ha by by vm_compute.
  split; [exact Ha|].
  apply (oidc_authorize_exact sample_oidc_policy sample_oidc_claims sample_task); [by vm_compute|exact Ha].
Defined.
