(* ===== verification/Oidc.v ===== *)
(** * Verification of generic OIDC assertions (oidc.rs)

    One verifier per configured issuer, with its own key cache and refresh
    discipline: discovery, the key set, [verify] and the checks of the claims.
    The test-support constructors and the injected key source are not modelled. *)
From Stdlib Require Import Ascii.
From S2P Require Import Prelude Text Prog Libs State Constants Concrete Replay OidcPolicy.

Definition MAX_ASSERTION_BYTES : nat := 32 * 1024.
Definition MAX_DISCOVERY_BYTES : nat := 64 * 1024.
Definition MAX_JWKS_BYTES : nat := 1024 * 1024.
Definition MAX_SOURCE_LIFETIME_SECONDS : Z := 600.
Definition JWKS_REFRESH_RETRY_SECONDS : Z := 30.
Definition JWKS_SOFT_REFRESH_SECONDS : Z := 300.
Definition DEFAULT_JWKS_MAX_STALENESS_SECONDS : Z := 21600.

Inductive OidcVerifyError := OidcInvalid | OidcUnavailable.
#[export] Instance OidcVerifyError_eq_dec : EqDecision OidcVerifyError.
Proof. solve_decision. Defined.
(** The [Display] text. *)
Definition oidc_error_text (e : OidcVerifyError) : string :=
  match e with
  | OidcInvalid => "OIDC assertion is invalid"
  | OidcUnavailable => "OIDC signing keys are unavailable"
  end.

Record ProviderVerifier := {
  verifier_issuer : string;
  verifier_audience : string;
  verifier_max_staleness : Z;   (** a [Duration], in nanoseconds *)
}.
Record OidcVerifierSet := { verifiers : gmap string ProviderVerifier }.
Record DiscoveryDocument := { discovery_issuer : string; jwks_uri : string }.
Definition discovery_deserialize (v : Value) : option DiscoveryDocument :=
  issuer ← field v "issuer" as_str;
  uri ← field v "jwks_uri" as_str;
  Some {| discovery_issuer := issuer; jwks_uri := uri |}.

(** ** Configuration *)
Section configuration.
Context `{!Jwt, !UrlLib, !Rustls}.
Definition discovery_client (additional_ca : list string) : result OidcVerifyError () :=
  map_err (fun _ => OidcUnavailable) (client_build_with additional_ca).
Definition provider_verifier (max_staleness : Z) (configured : OidcProviderPolicy) : ProviderVerifier := {|
  verifier_issuer := provider_issuer configured;
  verifier_audience := provider_audience configured;
  verifier_max_staleness := max_staleness |}.
Definition discover_with_additional_ca (policy : OidcPolicy) (max_staleness : Z) (additional_ca : list string) :
  result OidcVerifyError OidcVerifierSet :=
  _ ← map_err (fun _ => OidcInvalid) (validate policy);
  _ ← discovery_client additional_ca;
  Ok {| verifiers := foldl (fun m configured =>
          <[provider_issuer configured := provider_verifier max_staleness configured]> m) ∅ (providers policy) |}.
Definition discover_with_max_staleness (policy : OidcPolicy) (max_staleness : Z) :=
  discover_with_additional_ca policy max_staleness [].
Definition discover (policy : OidcPolicy) :=
  discover_with_max_staleness policy (DEFAULT_JWKS_MAX_STALENESS_SECONDS * ns_per_s).
Definition provider_count (self : OidcVerifierSet) : nat := size (verifiers self).

Record AdditionalCaError := { ca_path : string; ca_reason : string }.
Fixpoint accept_certificates (refuse : string -> AdditionalCaError) (certificates : list string) :
  result AdditionalCaError (list string) :=
  match certificates with
  | [] => Ok []
  | certificate :: rest =>
      _ ← map_err (fun error => refuse ("contains an invalid certificate: " +:+ error)) (root_store_add certificate);
      _ ← map_err (fun error => refuse ("contains an invalid certificate: " +:+ error))
            (certificate_from_der certificate);
      rest ← accept_certificates refuse rest;
      Ok (certificate :: rest)
  end.
(** From the outcome of reading the file. *)
Definition additional_ca (path : string) (pem : result string string) : result AdditionalCaError (list string) :=
  let refuse reason := {| ca_path := path; ca_reason := reason |} in
  pem ← map_err (fun error => refuse ("cannot be read: " +:+ error)) pem;
  _ ← reject_if (contains pem "PRIVATE KEY-----")
        (refuse "contains a private key; supply public CA certificates only");
  certificates ← map_err (fun error => refuse ("is not valid PEM: " +:+ error)) (pem_slice_iter pem);
  _ ← reject_if (bool_decide (certificates = [])) (refuse "contains no PEM certificates");
  accept_certificates refuse certificates.
Definition load_additional_ca (path : string) : io (result AdditionalCaError (list string)) :=
  pem ← trigger (ReadFile path); mret (additional_ca path pem).
End configuration.

(** ** Pure parts *)
Definition attempted_recently (last_attempt now : Z) : bool :=
  bool_decide (0 < last_attempt)%Z
  && bool_decide (i64_saturating_sub now last_attempt < JWKS_REFRESH_RETRY_SECONDS)%Z.
Definition cache_age_seconds (fetched_at now : Z) : Z :=
  if bool_decide (fetched_at <= 0)%Z then u64_max
  else let age := i64_saturating_sub now fetched_at in
       if bool_decide (0 <= age)%Z then age else 0%Z.
Section hash.
Context `{!Sha2}.
Definition hash_value (value : string) : string :=
  if is_empty value then "" else hex (take 8 (sha256 value)).
End hash.

Section endpoints.
Context `{!UrlLib}.
Definition valid_issuer_endpoint (value : string) : bool :=
  bool_decide (len value <= 2048)
  && match url_parse value with
     | Some url =>
         bool_decide (scheme url = "https") && bool_decide (is_Some (host_str url))
         && is_empty (username url) && bool_decide (password url = None)
         && bool_decide (query url = None) && bool_decide (fragment url = None)
     | None => false
     end.
Definition same_origin (left right : string) : bool :=
  match url_parse left, url_parse right with
  | Some l, Some r =>
      bool_decide (scheme l = scheme r) && bool_decide (host_str l = host_str r)
      && bool_decide (port_or_known_default l = port_or_known_default r)
  | _, _ => false
  end.
Definition valid_discovery (configured_issuer : string) (discovery : DiscoveryDocument) : bool :=
  bool_decide (discovery_issuer discovery = configured_issuer)
  && valid_issuer_endpoint (jwks_uri discovery)
  && same_origin configured_issuer (jwks_uri discovery).
End endpoints.

Definition exact_audience (value : option Value) (expected : string) : bool :=
  match value with
  | Some (VString actual) => bool_decide (actual = expected)
  | Some (VArray [actual]) => bool_decide (as_str actual = Some expected)
  | _ => false
  end.

(** ** Fetching *)
Section fetching.
Context `{!Jwt, !SerdeJson}.
Fixpoint read_chunks (maximum : nat) (body : string) (chunks : list (option string)) :
  result OidcVerifyError string :=
  match chunks with
  | [] => Ok body
  | None :: _ => Err OidcUnavailable
  | Some chunk :: chunks =>
      if bool_decide (maximum < len body + len chunk) then Err OidcUnavailable
      else read_chunks maximum (body +:+ chunk) chunks
  end.
Definition fetch_json {T} (decode : Value -> option T) (uri : string) (maximum : nat) :
  io (result OidcVerifyError T) :=
  response ← trigger (StreamGet uri);
  mret (
    response ← ok_or OidcUnavailable response;
    _ ← reject_if (negb (status_ok response)) OidcUnavailable;
    _ ← reject_if (match content_length response with
                   | Some length => bool_decide (Z.of_nat maximum < length)%Z
                   | None => false
                   end) OidcUnavailable;
    body ← read_chunks maximum "" (chunks response);
    ok_or OidcUnavailable (parse_json body ≫= decode)).
End fetching.

(** ** One issuer's verifier *)
Section provider.
Context `{!Jwt, !SerdeJson, !Chrono, !UrlLib, !Sha2}.
Definition unix_now : io Z := now ← utc_now; mret (timestamp_of now).

Definition cache_is_usable (cache : OidcKeyCache) (now max_staleness : Z) : bool :=
  negb (bool_decide (oidc_keys cache = ∅))
  && bool_decide (cache_age_seconds (oidc_fetched_at cache) now <= as_secs max_staleness)%Z.

(** The usable keys of a document. *)
Definition insert_jwk (keys : gmap string DecodingKey) (jwk : Jwk) : gmap string DecodingKey :=
  match key_id jwk with
  | None => keys
  | Some kid =>
      if bool_decide (key_algorithm jwk = Some KeyRS256) && bool_decide (public_key_use jwk = Some Signature)
      then match from_jwk jwk with Some key => <[kid := key]> keys | None => keys end
      else keys
  end.
Definition usable_keys (document : list Jwk) : gmap string DecodingKey := foldl insert_jwk ∅ document.

Context (self : ProviderVerifier).
Definition discovery_url : string := verifier_issuer self +:+ "/.well-known/openid-configuration".
Definition refresh_now : io (result OidcVerifyError ()) :=
  discovery ←? fetch_json discovery_deserialize discovery_url MAX_DISCOVERY_BYTES;
  if negb (valid_discovery (verifier_issuer self) discovery) then mret (Err OidcInvalid)
  else
  document ←? fetch_json jwk_set_of_value (jwks_uri discovery) MAX_JWKS_BYTES;
  let keys := usable_keys document in
  if bool_decide (keys = ∅) then mret (Err OidcUnavailable)
  else
    now ← unix_now;
    _ ← store (OidcCache (verifier_issuer self)) {| oidc_keys := keys; oidc_fetched_at := now |};
    mret (Ok ()).
Definition refresh_soft_if_due : io (result OidcVerifyError ()) :=
  with_lock (OidcRefresh (verifier_issuer self)) (
    refresh ← load (OidcRefreshCell (verifier_issuer self));
    now ← unix_now;
    cache ← load (OidcCache (verifier_issuer self));
    if bool_decide (cache_age_seconds (oidc_fetched_at cache) now < JWKS_SOFT_REFRESH_SECONDS)%Z
       || attempted_recently (oidc_last_soft_attempt refresh) now
    then mret (Ok ())
    else
      _ ← store (OidcRefreshCell (verifier_issuer self))
            {| oidc_last_soft_attempt := now; oidc_last_forced_attempt := oidc_last_forced_attempt refresh |};
      r ← refresh_now;
      _ ← (if is_ok r then log "oidc_provider_ready" [("issuer_hash", hash_value (verifier_issuer self))]
           else mret ());
      mret r).
Definition refresh_for_unknown_kid_if_due : io (result OidcVerifyError ()) :=
  with_lock (OidcRefresh (verifier_issuer self)) (
    refresh ← load (OidcRefreshCell (verifier_issuer self));
    now ← unix_now;
    if attempted_recently (oidc_last_forced_attempt refresh) now then mret (Err OidcUnavailable)
    else
      _ ← store (OidcRefreshCell (verifier_issuer self))
            {| oidc_last_soft_attempt := oidc_last_soft_attempt refresh; oidc_last_forced_attempt := now |};
      refresh_now).

(** After the cache had no such key. *)
Definition key_after_refresh (kid : string) : io (result OidcVerifyError DecodingKey) :=
  _ ←? refresh_for_unknown_kid_if_due;
  cache ← load (OidcCache (verifier_issuer self));
  now ← unix_now;
  mret (if negb (cache_is_usable cache now (verifier_max_staleness self)) then Err OidcUnavailable
        else ok_or OidcInvalid (oidc_keys cache !! kid)).
Definition key (kid : string) : io (result OidcVerifyError DecodingKey) :=
  now ← unix_now;
  cache ← load (OidcCache (verifier_issuer self));
  if cache_is_usable cache now (verifier_max_staleness self) then
    match oidc_keys cache !! kid with
    | Some key => mret (Ok key)
    | None => key_after_refresh kid
    end
  else if negb (bool_decide (oidc_keys cache = ∅)) then mret (Err OidcUnavailable)
  else key_after_refresh kid.
Definition validation : Validation := {|
  validation_algorithm := RS256;
  validation_issuer := [verifier_issuer self];
  validation_audience := [verifier_audience self];
  required_spec_claims := ["iss"; "sub"; "aud"; "exp"; "iat"];
  validate_nbf := true;
  leeway := 30;
|}.
End provider.

(** ** The claims *)
(** The checks at the time [now]. *)
Definition check_claims (values : gmap string Value) (issuer audience : string)
    (actual_issuer subject : string) (expires_at issued_at now : Z) : result OidcVerifyError OidcClaims :=
  lifetime ← ok_or OidcInvalid (i64_checked_sub expires_at issued_at);
  _ ← reject_if (bool_decide (actual_issuer <> issuer)
                 || negb (exact_audience (values !! "aud") audience)
                 || negb (bounded_graphic subject 2048)
                 || bool_decide (lifetime <= 0)%Z
                 || bool_decide (MAX_SOURCE_LIFETIME_SECONDS < lifetime)%Z
                 || bool_decide (expires_at <= now)%Z
                 || bool_decide (i64_add now 30 < issued_at)%Z) OidcInvalid;
  jti ← match values !! "jti" with
        | None => Ok None
        | Some value => s ← ok_or OidcInvalid (as_str value); Ok (Some s)
        end;
  _ ← reject_if (match jti with Some value => negb (bounded_graphic value 128) | None => false end) OidcInvalid;
  let build := values !! "build_number" ≫= as_u64 in
  _ ← reject_if (bool_decide (jti = None) && bool_decide (build = None)) OidcInvalid;
  Ok {| claims_issuer := actual_issuer; claims_subject := subject; expires_at := expires_at;
        issued_at := issued_at; claims_jti := jti; build_number := build; values := values |}.
(** The claims every assertion must carry. *)
Definition required_claims (values : gmap string Value) : result OidcVerifyError (string * string * Z * Z) :=
  actual_issuer ← ok_or OidcInvalid (values !! "iss" ≫= as_str);
  subject ← ok_or OidcInvalid (values !! "sub" ≫= as_str);
  expires_at ← ok_or OidcInvalid (values !! "exp" ≫= as_i64);
  issued_at ← ok_or OidcInvalid (values !! "iat" ≫= as_i64);
  Ok (actual_issuer, subject, expires_at, issued_at).

Section set.
Context `{!Jwt, !SerdeJson, !Chrono, !UrlLib, !Sha2}.
Definition validated_claims (values : gmap string Value) (issuer audience : string) :
  io (result OidcVerifyError OidcClaims) :=
  '(actual_issuer, subject, expires_at, issued_at) ←? mret (required_claims values);
  now ← unix_now;
  mret (check_claims values issuer audience actual_issuer subject expires_at issued_at now).

Context (self : OidcVerifierSet).
Definition verify (assertion : string) : io (result OidcVerifyError OidcClaims) :=
  if is_empty assertion || bool_decide (MAX_ASSERTION_BYTES < len assertion)
  then mret (Err OidcInvalid)
  else
  header ←? mret (ok_or OidcInvalid (decode_header assertion));
  if bool_decide (alg header <> RS256) || bool_decide (typ header <> Some "JWT")
  then mret (Err OidcInvalid)
  else
  kid ←? mret (ok_or OidcInvalid (kid header));
  unverified ←? mret (ok_or OidcInvalid (insecure_decode assertion ≫= fun v => field v "iss" as_str));
  provider ←? mret (ok_or OidcInvalid (verifiers self !! unverified));
  key ←? key provider kid;
  decoded_at ← get_current_timestamp;
  values ←? mret (ok_or OidcInvalid (decode assertion key (validation provider) decoded_at ≫= as_object));
  validated_claims values (verifier_issuer provider) (verifier_audience provider).

(** The caches' states, by the hash of the issuer. *)
Fixpoint provider_states (now : Z) (providers : list ProviderVerifier) : io (list (string * bool)) :=
  match providers with
  | [] => mret []
  | provider :: providers =>
      cache ← load (OidcCache (verifier_issuer provider));
      states ← provider_states now providers;
      mret ((hash_value (verifier_issuer provider),
             cache_is_usable cache now (verifier_max_staleness provider)) :: states)
  end.
Definition state_le (l r : string * bool) : Prop := String.le l.1 r.1.
#[global] Instance state_le_dec : RelDecision state_le.
Proof. unfold state_le. solve_decision. Defined.
Definition provider_readiness : io (list (string * bool)) :=
  now ← unix_now;
  states ← provider_states now (map_to_list (verifiers self)).*2;
  mret (merge_sort state_le states).
Definition ready_provider_count : io nat :=
  states ← provider_readiness; mret (length (filter (fun s => s.2 = true) states)).

(** The tasks of a [JoinSet]: they run interleaved, and [join_next] hands each
    result to [joined] as it arrives.  The schedule says which running task moves
    next; when it is used up the remaining tasks run one after the other. *)
Fixpoint join_all {A} (schedule : list nat) (joined : A -> io ()) (running : list (io A)) : io () :=
  match schedule with
  | [] => foldr (fun task rest => a ← task; _ ← joined a; rest) (mret ()) running
  | i :: schedule =>
      match running !! i with
      | None => join_all schedule joined running
      | Some (Ret a) => _ ← joined a; join_all schedule joined (delete i running)
      | Some (Vis e k) => Vis e (fun x => join_all schedule joined (<[i := k x]> running))
      end
  end.
Definition refresh_task (provider : ProviderVerifier) : io (string * result OidcVerifyError ()) :=
  r ← refresh_soft_if_due provider; mret (hash_value (verifier_issuer provider), r).
Definition report_refresh (joined : string * result OidcVerifyError ()) : io () :=
  match joined.2 with
  | Ok () => mret ()
  | Err error => log "oidc_provider_refresh_failed" [("issuer_hash", joined.1); ("detail", oidc_error_text error)]
  end.
(** The background task, for one iteration of its endless loop per schedule. *)
Fixpoint run_refresh_loop_with_interval (schedules : list (list nat)) (interval : Z) : io () :=
  match schedules with
  | [] => mret ()
  | schedule :: schedules =>
      _ ← join_all schedule report_refresh (refresh_task <$> (map_to_list (verifiers self)).*2);
      _ ← trigger (Sleep interval);
      run_refresh_loop_with_interval schedules interval
  end.
Definition run_refresh_loop (schedules : list (list nat)) : io () :=
  run_refresh_loop_with_interval schedules (JWKS_REFRESH_RETRY_SECONDS * ns_per_s).
End set.

(** ** The checks of the claims *)
(** What the checks accept at the time [now]. *)
Record claims_accepted (values : gmap string Value) (issuer audience : string) (now : Z) (c : OidcClaims) : Prop := {
  accepted_issuer : (values !! "iss" ≫= as_str) = Some issuer /\ claims_issuer c = issuer;
  accepted_audience : values !! "aud" = Some (VString audience)
    \/ values !! "aud" = Some (VArray [VString audience]);
  accepted_subject : (values !! "sub" ≫= as_str) = Some (claims_subject c)
    /\ bounded_graphic (claims_subject c) 2048 = true;
  accepted_times : (values !! "exp" ≫= as_i64) = Some (expires_at c)
    /\ (values !! "iat" ≫= as_i64) = Some (issued_at c)
    /\ (issued_at c < expires_at c <= issued_at c + 600)%Z /\ (now < expires_at c)%Z
    /\ (issued_at c <= now + 30)%Z;
  accepted_jti : match values !! "jti" with
    | Some v => exists jti, v = VString jti /\ claims_jti c = Some jti /\ bounded_graphic jti 128 = true
    | None => claims_jti c = None /\ build_number c <> None
    end;
  accepted_build : build_number c = (values !! "build_number" ≫= as_u64);
  accepted_values : OidcPolicy.values c = values;
}.
Lemma exact_audience_spec v a : exact_audience v a = true <-> v = Some (VString a) \/ v = Some (VArray [VString a]).
Proof.
  destruct v as [[| | |s|l|]|]; cbn; try (split; [done|naive_solver]).
  - rewrite bool_decide_eq_true. naive_solver.
  - destruct l as [|[| | |s| |] [|]]; cbn; try (split; [done|naive_solver]).
    rewrite bool_decide_eq_true. naive_solver.
Qed.
Lemma check_claims_spec values issuer audience ai sub e i now c :
  is_i64 (now + 30) ->
  check_claims values issuer audience ai sub e i now = Ok c <->
  ai = issuer /\ exact_audience (values !! "aud") audience = true /\ bounded_graphic sub 2048 = true
  /\ (i < e <= i + 600)%Z /\ (now < e)%Z /\ (i <= now + 30)%Z
  /\ match values !! "jti" with
     | Some v => exists jti, v = VString jti /\ claims_jti c = Some jti /\ bounded_graphic jti 128 = true
     | None => claims_jti c = None /\ build_number c <> None
     end
  /\ c = {| claims_issuer := ai; claims_subject := sub; expires_at := e; issued_at := i;
            claims_jti := claims_jti c; build_number := values !! "build_number" ≫= as_u64;
            OidcPolicy.values := values |}.
Proof.
  intros Hn. unfold check_claims.
  assert (i64_add now 30 = now + 30)%Z as -> by by apply wrap_i64_id.
  unfold MAX_SOURCE_LIFETIME_SECONDS. split.
  - intros H. apply result_bind_ok in H as (l & [-> Hl]%ok_or_ok%i64_checked_sub_Some & H).
    apply result_bind_ok in H as ([] & Hg & H). apply result_bind_ok in H as (jti & Hj & H).
    apply result_bind_ok in H as ([] & Hb & H). apply result_bind_ok in H as ([] & Hbn & H).
    injection H as <-. result_simpl.
    match goal with H : ¬ (_ ≠ _) |- _ => apply dec_stable in H end.
    split_and!; try done; try lia. destruct (values !! "jti") as [v|]; cbn.
    + apply result_bind_ok in Hj as (s & Hs%ok_or_ok & [= <-]). destruct v; try done. injection Hs as ->.
      exists s. by apply negb_false_iff in Hb.
    + injection Hj as <-. split; [done|]. intros Hz. cbn in Hz. by rewrite Hz in Hbn.
  - intros (-> & Ha & Hs & Hl & Hne & Hin & Hj & Hc).
    assert (i64_checked_sub e i = Some (e - i)%Z) as ->.
    { apply i64_checked_sub_Some. split; [done|]. unfold is_i64, i64_min, i64_max. lia. }
    cbn [ok_or mbind result_bind]. rewrite Ha, Hs.
    rewrite (bool_decide_false (issuer ≠ issuer)) by (intros Hf; by apply Hf).
    rewrite (bool_decide_false (e - i <= 0)%Z), (bool_decide_false (600 < e - i)%Z),
      (bool_decide_false (e <= now)%Z), (bool_decide_false (now + 30 < i)%Z) by lia.
    cbn [negb orb reject_if mbind result_bind].
    rewrite Hc. cbn [claims_jti build_number]. rewrite Hc in Hj. cbn [claims_jti build_number] in Hj.
    destruct (values !! "jti") as [v|].
    + destruct Hj as (jti & -> & -> & Hb). cbn [as_str ok_or mbind result_bind]. rewrite Hb. done.
    + destruct Hj as [-> Hb]. cbn [mbind result_bind reject_if].
      rewrite (bool_decide_false _ Hb), andb_false_r. done.
Qed.
Lemma required_claims_spec values ai sub e i :
  required_claims values = Ok (ai, sub, e, i) <->
  (values !! "iss" ≫= as_str) = Some ai /\ (values !! "sub" ≫= as_str) = Some sub
  /\ (values !! "exp" ≫= as_i64) = Some e /\ (values !! "iat" ≫= as_i64) = Some i.
Proof.
  unfold required_claims. split.
  - intros H. result_simpl. by simplify_eq.
  - intros (-> & -> & -> & ->). done.
Qed.
Lemma check_accepted values issuer audience ai sub e i now c :
  is_i64 (now + 30) -> required_claims values = Ok (ai, sub, e, i) ->
  check_claims values issuer audience ai sub e i now = Ok c <-> claims_accepted values issuer audience now c.
Proof.
  intros Hn (Hai & Hsub & He & Hi)%required_claims_spec. rewrite check_claims_spec by done.
  rewrite exact_audience_spec. split.
  - intros (-> & Ha & Hs & Hl & Hne & Hin & Hj & Hc).
    rewrite Hc in Hj |- *. cbn [claims_jti build_number] in Hj. split; cbn; try done; try (by split_and!).
  - intros [[Hi1 Hi2] Ha [Hs1 Hs2] (He1 & He2 & Hl & Hne & Hin) Hj Hb Hv].
    assert (ai = issuer) as -> by congruence. assert (sub = claims_subject c) as -> by congruence.
    assert (e = expires_at c) as -> by congruence. assert (i = issued_at c) as -> by congruence.
    split_and!; try done; try lia. destruct c; cbn in *. by subst.
Qed.

(** C20: the claims of a decoded assertion are accepted exactly when the issuer
    and the one audience are those configured, the subject and the identifier are
    bounded printable text, the lifetime is at most ten minutes, the assertion is
    neither expired nor from more than 30 seconds in the future, and there is an
    identifier or a build number; and they are then those of the payload. *)
Theorem validated_claims_exact `{jwt : Jwt, chrono : Chrono} values issuer audience now c :
  is_i64 (timestamp_of now + 30) ->
  runs (validated_claims values issuer audience) [Obs UtcNow now] (Ok c)
  <-> claims_accepted values issuer audience (timestamp_of now) c.
Proof.
  intros Hn. unfold validated_claims. destruct (required_claims values) as [[[[ai sub] e] i]|err] eqn:Hr.
  - rewrite <- (check_accepted values issuer audience ai sub e i) by done.
    cbn -[check_claims runs]. rewrite runs_vis. cbn. naive_solver.
  - split; [intros Hf; by destruct Hf|].
    intros [[Hi1 Hi2] Ha [Hs1 Hs2] (He1 & He2 & _) _ _ _]. exfalso.
    assert (required_claims values = Ok (issuer, claims_subject c, expires_at c, issued_at c)); [|congruence].
    by apply required_claims_spec.
Qed.

(** ** The key caches *)
Lemma read_chunks_spec maximum body l text :
  len body <= maximum -> read_chunks maximum body l = Ok text -> len text <= maximum.
Proof.
  revert body. induction l as [|[c|] l IH]; intros body Hb; cbn; [by intros [= <-]| |done].
  case_bool_decide as Hm; [done|]. apply IH. rewrite len_app. lia.
Qed.
Lemma provider_usable_keys_spec `{jwt : Jwt} document kid k :
  usable_keys document !! kid = Some k ->
  exists j, j ∈ document /\ key_id j = Some kid /\ key_algorithm j = Some KeyRS256
    /\ public_key_use j = Some Signature /\ from_jwk j = Some k.
Proof.
  unfold usable_keys. induction document as [|j l IH] using rev_ind; [cbn; by rewrite lookup_empty|].
  rewrite foldl_snoc. intros Hl.
  assert (foldl insert_jwk ∅ l !! kid = Some k \/
    (key_id j = Some kid /\ key_algorithm j = Some KeyRS256 /\ public_key_use j = Some Signature
     /\ from_jwk j = Some k)) as [H|H].
  { unfold insert_jwk in Hl at 1. destruct (key_id j) as [kid'|]; [|by left].
    destruct (_ && _) eqn:Ha; [|by left]. result_simpl. destruct (from_jwk j) as [k'|]; [|by left].
    apply lookup_insert_Some in Hl as [[-> ->]|[_ ?]]; [by right|by left]. }
  - destruct (IH H) as (j' & Hj & ?). exists j'. split; [|done]. apply elem_of_app. by left.
  - exists j. split; [|done]. apply elem_of_app. right. by apply list_elem_of_singleton.
Qed.

Section caches.
Context `{jwt : Jwt, serde : SerdeJson, chrono : Chrono, url : UrlLib, sha : Sha2}.

(** The document a response carries, within the size bound. *)
Definition carries {T} (decode : Value -> option T) (maximum : nat) (response : StreamResponse) (t : T) : Prop :=
  status_ok response = true /\ exists body, read_chunks maximum "" (chunks response) = Ok body /\ len body <= maximum
    /\ (parse_json body ≫= decode) = Some t.
(** The keys are RS256 signature keys of the key set that the issuer's own
    discovery document points to within the issuer's origin: the discovery document
    was fetched, then the key set, and then the time was read. *)
Definition discovered (h : trace_io) (issuer : string) (keys : gmap string DecodingKey) (fetched : Z) : Prop :=
  exists discovery document at_ r1 r2,
    [Obs (StreamGet (issuer +:+ "/.well-known/openid-configuration")) (Some r1);
     Obs (StreamGet (jwks_uri discovery)) (Some r2); Obs UtcNow at_] `sublist_of` h
    /\ carries discovery_deserialize MAX_DISCOVERY_BYTES r1 discovery
    /\ discovery_issuer discovery = issuer /\ same_origin issuer (jwks_uri discovery) = true
    /\ carries jwk_set_of_value MAX_JWKS_BYTES r2 document /\ fetched = timestamp_of at_
    /\ forall kid k, keys !! kid = Some k -> exists j, j ∈ document /\ key_id j = Some kid
         /\ key_algorithm j = Some KeyRS256 /\ public_key_use j = Some Signature /\ from_jwk j = Some k.
Definition good_oidc_store (h : trace_io) (X : Type) (e : event X) : Prop :=
  match e with
  | Store c x =>
      match c in cell X return X -> Prop with
      | OidcCache issuer => fun cache => oidc_keys cache <> ∅ /\ discovered h issuer (oidc_keys cache) (oidc_fetched_at cache)
      | _ => fun _ => True
      end x
  | _ => True
  end.
Definition oidc_permit (h : trace_io) (X : Type) (e : event X) : Prop :=
  good_oidc_store h X e /\ lease_write e = false /\ service_metric e = false.

Lemma discovered_sublist h h' issuer keys fetched :
  h `sublist_of` h' -> discovered h issuer keys fetched -> discovered h' issuer keys fetched.
Proof. intros Hs (d & doc & now & r1 & r2 & Hh & Hrest). exists d, doc, now, r1, r2. split; [by etrans|done]. Qed.
Lemma oidc_permit_sublist h h' X (e : event X) : h `sublist_of` h' -> oidc_permit h X e -> oidc_permit h' X e.
Proof.
  intros Hs [Hg ?]. split; [|done]. destruct e; try done. destruct c; try done. destruct Hg as [Hn Hk].
  split; [done|]. by eapply discovered_sublist.
Qed.

Lemma wp_fetch_json {T} (decode : Value -> option T) uri maximum h :
  wp oidc_permit (fetch_json decode uri maximum) h
    (fun r h' => forall t, r = Ok t -> exists response, h' = h ++ [Obs (StreamGet uri) (Some response)]
                   /\ carries decode maximum response t).
Proof.
  cbn. split; [done|]. intros [response|]; [|done]. cbn. destruct (status_ok response) eqn:Hs; [|done]. cbn.
  intros t H. apply result_bind_ok in H as ([] & _ & H). apply result_bind_ok in H as (body & Hb & H%ok_or_ok).
  exists response. split; [done|]. split; [done|]. exists body. split_and!; try done.
  eapply read_chunks_spec; [|exact Hb]. cbn. lia.
Qed.
Lemma wp_provider_refresh_now self h : wp oidc_permit (refresh_now self) h (fun _ _ => True).
Proof.
  unfold refresh_now. eapply wp_try_call; [apply wp_fetch_json| |done].
  intros discovery h1 _ Hd. destruct (valid_discovery _ _) eqn:Hv; [|done]. cbn [negb].
  eapply wp_try_call; [apply wp_fetch_json| |done]. intros document h2 _ Hj.
  destruct (Hd _ eq_refl) as (r1 & -> & H1). destruct (Hj _ eq_refl) as (r2 & -> & H2).
  cbn. case_bool_decide as He; [done|]. split; [done|]. intros now. split; [|done].
  split; [|done]. split; [done|]. unfold valid_discovery in Hv.
  apply andb_prop in Hv as [[Hi _]%andb_prop Ho]. apply bool_decide_eq_true in Hi.
  exists discovery, document, now, r1, r2. split_and!; try done; [|exact (provider_usable_keys_spec document)].
  rewrite <- !app_assoc. by apply sublist_inserts_l.
Qed.
Lemma wp_provider_refresh_soft self h : wp oidc_permit (refresh_soft_if_due self) h (fun _ _ => True).
Proof.
  unfold refresh_soft_if_due, with_lock. cbn -[refresh_now]. do 4 (split; [done|]; intros ?). apply wp_bind.
  destruct (_ || _); cbn -[refresh_now]; [split; [done|]; by intros ?|]. split; [done|]. intros u. apply wp_bind.
  eapply wp_mono; [apply wp_provider_refresh_now|]. intros r h1 _ _. cbn.
  destruct (is_ok r); cbn; [split; [done|]; intros ?|]; (split; [done|]; by intros ?).
Qed.
Lemma wp_refresh_forced self h : wp oidc_permit (refresh_for_unknown_kid_if_due self) h (fun _ _ => True).
Proof.
  unfold refresh_for_unknown_kid_if_due, with_lock. cbn -[refresh_now]. do 3 (split; [done|]; intros ?). apply wp_bind.
  destruct (attempted_recently _ _); cbn -[refresh_now]; [split; [done|]; by intros ?|]. split; [done|]. intros u.
  eapply wp_mono; [apply wp_provider_refresh_now|]. intros r h1 _ _. cbn. split; [done|]. by intros ?.
Qed.

(** A key comes from a cache within the staleness bound that holds it. *)
Definition key_answer (self : ProviderVerifier) (kid : string) (r : result OidcVerifyError DecodingKey)
    (h : trace_io) : Prop :=
  forall k, r = Ok k -> exists cache now, Obs (Load (OidcCache (verifier_issuer self))) cache ∈ h
    /\ Obs UtcNow now ∈ h /\ cache_is_usable cache (timestamp_of now) (verifier_max_staleness self) = true
    /\ oidc_keys cache !! kid = Some k.
Lemma wp_key_after_refresh self kid h : wp oidc_permit (key_after_refresh self kid) h (key_answer self kid).
Proof.
  eapply wp_try_call; [apply wp_refresh_forced| |done]. intros [] h1 _ _. cbn -[cache_is_usable].
  split; [done|]. intros cache. split; [done|]. intros now. destruct (cache_is_usable _ _ _) eqn:Hu; [|done].
  intros k Hk%ok_or_ok. exists cache, now. rewrite !elem_of_app, !list_elem_of_singleton. auto.
Qed.
Lemma wp_provider_key self kid h : wp oidc_permit (key self kid) h (key_answer self kid).
Proof.
  unfold key. cbn -[cache_is_usable key_after_refresh]. split; [done|]. intros now. split; [done|]. intros cache.
  destruct (cache_is_usable _ _ _) eqn:Hu.
  - destruct (oidc_keys cache !! kid) as [k|] eqn:Hk; [|apply wp_key_after_refresh].
    intros k' [= <-]. exists cache, now. rewrite !elem_of_app, !list_elem_of_singleton. auto.
  - case_bool_decide; [apply wp_key_after_refresh|done].
Qed.
End caches.

(** ** Verification *)
Section verification.
Context `{jwt : Jwt, serde : SerdeJson, chrono : Chrono, url : UrlLib, sha : Sha2}.
Context (self : OidcVerifierSet).

(** What stands behind verified claims. *)
Record verified (h : trace_io) (assertion : string) (c : OidcClaims) : Prop := {
  verified_length : 0 < len assertion <= MAX_ASSERTION_BYTES;
  verified_signature : exists provider header kid k cache read_at decoded_at named,
    verifiers self !! named = Some provider
    /\ (insecure_decode assertion ≫= fun v => field v "iss" as_str) = Some named
    /\ decode_header assertion = Some header /\ alg header = RS256 /\ typ header = Some "JWT"
    /\ Libs.kid header = Some kid
    /\ Obs (Load (OidcCache (verifier_issuer provider))) cache ∈ h /\ Obs UtcNow read_at ∈ h
    /\ cache_is_usable cache (timestamp_of read_at) (verifier_max_staleness provider) = true
    /\ oidc_keys cache !! kid = Some k
    /\ Obs CurrentTimestamp decoded_at ∈ h
    /\ decode assertion k (validation provider) decoded_at = Some (VObject (values c))
    /\ required_claims (values c) = Ok (claims_issuer c, claims_subject c, expires_at c, issued_at c)
    /\ exists checked_at, Obs UtcNow checked_at ∈ h
    /\ check_claims (values c) (verifier_issuer provider) (verifier_audience provider) (claims_issuer c)
         (claims_subject c) (expires_at c) (issued_at c) (timestamp_of checked_at) = Ok c;
}.
Lemma provider_verified_prefix h h' assertion c : h `prefix_of` h' -> verified h assertion c -> verified h' assertion c.
Proof.
  intros [k ->] [Hl (p & hd & kd & ky & ca & ra & da & nm & H1 & H2 & H3 & H4 & H5 & H6 & H7 & H8 & H9 & H10 & H11 & H12 & H15 & ch & H13 & H14)].
  split; [done|]. exists p, hd, kd, ky, ca, ra, da, nm. rewrite !elem_of_app. split_and!; auto.
  exists ch. rewrite elem_of_app. auto.
Qed.

Lemma check_claims_fields v i a ai sub e iat now c :
  check_claims v i a ai sub e iat now = Ok c ->
  values c = v /\ claims_issuer c = ai /\ claims_subject c = sub /\ expires_at c = e /\ issued_at c = iat
  /\ ai = i /\ claims_jti c = (v !! "jti" ≫= as_str) /\ build_number c = (v !! "build_number" ≫= as_u64).
Proof.
  unfold check_claims. intros H. apply result_bind_ok in H as (l & _ & H).
  apply result_bind_ok in H as ([] & Hg & H). apply result_bind_ok in H as (jti & Hj & H).
  apply result_bind_ok in H as ([] & _ & H). apply result_bind_ok in H as ([] & _ & [= <-]).
  result_simpl. split_and!; try done; [by apply dec_stable|]. cbn [claims_jti].
  destruct (v !! "jti") as [x|]; cbn in Hj |- *; [|by injection Hj as <-].
  by apply result_bind_ok in Hj as (s & ->%ok_or_ok & [= <-]).
Qed.
Lemma wp_provider_verify assertion h :
  wp oidc_permit (verify self assertion) h (fun r h' => forall c, r = Ok c -> verified h' assertion c).
Proof.
  unfold verify. destruct (_ || _) eqn:Hlen; [done|]. result_simpl.
  destruct (decode_header assertion) as [header|] eqn:Hh; [|done]. cbn -[key].
  destruct (_ || _) eqn:Halg; [done|]. result_simpl.
  destruct (Libs.kid header) as [kid|] eqn:Hkid; [|done]. cbn -[key].
  destruct (insecure_decode assertion ≫= _) as [named|] eqn:Hn; [|done]. cbn -[key].
  destruct (verifiers self !! named) as [provider|] eqn:Hp; [|done]. cbn -[key].
  apply wp_bind. eapply wp_mono; [apply wp_provider_key|]. intros [k|e] h1 _ Hk; [|done].
  destruct (Hk k eq_refl) as (cache & now & Hc & Hnow & Hu & Hl).
  cbn -[validated_claims]. split; [done|]. intros decoded_at.
  destruct (decode assertion k (validation provider) decoded_at) as [v|] eqn:Hd; [|done].
  destruct v as [| | | | |vs]; try done. cbn -[required_claims].
  destruct (required_claims vs) as [[[[ai sub] e] i]|err] eqn:Hreq; [|done]. cbn -[check_claims].
  split; [done|]. intros checked_at c Hcc.
  pose proof (check_claims_fields _ _ _ _ _ _ _ _ _ Hcc) as (Hv & <- & <- & <- & <- & _). subst vs.
  repeat match goal with H : ¬ (_ ≠ _) |- _ => apply dec_stable in H end.
  match goal with H : is_empty _ = false |- _ => apply is_empty_false in H end.
  split.
  - rewrite <- len_0 in *. lia.
  - exists provider, header, kid, k, cache, now, decoded_at, named.
    rewrite !elem_of_app, !list_elem_of_singleton. split_and!; auto.
    exists checked_at. rewrite !elem_of_app, !list_elem_of_singleton. auto.
Qed.

(** The tasks of the background loop, interleaved. *)
Lemma wp_sublist {A} (p : io A) h h' :
  h `sublist_of` h' -> wp oidc_permit p h (fun _ _ => True) -> wp oidc_permit p h' (fun _ _ => True).
Proof.
  revert h h'. induction p as [a|X e k IH]; intros h h' Hs; [done|]. intros [Hp Hk].
  split; [by eapply oidc_permit_sublist|]. intros x. eapply IH; [|apply Hk]. by apply sublist_app.
Qed.
(** The running tasks, each with what it has done so far. *)
Definition allowed (h : trace_io) {A} (task : io A) : Prop :=
  exists h0, h0 `sublist_of` h /\ wp oidc_permit task h0 (fun _ _ => True).
Lemma allowed_more {A} h k (tasks : list (io A)) : Forall (allowed h) tasks -> Forall (allowed (h ++ k)) tasks.
Proof.
  intros Ha. eapply Forall_impl; [exact Ha|]. intros t (h' & ? & ?). exists h'. split; [by apply sublist_inserts_r|done].
Qed.
Lemma wp_join_all {A} schedule (joined : A -> io ()) running h :
  (forall a h, wp oidc_permit (joined a) h (fun _ _ => True)) -> Forall (allowed h) running ->
  wp oidc_permit (join_all schedule joined running) h (fun _ _ => True).
Proof.
  intros Hj. revert running h. induction schedule as [|i schedule IH]; intros running h Hr; cbn [join_all].
  - revert h Hr. induction running as [|task rest IHr]; intros h Hr; [done|].
    apply Forall_cons in Hr as [(h0 & Hs & Ht) Hr]. cbn [foldr].
    eapply wp_call; [by eapply wp_sublist|]. intros a h1 [k1 ->] _.
    eapply wp_call; [apply Hj|]. intros u h2 [k2 ->] _. apply IHr. by do 2 apply allowed_more.
  - destruct (running !! i) as [[a|X e k]|] eqn:Hi; [| |by apply IH].
    + eapply wp_call; [apply Hj|]. intros u h1 [k1 ->] _. apply IH. by apply Forall_delete, allowed_more.
    + pose proof (proj1 (Forall_lookup _ _) Hr i _ Hi) as (h0 & Hs & [Hp Hk]).
      split; [by eapply oidc_permit_sublist|]. intros x. apply IH. apply Forall_insert; [by apply allowed_more|].
      exists (h0 ++ [Obs e x]). split; [by apply sublist_app|apply Hk].
Qed.
Lemma wp_provider_refresh_loop schedules interval h :
  wp oidc_permit (run_refresh_loop_with_interval self schedules interval) h (fun _ _ => True).
Proof.
  revert h. induction schedules as [|schedule schedules IH]; intros h; [done|].
  cbn [run_refresh_loop_with_interval]. eapply wp_call.
  { apply wp_join_all.
    - intros [hash [[]|e]] h'; cbn; [done|]. by split.
    - apply Forall_fmap, Forall_forall. intros p _. exists h. split; [done|].
      eapply wp_call; [apply wp_provider_refresh_soft|]. done. }
  intros u h1 _ _. split; [done|]. intros u'. apply IH.
Qed.
End verification.

(** The requests of a trace. *)
Definition is_request `{jwt : Jwt} (o : obs_io) : bool :=
  match o with Obs e _ => match e with StreamGet _ => true | _ => false end end.
Definition requests `{jwt : Jwt} (t : trace_io) : nat := length (List.filter is_request t).

Section properties.
Context `{jwt : Jwt, serde : SerdeJson, chrono : Chrono, url : UrlLib, sha : Sha2}.
Lemma requests_app t1 t2 : requests (t1 ++ t2) = requests t1 + requests t2.
Proof. unfold requests. by rewrite List.filter_app, length_app. Qed.
Lemma runs_fetch_json {T} (decode : Value -> option T) uri maximum t r :
  runs (fetch_json decode uri maximum) t r -> requests t = 1.
Proof. unfold fetch_json. cbn. by intros (x & t' & -> & -> & _). Qed.
Lemma runs_provider_refresh_now self t r : runs (refresh_now self) t r -> 1 <= requests t <= 2.
Proof.
  unfold refresh_now. intros [(t1 & t2 & d & -> & H1%runs_fetch_json & H)|(e & _ & H1%runs_fetch_json)]%runs_try_bind;
    [|lia]. rewrite requests_app, H1.
  destruct (negb _); [destruct H as [-> _]; cbn; lia|].
  apply runs_try_bind in H as [(t3 & t4 & doc & -> & H2%runs_fetch_json & H)|(e & _ & H2%runs_fetch_json)]; [|lia].
  rewrite requests_app, H2. assert (requests t4 = 0) as ->; [|lia]. cbn in H.
  destruct (bool_decide _) in H; cbn in H.
  - by destruct H as [-> _].
  - by destruct H as (x & t' & -> & x' & t'' & -> & -> & _).
Qed.

(** C32: a forced refresh makes at most two requests, under the issuer's refresh
    lock, and only when no attempt was made in the last 30 seconds; within them it
    fails without a request and without another look at the cache.  The attempt is
    noted before its requests. *)
Theorem oidc_forced_refresh self t r :
  runs (refresh_for_unknown_kid_if_due self) t r ->
  exists refresh now t',
    t = [Obs (Acquire (OidcRefresh (verifier_issuer self))) ();
         Obs (Load (OidcRefreshCell (verifier_issuer self))) refresh; Obs UtcNow now]
        ++ t' ++ [Obs (Release (OidcRefresh (verifier_issuer self))) ()]
    /\ ((attempted_recently (oidc_last_forced_attempt refresh) (timestamp_of now) = true
          /\ t' = [] /\ r = Err OidcUnavailable)
        \/ ((oidc_last_forced_attempt refresh <= 0
               \/ 30 <= i64_saturating_sub (timestamp_of now) (oidc_last_forced_attempt refresh))%Z
            /\ requests t' <= 2
            /\ exists t0, t' = Obs (Store (OidcRefreshCell (verifier_issuer self))
                 {| oidc_last_soft_attempt := oidc_last_soft_attempt refresh;
                    oidc_last_forced_attempt := timestamp_of now |}) () :: t0)).
Proof.
  unfold refresh_for_unknown_kid_if_due, with_lock. cbn -[refresh_now runs]. intros H. cbn -[refresh_now] in H.
  destruct H as ([] & ? & -> & refresh & ? & -> & now & ? & -> & H). exists refresh, now.
  destruct (attempted_recently _ _) eqn:Ha; cbn -[refresh_now] in H.
  { destruct H as ([] & ? & -> & -> & ->). exists []. auto. }
  destruct H as ([] & ? & -> & H).
  change (runs (refresh_now self ≫= fun a =>
    _ ← trigger (Release (OidcRefresh (verifier_issuer self))); mret a) x0 r) in H.
  apply runs_bind in H as (t2 & t3 & a & -> & H2%runs_provider_refresh_now & H). cbn in H.
  destruct H as ([] & ? & -> & -> & ->). eexists (_ :: t2). split; [done|]. right. split_and!.
  - unfold attempted_recently, JWKS_REFRESH_RETRY_SECONDS in Ha. apply andb_false_iff in Ha as [Ha|Ha]; result_simpl; lia.
  - change (requests t2 <= 2). lia.
  - by eexists.
Qed.

(** C31: an issuer's key cache is only ever replaced as a whole, by a non-empty map
    of RS256 signature keys from the key set that the issuer's own discovery
    document, just fetched within the size bounds, points to within the issuer's
    origin, with the time that was read after them; verification and the background tasks, however they interleave, touch
    no Lease and no exchange metric. *)
Theorem oidc_keys_discovered self assertion schedules interval t t1 X (e : event X) x t2 :
  (exists r, runs (verify self assertion) t r) \/ (exists r, runs (run_refresh_loop_with_interval self schedules interval) t r) ->
  t = t1 ++ Obs e x :: t2 -> oidc_permit t1 X e.
Proof.
  intros [[r Hr]|[r Hr]] Ht.
  - exact (wp_permitted _ _ [] _ _ _ _ _ _ _ _ (wp_provider_verify self assertion []) Hr Ht).
  - exact (wp_permitted _ _ [] _ _ _ _ _ _ _ _ (wp_provider_refresh_loop self schedules interval []) Hr Ht).
Qed.

(** *** Bounds *)
Lemma bound_fetch_json {T} (decode : Value -> option T) uri maximum : len_bound (fetch_json decode uri maximum) 1.
Proof. done. Qed.
Lemma bound_provider_refresh_now self : len_bound (refresh_now self) 4.
Proof.
  apply (len_bound_try_bind _ _ 1 3); [apply bound_fetch_json|]. intros d. destruct (negb _); [done|].
  apply (len_bound_try_bind _ _ 1 2); [apply bound_fetch_json|]. intros doc. cbn. by case_bool_decide.
Qed.
Lemma bound_provider_forced self : len_bound (refresh_for_unknown_kid_if_due self) 9.
Proof.
  unfold refresh_for_unknown_kid_if_due, with_lock.
  apply (len_bound_bind _ _ 1 8); [done|]. intros _. apply (len_bound_bind _ _ 7 1); [|done].
  apply (len_bound_bind _ _ 1 6); [done|]. intros refresh. apply (len_bound_bind _ _ 1 5); [done|]. intros now.
  destruct (attempted_recently _ _); [done|]. apply (len_bound_bind _ _ 1 4); [done|]. intros _. apply bound_provider_refresh_now.
Qed.
Lemma bound_provider_key self kid : len_bound (key self kid) 13.
Proof.
  assert (len_bound (key_after_refresh self kid) 11) as Ha
    by (by apply (len_bound_try_bind _ _ 9 2); [apply bound_provider_forced|]).
  apply (len_bound_bind _ _ 1 12); [done|]. intros now. apply (len_bound_bind _ _ 1 11); [done|]. intros cache.
  destruct (cache_is_usable _ _ _); [by destruct (_ !! _)|]. by case_bool_decide.
Qed.
Lemma bound_provider_verify self assertion : len_bound (verify self assertion) 15.
Proof.
  unfold verify. destruct (_ || _); [done|].
  apply (len_bound_try_bind _ _ 0 15); [done|]. intros h. destruct (_ || _); [done|].
  apply (len_bound_try_bind _ _ 0 15); [done|]. intros kid.
  apply (len_bound_try_bind _ _ 0 15); [done|]. intros named.
  apply (len_bound_try_bind _ _ 0 15); [done|]. intros provider.
  apply (len_bound_try_bind _ _ 13 2); [apply bound_provider_key|]. intros k.
  apply (len_bound_bind _ _ 1 1); [done|]. intros d.
  apply (len_bound_try_bind _ _ 0 1); [done|]. intros vs. unfold validated_claims.
  apply (len_bound_try_bind _ _ 0 1); [done|]. by intros [[[ai sub] e] i].
Qed.
End properties.
