(* ===== verification/OidcExchange.v ===== *)
(** * The generic OIDC exchange (oidc.rs)

    An assertion of a configured issuer is exchanged for a task token of the owner
    its claims are bound to; its use is recorded under an identifier hashed from
    its issuer and its identifier or build. *)
From Stdlib Require Import Ascii.
From S2P Require Import Prelude Text Prog Libs State Constants Concrete Replay Simulator ReplaySafety Exchange Keys WorkloadPolicy OidcPolicy.
From S2P Require Oidc Workload.

(** ** Hashed identifiers *)
(** The [k] low bytes of a number, the highest first; [to_be_bytes] of a [u64]. *)
Fixpoint be_bytes (k : nat) (n : N) : list N :=
  match k with 0 => [] | S k => be_bytes k (n / 256) ++ [n mod 256]%N end.
Definition to_be_bytes : N -> list N := be_bytes 8.
(** What [write_replay_component] feeds the hasher: the length, then the bytes. *)
Definition write_replay_component (value : string) : string :=
  of_bytes (to_be_bytes (N.of_nat (len value))) +:+ value.
Fixpoint hasher_input (components : list string) : string :=
  match components with
  | [] => ""
  | component :: components => write_replay_component component +:+ hasher_input components
  end.
(** The components hashed, in order. *)
Definition replay_components (claims : OidcClaims) : option (list string) :=
  match claims_jti claims with
  | Some jti => Some [claims_issuer claims; "jti"; jti]
  | None =>
      build ← build_number claims;
      Some [claims_issuer claims; "jenkins-build"; claims_subject claims;
            decimal (issued_at claims); decimal build]
  end.

Section hash.
Context `{!Sha2}.
Definition replay_identifier (claims : OidcClaims) : option string :=
  components ← replay_components claims;
  Some ("oidc-" +:+ hex (sha256 (hasher_input components))).
Definition provider_scoped_subject (claims : OidcClaims) : string :=
  "oidc:" +:+ hex (sha256 (hasher_input [claims_issuer claims; claims_subject claims])).
End hash.

(** ** The exchange *)
Inductive OidcExchangeError := OidcExchangeUnauthorized | OidcExchangeUnavailable.
#[export] Instance OidcExchangeError_eq_dec : EqDecision OidcExchangeError.
Proof. solve_decision. Defined.

Record OidcExchangeService `{!P256} := {
  verifier : Oidc.OidcVerifierSet;
  policy : OidcPolicy;
  oidc_signing_keys : KeyRing;
  oidc_output_issuer : string;
  oidc_output_audience : string;
  oidc_token_ttl : Z;   (** a [Duration], in nanoseconds *)
}.

(** The output claims; they have the fields of a workload task token. *)
Record OidcTaskOutputClaims := {
  ot_iss : string; ot_sub : string; ot_aud : list string;
  ot_exp : Z; ot_iat : Z; ot_nbf : Z; ot_jti : string;
  ot_email : string; ot_email_verified : bool; ot_groups : list string;
  ot_identity_contract : string;
}.
Definition oidc_output_value (c : OidcTaskOutputClaims) : Value := object [
  ("iss", VString (ot_iss c)); ("sub", VString (ot_sub c)); ("aud", str_list (ot_aud c));
  ("exp", num (ot_exp c)); ("iat", num (ot_iat c)); ("nbf", num (ot_nbf c)); ("jti", VString (ot_jti c));
  ("email", VString (ot_email c)); ("email_verified", VBool (ot_email_verified c));
  ("groups", str_list (ot_groups c)); ("identity_contract", VString (ot_identity_contract c))].

Section exchange.
Context `{!Jwt, !SerdeJson, !Chrono, !Base64, !P256, !Sha2, !UrlLib}.
Context `{L : !ReplayLedger}.
Context (self : OidcExchangeService).

Definition deny (reason issuer subject : string) : io () :=
  _ ← count OidcExchange Denied;
  log "oidc_exchange_denied"
    [("reason", reason); ("issuer_hash", Oidc.hash_value issuer); ("subject_hash", Oidc.hash_value subject)].
Definition fail (reason : string) : io () :=
  _ ← count OidcExchange Errors;
  log "oidc_exchange_failed" [("reason", reason)].

Definition output_claims (claims : OidcClaims) (task : WorkloadTaskBinding) (now : Z) (jti : string) :
  OidcTaskOutputClaims := {|
  ot_iss := oidc_output_issuer self; ot_sub := provider_scoped_subject claims; ot_aud := [oidc_output_audience self];
  ot_exp := u64_add now (as_secs (oidc_token_ttl self)); ot_iat := now; ot_nbf := u64_saturating_sub now 5;
  ot_jti := jti; ot_email := owner_email task; ot_email_verified := true;
  ot_groups := Workload.task_groups task; ot_identity_contract := IDENTITY_CONTRACT |}.

(** After the use is recorded. *)
Definition issue (claims : OidcClaims) (task : WorkloadTaskBinding) (replay : string) :
  io (result OidcExchangeError string) :=
  now ← get_current_timestamp;
  uuid ← trigger NewUuid;
  signed ← sign (oidc_signing_keys self) (oidc_output_value (output_claims claims task now uuid));
  match signed with
  | Err _ => _ ← fail "signing_unavailable"; mret (Err OidcExchangeUnavailable)
  | Ok token =>
      _ ← count OidcExchange Issued;
      _ ← log "oidc_exchange_issued"
            [("issuer_hash", Oidc.hash_value (claims_issuer claims));
             ("subject_hash", Oidc.hash_value (claims_subject claims));
             ("source_replay_hash", Oidc.hash_value replay)];
      mret (Ok token)
  end.
(** After the assertion is verified. *)
Definition redeem (claims : OidcClaims) : io (result OidcExchangeError string) :=
  match authorize (policy self) claims with
  | Err _ =>
      _ ← deny "identity_unbound" (claims_issuer claims) (claims_subject claims);
      mret (Err OidcExchangeUnauthorized)
  | Ok task =>
      match replay_identifier claims with
      | None =>
          _ ← deny "replay_identity_invalid" (claims_issuer claims) (claims_subject claims);
          mret (Err OidcExchangeUnauthorized)
      | Some replay =>
          used ← ledger_use_once replay (expires_at claims);
          match used with
          | Ok () => issue claims task replay
          | Err Replayed =>
              _ ← count OidcExchange State.Replayed;
              _ ← deny "source_replay" (claims_issuer claims) (claims_subject claims);
              mret (Err OidcExchangeUnauthorized)
          | Err _ => _ ← fail "ledger_unavailable"; mret (Err OidcExchangeUnavailable)
          end
      end
  end.
Definition exchange (assertion : string) : io (result OidcExchangeError string) :=
  _ ← count OidcExchange Requests;
  verified ← Oidc.verify (verifier self) assertion;
  match verified with
  | Err Oidc.OidcInvalid => _ ← deny "assertion_invalid" "" ""; mret (Err OidcExchangeUnauthorized)
  | Err Oidc.OidcUnavailable => _ ← fail "jwks_unavailable"; mret (Err OidcExchangeUnavailable)
  | Ok claims => redeem claims
  end.
End exchange.

(** ** Hashed identifiers determine their source *)
Lemma byte_of_N b : (b < 256)%N -> N_of_ascii (ascii_of_N b) = b.
Proof. apply N_ascii_embedding. Qed.
Lemma of_bytes_inj l1 l2 :
  Forall (fun b => (b < 256)%N) l1 -> Forall (fun b => (b < 256)%N) l2 -> of_bytes l1 = of_bytes l2 -> l1 = l2.
Proof.
  revert l2. induction l1 as [|b1 l1 IH]; intros [|b2 l2] H1 H2; cbn; try done.
  apply Forall_cons in H1 as [Hb1 H1]. apply Forall_cons in H2 as [Hb2 H2]. intros [= Hb Hl].
  apply (f_equal N_of_ascii) in Hb. rewrite !byte_of_N in Hb by done. f_equal; [done|]. by apply IH.
Qed.
Lemma be_bytes_bound k n : Forall (fun b => (b < 256)%N) (be_bytes k n).
Proof.
  revert n. induction k as [|k IH]; intros n; cbn [be_bytes]; [constructor|].
  apply Forall_app. split; [apply IH|]. constructor; [by apply N.mod_lt|constructor].
Qed.
Lemma be_bytes_length k n : length (be_bytes k n) = k.
Proof. revert n. induction k as [|k IH]; intros n; [done|]. cbn. rewrite length_app, IH. cbn. lia. Qed.
Lemma be_bytes_inj k m n :
  (m < 256 ^ N.of_nat k)%N -> (n < 256 ^ N.of_nat k)%N -> be_bytes k m = be_bytes k n -> m = n.
Proof.
  revert m n. induction k as [|k IH]; intros m n Hm Hn; cbn [be_bytes]; [cbn in *; lia|].
  rewrite Nat2N.inj_succ, N.pow_succ_r' in Hm, Hn. intros H.
  apply app_inj_2 in H as [Hd [= Hr]]; [|done].
  apply IH in Hd; [|by apply N.Div0.div_lt_upper_bound..].
  rewrite (N.div_mod m 256), (N.div_mod n 256) by done. by rewrite Hd, Hr.
Qed.
Lemma len_of_bytes l : len (of_bytes l) = length l.
Proof. unfold len. induction l as [|b l IH]; cbn; [done|]. by rewrite IH. Qed.

(** The hasher's input determines the components. *)
Definition hashable (component : string) : Prop := (N.of_nat (len component) < 2 ^ 64)%N.
Lemma write_component_inj c1 c2 r1 r2 :
  hashable c1 -> hashable c2 ->
  write_replay_component c1 +:+ r1 = write_replay_component c2 +:+ r2 -> c1 = c2 /\ r1 = r2.
Proof.
  unfold write_replay_component, hashable. unfold to_be_bytes. rewrite !app_assoc'. intros H1 H2 H.
  apply app_inj_len in H as [Hb H]; [|by rewrite !len_of_bytes, !be_bytes_length].
  apply of_bytes_inj in Hb; [|apply be_bytes_bound..]. apply be_bytes_inj in Hb; [|done..].
  apply Nat2N.inj in Hb. by apply app_inj_len in H.
Qed.
Lemma hasher_input_inj l1 l2 :
  Forall hashable l1 -> Forall hashable l2 -> hasher_input l1 = hasher_input l2 -> l1 = l2.
Proof.
  revert l2. induction l1 as [|c1 l1 IH]; intros [|c2 l2] H1 H2 H; cbn [hasher_input] in *; try done.
  apply Forall_cons in H1 as [Hc1 H1]. apply Forall_cons in H2 as [Hc2 H2].
  apply write_component_inj in H as [-> H]; [|done..]. f_equal. by apply IH.
Qed.

(** Two assertions with the same replay identity. *)
Definition same_source (c1 c2 : OidcClaims) : Prop :=
  claims_issuer c1 = claims_issuer c2 /\ claims_jti c1 = claims_jti c2
  /\ (claims_jti c1 = None ->
        claims_subject c1 = claims_subject c2 /\ issued_at c1 = issued_at c2 /\ build_number c1 = build_number c2).
(** Different components with the same hash. *)
Definition collide `{sha : Sha2} (l1 l2 : list string) : Prop :=
  l1 <> l2 /\ sha256 (hasher_input l1) = sha256 (hasher_input l2).

Section identifiers.
Context `{sha : Sha2, sha_laws : !Sha2Laws}.
Lemma hashed_components l1 l2 :
  hex (sha256 (hasher_input l1)) = hex (sha256 (hasher_input l2)) <-> l1 = l2 \/ collide l1 l2.
Proof.
  split; [|by intros [->|[_ ->]]]. intros H. apply hex_inj in H; [|apply sha256_bytes..].
  destruct (decide (l1 = l2)) as [->|Hne]; [by left|right]. by split.
Qed.
Lemma replay_components_same c1 c2 l :
  replay_components c1 = Some l -> replay_components c2 = Some l -> same_source c1 c2.
Proof.
  unfold replay_components, same_source. destruct (claims_jti c1) as [j1|], (claims_jti c2) as [j2|].
  - intros [= <-] [= -> ->]. split_and!; [done..|]. by intros ?.
  - destruct (build_number c2); [|done]. by intros [= <-] [= ?].
  - destruct (build_number c1); [|done]. by intros [= <-] [= ?].
  - destruct (build_number c1) as [b1|], (build_number c2) as [b2|]; try done.
    intros [= <-] [= Hi Hs Ht Hb]. apply (inj pretty) in Ht, Hb. by subst.
Qed.
End identifiers.

Lemma same_source_components c1 c2 : same_source c1 c2 -> replay_components c1 = replay_components c2.
Proof.
  intros (Hi & Hj & Hrest). unfold replay_components. rewrite <- Hj, Hi.
  destruct (claims_jti c1); [done|]. by destruct Hrest as (-> & -> & ->).
Qed.

(** C23: two assertions share a replay identifier exactly when they are of the
    same issuer with the same [jti], or, without one, with the same subject, time
    and build number, unless the texts that are hashed collide under SHA-256; and
    they share an output subject exactly when they share issuer and subject, with
    the same proviso.  What is hashed determines its components. *)
Theorem replay_identifier_exact `{sha : Sha2, sha_laws : !Sha2Laws} c1 c2 l1 l2 :
  replay_components c1 = Some l1 -> replay_components c2 = Some l2 ->
  (replay_identifier c1 = replay_identifier c2 <-> same_source c1 c2 \/ collide l1 l2)
  /\ (provider_scoped_subject c1 = provider_scoped_subject c2 <->
       (claims_issuer c1 = claims_issuer c2 /\ claims_subject c1 = claims_subject c2)
       \/ collide [claims_issuer c1; claims_subject c1] [claims_issuer c2; claims_subject c2])
  /\ (Forall hashable l1 -> Forall hashable l2 -> hasher_input l1 = hasher_input l2 -> same_source c1 c2).
Proof.
  intros Hc1 Hc2. split_and!.
  - unfold replay_identifier. rewrite Hc1, Hc2. cbn [mbind option_bind]. split.
    + intros [= H]. apply hashed_components in H as [->|]; [|by right]. left. by eapply replay_components_same.
    + intros [Hs%same_source_components|[_ Hs]]; [|by rewrite Hs]. rewrite Hc1, Hc2 in Hs. by injection Hs as ->.
  - unfold provider_scoped_subject. split.
    + intros H. apply (inj (String.append "oidc:")) in H. apply hashed_components in H as [[= -> ->]|]; auto.
    + intros H. f_equal. apply hashed_components. by destruct H as [[-> ->]|]; [left|right].
  - intros H1 H2 H. apply hasher_input_inj in H as ->; [|done..]. by eapply replay_components_same.
Qed.

(** ** The exchange *)
(** The claims an assertion carries, whatever key verifies it. *)
Definition payload_claims `{jwt : Jwt} (assertion : string) : option OidcClaims :=
  v ← insecure_decode assertion;
  values ← as_object v;
  match Oidc.required_claims values with
  | Ok (issuer, subject, expires_at, issued_at) =>
      Some {| claims_issuer := issuer; claims_subject := subject; expires_at := expires_at;
              issued_at := issued_at; claims_jti := values !! "jti" ≫= as_str;
              build_number := values !! "build_number" ≫= as_u64; OidcPolicy.values := values |}
  | Err _ => None
  end.

Section exchange_theorems.
Context `{jwt : Jwt, serde : SerdeJson, chrono : Chrono, b64 : Base64, p256 : P256, sha : Sha2, url : UrlLib}.
Context `{L : !ReplayLedger, !LeaseLedger L}.
Context (self : OidcExchangeService).

Lemma verified_payload `{!JwtLaws} v h assertion c :
  Oidc.verified v h assertion c -> payload_claims assertion = Some c.
Proof.
  intros [_ (p & hd & kd & ky & ca & ra & da & nm & _&_&_&_&_&_&_&_&_&_&_& Hd & Hr & ch & _ & Hc)].
  apply decode_payload in Hd. unfold payload_claims. rewrite Hd. cbn. rewrite Hr.
  apply Oidc.check_claims_fields in Hc as (_&_&_&_&_&_& Hj & Hb). rewrite <- Hj, <- Hb. by destruct c.
Qed.

(** The outcome counters an answer allows: a replay is also counted as denied. *)
Definition outcomes_of (r : result OidcExchangeError string) (l : list counter) : Prop :=
  match r with
  | Ok _ => l = [Count OidcExchange Issued]
  | Err OidcExchangeUnauthorized => l = [Count OidcExchange Denied]
      \/ l = [Count OidcExchange Denied; Count OidcExchange State.Replayed]
  | Err OidcExchangeUnavailable => l = [Count OidcExchange Errors]
  end.

(** What stands behind an issued token. *)
Record issued (h : trace_io) (assertion token : string) : Prop := {
  issued_from : exists claims task replay now uuid signed_at,
    Oidc.verified (verifier self) h assertion claims
    /\ authorize (policy self) claims = Ok task
    /\ replay_identifier claims = Some replay
    /\ 1 <= writes (lease_name replay) h
    /\ Obs CurrentTimestamp now ∈ h /\ Obs NewUuid uuid ∈ h /\ Obs UtcNow signed_at ∈ h
    /\ sign_at (oidc_signing_keys self) (oidc_output_value (output_claims self claims task now uuid)) signed_at
       = Ok token
}.
Lemma oidc_issued_prefix h h' assertion token :
  h `prefix_of` h' -> issued h assertion token -> issued h' assertion token.
Proof.
  intros Hp [(c & task & replay & now & uuid & at_ & Hv & Ha & Hr & Hw & H1 & H2 & H3 & Hs)]. split.
  exists c, task, replay, now, uuid, at_. pose proof Hp as [k ->]. rewrite !elem_of_app, writes_app.
  split_and!; auto; [by eapply Oidc.provider_verified_prefix|lia].
Qed.
Definition exchange_post (h : trace_io) (assertion : string) (r : result OidcExchangeError string)
    (h' : trace_io) : Prop :=
  (exists l, outcomes_of r l /\ moved (l ++ [Count OidcExchange Requests]) h h')
  /\ (forall token, r = Ok token -> issued h' assertion token)
  /\ (r = Err OidcExchangeUnauthorized -> forall n, writes n h' = writes n h).

Context (P : string -> Z -> Prop) (assertion : string) (h0 : trace_io).
Abbreviation requested := (moved [Count OidcExchange Requests] h0).
Abbreviation post := (exchange_post h0 assertion).

Lemma wp_oidc_refuse h ev fields cs o (e : OidcExchangeError) :
  moved (cs ++ [Count OidcExchange Requests]) h0 h ->
  outcomes_of (Err e) (Count OidcExchange o :: cs) -> Count OidcExchange o ∉ cs -> o <> Requests ->
  (e = OidcExchangeUnauthorized -> forall n, writes n h = writes n h0) ->
  wp (lease_discipline P) (_ ← count OidcExchange o; _ ← log ev fields; mret (Err e)) h post.
Proof.
  intros Hm Ho Hn Hr Hw. eapply wp_settle; [apply lease_discipline_allows|done| |].
  - rewrite elem_of_app, list_elem_of_singleton. naive_solver.
  - intros h' _ Hm' Hw'. split; [by exists (Count OidcExchange o :: cs)|]. split; [done|].
    intros [= He] n. rewrite Hw'. by apply Hw.
Qed.
Lemma wp_oidc_issue h claims task replay :
  requested h -> Oidc.verified (verifier self) h assertion claims ->
  authorize (policy self) claims = Ok task -> replay_identifier claims = Some replay ->
  1 <= writes (lease_name replay) h ->
  wp (lease_discipline P) (issue self claims task replay) h post.
Proof.
  intros Hm Hv Ha Hr Hw. unfold issue. cbn -[sign_at output_claims]. do 2 (split; [done|]; intros ?).
  split; [done|]. intros signed_at. set (h1 := ((h ++ _) ++ _) ++ _).
  assert (h `prefix_of` h1) as Hp by (unfold h1; rewrite <- !app_assoc; by apply prefix_app_r).
  assert (requested h1) as Hm1 by (unfold h1; by auto with accounting).
  destruct (sign_at _ _ _) as [token|e] eqn:Hs.
  2:{ by apply (wp_oidc_refuse h1 _ _ [] Errors OidcExchangeUnavailable); [..|set_solver|done|]. }
  eapply (wp_settle _ _ h0); [apply lease_discipline_allows|exact Hm1|set_solver|].
  intros h' Hp' Hm' _. split; [by exists [Count OidcExchange Issued]|]. split; [|done].
  intros t [= <-]. eapply oidc_issued_prefix; [exact Hp'|]. split.
  exists claims, task, replay, x, x0, signed_at. split_and!; try done.
  - by eapply Oidc.provider_verified_prefix.
  - destruct Hp as [k ->]. rewrite writes_app. lia.
  - unfold h1. rewrite !elem_of_app, !list_elem_of_singleton. auto.
  - unfold h1. rewrite !elem_of_app, !list_elem_of_singleton. auto.
  - unfold h1. rewrite !elem_of_app, !list_elem_of_singleton. auto.
Qed.

Lemma wp_oidc_redeem h claims :
  (forall replay, replay_identifier claims = Some replay -> P replay (expires_at claims)) ->
  requested h -> (forall n, writes n h = writes n h0) ->
  Oidc.verified (verifier self) h assertion claims ->
  wp (lease_discipline P) (redeem self claims) h post.
Proof.
  intros HP Hm Hw Hv. unfold redeem. destruct (authorize _ _) as [task|e] eqn:Ha.
  2:{ by apply (wp_oidc_refuse h _ _ [] Denied OidcExchangeUnauthorized); [..|left|set_solver|done|]. }
  destruct (replay_identifier claims) as [replay|] eqn:Hr.
  2:{ by apply (wp_oidc_refuse h _ _ [] Denied OidcExchangeUnauthorized); [..|left|set_solver|done|]. }
  apply wp_bind. eapply wp_mono.
  { apply (wp_discipline P), (moved_prog (ledger_permit P)); [by intros ? ? ? (_ & ? & _)|exact Hm|].
    apply use_once_spec. by apply HP. }
  intros used h1 Hp [Hwr Hm1]. destruct used as [[]|[| |d]].
  - apply wp_oidc_issue; try done; [by eapply Oidc.provider_verified_prefix|]. rewrite Hwr. cbn. rewrite decide_True by done. lia.
  - split; [done|]. intros u. cbn [prog_bind]. apply (wp_oidc_refuse _ _ _ [Count OidcExchange State.Replayed] Denied);
      [apply moved_count; [set_solver|done]|by right|set_solver|done|].
    intros _ n. rewrite writes_other, Hwr, Hw by done. cbn. lia.
  - by apply (wp_oidc_refuse h1 _ _ [] Errors OidcExchangeUnavailable); [..|set_solver|done|].
  - by apply (wp_oidc_refuse h1 _ _ [] Errors OidcExchangeUnavailable); [..|set_solver|done|].
Qed.

Lemma wp_oidc_exchange `{!JwtLaws} :
  (forall claims replay, payload_claims assertion = Some claims -> replay_identifier claims = Some replay ->
     P replay (expires_at claims)) ->
  wp (lease_discipline P) (exchange self assertion) h0 post.
Proof.
  intros HP. split; [done|]. intros u.
  assert (requested (h0 ++ [Obs (FetchAdd (Count OidcExchange Requests) 1) u])) as Hm
    by (apply moved_count; [set_solver|apply moved_refl]).
  set (h1 := h0 ++ [_]) in *. assert (forall n, writes n h1 = writes n h0) as Hw by (intros n; by apply writes_other).
  apply wp_bind. eapply wp_mono.
  { eapply (wp_permit_mono Oidc.oidc_permit).
    { intros h' X e (_ & He & _). by apply lease_discipline_allows. }
    apply moved_prog; [by intros ? ? ? (_ & _ & ?)|exact Hm|].
    apply wp_quiet; [by intros ? ? ? (_ & ? & _)|]. apply Oidc.wp_provider_verify. }
  intros r h2 Hp [[Hr Hw2] Hm2]. assert (forall n, writes n h2 = writes n h0) as Hq by (intros n; by rewrite Hw2).
  destruct r as [claims|[|]].
  - specialize (Hr claims eq_refl). apply wp_oidc_redeem; try done. intros replay. apply HP.
    by eapply verified_payload.
  - by apply (wp_oidc_refuse h2 _ _ [] Denied OidcExchangeUnauthorized); [..|left|set_solver|done|].
  - by apply (wp_oidc_refuse h2 _ _ [] Errors OidcExchangeUnavailable); [..|set_solver|done|].
Qed.
End exchange_theorems.

Section exchange_properties.
Context `{jwt : Jwt, !JwtLaws, serde : SerdeJson, chrono : Chrono, b64 : Base64, p256 : P256, sha : Sha2, url : UrlLib}.
Context `{L : !ReplayLedger, !LeaseLedger L}.

Lemma oidc_exchange_runs self assertion t r :
  runs (exchange self assertion) t r -> exchange_post self [] assertion r t.
Proof. exact (wp_runs _ _ [] _ _ _ (wp_oidc_exchange self (fun _ _ => True) assertion [] (fun _ _ _ _ => I))). Qed.

(** C12: a generic OIDC token is issued only for an assertion that was verified and
    is bound to a task and whose use was recorded under its replay identifier; it
    is the signature of exactly the claims of that task's owner. *)
Theorem oidc_exchange_issues self assertion t token :
  runs (exchange self assertion) t (Ok token) -> issued self t assertion token.
Proof. intros (_ & Hi & _)%oidc_exchange_runs. by apply Hi. Qed.

(** Every generic OIDC exchange counts one request and the outcome of its
    answer, where a replay counts both as a replay and as a denial; and a refused
    assertion is not consumed. *)
Theorem oidc_accounting self assertion t r :
  runs (exchange self assertion) t r ->
  exists l, outcomes_of r l
  /\ (forall c, is_duration c = false -> c <> RefreshFailures ->
        total c t = if decide (c = Count OidcExchange Requests \/ c ∈ l) then 1%Z else 0%Z)
  /\ (r = Err OidcExchangeUnauthorized -> forall n, writes n t = 0).
Proof.
  intros ((l & Ho & Hm) & _ & Hw)%oidc_exchange_runs. exists l. split_and!; try done.
  intros c Hd Hr. rewrite (Hm c Hd Hr). cbn. repeat case_decide; set_solver.
Qed.

#[export,refine] Instance oidc_exchange : Exchange (OidcExchangeService * string) (result OidcExchangeError string) := {|
  perform_call c := exchange c.1 c.2;
  identifies c := claims ← payload_claims c.2; replay ← replay_identifier claims; Some (replay, expires_at claims);
  issues _ r _ := is_ok r = true;
|}.
Proof.
  intros P [self assertion] h HP. eapply wp_mono; [apply (wp_oidc_exchange self P assertion h)|].
  - intros claims replay Hc Hr. apply HP. cbn in Hc |- *. rewrite Hc. cbn. by rewrite Hr.
  - cbn. intros r h' _ (_ & Hi & _) Hr. destruct r as [token|]; [|done].
    destruct (Hi token eq_refl) as [(claims & task & replay & now & uuid & at_ & Hv & _ & Hid & Hw & _)].
    rewrite (verified_payload _ _ _ _ Hv). cbn. rewrite Hid. by do 2 eexists.
Defined.
End exchange_properties.

(** ** Termination *)
Section termination.
Context `{jwt : Jwt, serde : SerdeJson, chrono : Chrono, b64 : Base64, p256 : P256, sha : Sha2, url : UrlLib}.
Lemma bound_oidc_exchange self ledger assertion :
  len_bound (exchange (L := kubernetes_ledger ledger) self assertion) 47.
Proof.
  apply (len_bound_bind _ _ 1 46); [done|]. intros _.
  apply (len_bound_bind _ _ 15 31); [apply Oidc.bound_provider_verify|]. intros [claims|[|]]; [|done..].
  unfold redeem. destruct (authorize _ _) as [task|]; [|done]. destruct (replay_identifier _) as [replay|]; [|done].
  apply (len_bound_bind _ _ 26 5); [apply bound_use_once|]. intros [[]|[| |d]]; [|done..].
  apply (len_bound_bind _ _ 1 4); [done|]. intros now. apply (len_bound_bind _ _ 1 3); [done|]. intros uuid.
  apply (len_bound_bind _ _ 1 2); [done|]. by intros [token|e].
Qed.
End termination.

(** ** A concrete exchange *)
Definition oidc_tokens : gmap string Token :=
  {["build" := {| signed_by := "ci-key";
                  token_header := {| alg := RS256; typ := Some "JWT"; kid := Some "ci1" |};
                  token_claims := VObject sample_oidc_values |}]}.
Definition oidc_documents : gmap string Value := {[
  "discovery" := object [("issuer", VString "https://ci.example"); ("jwks_uri", VString "https://ci.example/jwks")];
  "jwks" := VArray [VArray [VString "ci1"; VString "ci-key"; VBool false]];
  "foreign" := object [("issuer", VString "https://other.example"); ("jwks_uri", VString "https://other.example/jwks")]]}.
#[local] Instance oidc_jwt : Jwt := concrete_jwt oidc_tokens.
#[local] Instance oidc_jwt_laws : JwtLaws := concrete_jwt_laws oidc_tokens.
#[local] Instance oidc_serde : SerdeJson := concrete_serde oidc_documents.
#[local] Instance oidc_ledger : ReplayLedger := kubernetes_ledger sample_ledger.
#[local] Instance oidc_lease_ledger : LeaseLedger oidc_ledger := kubernetes_lease_ledger sample_ledger.
Definition sample_verifier : Oidc.ProviderVerifier := {|
  Oidc.verifier_issuer := "https://ci.example"; Oidc.verifier_audience := "exchange";
  Oidc.verifier_max_staleness := (21600 * ns_per_s)%Z |}.
Definition sample_oidc_service : OidcExchangeService := {|
  verifier := {| Oidc.verifiers := {["https://ci.example" := sample_verifier]} |};
  policy := sample_oidc_policy; oidc_signing_keys := Workload.sample_key_ring;
  oidc_output_issuer := "https://exchange.example"; oidc_output_audience := "steward";
  oidc_token_ttl := (300 * ns_per_s)%Z |}.
Definition oidc_world : World :=
  set_streams (world_at 1700000000 {["/token" := "secret"]})
    {["https://ci.example/.well-known/openid-configuration" := [Some "disc"; Some "overy"];
      "https://ci.example/jwks" := [Some "jwks"]]}.
Definition oidc_trace : trace_io := run_trace handle (exchange sample_oidc_service "build") oidc_world.
Definition oidc_token : string :=
  match (run handle (exchange sample_oidc_service "build") oidc_world).1 with Ok t => t | Err _ => "" end.
Lemma oidc_run : runs (exchange sample_oidc_service "build") oidc_trace (Ok oidc_token).
Proof. apply run_trace_runs. by vm_compute. Qed.

Lemma oidc_exchange_issues_witness : issued sample_oidc_service oidc_trace "build" oidc_token.
Proof. apply (oidc_exchange_issues sample_oidc_service "build" oidc_trace oidc_token oidc_run). Defined.
Lemma oidc_accounting_witness :
  exists l, outcomes_of (Ok oidc_token) l /\ total (Count OidcExchange Requests) oidc_trace = 1%Z.
Proof.
  destruct (oidc_accounting sample_oidc_service "build" oidc_trace (Ok oidc_token) oidc_run) as (l & Ho & Hc & _).
  exists l. split; [exact Ho|]. rewrite (Hc (Count OidcExchange Requests)); [|done..].
  rewrite decide_True; [done|by left].
Defined.
Definition other_build : OidcClaims := {|
  claims_issuer := "https://ci.example"; claims_subject := "job"; expires_at := 1700000300;
  issued_at := 1700000000; claims_jti := None; build_number := Some 8%Z; values := sample_oidc_values |}.
Lemma replay_identifier_exact_witness :
  replay_identifier sample_oidc_claims = replay_identifier other_build
  <-> same_source sample_oidc_claims other_build
      \/ collide ["https://ci.example"; "jenkins-build"; "job"; "1700000000"; "7"]
                 ["https://ci.example"; "jenkins-build"; "job"; "1700000000"; "8"].
Proof. apply (replay_identifier_exact sample_oidc_claims other_build); by vm_compute. Defined.

(** *** Verification *)
Definition oidc_verify_trace : trace_io := run_trace handle (Oidc.verify (verifier sample_oidc_service) "build") oidc_world.
Lemma oidc_verify_run :
  runs (Oidc.verify (verifier sample_oidc_service) "build") oidc_verify_trace (Ok sample_oidc_claims).
Proof. apply run_trace_runs. by vm_compute. Qed.
Lemma validated_claims_exact_witness :
  Oidc.claims_accepted sample_oidc_values "https://ci.example" "exchange"
    (timestamp_of (1700000000 * ns_per_s)%Z) sample_oidc_claims.
Proof.
  apply (Oidc.validated_claims_exact sample_oidc_values "https://ci.example" "exchange"
           (1700000000 * ns_per_s)%Z sample_oidc_claims); [split; by vm_compute|].
  apply runs_vis. split; [done|by vm_compute].
Defined.
Lemma oidc_forced_refresh_witness :
  exists refresh now t', run_trace handle (Oidc.refresh_for_unknown_kid_if_due sample_verifier) oidc_world
    = [Obs (Acquire (OidcRefresh "https://ci.example")) ();
       Obs (Load (OidcRefreshCell "https://ci.example")) refresh; Obs UtcNow now]
      ++ t' ++ [Obs (Release (OidcRefresh "https://ci.example")) ()].
Proof.
  destruct (Oidc.oidc_forced_refresh sample_verifier
    (run_trace handle (Oidc.refresh_for_unknown_kid_if_due sample_verifier) oidc_world)
    (run handle (Oidc.refresh_for_unknown_kid_if_due sample_verifier) oidc_world).1)
    as (refresh & now & t' & Ht & _); [by apply run_trace_runs|by exists refresh, now, t'].
Defined.
Lemma oidc_keys_discovered_witness :
  Forall (fun o => match o with Obs e _ => lease_write e = false end) oidc_verify_trace.
Proof.
  apply Forall_forall. intros [X e x] Ho. apply list_elem_of_split in Ho as (t1 & t2 & Ht).
  apply (Oidc.oidc_keys_discovered (verifier sample_oidc_service) "build" [] 0 oidc_verify_trace t1 X e x t2);
    [left; exists (Ok sample_oidc_claims); exact oidc_verify_run|exact Ht].
Defined.

(** *** Two requests for a key that is not cached yet

    Both find the empty cache; the second waits for the first one's refresh, and
    then fails although the cache holds its key by now. *)
Definition key_tasks : gmap nat (io (result Oidc.OidcVerifyError DecodingKey)) :=
  {[0 := Oidc.key sample_verifier "ci1"; 1 := Oidc.key sample_verifier "ci1"]}.
Definition key_pool : config event World (result Oidc.OidcVerifyError DecodingKey) :=
  exec handle (initial oidc_world key_tasks) ([1; 1] ++ replicate 16 0 ++ replicate 16 1).
Lemma unknown_kid_not_rechecked :
  result_of key_pool 0 = Some (Ok "ci-key") /\ result_of key_pool 1 = Some (Err Oidc.OidcUnavailable)
  /\ oidc_keys (handle_load (OidcCache "https://ci.example") (server key_pool)) !! "ci1" = Some "ci-key".
Proof. split_and!; by vm_compute. Qed.

(** *** A provider whose discovery document is not its own

    It has no usable keys, yet the first assertion of every thirty seconds is refused
    as if it were not genuine; the next ones are answered as unavailable. *)
Definition foreign_world : World :=
  set_streams oidc_world {["https://ci.example/.well-known/openid-configuration" := [Some "foreign"]]}.
Definition foreign_first := run handle (exchange sample_oidc_service "build") foreign_world.
Definition foreign_second := run handle (exchange sample_oidc_service "build") foreign_first.2.
Example foreign_discovery_refused :
  (foreign_first.1, foreign_second.1) = (Err OidcExchangeUnauthorized, Err OidcExchangeUnavailable)
  /\ (fun o => counts foreign_second.2 (Count OidcExchange o)) <$> [Denied; Errors] = [1; 1]%Z.
Proof. by vm_compute. Qed.
