(* ===== verification/KeyOrigin.v ===== *)
(** * Where the keys of verified assertions come from

    The requests of a replica and its background tasks share the key caches.
    [CellServer] is what a shared cell promises: it yields what was stored last.
    [pool_origin] then carries the guarantee under which a cache is replaced to
    every reader of it, whatever the interleaving.  So the key of a verified
    GitHub assertion was served by GitHub's key endpoint, and that of a generic
    assertion was discovered from its configured issuer: by some task of the
    replica, not necessarily by the one that verifies. *)
From S2P Require Import Prelude Text Prog Libs State Constants Concrete Replay Simulator ReplaySafety.
From S2P Require GithubClaims Github Service OidcPolicy Oidc OidcExchange.

(** ** Shared cells *)
Section interface.
Context `{jwt : Jwt}.
Class CellServer (S : Type) (serve : forall X, event X -> S -> X -> S -> Prop) {T} (c : cell T) := {
  contents : S -> T;
  serve_contents s x s' : serve _ (Load c) s x s' -> x = contents s;
  serve_kept X (e : event X) s x s' : serve X e s x s' ->
    contents s' = contents s \/ exists v, Obs e x = Obs (Store c v) () /\ contents s' = v;
}.
End interface.
Arguments contents {jwt S serve T} c {_} s.

Section origin.
Context `{jwt : Jwt} {S A T : Type} (serve : forall X, event X -> S -> X -> S -> Prop) (c : cell T) `{!CellServer S serve c}.
(** What the tasks may do, and what is known of a value that is stored. *)
Context (permit : trace_io -> forall X, event X -> Prop) (vetted : trace_io -> T -> Prop).
Context (vetted_more : forall h h' v, h `sublist_of` h' -> vetted h v -> vetted h' v).
Context (vetted_store : forall h v, permit h () (Store c v) -> vetted h v).

Record origin_ok (k : config event S A) : Prop := {
  origin_tasks i p : tasks k !! i = Some p -> wp permit p (of_task i (history k)) (fun _ _ => True);
  origin_contents : vetted (all_events (history k)) (contents c (server k));
  origin_loads v : Obs (Load c) v ∈ all_events (history k) -> vetted (all_events (history k)) v;
}.
Lemma of_task_sublist i h : of_task i h `sublist_of` all_events h.
Proof.
  unfold of_task, all_events. induction h as [|[j o] h IH]; [done|]. cbn [omap list_omap fmap list_fmap].
  case_decide; [by apply sublist_skip|by apply sublist_cons].
Qed.
Lemma all_events_snoc h i o : all_events (h ++ [(i, o)]) = all_events h ++ [o].
Proof. unfold all_events. by rewrite fmap_app. Qed.
(** An event with its answer, permitted to a task and given by the server. *)
Definition permitted (h : trace_io) (o : obs_io) : Prop := match o with Obs e _ => permit h _ e end.
Definition replied (s : S) (o : obs_io) (s' : S) : Prop := match o with Obs e x => serve _ e s x s' end.
Lemma origin_ok_step k k' : origin_ok k -> pool_step serve k k' -> origin_ok k'.
Proof.
  intros [Ht Hc Hl] Hs. destruct Hs as [s ts h i X e kont x s' Hi Hs]. cbn [server tasks history] in *.
  pose proof (Ht i _ Hi) as [Hp Hk].
  assert (all_events h `sublist_of` all_events h ++ [Obs e x]) as Hmore by by apply sublist_inserts_r.
  split; cbn [server tasks history]; rewrite ?all_events_snoc.
  - intros j p. rewrite of_task_snoc. destruct (decide (i = j)) as [->|Hne].
    + rewrite lookup_insert_eq. intros [= <-]. apply Hk.
    + rewrite lookup_insert_ne by done. rewrite app_nil_r. apply Ht.
  - destruct (serve_kept _ _ _ _ _ Hs) as [->|(v & Ho & ->)]; [by eapply vetted_more|].
    change (permitted (of_task i h) (Obs e x)) in Hp. rewrite Ho in Hp.
    eapply vetted_more; [|by apply vetted_store]. by apply sublist_inserts_r, of_task_sublist.
  - intros v [Hv|Hv%list_elem_of_singleton]%elem_of_app; [by eapply vetted_more, Hl|].
    change (replied s (Obs e x) s') in Hs. rewrite <- Hv in Hs. rewrite (serve_contents _ _ _ Hs). by eapply vetted_more.
Qed.
(** Whatever is read from the cell was vetted. *)
Lemma pool_origin s (ts : gmap nat (io A)) k v :
  vetted [] (contents c s) -> (forall i p, ts !! i = Some p -> wp permit p [] (fun _ _ => True)) ->
  reachable serve s ts k -> Obs (Load c) v ∈ all_events (history k) -> vetted (all_events (history k)) v.
Proof.
  intros Hs Hts Hr. apply origin_loads. revert k Hr. apply (pool_invariant serve origin_ok).
  - split; [exact Hts|exact Hs|]. by intros w Hw%elem_of_nil.
  - intros k1 k2 _ H1 H2. by eapply origin_ok_step.
Qed.
End origin.

(** ** GitHub assertions *)
Section github.
Context `{jwt : Jwt, !JwtLaws, chrono : Chrono, reqwest : Reqwest}.
Context {St : Type} (serve : forall X, event X -> St -> X -> St -> Prop) `{!CellServer St serve GithubCache}.

(** What a replica does with the key cache. *)
Inductive github_task :=
| VerifyGithub (assertion : string)
| WarmUpGithub
| RefreshGithub (iterations : nat) (interval : Z)
| ProbeGithub.
Definition perform_github (self : Github.GitHubVerifier) (t : github_task) : io (option GithubClaims.GitHubClaims) :=
  match t with
  | VerifyGithub assertion => r ← Github.verify self assertion; mret (result_ok r)
  | WarmUpGithub => _ ← Github.warm_up self; mret None
  | RefreshGithub iterations interval => _ ← Github.run_refresh_loop_with_interval self iterations interval; mret None
  | ProbeGithub => _ ← Github.verifier_check_ready self; mret None
  end.
Lemma wp_perform_github self t : wp (Github.verifier_permit self) (perform_github self t) [] (fun _ _ => True).
Proof.
  destruct t; cbn [perform_github]; (eapply (wp_call _ _ _ _ (fun _ _ => True)); [|done]).
  - by eapply wp_mono; [apply Github.wp_verify|].
  - by eapply wp_mono; [apply Github.wp_warm_up|].
  - apply Github.wp_refresh_loop.
  - by do 2 (split; [done|]; intros ?).
Qed.

(** A genuine assertion for the audience: [seen] is what its verification was
    told, and [all] what any task of the replica was. *)
Record github_genuine (audience : string) (max_staleness : Z) (seen all : trace_io) (assertion : string)
    (claims : GithubClaims.GitHubClaims) : Prop := {
  genuine_length : 0 < len assertion <= 32 * 1024;
  genuine_signature : exists header kid document jwk key fetched_at read_at decoded_at payload,
    decode_header assertion = Some header /\ alg header = RS256 /\ typ header = Some "JWT" /\ Libs.kid header = Some kid
    (* GitHub served the key for this ID *)
    /\ [Obs (JwksGet "https://token.actions.githubusercontent.com/.well-known/jwks")
          (Ok {| status_error := None; jwks_body := Ok document |}); Obs UtcNow fetched_at] `sublist_of` all
    /\ jwk ∈ document /\ key_id jwk = Some kid /\ key_algorithm jwk = Some KeyRS256
    /\ public_key_use jwk = Some Signature /\ from_jwk jwk = Some key
    (* not too long ago *)
    /\ Obs UtcNow read_at ∈ seen /\ (0 < timestamp_of fetched_at)%Z
    /\ (timestamp_of read_at - timestamp_of fetched_at <= as_secs max_staleness)%Z
    (* and the assertion verifies under it *)
    /\ Obs CurrentTimestamp decoded_at ∈ seen
    /\ decode assertion key {|
         validation_algorithm := RS256;
         validation_issuer := ["https://token.actions.githubusercontent.com"];
         validation_audience := [audience];
         required_spec_claims := ["iss"; "sub"; "aud"; "exp"; "iat"; "nbf"; "jti"];
         validate_nbf := true;
         leeway := 30 |} decoded_at = Some payload
    /\ insecure_decode assertion = Some payload
    /\ GithubClaims.github_claims_deserialize payload = Some claims
    /\ (decoded_at - 30 <= GithubClaims.exp claims)%Z;
  genuine_claims : exists now, Obs UtcNow now ∈ seen /\ GithubClaims.accepted audience (timestamp_of now) claims;
  genuine_subject : exists r suffix, GithubClaims.sub claims = "repo:" +:+ r +:+ ":" +:+ suffix
    /\ GithubClaims.subject_repository claims r
    /\ (forall g, suffix = "ref:" +:+ g -> g = GithubClaims.git_ref claims)
    /\ (suffix = "pull_request" -> exists n, GithubClaims.git_ref claims = "refs/pull/" +:+ n);
  genuine_workflow : exists file g, GithubClaims.workflow_ref claims
    = GithubClaims.repository claims +:+ "/.github/workflows/" +:+ file +:+ "@" +:+ g;
}.

(** A cache that is empty or was fetched. *)
Definition github_vetted (self : Github.GitHubVerifier) (h : trace_io) (cache : KeyCache) : Prop :=
  keys cache = ∅ \/ Github.fetched self h cache.
Lemma github_vetted_more self h h' cache :
  h `sublist_of` h' -> github_vetted self h cache -> github_vetted self h' cache.
Proof.
  intros Hs [He|(document & now & Hh & Hrest)]; [by left|right]. exists document, now. split; [by etrans|done].
Qed.
Lemma new_verifier_fields audience max self : Github.new_verifier audience max = Ok self ->
  self = {| Github.audience := audience; Github.jwks_url := Github.JWKS_URL; Github.max_staleness := max |}.
Proof. unfold Github.new_verifier. by intros ([] & _ & [= <-])%result_bind_ok. Qed.
(** A usable cache was fetched within the bound. *)
Lemma usable_fresh fetched now bound :
  (0 <= bound < i64_max)%Z -> (Github.cache_age fetched now <= bound)%Z -> (0 < fetched)%Z /\ (now - fetched <= bound)%Z.
Proof.
  intros Hb [Hf Ha]%Github.cache_age_le; [|unfold i64_max, u64_max in *; lia].
  unfold i64_saturating_sub, i64_max, i64_min in *. lia.
Qed.

Lemma verified_genuine self audience max h assertion claims all :
  self = {| Github.audience := audience; Github.jwks_url := Github.JWKS_URL; Github.max_staleness := max |} ->
  (0 <= as_secs max < i64_max)%Z ->
  (forall cache, Obs (Load GithubCache) cache ∈ h -> github_vetted self all cache) ->
  Github.verified self h assertion claims -> github_genuine audience max h all assertion claims.
Proof.
  intros -> Hmax Hcaches [Hl (header & kid & k & cache & read_at & d & Hh & Ha & Ht & Hk & Hload & Hread & Hu & Hlook & Hd & Hdec) Hacc].
  pose proof Hacc as (now & _ & A). apply GithubClaims.accepted_provenance in A.
  destruct (Hcaches cache Hload) as [He|(document & at_ & Hfetch & Hat & Hkeys)]; [by rewrite He, lookup_empty in Hlook|].
  destruct (Hkeys kid k Hlook) as (jwk & Hin & Hid & Halg & Huse & Hfrom).
  apply andb_prop in Hu as [_ Hage%bool_decide_eq_true]. rewrite Hat in Hage.
  destruct (usable_fresh _ _ _ Hmax Hage) as [Hpos Hfresh]. apply bind_Some in Hdec as (payload & Hdec & Hpay).
  split; [exact Hl| |exact Hacc| |].
  - exists header, kid, document, jwk, k, at_, read_at, d, payload. split_and!; try done; [by eapply decode_payload|].
    by apply (decode_exp assertion k _ d payload _ Hdec), Github.deserialize_exp.
  - destruct (GithubClaims.provenance_subject _ A) as (r & suffix & Hs & Hr & _ & Hg & Hp). exists r, suffix.
    split_and!; try done. intros Hsuf. destruct (Hp Hsuf) as (n & Hn & _). by exists n.
  - destruct (GithubClaims.provenance_workflows _ A) as [(r & file & g & Hw & _ & Hr & _)%GithubClaims.workflow_reference_spec _].
    exists file, g. by rewrite (Hr _ eq_refl).
Qed.

(** C10: a GitHub assertion that a replica has verified, however many requests and
    refreshes run at the same time, is genuine: it is at most 32 KiB long; GitHub's
    key endpoint answered the replica with an RS256 signature key for the key ID of
    its header, no longer ago than the staleness bound; under that key it decodes,
    for GitHub as the issuer and the configured audience, to exactly these claims,
    which had not expired 30 seconds before; they pass every check at a time that
    was read, and the subject and the workflow are those of the repository.  The
    cache is empty at first. *)
Theorem github_assertion_genuine audience max self work s c i assertion claims :
  Github.new_verifier audience max = Ok self -> (0 <= as_secs max < i64_max)%Z ->
  keys (contents GithubCache s) = ∅ -> reachable serve s (perform_github self <$> work) c ->
  work !! i = Some (VerifyGithub assertion) -> finished c i (Some claims) ->
  github_genuine audience max (of_task i (history c)) (all_events (history c)) assertion claims.
Proof.
  intros Hself%new_verifier_fields Hmax Hs Hr Hi Hf.
  destruct (finished_runs serve _ _ _ _ _ Hr Hf) as (p & Hp & Hrun).
  rewrite lookup_fmap, Hi in Hp. injection Hp as <-.
  apply runs_bind in Hrun as (t1 & t2 & [v|e] & Ht & Hv & [-> Hc]%runs_ret); [|done]. injection Hc as ->.
  rewrite app_nil_r in Ht. subst t1.
  eapply verified_genuine; [exact Hself|exact Hmax| |exact (wp_runs _ _ [] _ _ _ (Github.wp_verify self assertion []) Hv v eq_refl)].
  intros cache Hload%of_task_incl.
  refine (pool_origin serve GithubCache (Github.verifier_permit self) (github_vetted self) (github_vetted_more self) _ _ _ _ _ _ _ Hr Hload).
  - intros h v' [[_ Hg] _]. by right.
  - by left.
  - intros j p (t & <- & _)%lookup_fmap_Some. apply wp_perform_github.
Qed.
End github.

(** ** Generic assertions *)
Section oidc.
Context `{jwt : Jwt, !JwtLaws, serde : SerdeJson, chrono : Chrono, url : UrlLib, sha : Sha2, rustls : Rustls}.
Context {St : Type} (serve : forall X, event X -> St -> X -> St -> Prop) `{!forall issuer, CellServer St serve (OidcCache issuer)}.

(** What a replica does with the key caches. *)
Inductive oidc_task :=
| VerifyOidc (assertion : string)
| RefreshOidc (schedules : list (list nat)) (interval : Z)
| ProbeOidc.
Definition perform_oidc (self : Oidc.OidcVerifierSet) (t : oidc_task) : io (option OidcPolicy.OidcClaims) :=
  match t with
  | VerifyOidc assertion => r ← Oidc.verify self assertion; mret (result_ok r)
  | RefreshOidc schedules interval => _ ← Oidc.run_refresh_loop_with_interval self schedules interval; mret None
  | ProbeOidc => _ ← Oidc.provider_readiness self; mret None
  end.
Lemma permitted_provider_states now providers h :
  wp Oidc.oidc_permit (Oidc.provider_states now providers) h (fun _ _ => True).
Proof.
  revert h. induction providers as [|p l IH]; intros h; [done|]. split; [done|]. intros cache.
  change (prog_bind ?f (Ret cache)) with (f cache). cbn beta. eapply wp_call; [apply IH|]. done.
Qed.
Lemma wp_perform_oidc self t : wp Oidc.oidc_permit (perform_oidc self t) [] (fun _ _ => True).
Proof.
  destruct t; cbn [perform_oidc]; (eapply (wp_call _ _ _ _ (fun _ _ => True)); [|done]).
  - by eapply wp_mono; [apply Oidc.wp_provider_verify|].
  - apply Oidc.wp_provider_refresh_loop.
  - split; [done|]. intros now. cbn. by eapply wp_call; [apply permitted_provider_states|].
Qed.

(** The verifiers are those of the configured providers. *)
Lemma discover_provider policy max ca self named provider :
  Oidc.discover_with_additional_ca policy max ca = Ok self -> Oidc.verifiers self !! named = Some provider ->
  exists configured, configured ∈ OidcPolicy.providers policy /\ OidcPolicy.provider_issuer configured = named
    /\ provider = Oidc.provider_verifier max configured.
Proof.
  unfold Oidc.discover_with_additional_ca. intros Hd. apply result_bind_ok in Hd as ([] & _ & Hd).
  apply result_bind_ok in Hd as ([] & _ & [= <-]). cbn [Oidc.verifiers].
  induction (OidcPolicy.providers policy) as [|p l IH] using rev_ind; [cbn; by rewrite lookup_empty|].
  rewrite foldl_snoc. intros [[<- <-]|[_ Hl]]%lookup_insert_Some.
  - exists p. split_and!; try done. apply elem_of_app. right. by apply list_elem_of_singleton.
  - destruct (IH Hl) as (q & Hq & Hrest). exists q. split; [|done]. apply elem_of_app. by left.
Qed.

(** A genuine assertion of a provider: [seen] is what its verification was told,
    and [all] what any task of the replica was. *)
Record oidc_genuine (provider : OidcPolicy.OidcProviderPolicy) (max_staleness : Z) (seen all : trace_io)
    (assertion : string) (c : OidcPolicy.OidcClaims) : Prop := {
  oidc_genuine_length : 0 < len assertion <= 32 * 1024;
  oidc_genuine_signature : exists header kid key discovery document jwk r1 r2 fetched_at read_at decoded_at,
    decode_header assertion = Some header /\ alg header = RS256 /\ typ header = Some "JWT" /\ Libs.kid header = Some kid
    (* the issuer's discovery document was fetched, and the key set it points to *)
    /\ [Obs (StreamGet (OidcPolicy.provider_issuer provider +:+ "/.well-known/openid-configuration")) (Some r1);
        Obs (StreamGet (Oidc.jwks_uri discovery)) (Some r2); Obs UtcNow fetched_at] `sublist_of` all
    /\ Oidc.carries Oidc.discovery_deserialize (64 * 1024) r1 discovery
    /\ Oidc.discovery_issuer discovery = OidcPolicy.provider_issuer provider
    /\ Oidc.same_origin (OidcPolicy.provider_issuer provider) (Oidc.jwks_uri discovery) = true
    (* the key set has the key for this ID *)
    /\ Oidc.carries jwk_set_of_value (1024 * 1024) r2 document
    /\ jwk ∈ document /\ key_id jwk = Some kid /\ key_algorithm jwk = Some KeyRS256
    /\ public_key_use jwk = Some Signature /\ from_jwk jwk = Some key
    (* not too long ago *)
    /\ Obs UtcNow read_at ∈ seen /\ (0 < timestamp_of fetched_at)%Z
    /\ (timestamp_of read_at - timestamp_of fetched_at <= as_secs max_staleness)%Z
    (* and the assertion verifies under it *)
    /\ Obs CurrentTimestamp decoded_at ∈ seen
    /\ decode assertion key {|
         validation_algorithm := RS256;
         validation_issuer := [OidcPolicy.provider_issuer provider];
         validation_audience := [OidcPolicy.provider_audience provider];
         required_spec_claims := ["iss"; "sub"; "aud"; "exp"; "iat"];
         validate_nbf := true;
         leeway := 30 |} decoded_at = Some (VObject (OidcPolicy.values c))
    /\ insecure_decode assertion = Some (VObject (OidcPolicy.values c));
  oidc_genuine_claims : exists now, Obs UtcNow now ∈ seen
    /\ Oidc.claims_accepted (OidcPolicy.values c) (OidcPolicy.provider_issuer provider)
         (OidcPolicy.provider_audience provider) (timestamp_of now) c;
}.

(** A cache that is empty or was fetched from its issuer. *)
Definition oidc_vetted (issuer : string) (h : trace_io) (cache : OidcKeyCache) : Prop :=
  oidc_keys cache = ∅ \/ Oidc.discovered h issuer (oidc_keys cache) (oidc_fetched_at cache).
Lemma oidc_vetted_more issuer h h' cache : h `sublist_of` h' -> oidc_vetted issuer h cache -> oidc_vetted issuer h' cache.
Proof. intros Hs [He|Hd]; [by left|right]. by eapply Oidc.discovered_sublist. Qed.
Lemma oidc_usable_fresh fetched now bound :
  (0 <= bound < i64_max)%Z -> (Oidc.cache_age_seconds fetched now <= bound)%Z -> (0 < fetched)%Z /\ (now - fetched <= bound)%Z.
Proof. apply usable_fresh. Qed.
Lemma oidc_verified_genuine policy max ca self h assertion c all :
  Oidc.discover_with_additional_ca policy max ca = Ok self -> (0 <= as_secs max < i64_max)%Z ->
  (forall now, Obs UtcNow now ∈ h -> is_i64 (timestamp_of now + 30)) ->
  (forall issuer cache, Obs (Load (OidcCache issuer)) cache ∈ h -> oidc_vetted issuer all cache) ->
  Oidc.verified self h assertion c ->
  exists provider, provider ∈ OidcPolicy.providers policy /\ oidc_genuine provider max h all assertion c.
Proof.
  intros Hself Hmax Hclock Hcaches [Hl (p & header & kid & k & cache & read_at & d & named & Hp & _ & Hh & Ha & Ht & Hk & Hload
    & Hread & Hu & Hlook & Hd & Hdec & Hreq & now & Hnow & Hcheck)].
  destruct (discover_provider _ _ _ _ _ _ Hself Hp) as (configured & Hin & _ & ->). exists configured. split; [done|].
  destruct (Hcaches _ cache Hload) as [He|(disc & doc & at_ & r1 & r2 & Hs & H1 & Hiss & Horigin & H2 & Hat & Hkeys)];
    [by rewrite He, lookup_empty in Hlook|].
  destruct (Hkeys kid k Hlook) as (jwk & Hjwk & Hid & Halg & Huse & Hfrom).
  apply andb_prop in Hu as [_ Hage%bool_decide_eq_true]. rewrite Hat in Hage.
  destruct (oidc_usable_fresh _ _ _ Hmax Hage) as [Hpos Hfresh]. split; [exact Hl| |].
  - exists header, kid, k, disc, doc, jwk, r1, r2, at_, read_at, d. split_and!; try done. by eapply decode_payload.
  - exists now. split; [done|]. by apply (Oidc.check_accepted _ _ _ _ _ _ _ _ c (Hclock now Hnow) Hreq).
Qed.

(** C19: a generic assertion that a replica has verified, however many requests and
    refreshes run at the same time, is genuine: it is at most 32 KiB long; a
    configured issuer's own discovery document pointed, within the issuer's origin,
    to a key set with an RS256 signature key for the key ID of its header, fetched no
    longer ago than the staleness bound; under that key it decodes, for the issuer
    and its configured audience, to exactly these claims, and they satisfy the
    documented conditions at a time that was read.  The caches are empty at first,
    and the clock is not within thirty seconds of overflow. *)
Theorem oidc_assertion_genuine policy max ca self work s k i assertion c :
  Oidc.discover_with_additional_ca policy max ca = Ok self -> (0 <= as_secs max < i64_max)%Z ->
  (forall issuer, oidc_keys (contents (OidcCache issuer) s) = ∅) -> reachable serve s (perform_oidc self <$> work) k ->
  (forall now, Obs UtcNow now ∈ all_events (history k) -> is_i64 (timestamp_of now + 30)) ->
  work !! i = Some (VerifyOidc assertion) -> finished k i (Some c) ->
  exists provider, provider ∈ OidcPolicy.providers policy
    /\ oidc_genuine provider max (of_task i (history k)) (all_events (history k)) assertion c.
Proof.
  intros Hself Hmax Hs Hr Hclock Hi Hf.
  destruct (finished_runs serve _ _ _ _ _ Hr Hf) as (p & Hp & Hrun).
  rewrite lookup_fmap, Hi in Hp. injection Hp as <-.
  apply runs_bind in Hrun as (t1 & t2 & [v|e] & Ht & Hv & [-> Hc]%runs_ret); [|done]. injection Hc as ->.
  rewrite app_nil_r in Ht. subst t1.
  eapply oidc_verified_genuine; [exact Hself|exact Hmax| | |exact (wp_runs _ _ [] _ _ _ (Oidc.wp_provider_verify self assertion []) Hv v eq_refl)].
  { intros now Hnow%of_task_incl. by apply Hclock. }
  intros issuer cache Hload%of_task_incl.
  refine (pool_origin serve (OidcCache issuer) Oidc.oidc_permit (oidc_vetted issuer) (oidc_vetted_more issuer) _ _ _ _ _ _ _ Hr Hload).
  - intros h v' [[_ Hg] _]. by right.
  - by left.
  - intros j p (t & <- & _)%lookup_fmap_Some. apply wp_perform_oidc.
Qed.
End oidc.

(** ** The cells of the simulator *)
Section simulated.
Context `{jwt : Jwt}.
Definition simulated (X : Type) (e : event X) (w : World) (x : X) (w' : World) : Prop := handle X e w = (x, w').
(** An event that leaves the cell as it is. *)
Local Ltac leaves_cell H :=
  left; apply (f_equal snd) in H; cbn in H; rewrite <- H; repeat case_match; done.
#[export,refine] Instance simulated_github_cache : CellServer World simulated GithubCache := {| contents := github_cache |}.
Proof.
  - by intros w x w' [= -> _].
  - intros X e w x w' He. unfold simulated in He.
    destruct e as [| | | | |T c|T c v| | | | | | | | | | | | | |]; try destruct c; try leaves_cell He.
    right. exists v. by injection He as <- <-.
Defined.
#[export,refine] Instance simulated_oidc_cache issuer : CellServer World simulated (OidcCache issuer) :=
  {| contents w := default empty_oidc_cache (oidc_caches w !! issuer) |}.
Proof.
  - by intros w x w' [= -> _].
  - intros X e w x w' He. unfold simulated in He.
    destruct e as [| | | | |T c|T c v| | | | | | | | | | | | | |]; try destruct c as [| |other|o| | |]; try leaves_cell He.
    injection He as <- <-. cbn. destruct (decide (other = issuer)) as [->|Hne].
    + right. exists v. by rewrite lookup_insert_eq.
    + left. by rewrite lookup_insert_ne by done.
Defined.
End simulated.

(** ** Two replicas at work *)
(** One verifies GitHub assertions: the warm-up has fetched the keys when the
    verifications, the background task and the probe run interleaved. *)
Section github_replica.
#[local] Instance github_jwt : Jwt := concrete_jwt Service.sample_tokens.
#[local] Instance github_jwt_laws : JwtLaws := concrete_jwt_laws Service.sample_tokens.
Definition github_replica : World := set_jwks (world_at 1700000000 ∅) {[Github.JWKS_URL := [
  {| key_id := Some "gh1"; key_algorithm := Some KeyRS256; public_key_use := Some Signature; material := "github-key" |}]]}.
Definition github_verifier : Github.GitHubVerifier := Service.verifier Service.sample_service.
Definition github_work : gmap nat github_task := {[0 := WarmUpGithub; 1 := VerifyGithub "assertion";
  2 := RefreshGithub 2 30000000000; 3 := VerifyGithub "unknown"; 4 := ProbeGithub]}.
Definition github_pool : config event World (option GithubClaims.GitHubClaims) :=
  exec handle (initial github_replica (perform_github github_verifier <$> github_work))
    (replicate 8 0 ++ mjoin (replicate 20 [1; 2; 3; 4])).
Lemma github_assertion_genuine_witness :
  github_genuine "exchange" (21600 * ns_per_s) (of_task 1 (history github_pool)) (all_events (history github_pool))
    "assertion" GithubClaims.sample_claims.
Proof.
  apply (github_assertion_genuine simulated "exchange" (21600 * ns_per_s) github_verifier github_work github_replica github_pool 1).
  - by vm_compute.
  - by vm_compute.
  - by vm_compute.
  - by apply exec_reachable.
  - by vm_compute.
  - apply result_of_finished. by vm_compute.
Defined.
(** The key was not fetched by the task that verified. *)
Example github_key_of_another_task : Github.fetches (of_task 1 (history github_pool)) = 0
  /\ Github.fetches (of_task 0 (history github_pool)) = 1.
Proof. by vm_compute. Qed.
End github_replica.

(** The other verifies generic assertions. *)
Section oidc_replica.
#[local] Instance replica_jwt : Jwt := concrete_jwt OidcExchange.oidc_tokens.
#[local] Instance replica_jwt_laws : JwtLaws := concrete_jwt_laws OidcExchange.oidc_tokens.
#[local] Instance replica_serde : SerdeJson := concrete_serde OidcExchange.oidc_documents.
Definition oidc_work : gmap nat oidc_task :=
  {[0 := RefreshOidc [[0; 0; 0]; [0]] 30000000000; 1 := VerifyOidc "build"; 2 := ProbeOidc]}.
Definition oidc_pool : config event World (option OidcPolicy.OidcClaims) :=
  exec handle (initial OidcExchange.oidc_world (perform_oidc (OidcExchange.verifier OidcExchange.sample_oidc_service) <$> oidc_work))
    (replicate 12 0 ++ mjoin (replicate 20 [1; 0; 2])).
Definition clocks_check (h : trace_io) : bool :=
  forallb (fun o => match read_clock o with Some now => bool_decide (i64_min <= timestamp_of now + 30 <= i64_max)%Z | None => true end) h.
Lemma clocks_checked h : clocks_check h = true -> forall now, Obs UtcNow now ∈ h -> is_i64 (timestamp_of now + 30).
Proof.
  unfold clocks_check. rewrite forallb_forall. intros Hc now Hin%list_elem_of_In.
  specialize (Hc _ Hin). by apply bool_decide_eq_true in Hc.
Qed.
Lemma oidc_assertion_genuine_witness : exists provider, provider ∈ OidcPolicy.providers OidcPolicy.sample_oidc_policy
  /\ oidc_genuine provider (21600 * ns_per_s) (of_task 1 (history oidc_pool)) (all_events (history oidc_pool))
       "build" OidcPolicy.sample_oidc_claims.
Proof.
  apply (oidc_assertion_genuine simulated OidcPolicy.sample_oidc_policy (21600 * ns_per_s) []
    (OidcExchange.verifier OidcExchange.sample_oidc_service) oidc_work OidcExchange.oidc_world oidc_pool 1).
  - by vm_compute.
  - by vm_compute.
  - done.
  - by apply exec_reachable.
  - by apply clocks_checked.
  - by vm_compute.
  - apply result_of_finished. by vm_compute.
Defined.
Example oidc_key_of_another_task : Oidc.requests (of_task 1 (history oidc_pool)) = 0
  /\ Oidc.requests (of_task 0 (history oidc_pool)) = 2.
Proof. by vm_compute. Qed.
End oidc_replica.
