(* ===== verification/OidcCauses.v ===== *)
(** * Why a generic exchange is refused

    As [Causes], for the generic OIDC exchange: an unavailable answer has a failed
    dependency behind it, and a refusal its reason in the assertion, the provider's
    keys, the policy or the ledger, with one exception: a provider whose discovery
    document is not its own refuses the assertion. *)
From S2P Require Import Prelude Text Prog Libs State Constants Replay ReplaySafety LedgerRefinement Keys LedgerCauses Exchange WorkloadPolicy OidcPolicy.
From S2P Require Oidc OidcExchange.

(** ** Causes *)
Section causes.
Context `{jwt : Jwt, serde : SerdeJson, chrono : Chrono, b64 : Base64, p256 : P256, sha : Sha2, url : UrlLib}.
Context (self : OidcExchange.OidcExchangeService) (ledger : KubernetesLeaseReplayLedger).
Abbreviation providers := (Oidc.verifiers (OidcExchange.verifier self)).

(** The document an answer carries. *)
Definition document_of {T} (decode : Value -> option T) (maximum : nat) (response : option StreamResponse) : option T :=
  r ← response;
  if negb (status_ok r) || match content_length r with Some n => bool_decide (Z.of_nat maximum < n)%Z | None => false end
  then None
  else body ← result_ok (Oidc.read_chunks maximum "" (chunks r)); parse_json body ≫= decode.
Definition discovered_document (t : trace_io) (provider : Oidc.ProviderVerifier) (d : option Oidc.DiscoveryDocument) : Prop :=
  exists r, Obs (StreamGet (Oidc.discovery_url provider)) r ∈ t
    /\ document_of Oidc.discovery_deserialize Oidc.MAX_DISCOVERY_BYTES r = d.
(** A provider whose keys could not be had: its documents were not served or hold no
    usable key, its cache is past the staleness bound, or a refresh was just tried. *)
Inductive keys_failed (t : trace_io) (provider : Oidc.ProviderVerifier) : Prop :=
| discovery_failed : discovered_document t provider None -> keys_failed t provider
| key_set_failed d r : discovered_document t provider (Some d) -> Obs (StreamGet (Oidc.jwks_uri d)) r ∈ t ->
    from_option Oidc.usable_keys ∅ (document_of jwk_set_of_value Oidc.MAX_JWKS_BYTES r) = ∅ -> keys_failed t provider
| keys_stale cache now : Obs (Load (OidcCache (Oidc.verifier_issuer provider))) cache ∈ t -> reads t now ->
    Oidc.cache_is_usable cache now (Oidc.verifier_max_staleness provider) = false -> keys_failed t provider
| recently_tried refresh now : Obs (Load (OidcRefreshCell (Oidc.verifier_issuer provider))) refresh ∈ t -> reads t now ->
    Oidc.attempted_recently (oidc_last_forced_attempt refresh) now = true -> keys_failed t provider.
Inductive oidc_failed (t : trace_io) : Prop :=
| oidc_keys_fail named provider : providers !! named = Some provider -> keys_failed t provider -> oidc_failed t
| oidc_ledger_fails : ledger_failed ledger t -> oidc_failed t
| oidc_clock_fails : clock_fault t -> oidc_failed t
| oidc_signing_fails : signing_fault (sign_at (OidcExchange.oidc_signing_keys self)) t -> oidc_failed t.

(** The provider and the key an assertion names. *)
Definition oidc_named (assertion : string) : option (Oidc.ProviderVerifier * string) :=
  if is_empty assertion || bool_decide (Oidc.MAX_ASSERTION_BYTES < len assertion) then None else
  header ← decode_header assertion;
  if bool_decide (alg header <> RS256) || bool_decide (typ header <> Some "JWT") then None else
  kid ← kid header;
  named ← insecure_decode assertion ≫= (fun v => field v "iss" as_str);
  provider ← providers !! named;
  Some (provider, kid).
(** The checks of the values of a genuine assertion. *)
Definition judged_values (provider : Oidc.ProviderVerifier) (values : gmap string Value) (now : Z) : result Oidc.OidcVerifyError OidcClaims :=
  '(issuer, subject, e, i) ← Oidc.required_claims values;
  Oidc.check_claims values (Oidc.verifier_issuer provider) (Oidc.verifier_audience provider) issuer subject e i now.
Inductive oidc_refused (t : trace_io) (assertion : string) : Prop :=
| oidc_malformed : oidc_named assertion = None -> oidc_refused t assertion
| discovery_not_its_own provider kid d : oidc_named assertion = Some (provider, kid) ->
    discovered_document t provider (Some d) -> Oidc.valid_discovery (Oidc.verifier_issuer provider) d = false ->
    oidc_refused t assertion
| oidc_key_unknown provider kid cache now : oidc_named assertion = Some (provider, kid) ->
    Obs (Load (OidcCache (Oidc.verifier_issuer provider))) cache ∈ t -> reads t now ->
    Oidc.cache_is_usable cache now (Oidc.verifier_max_staleness provider) = true -> oidc_keys cache !! kid = None ->
    oidc_refused t assertion
| oidc_not_genuine provider kid cache key now : oidc_named assertion = Some (provider, kid) ->
    Obs (Load (OidcCache (Oidc.verifier_issuer provider))) cache ∈ t -> oidc_keys cache !! kid = Some key -> reads t now ->
    (decode assertion key (Oidc.validation provider) now ≫= as_object) = None -> oidc_refused t assertion
| oidc_claims_refused provider kid key decoded_at values now e : oidc_named assertion = Some (provider, kid) ->
    (decode assertion key (Oidc.validation provider) decoded_at ≫= as_object) = Some values -> reads t now ->
    judged_values provider values now = Err e -> oidc_refused t assertion
| oidc_unbound claims e : Oidc.verified (OidcExchange.verifier self) t assertion claims ->
    OidcPolicy.authorize (OidcExchange.policy self) claims = Err e -> oidc_refused t assertion
| oidc_unidentified claims : Oidc.verified (OidcExchange.verifier self) t assertion claims ->
    OidcExchange.replay_identifier claims = None -> oidc_refused t assertion
| oidc_spent claims replay : Oidc.verified (OidcExchange.verifier self) t assertion claims ->
    OidcExchange.replay_identifier claims = Some replay -> spent_before replay t -> oidc_refused t assertion.

(** ** Causes persist *)
Lemma discovered_prefix h h' provider d : h `prefix_of` h' -> discovered_document h provider d -> discovered_document h' provider d.
Proof. intros Hp (r & Hr & ?). exists r. split; [by eapply elem_of_prefix|done]. Qed.
Lemma keys_failed_prefix h h' provider : h `prefix_of` h' -> keys_failed h provider -> keys_failed h' provider.
Proof.
  intros Hp. destruct 1; [eapply discovery_failed|eapply key_set_failed|eapply keys_stale|eapply recently_tried];
    eauto using discovered_prefix, elem_of_prefix, seconds_prefix.
Qed.
Lemma oidc_failed_prefix h h' : h `prefix_of` h' -> oidc_failed h -> oidc_failed h'.
Proof.
  intros Hp. destruct 1.
  - eapply oidc_keys_fail; eauto using keys_failed_prefix.
  - by eapply oidc_ledger_fails, ledger_failed_prefix.
  - by eapply oidc_clock_fails, clock_fault_prefix.
  - by eapply oidc_signing_fails, signing_fault_prefix.
Qed.
Lemma oidc_refused_prefix h h' assertion : h `prefix_of` h' -> oidc_refused h assertion -> oidc_refused h' assertion.
Proof.
  intros Hp. destruct 1.
  - by apply oidc_malformed.
  - eapply discovery_not_its_own; eauto using discovered_prefix.
  - eapply oidc_key_unknown; eauto using elem_of_prefix, seconds_prefix.
  - eapply oidc_not_genuine; eauto using elem_of_prefix, seconds_prefix.
  - eapply oidc_claims_refused; eauto using seconds_prefix.
  - eapply oidc_unbound; eauto using Oidc.provider_verified_prefix.
  - eapply oidc_unidentified; eauto using Oidc.provider_verified_prefix.
  - eapply oidc_spent; eauto using Oidc.provider_verified_prefix, spent_before_prefix.
Qed.

(** ** The keys *)
Lemma read_chunks_err maximum body l e : Oidc.read_chunks maximum body l = Err e -> e = Oidc.OidcUnavailable.
Proof. revert body. induction l as [|[c|] l IH]; intros body; cbn; [done| |by intros [= <-]]. case_bool_decide; [by intros [= <-]|apply IH]. Qed.
Lemma fetch_json_causes {T} (decode : Value -> option T) uri maximum h :
  wpt (Oidc.fetch_json decode uri maximum) h (fun r h' => exists response,
    Obs (StreamGet uri) response ∈ h' /\ r = ok_or Oidc.OidcUnavailable (document_of decode maximum response)).
Proof.
  split; [done|]. intros response. exists response. split; [apply elem_of_last|]. unfold document_of.
  destruct response as [r|]; [|done]. cbn. destruct (status_ok r); [|done]. cbn.
  destruct (content_length r); cbn; [case_bool_decide; [done|]|]; cbn;
    (destruct (Oidc.read_chunks _ _ _) as [body|e] eqn:Hc; [done|]); apply read_chunks_err in Hc as ->; done.
Qed.
(** What a failed refresh shows: the keys could not be had, or the discovery document
    is not the issuer's. *)
Definition refresh_shows (provider : Oidc.ProviderVerifier) (r : result Oidc.OidcVerifyError ()) (h : trace_io) : Prop :=
  match r with
  | Ok _ => True
  | Err Oidc.OidcUnavailable => keys_failed h provider
  | Err Oidc.OidcInvalid => exists d, discovered_document h provider (Some d)
      /\ Oidc.valid_discovery (Oidc.verifier_issuer provider) d = false
  end.
Lemma provider_refresh_causes provider h : wpt (Oidc.refresh_now provider) h (refresh_shows provider).
Proof.
  eapply wp_try_call; [apply fetch_json_causes| |].
  2:{ intros e h1 _ (r & Hr & He). destruct (document_of _ _ r) eqn:Hd; [done|]. injection He as ->. apply discovery_failed. by exists r. }
  intros d h1 _ (r & Hr & Hd). assert (discovered_document h1 provider (Some d)) as Hdisc.
  { exists r. split; [done|]. by destruct (document_of _ _ r) as [d'|]; [injection Hd as ->|]. }
  destruct (Oidc.valid_discovery _ _) eqn:Hv; [|by exists d]. cbn [negb].
  eapply wp_try_call; [apply fetch_json_causes| |].
  2:{ intros e h2 Hp (r2 & Hr2 & He). destruct (document_of _ _ r2) eqn:Hk; [done|]. injection He as ->.
      apply key_set_failed with d r2; [by eapply discovered_prefix|done|by rewrite Hk]. }
  intros document h2 Hp (r2 & Hr2 & Hk). cbn. case_bool_decide as He; [|by do 2 (split; [done|]; intros ?)].
  apply key_set_failed with d r2; [by eapply discovered_prefix|done|].
  destruct (document_of _ _ r2) as [doc|]; [by injection Hk as ->|done].
Qed.
Lemma forced_provider_causes provider h : wpt (Oidc.refresh_for_unknown_kid_if_due provider) h (refresh_shows provider).
Proof.
  unfold Oidc.refresh_for_unknown_kid_if_due, with_lock. cbn -[Oidc.refresh_now].
  split; [done|]. intros []. split; [done|]. intros refresh. split; [done|]. intros now. set (h1 := (_ ++ _) ++ _).
  assert (reads h1 (timestamp_of now)) as Hn by apply reads_now.
  apply wp_bind. destruct (Oidc.attempted_recently _ _) eqn:Ha.
  - split; [done|]. intros u. apply recently_tried with refresh (timestamp_of now); [| |done].
    + unfold h1. rewrite !elem_of_app, !list_elem_of_singleton. auto.
    + eapply seconds_prefix, Hn. by apply prefix_app_r.
  - split; [done|]. intros u. eapply wp_mono; [apply provider_refresh_causes|]. intros r h2 _ Hr. split; [done|]. intros u'.
    destruct r as [|[]]; [done| |by eapply keys_failed_prefix; [apply prefix_app_r|]].
    destruct Hr as (d & Hd & Hv). exists d. split; [|done]. eapply discovered_prefix; [|exact Hd]. by apply prefix_app_r.
Qed.
Definition provider_key_shows (provider : Oidc.ProviderVerifier) (kid : string) (r : result Oidc.OidcVerifyError DecodingKey) (h : trace_io) : Prop :=
  match r with
  | Ok key => exists cache, Obs (Load (OidcCache (Oidc.verifier_issuer provider))) cache ∈ h /\ oidc_keys cache !! kid = Some key
  | Err Oidc.OidcUnavailable => keys_failed h provider
  | Err Oidc.OidcInvalid =>
      (exists d, discovered_document h provider (Some d) /\ Oidc.valid_discovery (Oidc.verifier_issuer provider) d = false)
      \/ exists cache now, Obs (Load (OidcCache (Oidc.verifier_issuer provider))) cache ∈ h /\ reads h now
           /\ Oidc.cache_is_usable cache now (Oidc.verifier_max_staleness provider) = true /\ oidc_keys cache !! kid = None
  end.
Lemma key_after_refresh_causes provider kid h : wpt (Oidc.key_after_refresh provider kid) h (provider_key_shows provider kid).
Proof.
  eapply wp_try_call; [apply forced_provider_causes| |intros [] h1 _ He; [left|]; exact He].
  intros [] h1 _ _. split; [done|]. intros cache. split; [done|]. intros now. set (h2 := (h1 ++ _) ++ _).
  assert (Obs (Load (OidcCache (Oidc.verifier_issuer provider))) cache ∈ h2) as Hc
    by (unfold h2; rewrite !elem_of_app, !list_elem_of_singleton; auto).
  assert (reads h2 (timestamp_of now)) as Hn by apply reads_now. cbn -[Oidc.cache_is_usable].
  destruct (Oidc.cache_is_usable _ _ _) eqn:Hu; cbn; [|by eapply keys_stale].
  destruct (oidc_keys cache !! kid) as [key|] eqn:Hk; cbn; [by exists cache|]. right. by exists cache, (timestamp_of now).
Qed.
Lemma provider_key_causes provider kid h : wpt (Oidc.key provider kid) h (provider_key_shows provider kid).
Proof.
  unfold Oidc.key. split; [done|]. intros now. split; [done|]. intros cache. set (h1 := (h ++ _) ++ _).
  assert (Obs (Load (OidcCache (Oidc.verifier_issuer provider))) cache ∈ h1) as Hc by apply elem_of_last.
  assert (reads h1 (timestamp_of now)) as Hn by (eapply seconds_prefix; [by apply prefix_app_r|apply reads_now]).
  cbn -[Oidc.cache_is_usable Oidc.key_after_refresh].
  destruct (Oidc.cache_is_usable _ _ _) eqn:Hu.
  - destruct (oidc_keys cache !! kid) as [key|] eqn:Hk; [by exists cache|apply key_after_refresh_causes].
  - destruct (negb _); [by eapply keys_stale|apply key_after_refresh_causes].
Qed.

(** ** The assertion *)
Lemma required_claims_err values e : Oidc.required_claims values = Err e -> e = Oidc.OidcInvalid.
Proof. unfold Oidc.required_claims, ok_or. by repeat (case_match; cbn [mbind result_bind]; try by intros [= <-]). Qed.
Lemma check_claims_err v i a ai sub e iat now x : Oidc.check_claims v i a ai sub e iat now = Err x -> x = Oidc.OidcInvalid.
Proof.
  unfold Oidc.check_claims, reject_if, ok_or. cbn [mbind result_bind].
  repeat (case_match; cbn [mbind result_bind]; try by intros [= <-]).
Qed.
Definition verify_shows (assertion : string) (r : result Oidc.OidcVerifyError OidcClaims) (h : trace_io) : Prop :=
  match r with
  | Ok claims => Oidc.verified (OidcExchange.verifier self) h assertion claims
  | Err Oidc.OidcInvalid => oidc_refused h assertion
  | Err Oidc.OidcUnavailable => oidc_failed h
  end.
Lemma provider_verify_errors assertion h : wpt (Oidc.verify (OidcExchange.verifier self) assertion) h (fun r h' =>
  match r with Ok _ => True | Err Oidc.OidcInvalid => oidc_refused h' assertion | Err Oidc.OidcUnavailable => oidc_failed h' end).
Proof.
  assert (oidc_named assertion = oidc_named assertion) as Hn by done. unfold oidc_named at 2 in Hn.
  unfold Oidc.verify. destruct (_ || _); [by apply oidc_malformed|].
  destruct (decode_header assertion) as [header|]; [|by apply oidc_malformed]. cbn -[Oidc.key] in Hn |- *.
  destruct (_ || _); [by apply oidc_malformed|]. destruct (kid header) as [kd|]; [|by apply oidc_malformed]. cbn -[Oidc.key] in Hn |- *.
  destruct (insecure_decode assertion ≫= _) as [named|]; [|by apply oidc_malformed]. cbn -[Oidc.key] in Hn |- *.
  destruct (providers !! named) as [provider|] eqn:Hp; [|by apply oidc_malformed]. cbn -[Oidc.key] in Hn |- *.
  apply wp_bind. eapply wp_mono; [apply provider_key_causes|]. intros [key|[]] h1 _ Hk; cbn -[Oidc.validated_claims].
  2:{ destruct Hk as [(d & Hd & Hv)|(cache & now & Hc & Hr & Hu & Hk)]; [by eapply discovery_not_its_own|by eapply oidc_key_unknown]. }
  2:{ by eapply oidc_keys_fail. }
  destruct Hk as (cache & Hc & Hk). split; [done|]. intros decoded_at. set (h2 := h1 ++ _).
  assert (Obs (Load (OidcCache (Oidc.verifier_issuer provider))) cache ∈ h2) as Hc2 by (unfold h2; apply elem_of_app; by left).
  assert (reads h2 decoded_at) as Hd2 by (exists (Obs CurrentTimestamp decoded_at); split; [apply elem_of_last|done]).
  destruct (decode assertion key (Oidc.validation provider) decoded_at ≫= as_object) as [values|] eqn:Hd; [|by eapply oidc_not_genuine].
  cbn -[Oidc.required_claims]. assert (judged_values provider values = judged_values provider values) as Hj by done.
  unfold judged_values at 2 in Hj. destruct (Oidc.required_claims values) as [[[[issuer subject] e] i]|e] eqn:Hreq.
  2:{ apply required_claims_err in Hreq as ->. eapply (oidc_claims_refused _ _ provider kd key decoded_at values decoded_at); [done..|by rewrite Hj]. }
  split; [done|]. intros now. cbn. destruct (Oidc.check_claims _ _ _ _ _ _ _ _) as [claims|e'] eqn:Hcc; [done|].
  pose proof (check_claims_err _ _ _ _ _ _ _ _ _ Hcc) as ->.
  eapply (oidc_claims_refused _ _ provider kd key decoded_at values (timestamp_of now)); [done..|apply reads_now|by rewrite Hj].
Qed.
Lemma provider_verify_causes assertion h : wpt (Oidc.verify (OidcExchange.verifier self) assertion) h (verify_shows assertion).
Proof.
  eapply wp_mono; [apply wp_and; [apply provider_verify_errors|]|].
  - eapply wp_permit_mono; [|apply (Oidc.wp_provider_verify (OidcExchange.verifier self))]. done.
  - intros [claims|e] h' _ [He Hv]; [by apply Hv|by destruct e].
Qed.

(** ** The exchange *)
Context `{!ChronoLaws, !ChronoRange}.
(** A verified assertion has a retention unless the clock misbehaves. *)
Lemma provider_retention assertion claims now h h' x :
  Oidc.verified (OidcExchange.verifier self) h assertion claims -> (h ++ [Obs UtcNow now]) `prefix_of` h' ->
  retained_until (expires_at claims) (timestamp_of now) = Err x -> clock_fault h'.
Proof.
  intros [_ (p & hd & kd & k & ca & ra & d & nm & _ & _ & _ & _ & _ & _ & _ & _ & _ & _ & Hdn & Hdec & Hreq & ch & Hch & Hcc)] Hp Hr.
  apply (retention_fault h h' now (expires_at claims) (timestamp_of ch) (timestamp_of ch) x); [by exists (Obs UtcNow ch)..|done| |done].
  intros Hz. apply Oidc.check_claims_spec in Hcc; [|unfold is_i64, i64_min, i64_max; lia].
  destruct Hcc as (_ & _ & _ & Hl & He & Hi & _). lia.
Qed.
Definition answer_shows (assertion : string) (r : result OidcExchange.OidcExchangeError string) (h : trace_io) : Prop :=
  match r with
  | Ok _ => True
  | Err OidcExchange.OidcExchangeUnavailable => oidc_failed h
  | Err OidcExchange.OidcExchangeUnauthorized => oidc_refused h assertion
  end.
#[local] Instance oidc_causes_ledger : ReplayLedger := kubernetes_ledger ledger.
Lemma oidc_issue_causes assertion claims task replay h : wpt (OidcExchange.issue self claims task replay) h (answer_shows assertion).
Proof.
  unfold OidcExchange.issue. do 2 (apply wpt_skip; intros ? ? _). eapply wp_call; [apply sign_causes|].
  intros [token|e] h1 _ Hs.
  - by do 2 (apply wpt_skip; intros ? ? _).
  - apply wpt_skip. intros u h2 Hp. eapply oidc_failed_prefix; [exact Hp|]. by eapply oidc_signing_fails, Hs.
Qed.
Lemma oidc_redeem_causes assertion claims h : Oidc.verified (OidcExchange.verifier self) h assertion claims ->
  wpt (OidcExchange.redeem self claims) h (answer_shows assertion).
Proof.
  intros Hv. unfold OidcExchange.redeem. destruct (OidcPolicy.authorize _ claims) as [task|e] eqn:Ha.
  2:{ apply wpt_skip. intros u h1 Hp. eapply oidc_unbound, Ha. by eapply Oidc.provider_verified_prefix. }
  destruct (OidcExchange.replay_identifier claims) as [replay|] eqn:Hr.
  2:{ apply wpt_skip. intros u h1 Hp. eapply oidc_unidentified, Hr. by eapply Oidc.provider_verified_prefix. }
  eapply wp_call; [apply (spend_causes ledger)|]. intros r h1 Hp Hx.
  assert (forall e, r = Err e -> e <> Replayed -> oidc_failed h1) as Hfail.
  { intros e He Hne. eapply (spend_fails ledger _ _ _ _ _ _ _ Hx He Hne); [apply oidc_ledger_fails|].
    intros. by eapply oidc_clock_fails, provider_retention. }
  destruct r as [[]|[| |detail]]; [by apply oidc_issue_causes| | |].
  - do 2 (apply wpt_skip; intros ? ? ?). eapply oidc_spent; [|exact Hr|]; [eapply Oidc.provider_verified_prefix, Hv|eapply spent_before_prefix, Hx];
      by repeat (etrans; [eassumption|]).
  - apply wpt_skip. intros u h2 Hp2. eapply oidc_failed_prefix; [exact Hp2|]. by eapply Hfail.
  - apply wpt_skip. intros u h2 Hp2. eapply oidc_failed_prefix; [exact Hp2|]. by eapply Hfail.
Qed.
Lemma oidc_exchange_causes assertion h : wpt (OidcExchange.exchange self assertion) h (answer_shows assertion).
Proof.
  apply wpt_skip. intros u h0 _. eapply wp_call; [apply provider_verify_causes|].
  intros [claims|[|]] h1 _ Hv; [by apply oidc_redeem_causes| |]; apply wpt_skip; intros ? ? ?;
    [by eapply oidc_refused_prefix|by eapply oidc_failed_prefix].
Qed.
End causes.
