(* ===== verification/BrowserHop1.v ===== *)
(** * The browser HOP-1 exchange (browser_hop1.rs)

    Steward, called through its own workload identity, exchanges a short-lived
    signed attestation of a browser user's operation for a bearer token. *)
From Stdlib Require Import Ascii.
From S2P Require Import Prelude Text Prog Libs State Constants Concrete Replay Simulator ReplaySafety Exchange Keys.
From S2P Require WorkloadPolicy.

Definition BROWSER_HOP1_ISSUER_ROLE : string := "browser-hop1-issuer".
Definition MAX_ASSERTION_BYTES : nat := 8 * 1024.
Definition MAX_ASSERTION_LIFETIME_SECONDS : Z := 60.
Definition CLOCK_SKEW_SECONDS : Z := 5.

Inductive BrowserHop1Operation := GithubOauthConnect | OtherOperation.
#[export] Instance BrowserHop1Operation_eq_dec : EqDecision BrowserHop1Operation.
Proof. solve_decision. Defined.
Record BrowserHop1RequestClaims := {
  br_iss : string;
  br_sub : string;
  br_aud : string;
  br_exp : Z;
  br_iat : Z;
  br_nbf : Z;
  br_jti : string;
  br_email : string;
  br_email_verified : bool;
  operation : BrowserHop1Operation;
  operation_id : string;
}.
Definition operation_deserialize (v : Value) : option BrowserHop1Operation :=
  match as_str v with
  | Some s => if decide (s = "github_oauth_connect") then Some GithubOauthConnect
              else if decide (s = "other") then Some OtherOperation else None
  | None => None
  end.
Definition operation_value (o : BrowserHop1Operation) : Value :=
  VString (match o with GithubOauthConnect => "github_oauth_connect" | OtherOperation => "other" end).
Definition request_deserialize (v : Value) : option BrowserHop1RequestClaims :=
  if negb (only_fields ["iss"; "sub"; "aud"; "exp"; "iat"; "nbf"; "jti"; "email"; "email_verified";
                        "operation"; "operation_id"] v) then None else
  iss ← field v "iss" as_str;
  sub ← field v "sub" as_str;
  aud ← field v "aud" as_str;
  exp ← field v "exp" as_i64;
  iat ← field v "iat" as_i64;
  nbf ← field v "nbf" as_i64;
  jti ← field v "jti" as_str;
  email ← field v "email" as_str;
  email_verified ← field v "email_verified" as_bool;
  op ← field v "operation" operation_deserialize;
  op_id ← field v "operation_id" as_str;
  Some {| br_iss := iss; br_sub := sub; br_aud := aud; br_exp := exp; br_iat := iat; br_nbf := nbf;
          br_jti := jti; br_email := email; br_email_verified := email_verified;
          operation := op; operation_id := op_id |}.

(** The verifier's only error. *)
Inductive BrowserHop1VerifierError := BrowserVerifierInvalid.

Definition canonical_email (value : string) : bool :=
  match split_once "@" value with
  | None => false
  | Some (local, domain) =>
      negb (is_empty local) && negb (is_empty domain) && negb (contains_whitespace value)
      && bool_decide (value = to_ascii_lowercase value)
  end.
(** An identifier: the prefix and 32 lower-case hexadecimal digits. *)
Definition prefixed_hex (prefix value : string) : bool :=
  match strip_prefix prefix value with
  | Some suffix => bool_decide (len suffix = 32) && bytes_all is_lower_hex suffix
  | None => false
  end.
Definition canonical_user_id : string -> bool := prefixed_hex "usr_".
Definition valid_operation_id : string -> bool := prefixed_hex "op_".

Section verifier.
Context `{!Jwt, !SerdeJson, !Chrono, !UrlLib}.
Record StewardBrowserAssertionVerifier := {
  browser_issuer : string;
  browser_audience : string;
  browser_keys : gmap string DecodingKey;
}.
Definition valid_https_issuer (value : string) : bool :=
  match url_parse value with
  | Some url =>
      bool_decide (scheme url = "https") && bool_decide (is_Some (host_str url))
      && is_empty (username url) && bool_decide (password url = None)
      && bool_decide (query url = None) && bool_decide (fragment url = None)
  | None => false
  end.
(** The loop body over the key set: a key that is not for us is skipped, one that
    does not decode or repeats a key ID is an error. *)
Definition load_key (keys : gmap string DecodingKey) (jwk : Jwk) :
  result BrowserHop1VerifierError (gmap string DecodingKey) :=
  match key_id jwk with
  | None => Ok keys
  | Some kid =>
      if is_empty kid || bool_decide (key_algorithm jwk <> Some KeyES256)
         || bool_decide (public_key_use jwk <> Some Signature)
      then Ok keys
      else
        key ← ok_or BrowserVerifierInvalid (from_jwk jwk);
        _ ← reject_if (bool_decide (is_Some (keys !! kid))) BrowserVerifierInvalid;
        Ok (<[kid := key]> keys)
  end.
(** From the outcome of reading the file. *)
Definition verifier_of_file (issuer audience : string) (file : result string string) :
  result BrowserHop1VerifierError StewardBrowserAssertionVerifier :=
  contents ← map_err (fun _ => BrowserVerifierInvalid) file;
  document ← ok_or BrowserVerifierInvalid (parse_json contents ≫= jwk_set_of_value);
  keys ← try_fold load_key ∅ document;
  _ ← reject_if (bool_decide (keys = ∅)) BrowserVerifierInvalid;
  Ok {| browser_issuer := issuer; browser_audience := audience; browser_keys := keys |}.
Definition verifier_load (jwks_file issuer audience : string) :
  io (result BrowserHop1VerifierError StewardBrowserAssertionVerifier) :=
  if negb (valid_https_issuer issuer) || is_empty audience then mret (Err BrowserVerifierInvalid)
  else file ← trigger (ReadFile jwks_file); mret (verifier_of_file issuer audience file).

Context (self : StewardBrowserAssertionVerifier).
Definition validation : Validation := {|
  validation_algorithm := ES256;
  validation_issuer := [browser_issuer self];
  validation_audience := [browser_audience self];
  required_spec_claims := ["iss"; "sub"; "aud"; "exp"; "iat"; "nbf"; "jti"];
  validate_nbf := true;
  leeway := CLOCK_SKEW_SECONDS;
|}.
(** The checks at the time [now]. *)
Definition check_request (claims : BrowserHop1RequestClaims) (now : Z) :
  result BrowserHop1VerifierError BrowserHop1RequestClaims :=
  lifetime ← ok_or BrowserVerifierInvalid (i64_checked_sub (br_exp claims) (br_iat claims));
  _ ← reject_if (bool_decide (br_iss claims <> browser_issuer self)
                 || bool_decide (br_aud claims <> browser_audience self)
                 || bool_decide (lifetime <= 0)%Z
                 || bool_decide (MAX_ASSERTION_LIFETIME_SECONDS < lifetime)%Z
                 || bool_decide (i64_add now CLOCK_SKEW_SECONDS < br_iat claims)%Z
                 || bool_decide (br_iat claims < br_nbf claims)%Z
                 || negb (canonical_user_id (br_sub claims))
                 || negb (canonical_email (br_email claims))
                 || negb (br_email_verified claims)
                 || is_empty (br_jti claims)
                 || negb (valid_operation_id (operation_id claims))
                 || bool_decide (operation claims <> GithubOauthConnect)) BrowserVerifierInvalid;
  Ok claims.
Definition verify (assertion : string) : io (result BrowserHop1VerifierError BrowserHop1RequestClaims) :=
  if is_empty assertion || bool_decide (MAX_ASSERTION_BYTES < len assertion)
  then mret (Err BrowserVerifierInvalid)
  else
  header ←? mret (ok_or BrowserVerifierInvalid (decode_header assertion));
  if bool_decide (alg header <> ES256) || bool_decide (typ header <> Some "JWT")
  then mret (Err BrowserVerifierInvalid)
  else
  kid ←? mret (ok_or BrowserVerifierInvalid (kid header));
  key ←? mret (ok_or BrowserVerifierInvalid (browser_keys self !! kid));
  decoded_at ← get_current_timestamp;
  claims ←? mret (ok_or BrowserVerifierInvalid
                    (decode assertion key validation decoded_at ≫= request_deserialize));
  now ← utc_now;
  mret (check_request claims (timestamp_of now)).
End verifier.

(** ** The exchange *)
Inductive BrowserHop1ExchangeError := BrowserUnauthorized | BrowserUnavailable.
#[export] Instance BrowserHop1ExchangeError_eq_dec : EqDecision BrowserHop1ExchangeError.
Proof. solve_decision. Defined.
Record BrowserHop1OutputClaims := {
  bo_iss : string; bo_sub : string; bo_aud : list string;
  bo_exp : Z; bo_iat : Z; bo_nbf : Z; bo_jti : string;
  bo_email : string; bo_email_verified : bool;
  bo_operation : BrowserHop1Operation; bo_operation_id : string;
  bo_identity_contract : string;
}.
Definition browser_output_value (c : BrowserHop1OutputClaims) : Value := object [
  ("iss", VString (bo_iss c)); ("sub", VString (bo_sub c)); ("aud", str_list (bo_aud c));
  ("exp", num (bo_exp c)); ("iat", num (bo_iat c)); ("nbf", num (bo_nbf c)); ("jti", VString (bo_jti c));
  ("email", VString (bo_email c)); ("email_verified", VBool (bo_email_verified c));
  ("operation", operation_value (bo_operation c)); ("operation_id", VString (bo_operation_id c));
  ("identity_contract", VString (bo_identity_contract c))].

Record BrowserHop1ExchangeService `{!Jwt, !P256} := {
  browser_verifier : StewardBrowserAssertionVerifier;
  browser_policy : WorkloadPolicy.WorkloadPolicy;
  browser_signing_keys : KeyRing;
  browser_output_issuer : string;
  browser_output_audience : string;
  browser_token_ttl : Z;   (** a [Duration], in nanoseconds *)
}.

Section exchange.
Context `{!Jwt, !SerdeJson, !Chrono, !Base64, !P256, !Sha2, !UrlLib}.
Context `{L : !ReplayLedger}.
Context (self : BrowserHop1ExchangeService).

Definition hash_identifier (value : string) : string :=
  if is_empty value then "" else hex (take 8 (sha256 value)).
Definition deny (reason : string) : io () :=
  _ ← count BrowserExchange Denied;
  log "browser_hop1_denied" [("reason", reason)].
Definition audit (ev workload_username source_jti reason : string) : io () :=
  log ev [("workload_username", workload_username);
          ("source_jti_hash", hash_identifier source_jti); ("reason", reason)].
Definition output_claims (request : BrowserHop1RequestClaims) (now : Z) (jti : string) :
  BrowserHop1OutputClaims := {|
  bo_iss := browser_output_issuer self; bo_sub := br_sub request; bo_aud := [browser_output_audience self];
  bo_exp := u64_add now (as_secs (browser_token_ttl self)); bo_iat := now;
  bo_nbf := u64_saturating_sub now CLOCK_SKEW_SECONDS; bo_jti := jti;
  bo_email := br_email request; bo_email_verified := true;
  bo_operation := operation request; bo_operation_id := operation_id request;
  bo_identity_contract := IDENTITY_BROWSER_HOP1_CONTRACT |}.
Definition replay_key (request : BrowserHop1RequestClaims) : string := "browser-hop1:" +:+ br_jti request.

(** After the use is recorded. *)
Definition issue (workload_username : string) (request : BrowserHop1RequestClaims) :
  io (result BrowserHop1ExchangeError string) :=
  now ← get_current_timestamp;
  uuid ← trigger NewUuid;
  signed ← sign (browser_signing_keys self) (browser_output_value (output_claims request now uuid));
  match signed with
  | Err _ => _ ← count BrowserExchange Errors; mret (Err BrowserUnavailable)
  | Ok token =>
      _ ← count BrowserExchange Issued;
      _ ← audit "browser_hop1_issued" workload_username "" "issued";
      mret (Ok token)
  end.
(** After the caller is authorized and the attestation verified. *)
Definition redeem (workload_username : string) (request : BrowserHop1RequestClaims) :
  io (result BrowserHop1ExchangeError string) :=
  used ← ledger_use_once (replay_key request) (br_exp request);
  match used with
  | Ok () => issue workload_username request
  | Err Replayed =>
      _ ← count BrowserExchange State.Replayed;
      _ ← audit "browser_hop1_replayed" workload_username (br_jti request) "replay";
      mret (Err BrowserUnauthorized)
  | Err _ =>
      _ ← count BrowserExchange Errors;
      _ ← audit "browser_hop1_failed" workload_username (br_jti request) "ledger_unavailable";
      mret (Err BrowserUnavailable)
  end.
Definition exchange (workload_username assertion : string) : io (result BrowserHop1ExchangeError string) :=
  _ ← count BrowserExchange Requests;
  match WorkloadPolicy.authorize (browser_policy self) workload_username with
  | Err _ => _ ← deny "workload_unmapped"; mret (Err BrowserUnauthorized)
  | Ok caller =>
      if negb (existsb (fun role => bool_decide (role = BROWSER_HOP1_ISSUER_ROLE))
                 (WorkloadPolicy.identity_roles caller))
      then _ ← deny "workload_role_missing"; mret (Err BrowserUnauthorized)
      else
        verified ← verify (browser_verifier self) assertion;
        match verified with
        | Err _ => _ ← deny "attestation_rejected"; mret (Err BrowserUnauthorized)
        | Ok request => redeem workload_username request
        end
  end.
End exchange.

(** ** The key set *)
(** The key ID of a key that is for us. *)
Definition attestation_kid (jwk : Jwk) : option string :=
  kid ← key_id jwk;
  if is_empty kid || bool_decide (key_algorithm jwk <> Some KeyES256) || bool_decide (public_key_use jwk <> Some Signature)
  then None else Some kid.
Section keys.
Context `{jwt : Jwt, serde : SerdeJson}.
Lemma load_key_spec keys jwk :
  load_key keys jwk =
  match attestation_kid jwk with
  | None => Ok keys
  | Some kid =>
      match from_jwk jwk with
      | Some key => if decide (is_Some (keys !! kid)) then Err BrowserVerifierInvalid else Ok (<[kid := key]> keys)
      | None => Err BrowserVerifierInvalid
      end
  end.
Proof.
  unfold load_key, attestation_kid. destruct (key_id jwk) as [kid|]; [|done]. cbn. destruct (_ || _); [done|].
  destruct (from_jwk jwk); [|done]. cbn. by case_bool_decide; case_decide.
Qed.
Lemma load_keys_spec document keys :
  try_fold load_key ∅ document = Ok keys ->
  NoDup (omap attestation_kid document)
  /\ (forall kid k, keys !! kid = Some k <->
        exists j, j ∈ document /\ attestation_kid j = Some kid /\ from_jwk j = Some k)
  /\ (forall kid, is_Some (keys !! kid) <-> kid ∈ omap attestation_kid document).
Proof.
  revert keys. induction document as [|j l IH] using rev_ind; intros keys.
  { intros [= <-]. split_and!; [constructor| |].
    - intros kid k. rewrite lookup_empty. split; [done|]. by intros (j & ?%elem_of_nil & _).
    - intros kid. rewrite lookup_empty. split; [by intros [? ?]|by intros ?%elem_of_nil]. }
  rewrite try_fold_app. intros (keys0 & H0 & H)%result_bind_ok. cbn in H.
  apply result_bind_ok in H as (keys1 & H & [= <-]). destruct (IH keys0 H0) as (Hn & Hk & Hd).
  rewrite load_key_spec in H. rewrite omap_app. cbn. destruct (attestation_kid j) as [kid|] eqn:Ha.
  - destruct (from_jwk j) as [key|] eqn:Hj; [|done]. case_decide as Hs; [done|]. injection H as <-.
    rewrite Hd in Hs. split_and!.
    + apply NoDup_app. split_and!; [done| |apply NoDup_singleton]. intros x Hx ->%list_elem_of_singleton. done.
    + intros kid' k. rewrite lookup_insert_Some, Hk. setoid_rewrite elem_of_app. setoid_rewrite list_elem_of_singleton.
      split.
      * intros [[<- <-]|[_ (j' & ? & ? & ?)]]; [exists j; auto|exists j'; auto].
      * intros (j' & [Hin| ->] & Ha' & Hj'); [|left; by simplify_eq].
        right. split; [|by exists j']. intros ->. apply Hs. apply list_elem_of_omap. by exists j'.
    + intros kid'. rewrite lookup_insert_is_Some, elem_of_app, list_elem_of_singleton, Hd.
      destruct (decide (kid = kid')); naive_solver.
  - injection H as <-. rewrite app_nil_r. split_and!; [done| |done].
    intros kid k. rewrite Hk. setoid_rewrite elem_of_app. setoid_rewrite list_elem_of_singleton.
    split; [intros (j' & ? & ?); exists j'; auto|]. intros (j' & [Hin| ->] & Ha' & ?); [by exists j'|congruence].
Qed.
End keys.

(** The attestation verifier's keys are exactly the ES256 signature keys of the
    file's key set that have a key ID; there is at least one, and a set that
    repeats such an ID is refused. *)
Theorem attestation_keys_exact `{jwt : Jwt, serde : SerdeJson} issuer audience contents v :
  verifier_of_file issuer audience (Ok contents) = Ok v ->
  exists document, (parse_json contents ≫= jwk_set_of_value) = Some document
  /\ NoDup (omap attestation_kid document) /\ browser_keys v <> ∅
  /\ (forall kid k, browser_keys v !! kid = Some k <->
        exists j, j ∈ document /\ attestation_kid j = Some kid /\ from_jwk j = Some k).
Proof.
  unfold verifier_of_file. cbn [map_err mbind result_bind].
  intros (document & Hd%ok_or_ok & H)%result_bind_ok. apply result_bind_ok in H as (keys & Hk & H).
  apply result_bind_ok in H as ([] & Hn & [= <-]). exists document. cbn [browser_keys].
  apply load_keys_spec in Hk as (Hnd & Hk & _). result_simpl. by split_and!.
Qed.

(** ** The attestation *)
Section attestation.
Context `{jwt : Jwt, serde : SerdeJson, chrono : Chrono, url : UrlLib}.
Context (self : StewardBrowserAssertionVerifier).
(** What the checks accept at the time [now]. *)
Record attested (now : Z) (c : BrowserHop1RequestClaims) : Prop := {
  attested_parties : br_iss c = browser_issuer self /\ br_aud c = browser_audience self;
  attested_times : (br_iat c < br_exp c <= br_iat c + 60)%Z /\ (br_iat c <= now + 5)%Z /\ (br_nbf c <= br_iat c)%Z;
  attested_user : canonical_user_id (br_sub c) = true /\ canonical_email (br_email c) = true
    /\ br_email_verified c = true;
  attested_operation : operation c = GithubOauthConnect /\ valid_operation_id (operation_id c) = true;
  attested_jti : br_jti c <> "";
}.
Lemma check_request_spec claims now c :
  is_i64 (now + 5) -> check_request self claims now = Ok c <-> c = claims /\ attested now claims.
Proof.
  intros Hn. unfold check_request, MAX_ASSERTION_LIFETIME_SECONDS.
  assert (i64_add now CLOCK_SKEW_SECONDS = now + 5)%Z as -> by by apply wrap_i64_id. split.
  - intros H. apply result_bind_ok in H as (l & [-> Hl]%ok_or_ok%i64_checked_sub_Some & H). result_simpl.
    repeat match goal with
      | H : ¬ (_ ≠ _) |- _ => apply dec_stable in H
      | H : is_empty _ = false |- _ => apply is_empty_false in H
      end.
    split; [done|]. split; try done; split_and!; try done; lia.
  - intros [-> [[Hi Ha] (Hl & Hs & Hb) (Hu & He & Hv) [Ho Hoi] Hj]].
    assert (i64_checked_sub (br_exp claims) (br_iat claims) = Some (br_exp claims - br_iat claims)%Z) as ->.
    { apply i64_checked_sub_Some. split; [done|]. unfold is_i64, i64_min, i64_max. lia. }
    cbn [ok_or mbind result_bind]. rewrite Hu, He, Hv, Hoi, (proj2 (is_empty_false _) Hj).
    rewrite (bool_decide_false (br_iss claims ≠ _)), (bool_decide_false (br_aud claims ≠ _)),
      (bool_decide_false (operation claims ≠ _)) by (intros Hf; by apply Hf).
    by rewrite !bool_decide_false by lia.
Qed.
End attestation.

(** C21: an attestation's claims are accepted exactly when they name the configured
    issuer and audience, live at most a minute, are not from more than five
    seconds in the future, and attest a canonical user with a verified canonical
    e-mail performing the one permitted operation. *)
Theorem attestation_exact `{jwt : Jwt} self claims now c :
  is_i64 (now + 5) -> check_request self claims now = Ok c <-> c = claims /\ attested self now claims.
Proof. apply check_request_spec. Qed.

(** ** The exchange *)
Lemma request_exp v c : request_deserialize v = Some c -> (get_field v "exp" ≫= as_i64) = Some (br_exp c).
Proof.
  unfold request_deserialize. destruct (negb _); [done|]. intros Hd.
  do 3 (apply bind_Some in Hd as (? & _ & Hd)). apply bind_Some in Hd as (e & He & Hd).
  do 7 (apply bind_Some in Hd as (? & _ & Hd)). injection Hd as <-. exact He.
Qed.
(** The claims an attestation carries, whatever key verifies it. *)
Definition request_of `{jwt : Jwt} (assertion : string) : option BrowserHop1RequestClaims :=
  insecure_decode assertion ≫= request_deserialize.

Section exchange_theorems.
Context `{jwt : Jwt, serde : SerdeJson, chrono : Chrono, b64 : Base64, p256 : P256, sha : Sha2, url : UrlLib}.

(** What stands behind a verified attestation. *)
Record verified (v : StewardBrowserAssertionVerifier) (h : trace_io) (assertion : string)
    (c : BrowserHop1RequestClaims) : Prop := {
  verified_length : 0 < len assertion <= MAX_ASSERTION_BYTES;
  verified_signature : exists header kid k decoded_at checked_at,
    decode_header assertion = Some header /\ alg header = ES256 /\ typ header = Some "JWT"
    /\ Libs.kid header = Some kid /\ browser_keys v !! kid = Some k
    /\ Obs CurrentTimestamp decoded_at ∈ h
    /\ (decode assertion k (validation v) decoded_at ≫= request_deserialize) = Some c
    /\ Obs UtcNow checked_at ∈ h /\ check_request v c (timestamp_of checked_at) = Ok c;
}.
Lemma browser_verified_prefix v h h' assertion c : h `prefix_of` h' -> verified v h assertion c -> verified v h' assertion c.
Proof.
  intros [k ->] [Hl (hd & kd & ky & da & ch & H1 & H2 & H3 & H4 & H5 & H6 & H7 & H8 & H9)].
  split; [done|]. exists hd, kd, ky, da, ch. rewrite !elem_of_app. split_and!; auto.
Qed.
Lemma verified_request `{!JwtLaws} v h assertion c : verified v h assertion c -> request_of assertion = Some c.
Proof.
  intros [_ (hd & kd & ky & da & ch & _&_&_&_&_&_& (x & Hd & Hc)%bind_Some & _)].
  unfold request_of. by rewrite (decode_payload _ _ _ _ _ Hd).
Qed.
Definition verify_permit (h : trace_io) (X : Type) (e : event X) : Prop :=
  lease_write e = false /\ service_metric e = false.
Lemma check_request_same v c now c' : check_request v c now = Ok c' -> c' = c.
Proof. unfold check_request. intros H. result_simpl. done. Qed.
Lemma wp_browser_verify v assertion h :
  wp verify_permit (verify v assertion) h (fun r h' => forall c, r = Ok c -> verified v h' assertion c).
Proof.
  unfold verify. destruct (_ || _) eqn:Hlen; [done|]. result_simpl.
  destruct (decode_header assertion) as [header|] eqn:Hh; [|done]. cbn -[check_request].
  destruct (_ || _) eqn:Halg; [done|]. result_simpl.
  destruct (Libs.kid header) as [kid|] eqn:Hkid; [|done]. cbn -[check_request].
  destruct (browser_keys v !! kid) as [k|] eqn:Hk; [|done]. cbn -[check_request].
  split; [done|]. intros decoded_at.
  destruct (decode assertion k (validation v) decoded_at ≫= request_deserialize) as [c|] eqn:Hd; [|done].
  cbn -[check_request]. split; [done|]. intros checked_at c' Hc.
  pose proof (check_request_same _ _ _ _ Hc) as ->.
  repeat match goal with H : ¬ (_ ≠ _) |- _ => apply dec_stable in H end.
  match goal with H : is_empty _ = false |- _ => apply is_empty_false in H end. split.
  - rewrite <- len_0 in *. lia.
  - exists header, kid, k, decoded_at, checked_at. rewrite !elem_of_app, !list_elem_of_singleton. split_and!; auto.
Qed.

Context `{L : !ReplayLedger, !LeaseLedger L}.
Context (self : BrowserHop1ExchangeService).
Definition outcome_of (r : result BrowserHop1ExchangeError string) (o : outcome) : Prop :=
  match r with
  | Ok _ => o = Issued
  | Err BrowserUnauthorized => o = Denied \/ o = State.Replayed
  | Err BrowserUnavailable => o = Errors
  end.
(** The caller may attest browser users. *)
Definition may_attest (workload_username : string) : Prop :=
  exists caller, WorkloadPolicy.authorize (browser_policy self) workload_username = Ok caller
    /\ BROWSER_HOP1_ISSUER_ROLE ∈ WorkloadPolicy.identity_roles caller.
Record issued (h : trace_io) (workload_username assertion token : string) : Prop := {
  issued_caller : may_attest workload_username;
  issued_from : exists request now uuid signed_at,
    verified (browser_verifier self) h assertion request
    /\ 1 <= writes (lease_name (replay_key request)) h
    /\ Obs CurrentTimestamp now ∈ h /\ Obs NewUuid uuid ∈ h /\ Obs UtcNow signed_at ∈ h
    /\ sign_at (browser_signing_keys self) (browser_output_value (output_claims self request now uuid)) signed_at
       = Ok token
}.
Lemma browser_issued_prefix h h' u assertion token : h `prefix_of` h' -> issued h u assertion token -> issued h' u assertion token.
Proof.
  intros Hp [Hc (request & now & uuid & at_ & Hv & Hw & H1 & H2 & H3 & Hs)]. split; [done|].
  exists request, now, uuid, at_. pose proof Hp as [k ->]. rewrite !elem_of_app, writes_app.
  split_and!; auto; [by eapply browser_verified_prefix|lia].
Qed.
Definition exchange_post (h : trace_io) (u assertion : string) (r : result BrowserHop1ExchangeError string)
    (h' : trace_io) : Prop :=
  (exists o, outcome_of r o /\ moved [Count BrowserExchange o; Count BrowserExchange Requests] h h')
  /\ (forall token, r = Ok token -> issued h' u assertion token)
  /\ (r = Err BrowserUnauthorized -> forall n, writes n h' = writes n h).

Context (P : string -> Z -> Prop) (u assertion : string) (h0 : trace_io).
Abbreviation requested := (moved [Count BrowserExchange Requests] h0).
Abbreviation post := (exchange_post h0 u assertion).

Lemma wp_browser_refuse h ev fields o (e : BrowserHop1ExchangeError) :
  requested h -> outcome_of (Err e) o -> o <> Requests ->
  (e = BrowserUnauthorized -> forall n, writes n h = writes n h0) ->
  wp (lease_discipline P) (_ ← count BrowserExchange o; _ ← log ev fields; mret (Err e)) h post.
Proof.
  intros Hm Ho Hr Hw. eapply wp_settle; [apply lease_discipline_allows|done| |].
  - rewrite list_elem_of_singleton. naive_solver.
  - intros h' _ Hm' Hw'. split; [by exists o|]. split; [done|]. intros [= He] n. rewrite Hw'. by apply Hw.
Qed.
Lemma wp_browser_issue h request :
  requested h -> may_attest u -> verified (browser_verifier self) h assertion request ->
  1 <= writes (lease_name (replay_key request)) h ->
  wp (lease_discipline P) (issue self u request) h post.
Proof.
  intros Hm Hc Hv Hw. unfold issue. cbn -[sign_at output_claims]. do 2 (split; [done|]; intros ?).
  split; [done|]. intros signed_at. set (h1 := ((h ++ _) ++ _) ++ _).
  assert (h `prefix_of` h1) as Hp by (unfold h1; rewrite <- !app_assoc; by apply prefix_app_r).
  assert (requested h1) as Hm1 by (unfold h1; by auto with accounting).
  destruct (sign_at _ _ _) as [token|e] eqn:Hs.
  2:{ split; [done|]. intros v. split; [|done]. exists Errors. split; [done|]. apply moved_count; [set_solver|done]. }
  eapply (wp_settle _ _ h0); [apply lease_discipline_allows|exact Hm1|set_solver|].
  intros h' Hp' Hm' _. split; [by exists Issued|]. split; [|done].
  intros t [= <-]. eapply browser_issued_prefix; [exact Hp'|]. split; [done|].
  exists request, x, x0, signed_at. split_and!; try done.
  - by eapply browser_verified_prefix.
  - destruct Hp as [k ->]. rewrite writes_app. lia.
  - unfold h1. rewrite !elem_of_app, !list_elem_of_singleton. auto.
  - unfold h1. rewrite !elem_of_app, !list_elem_of_singleton. auto.
  - unfold h1. rewrite !elem_of_app, !list_elem_of_singleton. auto.
Qed.
Lemma wp_browser_redeem h request :
  P (replay_key request) (br_exp request) ->
  requested h -> (forall n, writes n h = writes n h0) -> may_attest u ->
  verified (browser_verifier self) h assertion request ->
  wp (lease_discipline P) (redeem self u request) h post.
Proof.
  intros HP Hm Hw Hc Hv. unfold redeem. apply wp_bind. eapply wp_mono.
  { apply (wp_discipline P), (moved_prog (ledger_permit P)); [by intros ? ? ? (_ & ? & _)|exact Hm|].
    by apply use_once_spec. }
  intros used h1 Hp [Hwr Hm1]. destruct used as [[]|[| |d]].
  - apply wp_browser_issue; try done; [by eapply browser_verified_prefix|]. rewrite Hwr. cbn. rewrite decide_True by done. lia.
  - apply wp_browser_refuse; [done|by right|done|]. intros _ n. rewrite Hwr, Hw. cbn. lia.
  - by apply (wp_browser_refuse h1 _ _ Errors BrowserUnavailable).
  - by apply (wp_browser_refuse h1 _ _ Errors BrowserUnavailable).
Qed.
Lemma wp_browser_exchange `{!JwtLaws} :
  (forall request, request_of assertion = Some request -> P (replay_key request) (br_exp request)) ->
  wp (lease_discipline P) (exchange self u assertion) h0 post.
Proof.
  intros HP. split; [done|]. intros u0.
  assert (requested (h0 ++ [Obs (FetchAdd (Count BrowserExchange Requests) 1) u0])) as Hm
    by (apply moved_count; [set_solver|apply moved_refl]).
  set (h1 := h0 ++ [_]) in *. assert (forall n, writes n h1 = writes n h0) as Hw by (intros n; by apply writes_other).
  change (prog_bind ?f (Ret u0)) with (f u0). cbn beta.
  destruct (WorkloadPolicy.authorize _ _) as [caller|e] eqn:Ha; [|by apply wp_browser_refuse; [|left|..]].
  destruct (existsb _ _) eqn:Hr; [|by apply wp_browser_refuse; [|left|..]]. cbn [negb].
  assert (may_attest u) as Hc.
  { exists caller. split; [done|]. apply List.existsb_exists in Hr as (r & Hin%list_elem_of_In & Hr).
    apply bool_decide_eq_true in Hr. by subst. }
  apply wp_bind. eapply wp_mono.
  { eapply (wp_permit_mono verify_permit).
    { intros h' X e [He _]. by apply lease_discipline_allows. }
    apply moved_prog; [by intros ? ? ? [_ ?]|exact Hm|]. apply wp_quiet; [by intros ? ? ? [? _]|]. apply wp_browser_verify. }
  intros r h2 Hp [[Hv Hw2] Hm2]. assert (forall n, writes n h2 = writes n h0) as Hq by (intros n; by rewrite Hw2).
  destruct r as [request|[]]; [|by apply wp_browser_refuse; [|left|..]].
  specialize (Hv request eq_refl). apply wp_browser_redeem; try done. apply HP. by eapply verified_request.
Qed.
End exchange_theorems.

Section exchange_properties.
Context `{jwt : Jwt, !JwtLaws, serde : SerdeJson, chrono : Chrono, b64 : Base64, p256 : P256, sha : Sha2, url : UrlLib}.
Context `{L : !ReplayLedger, !LeaseLedger L}.

Lemma browser_exchange_runs self u assertion t r :
  runs (exchange self u assertion) t r -> exchange_post self [] u assertion r t.
Proof. exact (wp_runs _ _ [] _ _ _ (wp_browser_exchange self (fun _ _ => True) u assertion [] (fun _ _ => I))). Qed.

(** C13: a browser token is issued only to a workload with the issuer role, for an
    attestation signed under ES256 by a configured key that passed every check and
    whose use was recorded; it is the signature of exactly the claims of the
    attested user and operation. *)
Theorem browser_issues self u assertion t token :
  runs (exchange self u assertion) t (Ok token) -> issued self t u assertion token.
Proof. intros (_ & Hi & _)%browser_exchange_runs. by apply Hi. Qed.

(** Every browser exchange counts one request and exactly one outcome, which
    its answer determines, and a refused attestation is not consumed. *)
Theorem browser_accounting self u assertion t r :
  runs (exchange self u assertion) t r ->
  exists o, outcome_of r o
  /\ (forall c, is_duration c = false -> c <> RefreshFailures ->
        total c t = if decide (c = Count BrowserExchange Requests \/ c = Count BrowserExchange o) then 1%Z else 0%Z)
  /\ (r = Err BrowserUnauthorized -> forall n, writes n t = 0).
Proof.
  intros ((o & Ho & Hm) & _ & Hw)%browser_exchange_runs. exists o. split_and!; try done.
  intros c Hd Hr. rewrite (Hm c Hd Hr). cbn. repeat case_decide; set_solver.
Qed.

#[export,refine] Instance browser_exchange :
  Exchange (BrowserHop1ExchangeService * string * string) (result BrowserHop1ExchangeError string) := {|
  perform_call c := exchange c.1.1 c.1.2 c.2;
  identifies c := request ← request_of c.2; Some (replay_key request, br_exp request);
  issues _ r _ := is_ok r = true;
|}.
Proof.
  intros P [[self u] assertion] h HP. eapply wp_mono; [apply (wp_browser_exchange self P u assertion h)|].
  - intros request Hc. apply HP. cbn in Hc |- *. by rewrite Hc.
  - cbn. intros r h' _ (_ & Hi & _) Hr. destruct r as [token|]; [|done].
    destruct (Hi token eq_refl) as [_ (request & now & uuid & at_ & Hv & Hw & _)].
    rewrite (verified_request _ _ _ _ Hv). by do 2 eexists.
Defined.
End exchange_properties.

(** ** Termination *)
Section termination.
Context `{jwt : Jwt, serde : SerdeJson, chrono : Chrono, b64 : Base64, p256 : P256, sha : Sha2, url : UrlLib}.
Lemma bound_browser_verify v assertion : len_bound (verify v assertion) 2.
Proof.
  unfold verify. destruct (_ || _); [done|].
  apply (len_bound_try_bind _ _ 0 2); [done|]. intros h. destruct (_ || _); [done|].
  apply (len_bound_try_bind _ _ 0 2); [done|]. intros kid.
  apply (len_bound_try_bind _ _ 0 2); [done|]. intros k.
  apply (len_bound_bind _ _ 1 1); [done|]. intros d. by apply (len_bound_try_bind _ _ 0 1).
Qed.
Lemma bound_browser_exchange self ledger u assertion :
  len_bound (exchange (L := kubernetes_ledger ledger) self u assertion) 34.
Proof.
  apply (len_bound_bind _ _ 1 33); [done|]. intros _.
  destruct (WorkloadPolicy.authorize _ _) as [caller|]; [|done]. destruct (negb _); [done|].
  apply (len_bound_bind _ _ 2 31); [apply bound_browser_verify|]. intros [request|]; [|done]. unfold redeem.
  apply (len_bound_bind _ _ 26 5); [apply bound_use_once|]. intros [[]|[| |d]]; [|done..].
  apply (len_bound_bind _ _ 1 4); [done|]. intros now. apply (len_bound_bind _ _ 1 3); [done|]. intros uuid.
  apply (len_bound_bind _ _ 1 2); [done|]. by intros [token|e].
Qed.
End termination.

(** ** A concrete exchange *)
Definition sample_request : BrowserHop1RequestClaims := {|
  br_iss := "https://steward.example"; br_sub := "usr_0123456789abcdef0123456789abcdef"; br_aud := "identity";
  br_exp := 1700000030; br_iat := 1700000000; br_nbf := 1700000000; br_jti := "attestation-1";
  br_email := "user@example.com"; br_email_verified := true; operation := GithubOauthConnect;
  operation_id := "op_0123456789abcdef0123456789abcdef" |}.
Definition sample_request_value : Value := object [
  ("iss", VString (br_iss sample_request)); ("sub", VString (br_sub sample_request));
  ("aud", VString (br_aud sample_request)); ("exp", num (br_exp sample_request));
  ("iat", num (br_iat sample_request)); ("nbf", num (br_nbf sample_request));
  ("jti", VString (br_jti sample_request)); ("email", VString (br_email sample_request));
  ("email_verified", VBool true); ("operation", operation_value GithubOauthConnect);
  ("operation_id", VString (operation_id sample_request))].
Definition browser_tokens : gmap string Token :=
  {["attestation" := {| signed_by := "steward-key";
                        token_header := {| alg := ES256; typ := Some "JWT"; kid := Some "s1" |};
                        token_claims := sample_request_value |}]}.
#[local] Instance browser_jwt : Jwt := concrete_jwt browser_tokens.
#[local] Instance browser_jwt_laws : JwtLaws := concrete_jwt_laws browser_tokens.
#[local] Instance browser_serde : SerdeJson :=
  concrete_serde {["jwks" := VArray [VArray [VString "s1"; VString "steward-key"; VBool true];
                                     VArray [VString "s2"; VString "other"; VBool false]]]}.
#[local] Instance browser_ledger : ReplayLedger := kubernetes_ledger sample_ledger.
#[local] Instance browser_lease_ledger : LeaseLedger browser_ledger := kubernetes_lease_ledger sample_ledger.
Definition sample_browser_verifier : StewardBrowserAssertionVerifier := {|
  browser_issuer := "https://steward.example"; browser_audience := "identity";
  browser_keys := {["s1" := "steward-key" : DecodingKey]} |}.
Definition sample_browser_service : BrowserHop1ExchangeService := {|
  browser_verifier := sample_browser_verifier;
  browser_policy := WorkloadPolicy.sample_workload_policy;
  browser_signing_keys := {| current_kid := "k1"; current_not_before := 0%Z;
    current_not_after := (1800000000 * ns_per_s)%Z; readiness_threshold := 0%Z;
    ring_keys := {["k1" := bytes_of sample_seed]} |};
  browser_output_issuer := "https://exchange.example"; browser_output_audience := "steward-mcp";
  browser_token_ttl := (60 * ns_per_s)%Z |}.
Definition gateway : string := "system:serviceaccount:steward:gateway".
Definition browser_world : World := world_at 1700000010 {["/token" := "secret"]}.
Definition browser_trace : trace_io :=
  run_trace handle (exchange sample_browser_service gateway "attestation") browser_world.
Definition browser_token : string :=
  match (run handle (exchange sample_browser_service gateway "attestation") browser_world).1 with Ok t => t | Err _ => "" end.
Lemma browser_run : runs (exchange sample_browser_service gateway "attestation") browser_trace (Ok browser_token).
Proof. apply run_trace_runs. by vm_compute. Qed.

Lemma browser_issues_witness : issued sample_browser_service browser_trace gateway "attestation" browser_token.
Proof. apply (browser_issues sample_browser_service gateway "attestation" browser_trace browser_token browser_run). Defined.
Lemma browser_accounting_witness :
  exists o, outcome_of (Ok browser_token) o /\ total (Count BrowserExchange o) browser_trace = 1%Z.
Proof.
  destruct (browser_accounting sample_browser_service gateway "attestation" browser_trace (Ok browser_token) browser_run)
    as (o & Ho & Hc & _).
  exists o. split; [exact Ho|]. rewrite (Hc (Count BrowserExchange o)); [|done..].
  rewrite decide_True; [done|by right].
Defined.
Lemma attestation_exact_witness : attested sample_browser_verifier 1700000010 sample_request.
Proof.
  apply (attestation_exact sample_browser_verifier sample_request 1700000010 sample_request);
    [split; by vm_compute|by vm_compute].
Defined.
Lemma attestation_keys_exact_witness :
  exists v document, verifier_of_file "https://steward.example" "identity" (Ok "jwks") = Ok v
  /\ (parse_json "jwks" ≫= jwk_set_of_value) = Some document
  /\ NoDup (omap attestation_kid document) /\ browser_keys v <> ∅.
Proof.
  assert (is_ok (verifier_of_file "https://steward.example" "identity" (Ok "jwks")) = true) as Hok by by vm_compute.
  destruct (verifier_of_file "https://steward.example" "identity" (Ok "jwks")) as [v|] eqn:Hv; [|done].
  destruct (attestation_keys_exact "https://steward.example" "identity" "jwks" v Hv) as (document & Hd & Hn & Hk & _).
  exists v, document. exact (conj eq_refl (conj Hd (conj Hn Hk))).
Defined.
