(* ===== verification/InternalCauses.v ===== *)
(** * Why an internal exchange is refused

    As [Causes], for the token review, the workload exchange and the browser
    exchange. *)
From S2P Require Import Prelude Text Prog Libs State Constants Replay ReplaySafety LedgerRefinement Keys LedgerCauses Exchange.
From S2P Require WorkloadPolicy Workload BrowserHop1.

(** ** The review *)
Section review.
Context `{jwt : Jwt, chrono : Chrono}.
#[local] Existing Instance Workload.kubernetes_audited.
Context (reviewer : Workload.KubernetesTokenReviewer).
(** The review an answer of the API carries. *)
Definition review_document (x : option (bool * option Value)) : option Workload.TokenReviewResponse :=
  answer ← x; if negb answer.1 then None else answer.2 ≫= Workload.token_review_deserialize.
Inductive review_failed (t : trace_io) : Prop :=
| review_uncredentialed r : Obs (ReadFile (Workload.reviewer_credential_file reviewer)) r ∈ t ->
    match r with Ok contents => is_empty (trim contents) = true | Err _ => True end -> review_failed t
| review_unanswered credential token audience x :
    Obs (TokenReviewPost credential (Workload.token_review_request token audience)) x ∈ t -> review_document x = None ->
    review_failed t.
Inductive review_refused (t : trace_io) (token audience : string) : Prop :=
| review_not_asked : is_empty token || bool_decide (Workload.MAX_ASSERTION_BYTES < len token) || is_empty audience = true ->
    review_refused t token audience
| review_negative credential x response :
    Obs (TokenReviewPost credential (Workload.token_review_request token audience)) x ∈ t ->
    review_document x = Some response -> (forall username, ~ Workload.vouches response audience username) ->
    review_refused t token audience.
Definition review_vouched (t : trace_io) (token audience username : string) : Prop :=
  Workload.reviewed (R := Workload.kubernetes_reviewer reviewer) t token audience username.

Lemma review_failed_prefix h h' : h `prefix_of` h' -> review_failed h -> review_failed h'.
Proof. intros Hp. destruct 1; [eapply review_uncredentialed|eapply review_unanswered]; eauto using elem_of_prefix. Qed.
Lemma review_refused_prefix h h' token audience :
  h `prefix_of` h' -> review_refused h token audience -> review_refused h' token audience.
Proof. intros Hp. destruct 1; [by apply review_not_asked|eapply review_negative; eauto using elem_of_prefix]. Qed.
Lemma review_vouched_prefix h h' token audience username :
  h `prefix_of` h' -> review_vouched h token audience username -> review_vouched h' token audience username.
Proof. apply Workload.reviewed_prefix. Qed.

Definition review_shows (token audience : string) (r : result Workload.ReviewError Workload.ReviewedWorkload) (h : trace_io) : Prop :=
  match r with
  | Ok w => review_vouched h token audience (Workload.reviewed_username w)
  | Err Workload.ReviewInvalid => review_refused h token audience
  | Err Workload.ReviewUnavailable => review_failed h
  end.
Lemma review_errors token audience h : wpt (Workload.kubernetes_review reviewer token audience) h (fun r h' =>
  match r with Ok _ => True | Err Workload.ReviewInvalid => review_refused h' token audience
             | Err Workload.ReviewUnavailable => review_failed h' end).
Proof.
  unfold Workload.kubernetes_review. destruct (_ || _) eqn:Ha; [by apply review_not_asked|].
  split; [done|]. intros contents. set (h1 := h ++ _).
  assert (Obs (ReadFile (Workload.reviewer_credential_file reviewer)) contents ∈ h1) as Hc by apply elem_of_last.
  destruct contents as [contents|e]; cbn; [|by eapply review_uncredentialed].
  destruct (is_empty (trim contents)) eqn:He; [by eapply review_uncredentialed|]. split; [done|]. intros x.
  set (h2 := h1 ++ _).
  assert (Obs (TokenReviewPost (trim contents) (Workload.token_review_request token audience)) x ∈ h2) as Hx by apply elem_of_last.
  destruct x as [[[] body]|]; cbn; [|by eapply review_unanswered..].
  destruct (body ≫= Workload.token_review_deserialize) as [response|] eqn:Hb; cbn; [|eapply review_unanswered; [exact Hx|exact Hb]].
  destruct (Workload.validate_token_review response audience) as [u|e] eqn:Hv; [done|]. cbn.
  assert (review_refused h2 token audience) as Hr.
  { eapply review_negative; [exact Hx|exact Hb|]. intros u Hu%Workload.validate_token_review_spec. congruence. }
  enough (e = Workload.ReviewInvalid) as -> by done.
  revert Hv. unfold Workload.validate_token_review, ok_or.
  repeat (case_match; cbn [mbind result_bind]; try by intros [= <-]).
Qed.
Lemma review_causes token audience h : wpt (Workload.kubernetes_review reviewer token audience) h (review_shows token audience).
Proof.
  eapply wp_mono; [apply wp_and; [apply review_errors|]|].
  - eapply wp_permit_mono; [|apply (Workload.review_spec (R := Workload.kubernetes_reviewer reviewer))]. done.
  - intros [w|e] h' _ [He Hv]; [by apply Hv|by destruct e].
Qed.
End review.

(** ** The workload exchange *)
Section workload.
Context `{jwt : Jwt, serde : SerdeJson, chrono : Chrono, b64 : Base64, p256 : P256, rsa : Rsa, sha : Sha2, url : UrlLib}.
Context (self : Workload.WorkloadExchangeService) (reviewer : Workload.KubernetesTokenReviewer) (ledger : KubernetesLeaseReplayLedger).
Abbreviation audience := (Workload.input_audience self).
Abbreviation policy := (Workload.workload_policy self).
(** Besides its dependencies, the exchange does not serve a task whose token ends
    outside the time for which its record may be kept. *)
Inductive workload_failed (t : trace_io) (assertion : string) : Prop :=
| workload_review_fails : review_failed reviewer t -> workload_failed t assertion
| workload_ledger_fails : ledger_failed ledger t -> workload_failed t assertion
| workload_clock_fails : clock_fault t -> workload_failed t assertion
| task_record_unkeepable claims now : Workload.projected_of assertion = Some claims -> reads t now ->
    ~ (now - 300 < Workload.projected_exp claims <= now + 660)%Z -> workload_failed t assertion
| task_signing_fails : signing_fault (sign_at (Workload.task_keys self)) t -> workload_failed t assertion
| role_signing_fails : signing_fault (rsa_sign_at (Workload.workload_keys self)) t -> workload_failed t assertion.
(** The caller the review and the policy give a token. *)
Definition calls (t : trace_io) (assertion : string) (caller : WorkloadPolicy.WorkloadIdentity) : Prop :=
  exists username, review_vouched reviewer t assertion audience username /\ WorkloadPolicy.authorize policy username = Ok caller.
Inductive workload_refused (t : trace_io) (assertion : string) : Prop :=
| workload_not_reviewed : review_refused t assertion audience -> workload_refused t assertion
| workload_unmapped username e : review_vouched reviewer t assertion audience username ->
    WorkloadPolicy.authorize policy username = Err e -> workload_refused t assertion
| projected_malformed caller task : calls t assertion caller -> WorkloadPolicy.identity_task caller = Some task ->
    Workload.projected_of assertion = None -> workload_refused t assertion
| projected_refused caller task claims now : calls t assertion caller -> WorkloadPolicy.identity_task caller = Some task ->
    Workload.projected_of assertion = Some claims -> reads t now ->
    WorkloadPolicy.bounded_non_whitespace (Workload.projected_jti claims) 128 = false \/ (Workload.projected_exp claims <= wrap_i64 now)%Z ->
    workload_refused t assertion
| projected_spent caller task claims : calls t assertion caller -> WorkloadPolicy.identity_task caller = Some task ->
    Workload.projected_of assertion = Some claims -> spent_before (Workload.projected_jti claims) t -> workload_refused t assertion.
Lemma calls_prefix h h' assertion caller : h `prefix_of` h' -> calls h assertion caller -> calls h' assertion caller.
Proof. intros Hp (u & Hu & Ha). exists u. split; [by eapply review_vouched_prefix|done]. Qed.
Lemma workload_failed_prefix h h' assertion : h `prefix_of` h' -> workload_failed h assertion -> workload_failed h' assertion.
Proof.
  intros Hp. destruct 1.
  - by eapply workload_review_fails, review_failed_prefix.
  - by eapply workload_ledger_fails, ledger_failed_prefix.
  - by eapply workload_clock_fails, clock_fault_prefix.
  - eapply task_record_unkeepable; eauto using seconds_prefix.
  - by eapply task_signing_fails, signing_fault_prefix.
  - by eapply role_signing_fails, signing_fault_prefix.
Qed.
Lemma workload_refused_prefix h h' assertion : h `prefix_of` h' -> workload_refused h assertion -> workload_refused h' assertion.
Proof.
  intros Hp. destruct 1.
  - by eapply workload_not_reviewed, review_refused_prefix.
  - eapply workload_unmapped; eauto using review_vouched_prefix.
  - eapply projected_malformed; eauto using calls_prefix.
  - eapply projected_refused; eauto using calls_prefix, seconds_prefix.
  - eapply projected_spent; eauto using calls_prefix, spent_before_prefix.
Qed.

Context `{!ChronoLaws, !ChronoRange}.
Definition workload_shows (assertion : string) (r : result Workload.WorkloadExchangeError string) (h : trace_io) : Prop :=
  match r with
  | Ok _ => True
  | Err Workload.WorkloadExchangeUnavailable => workload_failed h assertion
  | Err Workload.WorkloadExchangeUnauthorized => workload_refused h assertion
  end.
#[local] Instance internal_ledger : ReplayLedger := kubernetes_ledger ledger.
#[local] Instance internal_reviewer : Workload.TokenReviewer := Workload.kubernetes_reviewer reviewer.
Lemma workload_fails {A} (p : io A) assertion h : workload_failed h assertion ->
  wpt (_ ← p; mret (Err Workload.WorkloadExchangeUnavailable)) h (workload_shows assertion).
Proof. intros Hf. apply wpt_skip. intros a h' Hp. by eapply workload_failed_prefix. Qed.
Lemma workload_refuses {A} (p : io A) assertion h : workload_refused h assertion ->
  wpt (_ ← p; mret (Err Workload.WorkloadExchangeUnauthorized)) h (workload_shows assertion).
Proof. intros Hf. apply wpt_skip. intros a h' Hp. by eapply workload_refused_prefix. Qed.
Lemma workload_issue_causes username signed assertion h :
  (forall e, signed = Err e -> workload_failed h assertion) -> wpt (Workload.issue username signed) h (workload_shows assertion).
Proof.
  intros Hs. destruct signed as [token|e]; [by do 2 (apply wpt_skip; intros ? ? _)|]. by eapply workload_fails, Hs.
Qed.
Lemma redeem_task_causes username caller task now assertion h :
  calls h assertion caller -> WorkloadPolicy.identity_task caller = Some task -> reads h now ->
  wpt (Workload.redeem_task self assertion username caller task now) h (workload_shows assertion).
Proof.
  intros Hc Ht Hn. unfold Workload.redeem_task. fold (Workload.projected_of assertion).
  destruct (Workload.projected_of assertion) as [claims|] eqn:Hp; [|by eapply workload_refuses, projected_malformed].
  destruct (_ || _) eqn:Hg.
  { eapply workload_refuses, projected_refused; try done. apply orb_prop in Hg as [Hg|Hg]; [left; by apply negb_true_iff|].
    right. by apply bool_decide_eq_true in Hg. }
  eapply wp_call; [apply (spend_causes ledger)|]. intros r h1 Hp1 Hx.
  assert (forall e, r = Err e -> e <> Replayed -> workload_failed h1 assertion) as Hfail.
  { intros e He Hne. eapply (spend_fails ledger _ _ _ _ _ _ _ Hx He Hne); [apply workload_ledger_fails|].
    intros now' x Hn' Hret. assert (reads h1 (timestamp_of now')) as Hr by (eapply seconds_prefix, reads_now; exact Hn').
    destruct (decide (0 <= timestamp_of now' < 253402290000)%Z) as [Hin|Hout]; [|by eapply workload_clock_fails, clock_out_of_range].
    eapply task_record_unkeepable; [done|exact Hr|]. intros Hk. destruct (retained_until_total _ _ Hin Hk) as [ret ?]. congruence. }
  destruct r as [[]|[| |detail]].
  - apply wpt_skip. intros uuid h2 Hp2. eapply wp_call; [apply sign_causes|]. intros signed h3 _ Hs.
    apply workload_issue_causes. intros e He. by eapply task_signing_fails, Hs.
  - eapply workload_refuses, projected_spent; [by eapply calls_prefix|done..].
  - by eapply workload_fails, Hfail.
  - by eapply workload_fails, Hfail.
Qed.
Lemma workload_exchange_causes assertion h : wpt (Workload.exchange self assertion) h (workload_shows assertion).
Proof.
  apply wpt_skip. intros u h0 _. eapply wp_call; [apply (review_causes reviewer)|]. intros [w|[|]] h1 _ Hr.
  2:{ by eapply workload_refuses, workload_not_reviewed. }
  2:{ by eapply workload_fails, workload_review_fails. }
  destruct (WorkloadPolicy.authorize policy _) as [caller|e] eqn:Ha; [|by eapply workload_refuses, workload_unmapped].
  apply wp_event; [done|]. intros now. set (h2 := h1 ++ _).
  assert (h1 `prefix_of` h2) as Hp by by apply prefix_app_r.
  destruct (WorkloadPolicy.identity_task caller) as [task|] eqn:Ht.
  - apply redeem_task_causes; [|done|].
    + eapply calls_prefix; [exact Hp|]. by exists (Workload.reviewed_username w).
    + exists (Obs CurrentTimestamp now). split; [apply elem_of_last|done].
  - apply wpt_skip. intros uuid h3 _. eapply wp_call; [apply rsa_sign_causes|]. intros signed h4 _ Hs.
    apply workload_issue_causes. intros e He. by eapply role_signing_fails, Hs.
Qed.
End workload.

(** ** The browser exchange *)
Section browser.
Context `{jwt : Jwt, serde : SerdeJson, chrono : Chrono, b64 : Base64, p256 : P256, rsa : Rsa, sha : Sha2, url : UrlLib}.
Context (self : BrowserHop1.BrowserHop1ExchangeService) (ledger : KubernetesLeaseReplayLedger).
Abbreviation verifier := (BrowserHop1.browser_verifier self).
Inductive browser_failed (t : trace_io) : Prop :=
| browser_ledger_fails : ledger_failed ledger t -> browser_failed t
| browser_clock_fails : clock_fault t -> browser_failed t
| browser_signing_fails : signing_fault (sign_at (BrowserHop1.browser_signing_keys self)) t -> browser_failed t.
(** The configured key that an attestation names. *)
Definition attestation_key (assertion : string) : option DecodingKey :=
  if is_empty assertion || bool_decide (BrowserHop1.MAX_ASSERTION_BYTES < len assertion) then None else
  header ← decode_header assertion;
  if bool_decide (alg header <> ES256) || bool_decide (typ header <> Some "JWT") then None else
  kid ← kid header; BrowserHop1.browser_keys verifier !! kid.
Inductive browser_refused (t : trace_io) (username assertion : string) : Prop :=
| browser_unmapped e : WorkloadPolicy.authorize (BrowserHop1.browser_policy self) username = Err e -> browser_refused t username assertion
| issuer_role_missing caller : WorkloadPolicy.authorize (BrowserHop1.browser_policy self) username = Ok caller ->
    BrowserHop1.BROWSER_HOP1_ISSUER_ROLE ∉ WorkloadPolicy.identity_roles caller -> browser_refused t username assertion
| attestation_malformed : attestation_key assertion = None -> browser_refused t username assertion
| attestation_not_genuine key now : attestation_key assertion = Some key -> reads t now ->
    (decode assertion key (BrowserHop1.validation verifier) now ≫= BrowserHop1.request_deserialize) = None ->
    browser_refused t username assertion
| attestation_refused key decoded_at request now e : attestation_key assertion = Some key ->
    (decode assertion key (BrowserHop1.validation verifier) decoded_at ≫= BrowserHop1.request_deserialize) = Some request ->
    reads t now -> BrowserHop1.check_request verifier request now = Err e -> browser_refused t username assertion
| attestation_spent request : BrowserHop1.verified verifier t assertion request ->
    spent_before (BrowserHop1.replay_key request) t -> browser_refused t username assertion.
Lemma browser_failed_prefix h h' : h `prefix_of` h' -> browser_failed h -> browser_failed h'.
Proof.
  intros Hp. destruct 1; [by eapply browser_ledger_fails, ledger_failed_prefix|by eapply browser_clock_fails, clock_fault_prefix|].
  by eapply browser_signing_fails, signing_fault_prefix.
Qed.
Lemma browser_refused_prefix h h' username assertion :
  h `prefix_of` h' -> browser_refused h username assertion -> browser_refused h' username assertion.
Proof.
  intros Hp. destruct 1.
  - by eapply browser_unmapped.
  - by eapply issuer_role_missing.
  - by apply attestation_malformed.
  - eapply attestation_not_genuine; eauto using seconds_prefix.
  - eapply attestation_refused; eauto using seconds_prefix.
  - eapply attestation_spent; eauto using BrowserHop1.browser_verified_prefix, spent_before_prefix.
Qed.

Definition browser_shows (username assertion : string) (r : result BrowserHop1.BrowserHop1ExchangeError string) (h : trace_io) : Prop :=
  match r with
  | Ok _ => True
  | Err BrowserHop1.BrowserUnavailable => browser_failed h
  | Err BrowserHop1.BrowserUnauthorized => browser_refused h username assertion
  end.
#[local] Instance browser_ledger : ReplayLedger := kubernetes_ledger ledger.
Lemma browser_fails {A} (p : io A) username assertion h : browser_failed h ->
  wpt (_ ← p; mret (Err BrowserHop1.BrowserUnavailable)) h (browser_shows username assertion).
Proof. intros Hf. apply wpt_skip. intros a h' Hp. by eapply browser_failed_prefix. Qed.
Lemma browser_refuses {A} (p : io A) username assertion h : browser_refused h username assertion ->
  wpt (_ ← p; mret (Err BrowserHop1.BrowserUnauthorized)) h (browser_shows username assertion).
Proof. intros Hf. apply wpt_skip. intros a h' Hp. by eapply browser_refused_prefix. Qed.
Lemma browser_verify_errors username assertion h : wpt (BrowserHop1.verify verifier assertion) h (fun r h' =>
  match r with Ok _ => True | Err _ => browser_refused h' username assertion end).
Proof.
  assert (attestation_key assertion = attestation_key assertion) as Hk by done. unfold attestation_key at 2 in Hk.
  unfold BrowserHop1.verify. destruct (_ || _); [by apply attestation_malformed|].
  destruct (decode_header assertion) as [header|]; [|by apply attestation_malformed]. cbn -[BrowserHop1.check_request] in Hk |- *.
  destruct (_ || _); [by apply attestation_malformed|].
  destruct (kid header) as [kd|]; [|by apply attestation_malformed]. cbn -[BrowserHop1.check_request] in Hk |- *.
  destruct (BrowserHop1.browser_keys verifier !! kd) as [key|]; [|by apply attestation_malformed]. cbn -[BrowserHop1.check_request].
  split; [done|]. intros decoded_at. set (h1 := h ++ _).
  assert (reads h1 decoded_at) as Hd by (exists (Obs CurrentTimestamp decoded_at); split; [apply elem_of_last|done]).
  destruct (decode assertion key (BrowserHop1.validation verifier) decoded_at ≫= BrowserHop1.request_deserialize)
    as [request|] eqn:Hdec; [|by eapply attestation_not_genuine].
  split; [done|]. intros now. cbn -[BrowserHop1.check_request].
  destruct (BrowserHop1.check_request verifier request (timestamp_of now)) as [c|e] eqn:Hc; [done|].
  eapply attestation_refused; [exact Hk|exact Hdec|apply reads_now|exact Hc].
Qed.
Lemma browser_verify_causes username assertion h : wpt (BrowserHop1.verify verifier assertion) h (fun r h' =>
  match r with Ok request => BrowserHop1.verified verifier h' assertion request | Err _ => browser_refused h' username assertion end).
Proof.
  eapply wp_mono; [apply wp_and; [apply (browser_verify_errors username)|]|].
  - eapply wp_permit_mono; [|apply BrowserHop1.wp_browser_verify]. done.
  - intros [c|e] h' _ [He Hv]; [by apply Hv|exact He].
Qed.

Context `{!JwtLaws, !ChronoLaws, !ChronoRange}.
Lemma browser_retention assertion request now h h' x :
  BrowserHop1.verified verifier h assertion request -> (h ++ [Obs UtcNow now]) `prefix_of` h' ->
  retained_until (BrowserHop1.br_exp request) (timestamp_of now) = Err x -> clock_fault h'.
Proof.
  intros [_ (hd & kd & k & d & ch & _ & _ & _ & _ & _ & Hd & Hdec & Hch & Hcc)] Hp Hr.
  apply bind_Some in Hdec as (v & Hdec & Hc).
  pose proof (decode_exp _ _ _ _ _ _ Hdec (BrowserHop1.request_exp _ _ Hc)) as Hexp. cbn in Hexp. unfold BrowserHop1.CLOCK_SKEW_SECONDS in Hexp.
  apply (retention_fault h h' now (BrowserHop1.br_exp request) (timestamp_of ch) d x); [| |done| |done].
  - by exists (Obs UtcNow ch).
  - by exists (Obs CurrentTimestamp d).
  - intros Hz. apply BrowserHop1.check_request_spec in Hcc as [_ Hat]; [|unfold is_i64, i64_min, i64_max; lia].
    destruct (BrowserHop1.attested_times _ _ _ Hat) as (Hl & Hs & _). lia.
Qed.
Lemma browser_issue_causes username assertion request h :
  wpt (BrowserHop1.issue self username request) h (browser_shows username assertion).
Proof.
  unfold BrowserHop1.issue. do 2 (apply wpt_skip; intros ? ? _). eapply wp_call; [apply sign_causes|].
  intros [token|e] h1 _ Hs; [by do 2 (apply wpt_skip; intros ? ? _)|]. by eapply browser_fails, browser_signing_fails, Hs.
Qed.
Lemma browser_redeem_causes username assertion request h : BrowserHop1.verified verifier h assertion request ->
  wpt (BrowserHop1.redeem self username request) h (browser_shows username assertion).
Proof.
  intros Hv. unfold BrowserHop1.redeem. eapply wp_call; [apply (spend_causes ledger)|]. intros r h1 Hp Hx.
  assert (forall e, r = Err e -> e <> Replayed -> browser_failed h1) as Hfail.
  { intros e He Hne. eapply (spend_fails ledger _ _ _ _ _ _ _ Hx He Hne); [apply browser_ledger_fails|].
    intros. by eapply browser_clock_fails, browser_retention. }
  destruct r as [[]|[| |detail]]; [apply browser_issue_causes| | |]; apply wpt_skip; intros u h2 Hp2.
  - eapply browser_refuses, attestation_spent; [eapply BrowserHop1.browser_verified_prefix, Hv; by etrans|].
    by eapply spent_before_prefix, Hx.
  - eapply browser_fails, browser_failed_prefix; [exact Hp2|]. by eapply Hfail.
  - eapply browser_fails, browser_failed_prefix; [exact Hp2|]. by eapply Hfail.
Qed.
Lemma browser_exchange_causes username assertion h :
  wpt (BrowserHop1.exchange self username assertion) h (browser_shows username assertion).
Proof.
  apply wpt_skip. intros u h0 _. destruct (WorkloadPolicy.authorize _ username) as [caller|e] eqn:Ha; [|by eapply browser_refuses, browser_unmapped].
  destruct (negb _) eqn:Hr.
  - eapply browser_refuses, issuer_role_missing; [exact Ha|]. intros Hin. apply negb_true_iff in Hr.
    apply not_true_iff_false in Hr. apply Hr, existsb_exists. exists BrowserHop1.BROWSER_HOP1_ISSUER_ROLE.
    split; [by apply list_elem_of_In|by apply bool_decide_eq_true].
  - eapply wp_call; [apply (browser_verify_causes username)|]. intros [request|e] h1 _ Hv; [by apply browser_redeem_causes|].
    by apply browser_refuses.
Qed.
End browser.
