(* ===== verification/KeyringTool.v ===== *)
(** * The keyring tool (bin/keyring-tool.rs)

    The offline administration of keyring files, as programs over file-system
    events of their own.  [KeyringFiles] shows what they do to the files. *)
From Stdlib Require Import Ascii.
From S2P Require Import Prelude Text Prog Libs Constants Concrete Keys.
From S2P Require Service.

(** ** Paths

    [Path::parent] and [Path::join], up to redundant separators. *)
Definition path_components (path : string) : list string :=
  let segments := split "/" path in
  match segments with
  | "." :: _ => ["."]
  | _ => []
  end ++ filter (fun segment => segment <> "" /\ segment <> ".") segments.
Definition path_parent (path : string) : option string :=
  match path_components path with
  | [] => None
  | components => Some ((if starts_with path "/" then "/" else "") +:+ join "/" (removelast components))
  end.
Definition path_join (parent name : string) : string :=
  if is_empty parent || ends_with parent "/" then parent +:+ name else parent +:+ "/" +:+ name.

(** ** Events *)
Record Metadata := { is_file : bool; is_symlink : bool; permissions_mode : Z }.
Section events.
Context `{!P256, !Rsa}.
Inductive tool_event : Type -> Type :=
| SymlinkMetadata (path : string) : tool_event (result string Metadata)
| IsDir (path : string) : tool_event bool
| Read (path : string) : tool_event (result string string)
| CreateNew (path : string) (mode : Z) : tool_event (result string ())
| WriteAll (path contents : string) : tool_event (result string ())
| SyncAll (path : string) : tool_event (result string ())
| Rename (from to : string) : tool_event (result string ())
| RemoveFile (path : string) : tool_event (result string ())
| Now : tool_event datetime
| Uuid : tool_event string
| RandomSecretKey : tool_event SecretKey
| RandomRsaKey : tool_event (result string RsaPrivateKey)
| PrintOut (text : string) : tool_event (result string ())
| PrintErr (text : string) : tool_event ().
End events.
Abbreviation tool := (prog tool_event).

(** ** JSON documents *)
Definition key_is (key : Value) (kid : string) : bool := bool_decide ((get_field key "kid" ≫= as_str) = Some kid).
Definition current_is (document : Value) (kid : string) : bool :=
  bool_decide ((get_field document "current_kid" ≫= as_str) = Some kid).
(** [document["keys"].as_array_mut().ok_or(..)?], where the document is an object:
    the command has read it from a file that passed validation. *)
Definition document_keys (document : Value) : result string (list Value) :=
  ok_or "keys must be an array" (get_field document "keys" ≫= as_array).
(** Assignment to a field of an object. *)
Definition set_field (document : Value) (name : string) (v : Value) : Value :=
  match document with VObject m => VObject (<[name := v]> m) | _ => document end.

(** ** Commands *)
Inductive KeyType := Es256 | RsaType.
#[export] Instance KeyType_eq_dec : EqDecision KeyType.
Proof. solve_decision. Defined.
Inductive Action := Generate | Validate | Add | Activate | Retire.
#[export] Instance Action_eq_dec : EqDecision Action.
Proof. solve_decision. Defined.
Definition line_end : string := String (ascii_of_N 10) "".
Definition usage : string :=
  "usage: keyring-tool (generate|add)-(es256|rsa) FILE KID [--valid-for-days DAYS]" +:+ line_end
  +:+ "       keyring-tool (validate)-(es256|rsa) FILE" +:+ line_end
  +:+ "       keyring-tool (activate|retire)-(es256|rsa) FILE KID" +:+ line_end
  +:+ "       keyring-tool export-jwks FILE".
Definition action_of (text : string) : option Action :=
  if decide (text = "generate") then Some Generate else if decide (text = "validate") then Some Validate
  else if decide (text = "add") then Some Add else if decide (text = "activate") then Some Activate
  else if decide (text = "retire") then Some Retire else None.
Definition key_type_of (text : string) : option KeyType :=
  if decide (text = "es256") then Some Es256 else if decide (text = "rsa") then Some RsaType else None.
Definition action_text (a : Action) : string :=
  match a with Generate => "generate" | Validate => "validate" | Add => "add" | Activate => "activate" | Retire => "retire" end.
Definition key_type_text (t : KeyType) : string := match t with Es256 => "es256" | RsaType => "rsa" end.
(** The key ID and the validity in days, from the whole argument list. *)
Definition parse_options (action : option Action) (args : list string) : result string (option string * option Z) :=
  match action, args with
  | Some Validate, [_; _] => Ok (None, None)
  | Some (Activate | Retire), [_; _; kid] => Ok (Some kid, None)
  | Some (Generate | Add), [_; _; kid] => Ok (Some kid, Some 90%Z)
  | Some (Generate | Add), [_; _; kid; flag; days] =>
      if decide (flag = "--valid-for-days") then
        days ← ok_or "--valid-for-days must be an integer from 1 through 3650"
          (days ← parse_uint 65535 days; if bool_decide (1 <= days <= 3650)%Z then Some days else None);
        Ok (Some kid, Some days)
      else Err usage
  | Some _, _ => Err usage
  | None, _ => Err "unknown command"
  end.
Definition version (t : KeyType) : string := match t with Es256 => KEYRING_VERSION | RsaType => RSA_KEYRING_VERSION end.
Definition validate_kid (kid : string) : result string () :=
  reject_if (is_empty kid || bool_decide (64 < len kid)
             || negb (bytes_all (fun b => is_ascii_alphanumeric b || bool_decide (b = "."%char)
                                          || bool_decide (b = "_"%char) || bool_decide (b = "-"%char)) kid))
    "KID must be 1-64 ASCII letters, digits, dot, underscore, or hyphen".

Section tool.
Context `{!SerdeJson, !Chrono, !Base64, !P256, !Rsa}.

Definition new_key (t : KeyType) (kid : string) (validity_days : Z) : tool (result string Value) :=
  now ← trigger Now;
  let before := (now - 300 * ns_per_s)%Z in
  let after := (now + validity_days * 86400 * ns_per_s)%Z in
  let key_value field material := object [
    ("kid", VString kid); (field, VString material);
    ("not_before", VString (datetime_json before)); ("not_after", VString (datetime_json after))] in
  match t with
  | Es256 => key ← trigger RandomSecretKey; mret (Ok (key_value "seed" (base64_encode (to_bytes key))))
  | RsaType =>
      key ←? trigger RandomRsaKey;
      pem ←? mret (to_pkcs8_pem key);
      mret (Ok (key_value "private_key_pkcs8_pem" pem))
  end.

Definition validate_private_metadata (path : string) : tool (result string ()) :=
  metadata ←? trigger (SymlinkMetadata path);
  mret (reject_if (negb (is_file metadata) || is_symlink metadata
                   || bool_decide (Z.land (permissions_mode metadata) 511 <> 384)%Z)
          "keyring must be a regular mode-0600 file").
Definition key_errors {A} (r : result KeyError A) : result string A := map_err Service.key_error_text r.
Definition load_private (t : KeyType) (now : datetime) (file : result string string) : result string () :=
  match t with
  | Es256 => _ ← key_errors (keyring_of_file now 0 file); Ok ()
  | RsaType => _ ← key_errors (rsa_keyring_of_file now 0 file); Ok ()
  end.
Definition validate_private (path : string) (t : KeyType) : tool (result string ()) :=
  _ ←? validate_private_metadata path;
  now ← trigger Now;
  file ← trigger (Read path);
  mret (load_private t now file).

Definition export_jwks (path : string) : tool (result string ()) :=
  _ ←? validate_private_metadata path;
  contents ←? trigger (Read path);
  document ←? mret (ok_or (json_error contents) (parse_json contents));
  version ←? mret (ok_or "keyring version is missing" (get_field document "version" ≫= as_str));
  keys ←? (if decide (version = KEYRING_VERSION) then
             now ← trigger Now; file ← trigger (Read path); mret (key_errors (jwks <$> keyring_of_file now 0 file))
           else if decide (version = RSA_KEYRING_VERSION) then
             now ← trigger Now; file ← trigger (Read path); mret (key_errors (rsa_jwks <$> rsa_keyring_of_file now 0 file))
           else mret (Err "unsupported keyring version"));
  _ ←? trigger (PrintOut (to_string_pretty (jwk_set_value keys)));  (* up to the order of the fields *)
  trigger (PrintOut line_end).

(** The closure of [write_private]: the new file is written, checked and renamed. *)
Definition install (path temp : string) (document : Value) (replace : bool) : tool (result string ()) :=
  _ ←? trigger (CreateNew temp 384);
  _ ←? trigger (WriteAll temp (to_string_pretty document));
  _ ←? trigger (WriteAll temp line_end);
  _ ←? trigger (SyncAll temp);
  let t := if bool_decide ((get_field document "version" ≫= as_str) = Some KEYRING_VERSION) then Es256 else RsaType in
  _ ←? validate_private temp t;
  exists_ ← (if replace then mret false else metadata ← trigger (SymlinkMetadata path); mret (is_ok metadata));
  if exists_ : bool then mret (Err "target appeared while generating; refusing overwrite")
  else trigger (Rename temp path).
Definition temp_path (path uuid : string) : string :=
  let parent := match path_parent path with Some parent => if is_empty parent then "." else parent | None => "." end in
  path_join parent (".keyring-" +:+ uuid +:+ ".tmp").
Definition write_private (path : string) (document : Value) (replace : bool) : tool (result string ()) :=
  let parent := match path_parent path with Some parent => if is_empty parent then "." else parent | None => "." end in
  directory ← trigger (IsDir parent);
  if negb directory then mret (Err "keyring parent directory does not exist")
  else
  exists_ ← (if replace then mret false else metadata ← trigger (SymlinkMetadata path); mret (is_ok metadata));
  if exists_ : bool then mret (Err "target keyring already exists; refusing overwrite")
  else
  uuid ← trigger Uuid;
  let temp := temp_path path uuid in
  r ← install path temp document replace;
  _ ← (if is_err r then _ ← trigger (RemoveFile temp); mret () else mret ());
  mret r.

Definition generate (path : string) (t : KeyType) (kid : option string) (validity_days : option Z) : tool (result string ()) :=
  metadata ← trigger (SymlinkMetadata path);
  if is_ok metadata then mret (Err "target keyring already exists; refusing overwrite")
  else
  kid ←? mret (ok_or "generate requires a key ID" kid);
  days ←? mret (ok_or "generate requires a validity period" validity_days);
  key ←? new_key t kid days;
  write_private path (object [("version", VString (version t)); ("current_kid", VString kid); ("keys", VArray [key])]) false.

(** The changed document. *)
Definition edit (action : Action) (t : KeyType) (kid : string) (validity_days : option Z) (document : Value)
    (keys : list Value) : tool (result string Value) :=
  let exists_ := existsb (fun key => key_is key kid) keys in
  match action with
  | Add =>
      if exists_ then mret (Err "key ID already exists") else
      days ←? mret (ok_or "add requires a validity period" validity_days);
      key ←? new_key t kid days;
      mret (Ok (set_field document "keys" (VArray (keys ++ [key]))))
  | Activate =>
      mret (if negb exists_ then Err "key ID is not present"
            else Ok (set_field document "current_kid" (VString kid)))
  | _ =>
      mret (if current_is document kid then Err "cannot retire the current signing key"
            else if negb exists_ then Err "key ID is not present"
            else Ok (set_field document "keys" (VArray (List.filter (fun key => negb (key_is key kid)) keys))))
  end.
Definition change (action : Action) (path : string) (t : KeyType) (kid : option string) (validity_days : option Z) :
  tool (result string ()) :=
  _ ←? validate_private path t;
  contents ←? trigger (Read path);
  document ←? mret (ok_or (json_error contents) (parse_json contents));
  keys ←? mret (document_keys document);
  kid ←? mret (ok_or "key operation requires a key ID" kid);
  document ←? edit action t kid validity_days document keys;
  write_private path document true.

Definition perform_action (action : Action) (path : string) (t : KeyType) (kid : option string) (days : option Z) :
  tool (result string ()) :=
  match action with
  | Generate => generate path t kid days
  | Validate => validate_private path t
  | _ => change action path t kid days
  end.
Definition run_tool (args : list string) : tool (result string ()) :=
  match args with
  | command :: path :: _ =>
      if decide (command = "export-jwks") then
        if decide (length args = 2) then export_jwks path else mret (Err usage)
      else
      '(action, algorithm) ←? mret (ok_or "command must end in -es256 or -rsa" (rsplit_once "-" command));
      t ←? mret (ok_or "algorithm must be es256 or rsa" (key_type_of algorithm));
      let action := action_of action in
      '(kid, days) ←? mret (parse_options action args);
      _ ←? mret (match kid with Some kid => validate_kid kid | None => Ok () end);
      action ←? mret (ok_or "unknown command" action);
      _ ←? perform_action action path t kid days;
      _ ← trigger (PrintOut (action_text action +:+ " " +:+ key_type_text t +:+ ": ok" +:+ line_end));
      mret (Ok ())
  | _ => mret (Err usage)
  end.
(** The exit status. *)
Definition main (args : list string) : tool Z :=
  r ← run_tool args;
  match r with
  | Ok _ => mret 0%Z
  | Err error => _ ← trigger (PrintErr ("keyring-tool: " +:+ error +:+ line_end)); mret 1%Z
  end.
End tool.
