(* ===== verification/KeyringFiles.v ===== *)
(** * What the keyring tool does to files

    A file system in which any operation may fail, and the executions of the tool
    in it: at every moment, so also wherever the tool is interrupted, the keyring
    is the old file or a complete, validated new one, and no other file changes but
    the temporary one; and a command that succeeds has made exactly its change. *)
From S2P Require Import Prelude Text Prog Libs Constants Concrete Keys KeyringTool.

(** ** The file system *)
Inductive node := Regular (contents : string) (mode : Z) | Other (symlink : bool) (mode : Z).
Definition metadata_of (n : node) : Metadata :=
  match n with
  | Regular _ m => {| is_file := true; is_symlink := false; permissions_mode := m |}
  | Other s m => {| is_file := false; is_symlink := s; permissions_mode := m |}
  end.
Abbreviation FS := (gmap string node).

Section semantics.
Context `{p256 : P256, rsa : Rsa}.
(** The file the command works on. *)
Context (target : string).

(** What an event may answer and do.  Every operation may fail, and a failed write
    may have written anything; metadata is absent exactly for an absent file, the
    mode of a new file is subject to the process's mask, and a fresh identifier
    names no file yet. *)
Definition tool_step {X} (e : tool_event X) (w : FS) (x : X) (w' : FS) : Prop :=
  match e in tool_event X return X -> Prop with
  | SymlinkMetadata p => fun x => w' = w /\ match w !! p with
                                          | Some n => x = Ok (metadata_of n)
                                          | None => exists error, x = Err error
                                          end
  | Read p => fun x => w' = w /\ forall c, x = Ok c -> exists m, w !! p = Some (Regular c m)
  | CreateNew p _ => fun x => match x with
                              | Ok _ => w !! p = None /\ exists m, w' = <[p := Regular "" m]> w
                              | Err _ => w' = w
                              end
  | WriteAll p c => fun x => exists old m c', w !! p = Some (Regular old m)
                      /\ w' = <[p := Regular (old +:+ c') m]> w /\ (is_ok x = true -> c' = c)
  | Rename a b => fun x => match x with
                           | Ok _ => exists n, w !! a = Some n /\ w' = <[b := n]> (delete a w)
                           | Err _ => w' = w
                           end
  | RemoveFile p => fun x => w' = if is_ok x then delete p w else w
  | Uuid => fun u => w' = w /\ temp_path target u <> target /\ w !! temp_path target u = None
  | _ => fun _ => w' = w
  end x.

Inductive fs_step {A} : tool A * FS -> tool A * FS -> Prop :=
| fs_event X (e : tool_event X) (k : X -> tool A) x w w' :
    tool_step e w x w' -> fs_step (Vis e k, w) (k x, w').

(** [ensures p w I Q]: wherever [p] is stopped the files satisfy [I], and when it
    returns they satisfy [Q]. *)
Fixpoint ensures {A} (p : tool A) (w : FS) (I : FS -> Prop) (Q : A -> FS -> Prop) : Prop :=
  I w /\ match p with
         | Ret a => Q a w
         | Vis e k => forall x w', tool_step e w x w' -> ensures (k x) w' I Q
         end.
Lemma ensures_reachable {A} (p p' : tool A) w w' I Q :
  ensures p w I Q -> rtc fs_step (p, w) (p', w') -> I w' /\ forall a, p' = Ret a -> Q a w'.
Proof.
  intros Hp Hr. remember (p, w) as c eqn:Hc. remember (p', w') as c' eqn:Hc'.
  revert p w Hc Hp. induction Hr as [c|c c1 c2 Hs Hr IH]; intros p w -> Hp.
  - injection Hc' as <- <-. destruct p as [a|X e k]; (split; [apply Hp|]); [|done]. intros b [= <-]. apply Hp.
  - inversion Hs as [X e k x w0 w1 Hstep Heq1 Heq2]. subst. eapply IH; [done|done|]. by apply Hp.
Qed.
Lemma ensures_call {A B} (p : tool A) (f : A -> tool B) w I Q R :
  ensures p w I Q -> (forall a w', I w' -> Q a w' -> ensures (f a) w' I R) -> ensures (p ≫= f) w I R.
Proof.
  unfold mbind, prog_mbind. intros Hp Hf. revert w Hp.
  induction p as [a|X e k IH]; intros w [Hi Hp]; [by apply Hf|]. split; [done|]. intros x w' Hs. by apply IH, Hp.
Qed.
Lemma ensures_try {Er A B} (p : tool (result Er A)) (f : A -> tool (result Er B)) w I Q R :
  ensures p w I Q -> (forall a w', I w' -> Q (Ok a) w' -> ensures (f a) w' I R) ->
  (forall e w', I w' -> Q (Err e) w' -> R (Err e) w') -> ensures (try_bind p f) w I R.
Proof. intros Hp Hf He. eapply ensures_call; [exact Hp|]. intros [a|e] w' Hi Hw; [by apply Hf|]. split; [done|by apply He]. Qed.
Lemma ensures_mono {A} (p : tool A) w I Q R :
  ensures p w I Q -> (forall a w', I w' -> Q a w' -> R a w') -> ensures p w I R.
Proof.
  intros Hp HR. revert w Hp. induction p as [a|X e k IH]; intros w [Hi Hp]; (split; [done|]); [by apply HR|].
  intros x w' Hs. by apply IH, Hp.
Qed.
(** One event, and a step that is no event. *)
Lemma ensures_trigger {X} (e : tool_event X) w (I : FS -> Prop) (Q : X -> FS -> Prop) :
  I w -> (forall x w', tool_step e w x w' -> I w' /\ Q x w') -> ensures (trigger e) w I Q.
Proof. intros Hi H. split; [done|]. intros x w' Hs. by apply H. Qed.
Lemma ensures_ret {A} (a : A) w (I : FS -> Prop) (Q : A -> FS -> Prop) : I w -> Q a w -> ensures (mret a) w I Q.
Proof. by split. Qed.
End semantics.

Section tool.
Context `{serde : SerdeJson, chrono : Chrono, b64 : Base64, p256 : P256, rsa : Rsa}.
Context (target : string).
Implicit Types (w : FS) (I : FS -> Prop).

(** A file that was read, of the right mode, and that loads as a keyring. *)
Definition private_keyring (t : KeyType) w (path contents : string) : Prop :=
  exists m now, w !! path = Some (Regular contents m) /\ Z.land m 511 = 384%Z /\ load_private t now (Ok contents) = Ok ().
Lemma validate_private_spec path t w I : I w ->
  ensures target (validate_private path t) w I (fun r w' => w' = w /\ (r = Ok () -> exists c, private_keyring t w path c)).
Proof.
  intros Hi. unfold validate_private, validate_private_metadata.
  apply (ensures_try _ _ _ _ _ (fun r w' => w' = w /\ (r = Ok () -> exists n, w !! path = Some n
    /\ is_file (metadata_of n) = true /\ Z.land (permissions_mode (metadata_of n)) 511 = 384%Z))).
  - eapply (ensures_try _ _ _ _ _ (fun r w' => w' = w /\ forall m, r = Ok m -> exists n, w !! path = Some n /\ m = metadata_of n)).
    + apply ensures_trigger; [done|]. intros x w' [-> Hx]. destruct (w !! path) as [n|]; [|destruct Hx as [e ->]; done].
      subst x. split; [done|]. split; [done|]. intros m [= <-]. by exists n.
    + intros m w' _ [-> H]. destruct (H m eq_refl) as (n & Hn & ->). apply ensures_ret; [done|]. split; [done|].
      intros Hr%reject_if_ok. result_simpl. exists n. split_and!; try done. by apply dec_stable.
    + intros e w' _ [-> _]. done.
  - intros [] w' _ [-> H]. destruct (H eq_refl) as (n & Hn & Hf & Hm). destruct n as [c m|s m]; [|done]. cbn in Hm.
    eapply (ensures_call _ _ _ _ _ (fun _ w' => w' = w)); [by apply ensures_trigger; [done|]; intros x w' ->|].
    intros now w' _ ->.
    eapply (ensures_call _ _ _ _ _ (fun r w' => w' = w /\ forall c', r = Ok c' -> c' = c)).
    + apply ensures_trigger; [done|]. intros x w' [-> Hx]. split; [done|]. split; [done|].
      intros c' ->. destruct (Hx c' eq_refl) as [m' Hc]. congruence.
    + intros file w' _ [-> Hfile]. apply ensures_ret; [done|]. split; [done|]. intros Hl. exists c, m, now.
      split_and!; try done. destruct file as [c'|e]; [by rewrite <- (Hfile c' eq_refl)|]. by destruct t.
  - intros e w' _ [-> _]. done.
Qed.
Lemma new_key_spec t kid days w I : I w ->
  ensures target (new_key t kid days) w I (fun r w' => w' = w /\
    forall key, r = Ok key -> (get_field key "kid" ≫= as_str) = Some kid).
Proof.
  intros Hi. unfold new_key. eapply (ensures_call _ _ _ _ _ (fun _ w' => w' = w)).
  { apply ensures_trigger; [done|]. by intros x w' ->. }
  intros now w' _ ->. cbv zeta. destruct t.
  - eapply (ensures_call _ _ _ _ _ (fun _ w' => w' = w)); [by apply ensures_trigger; [done|]; intros x w' ->|].
    intros key w' _ ->. apply ensures_ret; [done|]. split; [done|]. by intros k [= <-].
  - eapply (ensures_try _ _ _ _ _ (fun _ w' => w' = w)); [by apply ensures_trigger; [done|]; intros x w' ->| |by intros e w' _ ->].
    intros key w' _ ->. destruct (to_pkcs8_pem key); (apply ensures_ret; [done|]); (split; [done|]); [|done].
    by intros k [= <-].
Qed.

(** ** Installing a document *)
(** What the files may be at any moment: as before; with a temporary file; or with
    a new keyring, complete and of the right mode, in the place of the old one. *)
Definition left_over w (w' : FS) : Prop :=
  exists u n, temp_path target u <> target /\ w !! temp_path target u = None /\ w' = <[temp_path target u := n]> w.
Definition installed (t : KeyType) (contents : string) w (w' : FS) : Prop :=
  exists m, w' = <[target := Regular contents m]> w /\ private_keyring t w' target contents.
Definition crash_safe w (w' : FS) : Prop := w' = w \/ left_over w w' \/ exists t contents, installed t contents w w'.
(** The text of a document in its file. *)
Definition document_text (document : Value) : string := to_string_pretty document +:+ line_end.
Definition document_type (document : Value) : KeyType :=
  if bool_decide ((get_field document "version" ≫= as_str) = Some KEYRING_VERSION) then Es256 else RsaType.

Section install.
Context (w : FS) (uuid : string).
Definition temp_file : string := temp_path target uuid.
Context (fresh : temp_file <> target) (absent : w !! temp_file = None).
Definition temp_holds (n : node) (w' : FS) : Prop := w' = <[temp_file := n]> w.
Lemma temp_safe n w' : temp_holds n w' -> crash_safe w w'.
Proof. intros ->. right. left. by exists uuid, n. Qed.
Lemma write_spec old m c w' : temp_holds (Regular old m) w' ->
  ensures target (trigger (WriteAll temp_file c)) w' (crash_safe w) (fun r w'' =>
    (exists n, temp_holds n w'') /\ (r = Ok () -> temp_holds (Regular (old +:+ c) m) w'')).
Proof.
  intros Hw. apply ensures_trigger; [by eapply temp_safe|].
  intros x w'' (old' & m' & c' & Hl & -> & Hc). rewrite Hw, lookup_insert_eq in Hl. injection Hl as <- <-.
  assert (temp_holds (Regular (old +:+ c') m) (<[temp_file := Regular (old +:+ c') m]> w')) as Ht
    by (unfold temp_holds; by rewrite Hw, insert_insert_eq).
  split; [by eapply temp_safe|]. split; [by eexists|]. intros ->. by rewrite <- (Hc eq_refl).
Qed.
(** The files after an installation: the change, or what may be left of it. *)
Definition install_result (document : Value) (replace : bool) (r : result string ()) (w' : FS) : Prop :=
  match r with
  | Ok _ => installed (document_type document) (document_text document) w w' /\ (replace = false -> w !! target = None)
  | Err _ => w' = w \/ exists n, temp_holds n w'
  end.
Lemma rename_spec document replace m now w' :
  temp_holds (Regular (document_text document) m) w' -> Z.land m 511 = 384%Z ->
  load_private (document_type document) now (Ok (document_text document)) = Ok () ->
  (replace = false -> w !! target = None) ->
  ensures target (trigger (Rename temp_file target)) w' (crash_safe w) (install_result document replace).
Proof.
  intros Hw Hm Hl Hr. apply ensures_trigger; [by eapply temp_safe|].
  intros [[]|e] w''; [|intros ->; split; [by eapply temp_safe|right; by eexists]].
  intros (n & Hn & ->). rewrite Hw, lookup_insert_eq in Hn. injection Hn as <-.
  assert (<[target := Regular (document_text document) m]> (delete temp_file w')
          = <[target := Regular (document_text document) m]> w) as ->.
  { f_equal. by rewrite Hw, delete_insert_id. }
  assert (installed (document_type document) (document_text document) w
            (<[target := Regular (document_text document) m]> w)) as Hi.
  { exists m. split; [done|]. exists m, now. by rewrite lookup_insert_eq. }
  split; [|done]. right. right. by eexists _, _.
Qed.
Lemma install_spec document replace :
  ensures target (install target temp_file document replace) w (crash_safe w) (install_result document replace).
Proof.
  unfold install. fold (document_type document).
  apply (ensures_try _ _ _ _ _ (fun r w' => match r with Ok _ => exists m, temp_holds (Regular "" m) w' | Err _ => w' = w end)).
  { apply ensures_trigger; [by left|]. intros [[]|e] w'; [intros (_ & m & ->)|intros ->].
    - split; [eapply temp_safe; done|by exists m].
    - split; [by left|done]. }
  2:{ intros e w' _ ->. by left. }
  intros [] w1 _ [m H1]. eapply ensures_try; [by apply write_spec| |intros e w' _ [Hw _]; by right].
  intros [] w2 _ [_ H2]. specialize (H2 eq_refl).
  eapply ensures_try; [by apply write_spec| |intros e w' _ [Hw _]; by right].
  intros [] w3 _ [_ H3]. specialize (H3 eq_refl). rewrite app_nil_l in H3. fold (document_text document) in H3.
  eapply (ensures_try _ _ _ _ _ (fun _ w' => w' = w3)).
  { apply ensures_trigger; [by eapply temp_safe|]. intros x w' ->. split; [by eapply temp_safe|done]. }
  2:{ intros e w' _ ->. right. by eexists. }
  intros [] w4 _ ->.
  eapply ensures_try; [apply validate_private_spec; by eapply temp_safe| |intros e w' _ [-> _]; right; by eexists].
  intros [] w4 _ [-> Hv]. destruct (Hv eq_refl) as (c & m' & now & Hc & Hm & Hl).
  rewrite H3, lookup_insert_eq in Hc. injection Hc as <- <-.
  eapply (ensures_call _ _ _ _ _ (fun b w' => w' = w3 /\ (b = false -> replace = false -> w !! target = None))).
  - destruct replace; [apply ensures_ret; [by eapply temp_safe|done]|].
    eapply (ensures_call _ _ _ _ _ (fun x w' => w' = w3 /\ (is_ok x = false -> w !! target = None))).
    + apply ensures_trigger; [by eapply temp_safe|]. intros x w' [-> Hx]. split; [by eapply temp_safe|]. split; [done|].
      rewrite H3, lookup_insert_ne in Hx by done. destruct (w !! target); [by subst x|done].
    + intros x w' Hi [-> Hx]. apply ensures_ret; [done|]. auto.

  - intros [|] w' Hi [-> Hr]; [apply ensures_ret; [done|right; by eexists]|].
    apply (rename_spec document replace m now); auto.
Qed.
End install.

Definition write_result (w : FS) (document : Value) (replace : bool) (r : result string ()) (w' : FS) : Prop :=
  match r with
  | Ok _ => installed (document_type document) (document_text document) w w' /\ (replace = false -> w !! target = None)
  | Err _ => w' = w \/ left_over w w'
  end.
Lemma unchanged_safe w : crash_safe w w.
Proof. by left. Qed.
Lemma unchanged_or_left w w' : w' = w \/ left_over w w' -> crash_safe w w'.
Proof. intros [->|Hl]; [by left|by right; left]. Qed.
Lemma write_private_spec document replace w :
  ensures target (write_private target document replace) w (crash_safe w) (write_result w document replace).
Proof.
  unfold write_private. eapply (ensures_call _ _ _ _ _ (fun _ w' => w' = w)).
  { apply ensures_trigger; [by left|]. intros x w' ->. split; [by left|done]. }
  intros directory w' _ ->. destruct directory; cbn [negb]; [|apply ensures_ret; by left].
  eapply (ensures_call _ _ _ _ _ (fun b w' => w' = w)).
  { destruct replace; [apply ensures_ret; [by left|done]|].
    eapply (ensures_call _ _ _ _ _ (fun _ w' => w' = w)); [|intros x w' _ ->; apply ensures_ret; [by left|done]].
    apply ensures_trigger; [by left|]. intros x w' [-> _]. split; [by left|done]. }
  intros [|] w' _ ->; [apply ensures_ret; by left|].
  eapply (ensures_call _ _ _ _ _ (fun u w' => w' = w /\ temp_file u <> target /\ w !! temp_file u = None)).
  { apply ensures_trigger; [by left|]. intros u w' (-> & Hn & Hu). split; [by left|done]. }
  intros u w' _ (-> & Hn & Hu). cbv zeta. eapply ensures_call; [by apply (install_spec w u)|].
  intros [[]|e] w' Hi Hr; [by apply ensures_ret|].
  eapply (ensures_call _ _ _ _ _ (fun _ w' => crash_safe w w' /\ (w' = w \/ left_over w w')));
    [|intros _ w'' Hi' [_ Hl]; by apply ensures_ret].
  assert (w' = w \/ left_over w w') as Hw by (destruct Hr as [->|[n ->]]; [by left|right; by exists u, n]).
  eapply (ensures_call _ _ _ _ _ (fun _ w' => crash_safe w w' /\ (w' = w \/ left_over w w')));
    [|intros _ w'' Hi' [_ Hl]; by apply ensures_ret].
  apply ensures_trigger; [done|]. intros x w'' Hx. cbn in Hx.
  assert (w'' = w \/ left_over w w'') as Hl; [|split; [|split]; try done; by apply unchanged_or_left].
  fold (temp_file u) in Hx. destruct (is_ok x); subst w''; [|done]. left.
  destruct Hr as [->|[n ->]]; [by apply delete_id|by apply delete_insert_id].
Qed.

(** ** Changing a document *)
Definition change_of (action : Action) (kid : string) (document document' : Value) : Prop :=
  exists keys, document_keys document = Ok keys
  /\ match action with
     | Add => Forall (fun key => key_is key kid = false) keys
              /\ exists key, key_is key kid = true /\ document' = set_field document "keys" (VArray (keys ++ [key]))
     | Activate => existsb (fun key => key_is key kid) keys = true
                   /\ document' = set_field document "current_kid" (VString kid)
     | Retire => current_is document kid = false /\ existsb (fun key => key_is key kid) keys = true
                 /\ document' = set_field document "keys" (VArray (List.filter (fun key => negb (key_is key kid)) keys))
     | _ => False
     end.
Lemma edit_spec action t kid days document keys w I : I w ->
  action = Add \/ action = Activate \/ action = Retire -> document_keys document = Ok keys ->
  ensures target (edit action t kid days document keys) w I (fun r w' => w' = w /\
    forall document', r = Ok document' -> change_of action kid document document').
Proof.
  intros Hi Ha Hk. unfold edit. destruct Ha as [->|[->| ->]].
  - destruct (existsb _ keys) eqn:He; [by apply ensures_ret|]. apply existsb_false in He.
    destruct days as [days|]; [|by apply ensures_ret].
    eapply (ensures_try _ (Ret (Ok days)) _ _ _ (fun r w' => w' = w)); [by apply ensures_ret| |by intros e w' _ ->].
    intros d w' _ ->. eapply ensures_try; [by apply new_key_spec| |by intros e w' _ [-> _]].
    intros key w' _ [-> Hkey]. apply ensures_ret; [done|]. split; [done|]. intros document' [= <-].
    exists keys. split; [done|]. split; [done|]. exists key. split; [|done]. by apply bool_decide_eq_true, Hkey.
  - apply ensures_ret; [done|]. split; [done|]. destruct (existsb _ keys) eqn:He; [|done].
    intros document' [= <-]. by exists keys.
  - apply ensures_ret; [done|]. split; [done|]. destruct (current_is _ _) eqn:Hc; [done|].
    destruct (existsb _ keys) eqn:He; [|done]. intros document' [= <-]. by exists keys.
Qed.
(** A file that loads as a keyring of a type has that type's version. *)
Lemma deserialize_version material v input :
  keyring_file_deserialize material v = Some input -> (get_field v "version" ≫= as_str) = Some (file_version input).
Proof.
  unfold keyring_file_deserialize, field. destruct (only_fields _ _); [|done].
  by intros (version & -> & (current & _ & (keys & _ & [= <-])%bind_Some)%bind_Some)%bind_Some.
Qed.
Lemma load_version t now contents document :
  load_private t now (Ok contents) = Ok () -> parse_json contents = Some document ->
  (get_field document "version" ≫= as_str) = Some (version t).
Proof.
  intros Hl Hd. destruct t; unfold load_private, key_errors, keyring_of_file, rsa_keyring_of_file in Hl; cbn in Hl;
    apply result_bind_ok in Hl as (ring & Hr & _);
    destruct (load_ring _ _ _ _ _ _ _) as [r|] eqn:Hload; try done;
    apply load_ring_spec in Hload as (v & input & Hv & Hi%deserialize_version & (Hversion & _) & _);
    rewrite Hv in Hd; injection Hd as ->; by rewrite Hi, Hversion.
Qed.
Lemma document_type_of t document :
  (get_field document "version" ≫= as_str) = Some (version t) -> document_type document = t.
Proof. intros Hv. unfold document_type. rewrite Hv. by destruct t. Qed.
Lemma set_field_other document n m v : n <> m -> get_field (set_field document n v) m = get_field document m.
Proof.
  intros Hn. destruct document as [| | | | |fields]; try done. unfold get_field, set_field. cbn.
  by rewrite lookup_insert_ne.
Qed.
Lemma change_type action kid document document' :
  change_of action kid document document' -> get_field document' "version" = get_field document "version".
Proof.
  intros (keys & _ & H). destruct action; try done.
  - destruct H as (_ & key & _ & ->). by apply set_field_other.
  - destruct H as [_ ->]. by apply set_field_other.
  - destruct H as (_ & _ & ->). by apply set_field_other.
Qed.

(** ** Commands *)
(** What a successful command has done. *)
Definition generated (t : KeyType) (kid : string) (w w' : FS) : Prop :=
  w !! target = None /\ exists key, key_is key kid = true
  /\ installed t (document_text (object [("version", VString (version t)); ("current_kid", VString kid);
                                         ("keys", VArray [key])])) w w'.
Definition changed (action : Action) (t : KeyType) (kid : string) (w w' : FS) : Prop :=
  exists contents document document', private_keyring t w target contents /\ parse_json contents = Some document
  /\ change_of action kid document document' /\ installed t (document_text document') w w'.
Definition effect (action : Action) (t : KeyType) (kid : option string) (w w' : FS) : Prop :=
  match action with
  | Generate => exists k, kid = Some k /\ generated t k w w'
  | Validate => w' = w /\ exists contents, private_keyring t w target contents
  | _ => exists k, kid = Some k /\ changed action t k w w'
  end.
Definition action_result (action : Action) (t : KeyType) (kid : option string) (w : FS) (r : result string ()) (w' : FS) : Prop :=
  match r with Ok _ => effect action t kid w w' | Err _ => w' = w \/ left_over w w' end.

(** A step that does nothing to the files. *)
Lemma ensures_pure {E A B} (r : result E A) (f : A -> tool (result E B)) w I R :
  I w -> (forall a, r = Ok a -> ensures target (f a) w I R) -> (forall e, R (Err e) w) ->
  ensures target (try_bind (mret r) f) w I R.
Proof. intros Hi Hf He. destruct r as [a|e]; [by apply Hf|]. apply ensures_ret; [done|apply He]. Qed.
Lemma generate_spec t kid days w :
  ensures target (generate target t kid days) w (crash_safe w) (action_result Generate t kid w).
Proof.
  unfold generate. eapply (ensures_call _ _ _ _ _ (fun x w' => w' = w /\ (is_ok x = false -> w !! target = None))).
  { apply ensures_trigger; [by left|]. intros x w' [-> Hx]. split; [by left|]. split; [done|].
    destruct (w !! target); [by subst x|done]. }
  intros x w' _ [-> Hx]. destruct (is_ok x); [apply ensures_ret; by left|].
  apply ensures_pure; [by left| |by left]. intros k Hk%ok_or_ok.
  apply ensures_pure; [by left| |by left]. intros d _.
  eapply ensures_try; [apply new_key_spec; by left| |intros e w' _ [-> _]; by left].
  intros key w' _ [-> Hkey]. eapply ensures_mono; [apply write_private_spec|].
  intros [[]|e] w' _ Hw; [|done]. destruct Hw as [Hin Hnone]. exists k. split; [done|]. split; [by apply Hnone|].
  exists key. split; [by apply bool_decide_eq_true, Hkey|]. by rewrite (document_type_of t) in Hin.
Qed.
Lemma change_spec action t kid days w : action = Add \/ action = Activate \/ action = Retire ->
  ensures target (change action target t kid days) w (crash_safe w) (action_result action t kid w).
Proof.
  intros Ha. unfold change.
  eapply ensures_try; [apply validate_private_spec; by left| |intros e w' _ [-> _]; by left].
  intros [] w' _ [-> Hv]. destruct (Hv eq_refl) as (contents & Hp). pose proof Hp as (m & now & Hc & _ & Hl).
  eapply (ensures_try _ _ _ _ _ (fun r w' => w' = w /\ forall c, r = Ok c -> c = contents)).
  { apply ensures_trigger; [by left|]. intros x w' [-> Hx]. split; [by left|]. split; [done|].
    intros c ->. destruct (Hx c eq_refl) as [m' Hc']. congruence. }
  2:{ intros e w' _ [-> _]. by left. }
  intros c w' _ [-> Hcc]. specialize (Hcc c eq_refl) as ->.
  apply ensures_pure; [by left| |by left]. intros document Hd%ok_or_ok.
  apply ensures_pure; [by left| |by left]. intros keys Hkeys.
  apply ensures_pure; [by left| |by left]. intros k Hk%ok_or_ok.
  eapply ensures_try; [by apply edit_spec; [by left|..]| |intros e w' _ [-> _]; by left].
  intros document' w' _ [-> Hch]. specialize (Hch document' eq_refl).
  eapply ensures_mono; [apply write_private_spec|]. intros [[]|e] w' _ Hw; [|done]. destruct Hw as [Hin _].
  assert (document_type document' = t) as Ht.
  { apply document_type_of. rewrite (change_type _ _ _ _ Hch). by eapply load_version. }
  rewrite Ht in Hin. assert (effect action t kid w w'); [|done].
  assert (changed action t k w w') as Hcd by by exists contents, document, document'.
  destruct Ha as [->|[->| ->]]; by exists k.
Qed.
Lemma perform_action_spec action t kid days w :
  ensures target (perform_action action target t kid days) w (crash_safe w) (action_result action t kid w).
Proof.
  destruct action; [apply generate_spec| |apply change_spec; auto..].
  eapply ensures_mono; [apply validate_private_spec; by left|]. intros [[]|e] w' _ [-> Hv]; [|by left].
  split; [done|]. by apply Hv.
Qed.
Lemma export_spec w :
  ensures target (export_jwks target) w (crash_safe w) (fun _ w' => w' = w).
Proof.
  assert (forall X (e : tool_event X), (forall x w', tool_step target e w x w' -> w' = w) ->
    ensures target (trigger e) w (crash_safe w) (fun _ w' => w' = w)) as Ht.
  { intros X e He. apply ensures_trigger; [by left|]. intros x w' ->%He. split; [by left|done]. }
  unfold export_jwks. eapply (ensures_try _ _ _ _ _ (fun _ w' => w' = w)); [| |by intros e w' _ ->].
  { unfold validate_private_metadata. eapply ensures_try; [apply Ht; by intros x w' [-> _]| |by intros e w' _ ->].
    intros m w' _ ->. apply ensures_ret; [by left|done]. }
  intros [] w' _ ->. eapply ensures_try; [apply Ht; by intros x w' [-> _]| |by intros e w' _ ->].
  intros contents w' _ ->. apply ensures_pure; [by left| |done]. intros document _.
  apply ensures_pure; [by left| |done]. intros v _.
  eapply (ensures_try _ _ _ _ _ (fun _ w' => w' = w)); [| |by intros e w' _ ->].
  - repeat case_decide; [| |apply ensures_ret; [by left|done]];
      (eapply ensures_call; [apply Ht; by intros x w' ->|]; intros now w' _ ->);
      (eapply ensures_call; [apply Ht; by intros x w' [-> _]|]; intros file w' _ ->; apply ensures_ret; [by left|done]).
  - intros keys w' _ ->. eapply ensures_try; [apply Ht; by intros x w' ->| |by intros e w' _ ->].
    intros [] w' _ ->. apply Ht. by intros x w' ->.
Qed.

Definition kid_accepted (kid : option string) : Prop :=
  match kid with Some kid => validate_kid kid = Ok () | None => True end.
(** What the command line asks for. *)
Definition tool_result (command : string) (rest : list string) (w : FS) (r : result string ()) (w' : FS) : Prop :=
  match r with
  | Ok _ =>
      (command = "export-jwks" /\ w' = w)
      \/ exists action t, command = action_text action +:+ "-" +:+ key_type_text t
         /\ kid_accepted (head rest) /\ effect action t (head rest) w w'
  | Err _ => w' = w \/ left_over w w'
  end.
Lemma action_of_text text action : action_of text = Some action -> text = action_text action.
Proof. unfold action_of. intros H. repeat case_decide; by simplify_eq. Qed.
Lemma key_type_of_text text t : key_type_of text = Some t -> text = key_type_text t.
Proof. unfold key_type_of. intros H. repeat case_decide; by simplify_eq. Qed.
Lemma parse_options_kid action command rest kid days :
  parse_options action (command :: target :: rest) = Ok (kid, days) -> kid = head rest.
Proof.
  unfold parse_options. destruct action as [[]|], rest as [|k [|flag [|d [|]]]]; try done; try (by intros [= <- _]).
  - case_decide; [|done]. by intros (? & _ & [= <- _])%result_bind_ok.
  - case_decide; [|done]. by intros (? & _ & [= <- _])%result_bind_ok.
Qed.
Lemma run_tool_spec command rest w :
  ensures target (run_tool (command :: target :: rest)) w (crash_safe w) (tool_result command rest w).
Proof.
  cbn [run_tool]. case_decide as Hexport.
  { case_decide; [|apply ensures_ret; by left].
    eapply ensures_mono; [apply export_spec|]. intros [[]|e] w' _ ->; left; done. }
  apply ensures_pure; [by left| |by left]. intros [action_name algorithm] Hc%ok_or_ok%rsplit_once_Some.
  apply ensures_pure; [by left| |by left]. intros t Ht%ok_or_ok%key_type_of_text. cbv zeta.
  apply ensures_pure; [by left| |by left]. intros [kid days] Hkid%parse_options_kid.
  apply ensures_pure; [by left| |by left]. intros [] Hv.
  apply ensures_pure; [by left| |by left]. intros action Ha%ok_or_ok%action_of_text.
  eapply ensures_try; [apply perform_action_spec| |by intros e w' _ Hw].
  intros [] w' Hi Hw. eapply (ensures_call _ _ _ _ _ (fun _ w'' => w'' = w')).
  { apply ensures_trigger; [done|]. by intros x w'' ->. }
  intros x w'' _ ->. apply ensures_ret; [done|]. right. exists action, t.
  rewrite <- Hkid, <- Ha, <- Ht. destruct Hc as [Hc _]. split_and!; [exact Hc| |exact Hw]. by destruct kid.
Qed.
End tool.

Section theorems.
Context `{serde : SerdeJson, chrono : Chrono, b64 : Base64, p256 : P256, rsa : Rsa}.
Context (command target : string) (rest : list string).

(** C36: whichever operation fails, and wherever the tool is interrupted, its
    keyring is the file it was or a new file that is complete, of mode 0600 and
    loads as a keyring; and besides at most one temporary file, whose name was
    free, no other file is created, changed or removed. *)
Theorem keyring_tool_crash_safe w p w' :
  rtc (fs_step target) (run_tool (command :: target :: rest), w) (p, w') -> crash_safe target w w'.
Proof. intros Hr. by destruct (ensures_reachable _ _ _ _ _ _ _ (run_tool_spec target command rest w) Hr) as [Hi _]. Qed.

(** C37: a command that succeeds has done exactly what it says: a generated keyring
    is new and has the one key; an addition appends a key under a new ID, an
    activation names a key that is present, a retirement drops a key that is not
    the current one, and nothing else of the document changes; a validation and an
    export change nothing.  A command that fails leaves the keyring as it was. *)
Theorem keyring_tool_effect w r w' :
  rtc (fs_step target) (run_tool (command :: target :: rest), w) (Ret r, w') -> tool_result target command rest w r w'.
Proof. intros Hr. destruct (ensures_reachable _ _ _ _ _ _ _ (run_tool_spec target command rest w) Hr) as [_ Hq]. by apply Hq. Qed.
End theorems.

(** ** An execution *)
Section executor.
Context `{p256 : P256, rsa : Rsa} (target : string) (now : datetime) (secret : SecretKey) (key : RsaPrivateKey).
(** A file system in which nothing fails. *)
Definition tool_handle {X} (e : tool_event X) (w : FS) : X * FS :=
  match e in tool_event X return X * FS with
  | SymlinkMetadata p => (match w !! p with Some n => Ok (metadata_of n) | None => Err "No such file" end, w)
  | IsDir _ => (true, w)
  | Read p => (match w !! p with Some (Regular c _) => Ok c | _ => Err "No such file" end, w)
  | CreateNew p m => match w !! p with Some _ => (Err "File exists", w) | None => (Ok (), <[p := Regular "" m]> w) end
  | WriteAll p c => match w !! p with
                    | Some (Regular old m) => (Ok (), <[p := Regular (old +:+ c) m]> w)
                    | _ => (Err "Bad file descriptor", w)
                    end
  | SyncAll _ => (Ok (), w)
  | Rename a b => match w !! a with Some n => (Ok (), <[b := n]> (delete a w)) | None => (Err "No such file", w) end
  | RemoveFile p => (Ok (), delete p w)
  | Now => (now, w)
  | Uuid => ("00000000-0000-4000-8000-000000000000", w)
  | RandomSecretKey => (secret, w)
  | RandomRsaKey => (Ok key, w)
  | PrintOut _ => (Ok (), w)
  | PrintErr _ => ((), w)
  end.
(** Whether the file system answers the event as [tool_step] says. *)
Definition answerable {X} (e : tool_event X) (w : FS) : bool :=
  match e with
  | WriteAll p _ => match w !! p with Some (Regular _ _) => true | _ => false end
  | Uuid => let temp := temp_path target "00000000-0000-4000-8000-000000000000" in
            bool_decide (temp <> target) && bool_decide (w !! temp = None)
  | _ => true
  end.
Lemma handle_step {X} (e : tool_event X) w :
  answerable e w = true -> tool_step target e w (tool_handle e w).1 (tool_handle e w).2.
Proof.
  destruct e; cbn; try done.
  - intros _. split; [done|]. destruct (w !! path); [done|]. by eexists.
  - intros _. split; [done|]. intros c. destruct (w !! path) as [[c' m|]|]; try done. intros [= <-]. by eexists.
  - intros _. destruct (w !! path) eqn:Hp; cbn; [done|]. split; [done|]. by eexists.
  - destruct (w !! path) as [[old m|]|]; try done. intros _. by exists old, m, contents.
  - intros _. destruct (w !! from) as [n|]; cbn; [by exists n|done].
  - intros [Hn Hu]%andb_prop. apply bool_decide_eq_true in Hn, Hu. done.
Qed.
Fixpoint checked_run {A} (p : tool A) (w : FS) : option (A * FS) :=
  match p with
  | Ret a => Some (a, w)
  | Vis e k => if answerable e w then let '(x, w') := tool_handle e w in checked_run (k x) w' else None
  end.
Lemma checked_run_steps {A} (p : tool A) w a w' :
  checked_run p w = Some (a, w') -> rtc (fs_step target) (p, w) (Ret a, w').
Proof.
  revert w. induction p as [b|X e k IH]; intros w; cbn; [intros [= <- <-]; apply rtc_refl|].
  destruct (answerable e w) eqn:He; [|done]. pose proof (handle_step e w He) as Hs.
  destruct (tool_handle e w) as [x w1]. intros Hr. eapply rtc_l; [by constructor|]. by apply IH.
Qed.
End executor.

(** Retiring [k1] of a keyring whose current key is [k2]. *)
Definition old_document : Value :=
  object [("version", VString KEYRING_VERSION); ("current_kid", VString "k2");
          ("keys", VArray [sample_key "k1" "0" "8000000000000"; sample_key "k2" "0" "9000000000000"])].
Definition new_document : Value :=
  object [("version", VString KEYRING_VERSION); ("current_kid", VString "k2");
          ("keys", VArray [sample_key "k2" "0" "9000000000000"])].
#[local] Instance tool_serde : SerdeJson :=
  concrete_serde {["old" := old_document; "document" +:+ line_end := new_document]}.
Definition old_files : FS := {["/keys/ring" := Regular "old" 384%Z; "/keys/other" := Regular "other" 420]}.
Definition new_files : FS := {["/keys/ring" := Regular ("document" +:+ line_end) 384; "/keys/other" := Regular "other" 420]}.
Lemma retire_steps :
  rtc (fs_step "/keys/ring") (run_tool ["retire-es256"; "/keys/ring"; "k1"], old_files) (Ret (Ok ()), new_files).
Proof.
  apply (checked_run_steps (p256 := concrete_p256) (rsa := concrete_rsa) _ 5000000000000%Z [1%N] "rsa").
  vm_cast_no_check (@eq_refl (option (result string () * FS)) (Some (Ok (), new_files))).
Qed.
Lemma keyring_tool_crash_safe_witness : crash_safe "/keys/ring" old_files new_files.
Proof. exact (keyring_tool_crash_safe "retire-es256" "/keys/ring" ["k1"] old_files _ new_files retire_steps). Defined.
Lemma keyring_tool_effect_witness :
  exists action t, action = Retire /\ effect "/keys/ring" action t (Some "k1") old_files new_files.
Proof.
  destruct (keyring_tool_effect "retire-es256" "/keys/ring" ["k1"] old_files _ new_files retire_steps)
    as [[Hc _]|(action & t & Hc & _ & He)]; [done|].
  exists action, t. split; [|exact He]. destruct action, t; done.
Defined.
