(* ===== verification/Config.v ===== *)
(** * Configuration (config.rs)

    The process configuration from the environment: every variable with its
    default, its check and its error, in the order the source evaluates them. *)
From Stdlib Require Import Ascii.
From S2P Require Import Prelude Text Prog Libs State Constants Concrete.
From S2P Require Github.

(** [env::var]. *)
Inductive VarError := NotPresent | NotUnicode.
Definition environment := string -> result VarError string.
(** [parse] at [SocketAddr]. *)
Class SocketAddrLib := {
  SocketAddr : Type;
  SocketAddr_eq_dec :: EqDecision SocketAddr;
  parse_socket_addr : string -> option SocketAddr;
}.

Inductive ConfigError :=
| Missing (name : string)
| InvalidIssuer
| InvalidOutputAudience
| InvalidGitHubExchangeAudience
| InvalidExpectedPolicyVersion
| InvalidListenAddress
| InvalidKeyExpiryReadinessThreshold
| InvalidGitHubJwksMaxStaleness
| InvalidWorkloadListenAddress
| ConflictingListenAddresses
| InvalidWorkloadEnabled
| InvalidGenericOidcEnabled
| InvalidWorkloadOutputAudience
| InvalidBrowserHop1Enabled
| BrowserHop1RequiresWorkload
| InvalidBrowserHop1StewardIssuer
| InvalidBrowserHop1OutputAudience.
#[export] Instance ConfigError_eq_dec : EqDecision ConfigError.
Proof. solve_decision. Defined.

Record GenericOidcConfig := { oidc_policy_file : string; additional_ca_file : option string }.
Record BrowserHop1Config := {
  steward_issuer : string;
  assertion_audience : string;
  steward_jwks_file : string;
  browser_config_output_audience : string;
}.

Definition valid_exchange_audience (value : string) : bool :=
  negb (is_empty value) && bool_decide (len value <= 255) && bytes_all is_ascii_graphic value.
Definition valid_github_jwks_max_staleness (seconds : Z) : bool := bool_decide (600 <= seconds <= 604800)%Z.
Definition supported_policy_version (value : string) : bool :=
  bool_decide (value = POLICY_VERSION) || bool_decide (value = SOURCE_AUTH_POLICY_VERSION).
(** [filter] on the parsed number. *)
Definition in_range (bounds : Z -> bool) (seconds : Z) : option Z := if bounds seconds then Some seconds else None.

Section config.
Context `{!UrlLib, !SocketAddrLib}.
Record WorkloadConfig := {
  workload_listen_address : SocketAddr;
  workload_input_audience : string;
  workload_config_output_audience : string;
  workload_policy_file : string;
  rsa_keyring_file : string;
  tls_certificate_file : string;
  tls_private_key_file : string;
}.
Record Config := {
  issuer_url : string;
  github_exchange_audience : string;
  expected_policy_version : string;
  config_output_audience : string;
  policy_file : string;
  keyring_file : string;
  replay_lease_namespace : string;
  listen_address : SocketAddr;
  config_token_ttl : Z;                    (** [Duration]s, in nanoseconds *)
  key_expiry_readiness_threshold : Z;
  github_jwks_max_staleness : Z;
  generic_oidc : option GenericOidcConfig;
  workload : option WorkloadConfig;
  browser_hop1 : option BrowserHop1Config;
}.

Definition valid_https_url (value : string) : bool :=
  match url_parse value with
  | Some parsed =>
      bool_decide (scheme parsed = "https") && bool_decide (is_Some (host_str parsed))
      && is_empty (username parsed) && bool_decide (password parsed = None)
      && bool_decide (query parsed = None) && bool_decide (fragment parsed = None)
  | None => false
  end.
Definition valid_issuer_url (value : string) : bool :=
  match split_once "://" value with
  | None => false
  | Some (_, authority) =>
      negb (contains_char authority "/") && bool_decide (len value <= 2048) && valid_https_url value
  end.

Context (env : environment).
Definition var_or (name default : string) : string :=
  match env name with Ok value => value | Err _ => default end.
Definition required (name : string) : result ConfigError string :=
  match env name with
  | Ok value => let value := trim value in if is_empty value then Err (Missing name) else Ok value
  | Err _ => Err (Missing name)
  end.
(** The boolean switches. *)
Definition enabled (name : string) (invalid : ConfigError) : result ConfigError bool :=
  match env name with
  | Ok value => if decide (value = "true") then Ok true
                else if decide (value = "false") then Ok false else Err invalid
  | Err NotPresent => Ok false
  | Err NotUnicode => Err invalid
  end.

Definition workload_from_env (public_listen_address : SocketAddr) : result ConfigError (option WorkloadConfig) :=
  workload_enabled ← enabled "WORKLOAD_EXCHANGE_ENABLED" InvalidWorkloadEnabled;
  workload ←
    (if workload_enabled : bool then
       output_audience ← required "WORKLOAD_OUTPUT_AUDIENCE";
       _ ← reject_if (bool_decide (output_audience <> "openshell-api")) InvalidWorkloadOutputAudience;
       listen_address ← ok_or InvalidWorkloadListenAddress
                          (parse_socket_addr (var_or "WORKLOAD_LISTEN_ADDRESS" "0.0.0.0:8443"));
       input_audience ← required "WORKLOAD_INPUT_AUDIENCE";
       policy_file ← required "WORKLOAD_POLICY_FILE";
       rsa_keyring_file ← required "WORKLOAD_RSA_KEYRING_FILE";
       tls_certificate_file ← required "TLS_CERTIFICATE_FILE";
       tls_private_key_file ← required "TLS_PRIVATE_KEY_FILE";
       Ok (Some {| workload_listen_address := listen_address; workload_input_audience := input_audience;
                   workload_config_output_audience := output_audience; workload_policy_file := policy_file;
                   rsa_keyring_file := rsa_keyring_file; tls_certificate_file := tls_certificate_file;
                   tls_private_key_file := tls_private_key_file |})
     else Ok None);
  _ ← reject_if (match workload with
                 | Some w => bool_decide (workload_listen_address w = public_listen_address)
                 | None => false
                 end) ConflictingListenAddresses;
  Ok workload.

Definition browser_from_env (workload_enabled : bool) : result ConfigError (option BrowserHop1Config) :=
  enabled ← enabled "BROWSER_HOP1_ENABLED" InvalidBrowserHop1Enabled;
  if negb enabled then Ok None else
  _ ← reject_if (negb workload_enabled) BrowserHop1RequiresWorkload;
  issuer ← required "BROWSER_HOP1_STEWARD_ISSUER";
  let steward_issuer := trim_end_matches "/" issuer in
  _ ← reject_if (negb (valid_https_url steward_issuer)) InvalidBrowserHop1StewardIssuer;
  output_audience ← required "BROWSER_HOP1_OUTPUT_AUDIENCE";
  _ ← reject_if (negb (valid_https_url output_audience)) InvalidBrowserHop1OutputAudience;
  assertion_audience ← required "BROWSER_HOP1_ASSERTION_AUDIENCE";
  steward_jwks_file ← required "BROWSER_HOP1_STEWARD_JWKS_FILE";
  Ok (Some {| steward_issuer := steward_issuer; assertion_audience := assertion_audience;
              steward_jwks_file := steward_jwks_file; browser_config_output_audience := output_audience |}).

Definition generic_oidc_from_env : result ConfigError (option GenericOidcConfig) :=
  enabled ← enabled "GENERIC_OIDC_ENABLED" InvalidGenericOidcEnabled;
  if negb enabled then Ok None else
  policy_file ← required "GENERIC_OIDC_POLICY_FILE";
  Ok (Some {| oidc_policy_file := policy_file;
              additional_ca_file := match required "GENERIC_OIDC_ADDITIONAL_CA_FILE" with
                                    | Ok file => Some file | Err _ => None end |}).

Definition from_env : result ConfigError Config :=
  issuer ← required "ISSUER_URL";
  let issuer_url := default issuer (strip_suffix "/" issuer) in
  _ ← reject_if (negb (valid_issuer_url issuer_url)) InvalidIssuer;
  output_audience ← required "OUTPUT_AUDIENCE";
  _ ← reject_if (bool_decide (output_audience <> "steward-task-api")) InvalidOutputAudience;
  listen_address ← ok_or InvalidListenAddress (parse_socket_addr (var_or "LISTEN_ADDRESS" "0.0.0.0:8080"));
  workload ← workload_from_env listen_address;
  browser_hop1 ← browser_from_env (bool_decide (is_Some workload));
  generic_oidc ← generic_oidc_from_env;
  github_exchange_audience ← required "GITHUB_EXCHANGE_AUDIENCE";
  _ ← reject_if (negb (valid_exchange_audience github_exchange_audience)) InvalidGitHubExchangeAudience;
  let expected_policy_version := var_or "EXPECTED_POLICY_VERSION" POLICY_VERSION in
  _ ← reject_if (negb (supported_policy_version expected_policy_version)) InvalidExpectedPolicyVersion;
  threshold ← ok_or InvalidKeyExpiryReadinessThreshold
    (parse_uint u64_max (var_or "KEY_EXPIRY_READINESS_THRESHOLD_SECONDS" "604800")
     ≫= in_range (fun seconds => bool_decide (120 <= seconds <= 31536000)%Z));
  staleness ← ok_or InvalidGitHubJwksMaxStaleness
    (parse_uint u64_max (var_or "GITHUB_JWKS_MAX_STALENESS_SECONDS"
                           (decimal Github.DEFAULT_JWKS_MAX_STALENESS_SECONDS))
     ≫= in_range valid_github_jwks_max_staleness);
  policy_file ← required "POLICY_FILE";
  keyring_file ← required "KEYRING_FILE";
  replay_lease_namespace ← required "REPLAY_LEASE_NAMESPACE";
  Ok {| issuer_url := issuer_url; github_exchange_audience := github_exchange_audience;
        expected_policy_version := expected_policy_version; config_output_audience := output_audience;
        policy_file := policy_file; keyring_file := keyring_file;
        replay_lease_namespace := replay_lease_namespace; listen_address := listen_address;
        config_token_ttl := (120 * ns_per_s)%Z;
        key_expiry_readiness_threshold := (threshold * ns_per_s)%Z;
        github_jwks_max_staleness := (staleness * ns_per_s)%Z;
        generic_oidc := generic_oidc; workload := workload; browser_hop1 := browser_hop1 |}.
End config.

(** ** What a configuration guarantees *)
Section theorems.
Context `{url : UrlLib, addr : SocketAddrLib}.
Context (env : environment).

Definition switched_on (name : string) : Prop := env name = Ok "true".
Record config_valid (c : Config) : Prop := {
  config_issuer : valid_issuer_url (issuer_url c) = true
    /\ exists issuer, required env "ISSUER_URL" = Ok issuer
       /\ (issuer = issuer_url c \/ issuer = issuer_url c +:+ "/");
  config_audiences : config_output_audience c = "steward-task-api"
    /\ valid_exchange_audience (github_exchange_audience c) = true;
  config_policy_version : expected_policy_version c = POLICY_VERSION
    \/ expected_policy_version c = SOURCE_AUTH_POLICY_VERSION;
  config_ttl : as_secs (config_token_ttl c) = 120%Z;
  config_threshold : (120 <= as_secs (key_expiry_readiness_threshold c) <= 31536000)%Z;
  config_staleness : (600 <= as_secs (github_jwks_max_staleness c) <= 604800)%Z;
  config_required : policy_file c <> "" /\ keyring_file c <> "" /\ replay_lease_namespace c <> "";
  config_workload : (is_Some (workload c) <-> switched_on "WORKLOAD_EXCHANGE_ENABLED")
    /\ forall w, workload c = Some w -> workload_listen_address w <> listen_address c
       /\ workload_config_output_audience w = "openshell-api";
  config_oidc : is_Some (generic_oidc c) <-> switched_on "GENERIC_OIDC_ENABLED";
  config_browser : (is_Some (browser_hop1 c) <-> switched_on "BROWSER_HOP1_ENABLED")
    /\ forall b, browser_hop1 c = Some b -> is_Some (workload c)
       /\ valid_https_url (steward_issuer b) = true
       /\ valid_https_url (browser_config_output_audience b) = true
       /\ ends_with (steward_issuer b) "/" = false;
}.

Lemma enabled_spec name e b : enabled env name e = Ok b -> (b = true <-> switched_on name).
Proof.
  unfold enabled, switched_on. destruct (env name) as [v|[]]; [|intros [= <-]; naive_solver|done].
  repeat case_decide; intros Hb; simplify_eq; naive_solver.
Qed.
Lemma required_nonempty name v : required env name = Ok v -> v <> "".
Proof.
  unfold required. destruct (env name) as [x|]; [|done]. cbn zeta.
  destruct (is_empty (trim x)) eqn:He; [done|]. intros [= <-]. by apply is_empty_false.
Qed.
Lemma in_range_Some f z s : in_range f z = Some s <-> s = z /\ f z = true.
Proof. unfold in_range. destruct (f z); naive_solver. Qed.
Lemma as_secs_seconds s : as_secs (s * ns_per_s) = s.
Proof. unfold as_secs, ns_per_s. by rewrite Z.div_mul. Qed.

Lemma workload_from_env_spec address w :
  workload_from_env env address = Ok w ->
  (is_Some w <-> switched_on "WORKLOAD_EXCHANGE_ENABLED")
  /\ forall w', w = Some w' -> workload_listen_address w' <> address
     /\ workload_config_output_audience w' = "openshell-api".
Proof.
  unfold workload_from_env. intros H. apply result_bind_ok in H as (b & Hb%enabled_spec & H).
  apply result_bind_ok in H as (w' & Hw & H). apply result_bind_ok in H as ([] & Hc & [= <-]).
  destruct b.
  - apply result_bind_ok in Hw as (a & _ & Hw). apply result_bind_ok in Hw as ([] & Ha & Hw).
    result_simpl. apply dec_stable in Ha. split; [split; [naive_solver|by eexists]|].
    by intros w'' [= <-].
  - injection Hw as <-. split; [|done]. split; [by intros []|]. intros Hs. by apply Hb in Hs.
Qed.
Lemma browser_from_env_spec on b :
  browser_from_env env on = Ok b ->
  (is_Some b <-> switched_on "BROWSER_HOP1_ENABLED")
  /\ forall b', b = Some b' -> on = true /\ valid_https_url (steward_issuer b') = true
     /\ valid_https_url (browser_config_output_audience b') = true
     /\ exists issuer, steward_issuer b' = trim_end_matches "/" issuer.
Proof.
  unfold browser_from_env. intros H. apply result_bind_ok in H as (e & He%enabled_spec & H). destruct e; cbn in H.
  - result_simpl. split; [split; [naive_solver|by eexists]|]. intros b' [= <-]. split_and!; try done. by eexists.
  - injection H as <-. split; [|done]. split; [by intros []|]. intros Hs. by apply He in Hs.
Qed.
Lemma generic_oidc_from_env_spec o :
  generic_oidc_from_env env = Ok o -> is_Some o <-> switched_on "GENERIC_OIDC_ENABLED".
Proof.
  unfold generic_oidc_from_env. intros H. apply result_bind_ok in H as (e & He%enabled_spec & H). destruct e; cbn in H.
  - result_simpl. split; [naive_solver|by eexists].
  - injection H as <-. split; [by intros []|]. intros Hs. by apply He in Hs.
Qed.
Lemma trim_end_no_slash c s : ends_with (trim_end_matches c s) (String c "") = false.
Proof.
  apply not_true_is_false. rewrite ends_with_true. intros [r Hr].
  assert (forall s r, trim_end_matches c s <> r +:+ String c "") as G; [|by eapply G].
  clear s r Hr. intros s. induction s as [|a s IH]; intros r; cbn; [by destruct r|].
  destruct (trim_end_matches c s) as [|a' t].
  - case_decide; [by destruct r|]. destruct r as [|b r]; [rewrite app_nil_l; congruence|]. rewrite app_cons. intros [= _ Hr]. by destruct r.

  - destruct r as [|b r]; [done|]. rewrite app_cons. intros [= -> Heq]. by apply (IH r).
Qed.

(** C39: every configuration the environment yields has an HTTPS origin as issuer,
    the fixed output audiences, a supported policy version, a token lifetime of
    120 seconds and bounds within their documented ranges; an optional part is
    present exactly when its switch is on, the workload listener has its own
    address, and the browser exchange needs the workload exchange. *)
Theorem configuration_sound c : from_env env = Ok c -> config_valid c.
Proof.
  unfold from_env. intros H.
  apply result_bind_ok in H as (issuer & Hissuer & H). apply result_bind_ok in H as ([] & Hurl & H).
  apply result_bind_ok in H as (out & _ & H). apply result_bind_ok in H as ([] & Hout & H).
  apply result_bind_ok in H as (address & _ & H). apply result_bind_ok in H as (w & Hw%workload_from_env_spec & H).
  apply result_bind_ok in H as (b & Hb%browser_from_env_spec & H).
  apply result_bind_ok in H as (o & Ho%generic_oidc_from_env_spec & H).
  apply result_bind_ok in H as (aud & _ & H). apply result_bind_ok in H as ([] & Haud & H).
  apply result_bind_ok in H as ([] & Hver & H).
  apply result_bind_ok in H as (th & Hth%ok_or_ok & H). apply result_bind_ok in H as (st & Hst%ok_or_ok & H).
  apply result_bind_ok in H as (pf & Hpf%required_nonempty & H).
  apply result_bind_ok in H as (kf & Hkf%required_nonempty & H).
  apply result_bind_ok in H as (ns & Hns%required_nonempty & [= <-]).
  apply bind_Some in Hth as (z1 & _ & [-> Hth]%in_range_Some). apply bind_Some in Hst as (z2 & _ & [-> Hst]%in_range_Some).
  unfold supported_policy_version, valid_github_jwks_max_staleness in *. result_simpl.
  apply dec_stable in Hout. apply orb_true_iff in Hver. rewrite !bool_decide_eq_true in Hver.
  split; cbn [issuer_url github_exchange_audience expected_policy_version config_output_audience policy_file
    keyring_file replay_lease_namespace listen_address config_token_ttl key_expiry_readiness_threshold
    github_jwks_max_staleness generic_oidc workload browser_hop1]; rewrite ?as_secs_seconds; try done.
  - split; [done|]. exists issuer. split; [done|]. destruct (strip_suffix "/" issuer) as [r|] eqn:Hr; cbn; [|by left].
    right. by apply strip_suffix_Some in Hr.
  - split; [apply Hb|]. intros b' Hb'. destruct Hb as [_ Hb]. destruct (Hb b' Hb') as (Hon & ? & ? & issuer' & Hi).
    split_and!; try done; [by apply bool_decide_eq_true in Hon|]. rewrite Hi. apply trim_end_no_slash.
Qed.
End theorems.

(** ** A configuration *)
#[local] Instance sample_addr : SocketAddrLib := {| SocketAddr := string; parse_socket_addr s := Some s |}.
Definition sample_environment : environment := fun name =>
  match list_to_map (M := gmap string string) [
    ("ISSUER_URL", "https://exchange.example/"); ("OUTPUT_AUDIENCE", "steward-task-api");
    ("GITHUB_EXCHANGE_AUDIENCE", "exchange"); ("POLICY_FILE", "/policy"); ("KEYRING_FILE", "/keyring");
    ("REPLAY_LEASE_NAMESPACE", "identity")] !! name with
  | Some value => Ok value | None => Err NotPresent end.
Lemma configuration_sound_witness :
  exists c, from_env sample_environment = Ok c /\ issuer_url c = "https://exchange.example" /\ workload c = None
  /\ config_valid sample_environment c.
Proof.
  destruct (from_env sample_environment) as [c|e] eqn:Hc; [|by vm_compute in Hc].
  exists c. split; [done|]. pose proof (configuration_sound sample_environment c Hc) as Hv.
  vm_compute in Hc. injection Hc as <-. by split_and!.
Defined.
