(* ===== verification/Http.v ===== *)
(** * The HTTP interface (http.rs)

    The handlers as programs from a request to a response, and the routers as the
    tables of routes and layers the builder calls make. *)
From Stdlib Require Import Ascii.
From S2P Require Import Prelude Text Prog Libs State Constants Concrete Replay Simulator ReplaySafety Exchange Keys.
From S2P Require Github Service WorkloadPolicy Workload OidcPolicy Oidc OidcExchange BrowserHop1.

(** ** Requests and responses *)
(** [header_text]: the first header of a name, when its value is text. *)
Record Request := { header_text : string -> option string; body : string }.
Inductive ResponseBody := NoBody | JsonBody (v : Value) | TextBody (text : string).
Record Response := {
  status : Z;
  response_body : ResponseBody;
  cache_control : option string;
}.
Definition status_response (code : Z) : Response :=
  {| status := code; response_body := NoBody; cache_control := None |}.
Definition json_response (v : Value) : Response :=
  {| status := 200; response_body := JsonBody v; cache_control := None |}.
Definition oauth_error (code : Z) (error : string) : Response := {|
  status := code; response_body := JsonBody (object [("error", VString error)]);
  cache_control := Some "no-store" |}.
Definition token_response (token : string) (expires_in : Z) : Response := {|
  status := 200;
  response_body := JsonBody (object [("access_token", VString token); ("token_type", VString "Bearer");
                                     ("expires_in", num expires_in)]);
  cache_control := Some "no-store" |}.
Definition readiness_response (failed_checks : list string) : Response :=
  match failed_checks with
  | [] => status_response 204
  | _ => {| status := 503;
            response_body := JsonBody (object [("status", VString "not_ready");
                                               ("failed_checks", str_list failed_checks)]);
            cache_control := None |}
  end.

Definition bearer_assertion (request : Request) : option string :=
  value ← header_text request "authorization";
  value ← strip_prefix "Bearer " value;
  let value := trim value in
  if is_empty value then None else Some value.

(** [str::from_utf8]: the ranges of the continuation bytes still expected. *)
Definition utf8_step (expected : list (N * N)) (b : N) : option (list (N * N)) :=
  let c := (128, 191)%N in
  match expected with
  | (low, high) :: rest => if bool_decide (low <= b <= high)%N then Some rest else None
  | [] =>
      if bool_decide (b < 128)%N then Some []
      else if bool_decide (194 <= b <= 223)%N then Some [c]
      else if bool_decide (b = 224)%N then Some [(160, 191)%N; c]
      else if bool_decide (b = 237)%N then Some [(128, 159)%N; c]
      else if bool_decide (225 <= b <= 239)%N then Some [c; c]
      else if bool_decide (b = 240)%N then Some [(144, 191)%N; c; c]
      else if bool_decide (241 <= b <= 243)%N then Some [c; c; c]
      else if bool_decide (b = 244)%N then Some [(128, 143)%N; c; c]
      else None
  end.
Fixpoint utf8_from (expected : list (N * N)) (s : string) : bool :=
  match s with
  | "" => bool_decide (expected = [])
  | String a s => match utf8_step expected (byte_of a) with Some expected => utf8_from expected s | None => false end
  end.
Definition valid_utf8 : string -> bool := utf8_from [].

(** ** Handlers *)
Section handlers.
Context `{!Jwt, !SerdeJson, !Chrono, !Base64, !P256, !Rsa, !Sha2, !UrlLib}.
Context `{R : !Workload.TokenReviewer, L : !ReplayLedger}.

(** The reviewer of a process without a workload exchange. *)
Definition disabled_reviewer : Workload.TokenReviewer :=
  {| Workload.review _ _ := mret (Err Workload.ReviewUnavailable) |}.

Record AppState := {
  service : Service.ExchangeService;
  workload : option Workload.WorkloadExchangeService;
  oidc : option OidcExchange.OidcExchangeService;
}.
Record WorkloadAppState := {
  workload_service : Workload.WorkloadExchangeService;
  browser_hop1 : option BrowserHop1.BrowserHop1ExchangeService;
}.

Section public.
Context (state : AppState).
Definition discovery (_ : Request) : io Response :=
  let issuer := Service.issuer (service state) in
  let algorithms := if workload state is Some _ then ["ES256"; "RS256"] else ["ES256"] in
  mret (json_response (object (
    [("issuer", VString issuer);
     ("jwks_uri", VString (issuer +:+ "/jwks.json"));
     ("token_endpoint", VString (issuer +:+ "/v1/exchange"));
     ("github_oidc_exchange_endpoint", VString (issuer +:+ "/v1/exchange"));
     ("github_oidc_audience", VString (Github.audience (Service.verifier (service state))));
     ("identity_contracts_supported", str_list [IDENTITY_CONTRACT; SOURCE_AUTH_IDENTITY_CONTRACT]);
     ("policy_versions_supported", str_list [POLICY_VERSION; SOURCE_AUTH_POLICY_VERSION]);
     ("response_types_supported", str_list ["id_token"]);
     ("subject_types_supported", str_list ["public"]);
     ("id_token_signing_alg_values_supported", str_list algorithms)]
    ++ if oidc state is Some _ then [("generic_oidc_exchange_endpoint", VString (issuer +:+ "/v1/oidc/exchange"))] else []))).
Definition served_keys : JwkSet :=
  let keys := jwks (Service.service_keys (service state)) in
  match workload state with
  | Some workload => extend keys (rsa_jwks (Workload.workload_keys workload))
  | None => keys
  end.
Definition jwks_handler (_ : Request) : io Response := mret (json_response (jwk_set_value served_keys)).

Definition exchange (request : Request) : io Response :=
  match bearer_assertion request with
  | None => mret (oauth_error 401 "invalid_token")
  | Some assertion =>
      r ← Service.exchange (service state) assertion;
      mret (match r with
            | Ok token => token_response token (as_secs (Service.token_ttl (service state)))
            | Err Service.ExchangeUnauthorized => oauth_error 401 "invalid_token"
            | Err Service.ExchangeUnavailable => oauth_error 503 "temporarily_unavailable"
            end)
  end.
Definition generic_oidc_exchange (request : Request) : io Response :=
  if negb (is_empty (body request)) then mret (oauth_error 400 "invalid_request")
  else
  match oidc state with
  | None => mret (status_response 404)
  | Some service =>
  match bearer_assertion request with
  | None => mret (oauth_error 401 "invalid_token")
  | Some assertion =>
      r ← OidcExchange.exchange service assertion;
      mret (match r with
            | Ok token => token_response token (as_secs (OidcExchange.oidc_token_ttl service))
            | Err OidcExchange.OidcExchangeUnauthorized => oauth_error 401 "invalid_token"
            | Err OidcExchange.OidcExchangeUnavailable => oauth_error 503 "temporarily_unavailable"
            end)
  end
  end.
Definition no_content (_ : Request) : io Response := mret (status_response 204).
Definition failed (name : string) (ok : bool) : list string := if ok then [] else [name].
Definition readiness (_ : Request) : io Response :=
  now ← utc_now;
  verifier ← Github.verifier_check_ready (Service.verifier (service state));
  ledger ← ledger_check_ready;
  mret (readiness_response (
    failed "github_signing_key" (is_ready_at (Service.service_keys (service state)) now)
    ++ failed "github_jwks" (is_ok verifier)
    ++ failed "replay_ledger" (is_ok ledger)
    ++ match workload state with
       | Some workload => failed "workload_signing_key" (is_ready_at (Workload.workload_keys workload) now)
       | None => []
       end)).

(** *** Metrics *)
Definition newline : string := String (ascii_of_N 10) "".
Definition quote : string := String (ascii_of_N 34) "".
Definition append_metric (output name help metric_type : string) (value : Z) : string :=
  output +:+ "# HELP " +:+ name +:+ " " +:+ help +:+ newline
  +:+ "# TYPE " +:+ name +:+ " " +:+ metric_type +:+ newline
  +:+ name +:+ " " +:+ decimal value +:+ newline.
(** [{:.6}] of a number of microseconds as seconds; the floating-point division
    the source makes prints these digits below 2^33 seconds. *)
Definition seconds_text (micros : Z) : string :=
  let fraction := decimal (micros mod 1000000) in
  decimal (micros / 1000000) +:+ "."
  +:+ String.substring 0 (6 - len fraction) "000000" +:+ fraction.
Definition LABELS : list string := ["0.01"; "0.025"; "0.05"; "0.1"; "0.25"; "0.5"; "1"; "5"].
Definition bucket_line (name : string) (entry : string * Z) : string :=
  name +:+ "_bucket{le=" +:+ quote +:+ entry.1 +:+ quote +:+ "} " +:+ decimal entry.2 +:+ newline.
Definition duration_text (snapshot : list Z * Z * Z) : string :=
  let '(buckets, n, sum_micros) := snapshot in
  let name := "github_oidc_exchange_duration_seconds" in
  "# HELP " +:+ name +:+ " End-to-end GitHub OIDC exchange latency in seconds." +:+ newline
  +:+ "# TYPE " +:+ name +:+ " histogram" +:+ newline
  +:+ foldr (fun entry rest => bucket_line name entry +:+ rest) "" (zip LABELS buckets)
  +:+ bucket_line name ("+Inf", n)
  +:+ name +:+ "_sum " +:+ seconds_text sum_micros +:+ newline
  +:+ name +:+ "_count " +:+ decimal n +:+ newline.
Definition append_duration_histogram (output : string) : io string :=
  snapshot ← Service.duration_snapshot; mret (output +:+ duration_text snapshot).

(** One counter of an exchange: its metric's name and help. *)
Definition load_counters (s : State.service) (rows : list (outcome * string * string)) : io (list (string * string * Z)) :=
  foldr (fun '(o, name, help) rest =>
    value ← load (CounterCell (Count s o)); values ← rest; mret ((name, help, value) :: values)) (mret []) rows.
Definition append_counters (output : string) (rows : list (string * string * Z)) : string :=
  foldl (fun output '(name, help, value) => append_metric output name help "counter" value) output rows.

Definition github_counters : list (outcome * string * string) := [
  (Requests, "github_oidc_exchange_requests_total", "GitHub OIDC exchange requests received.");
  (Issued, "github_oidc_exchange_issued_total", "GitHub OIDC exchanges that issued a token.");
  (Denied, "github_oidc_exchange_denied_total", "GitHub OIDC exchanges denied with an authentication response.");
  (State.Replayed, "github_oidc_exchange_replayed_total",
   "GitHub OIDC assertions denied because their JTI was already used.");
  (Errors, "github_oidc_exchange_errors_total",
   "GitHub OIDC exchanges that failed because a dependency was unavailable.")].
Definition oidc_counters : list (outcome * string * string) := [
  (Requests, "github_oidc_exchange_generic_oidc_requests_total", "Generic OIDC exchange requests received.");
  (Issued, "github_oidc_exchange_generic_oidc_issued_total", "Generic OIDC exchanges that issued a token.");
  (Denied, "github_oidc_exchange_generic_oidc_denied_total",
   "Generic OIDC exchanges denied with an authentication response.");
  (State.Replayed, "github_oidc_exchange_generic_oidc_replayed_total",
   "Generic OIDC assertions denied because their replay identity was already used.");
  (Errors, "github_oidc_exchange_generic_oidc_errors_total",
   "Generic OIDC exchanges that failed because a dependency was unavailable.")].
Definition workload_counters : list (outcome * string * string) := [
  (Requests, "github_oidc_exchange_workload_requests_total", "Kubernetes workload exchange requests received.");
  (Issued, "github_oidc_exchange_workload_issued_total", "Kubernetes workload exchanges that issued a token.");
  (Denied, "github_oidc_exchange_workload_denied_total",
   "Kubernetes workload exchanges denied with an authentication response.");
  (Errors, "github_oidc_exchange_workload_errors_total",
   "Kubernetes workload exchanges that failed because a dependency was unavailable.")].

Definition provider_lines (states : list (string * bool)) : string :=
  let name := "github_oidc_exchange_generic_oidc_provider_ready" in
  "# HELP " +:+ name +:+ " Whether one configured provider has a usable signing-key set." +:+ newline
  +:+ "# TYPE " +:+ name +:+ " gauge" +:+ newline
  +:+ foldr (fun '(issuer_hash, ready) rest =>
        name +:+ "{issuer_hash=" +:+ quote +:+ issuer_hash +:+ quote +:+ "} "
        +:+ (if ready : bool then "1" else "0") +:+ newline +:+ rest) "" states.
Definition oidc_metrics (oidc : OidcExchange.OidcExchangeService) (output : string) : io string :=
  counters ← load_counters OidcExchange oidc_counters;
  let output := append_counters output counters in
  let output := append_metric output "github_oidc_exchange_generic_oidc_providers"
    "Configured generic OIDC providers." "gauge"
    (Z.of_nat (Oidc.provider_count (OidcExchange.verifier oidc))) in
  ready ← Oidc.ready_provider_count (OidcExchange.verifier oidc);
  let output := append_metric output "github_oidc_exchange_generic_oidc_ready_providers"
    "Generic OIDC providers with a usable signing-key set." "gauge" (Z.of_nat ready) in
  states ← Oidc.provider_readiness (OidcExchange.verifier oidc);
  mret (output +:+ provider_lines states).
Definition workload_metrics (workload : Workload.WorkloadExchangeService) (now : datetime) (output : string) : io string :=
  counters ← load_counters WorkloadExchange workload_counters;
  mret (append_metric (append_counters output counters)
    "github_oidc_exchange_workload_signing_key_seconds_until_expiry"
    "Seconds until the active workload exchange signing key expires." "gauge"
    (current_key_seconds_until_expiry (Workload.workload_keys workload) now)).
Definition metrics (_ : Request) : io Response :=
  now ← utc_now;
  counters ← load_counters GithubExchange github_counters;
  let output := append_counters "" counters in
  failures ← Github.refresh_failures;
  let output := append_metric output "github_oidc_exchange_jwks_refresh_failures_total"
    "GitHub JWKS refresh attempts that failed." "counter" failures in
  age ← Github.cache_age_seconds;
  let output := append_metric output "github_oidc_exchange_jwks_age_seconds"
    "Seconds since the last successful GitHub JWKS refresh." "gauge" age in
  let output := append_metric output "github_oidc_exchange_signing_key_seconds_until_expiry"
    "Seconds until the active GitHub exchange signing key expires." "gauge"
    (current_key_seconds_until_expiry (Service.service_keys (service state)) now) in
  output ← append_duration_histogram output;
  output ← match oidc state with Some oidc => oidc_metrics oidc output | None => mret output end;
  output ← match workload state with Some workload => workload_metrics workload now output | None => mret output end;
  mret {| status := 200; response_body := TextBody output; cache_control := None |}.
End public.

Section internal.
Context (state : WorkloadAppState).
Definition workload_exchange (request : Request) : io Response :=
  if negb (is_empty (body request)) then mret (oauth_error 400 "invalid_request")
  else
  match bearer_assertion request with
  | None => mret (oauth_error 401 "invalid_token")
  | Some assertion =>
      let workload := workload_service state in
      r ← Workload.exchange workload assertion;
      mret (match r with
            | Ok token => token_response token (as_secs (Workload.workload_token_ttl workload))
            | Err Workload.WorkloadExchangeUnauthorized => oauth_error 401 "invalid_token"
            | Err Workload.WorkloadExchangeUnavailable => oauth_error 503 "temporarily_unavailable"
            end)
  end.
Definition browser_hop1_exchange (request : Request) : io Response :=
  match browser_hop1 state with
  | None => mret (status_response 404)
  | Some browser =>
  if bool_decide (header_text request "content-type" <> Some "application/jwt")
  then mret (oauth_error 400 "invalid_request")
  else
  match bearer_assertion request with
  | None => mret (oauth_error 401 "invalid_token")
  | Some workload_assertion =>
  if negb (valid_utf8 (body request)) || is_empty (body request)
  then mret (oauth_error 400 "invalid_request")
  else
    reviewed ← Workload.review workload_assertion (Workload.input_audience (workload_service state));
    match reviewed with
    | Err Workload.ReviewInvalid => mret (oauth_error 401 "invalid_token")
    | Err Workload.ReviewUnavailable => mret (oauth_error 503 "temporarily_unavailable")
    | Ok reviewed =>
        r ← BrowserHop1.exchange browser (Workload.reviewed_username reviewed) (body request);
        mret (match r with
              | Ok token => token_response token (as_secs (BrowserHop1.browser_token_ttl browser))
              | Err BrowserHop1.BrowserUnauthorized => oauth_error 401 "invalid_token"
              | Err BrowserHop1.BrowserUnavailable => oauth_error 503 "temporarily_unavailable"
              end)
    end
  end
  end.
Definition workload_readiness (_ : Request) : io Response :=
  now ← utc_now;
  ledger ← ledger_check_ready;
  mret (readiness_response (
    failed "workload_signing_key" (is_ready_at (Workload.workload_keys (workload_service state)) now)
    ++ failed "task_signing_key" (is_ready_at (Workload.task_keys (workload_service state)) now)
    ++ failed "replay_ledger" (is_ok ledger)
    ++ match browser_hop1 state with
       | Some browser => failed "browser_signing_key" (is_ready_at (BrowserHop1.browser_signing_keys browser) now)
       | None => []
       end)).
End internal.

(** *** Routes *)
Inductive Method := GET | POST.
Inductive Layer := SetIfNotPresent (header value : string) | BodyLimit (bytes : nat).
Record Route := {
  route_method : Method;
  route_path : string;
  handler : Request -> io Response;
  layers : list Layer;
}.
(** A router is its routes.  As in the library, a layer applies to the routes
    present when it is added, the later layers outermost. *)
Definition Router := list Route.
Definition route (r : Router) (m : Method) (path : string) (h : Request -> io Response) : Router :=
  r ++ [{| route_method := m; route_path := path; handler := h; layers := [] |}].
Definition layer (r : Router) (l : Layer) : Router :=
  (fun rt => {| route_method := route_method rt; route_path := route_path rt; handler := handler rt;
                layers := l :: layers rt |}) <$> r.
Definition security_layers (r : Router) (limit : nat) : Router :=
  let r := layer r (SetIfNotPresent "x-content-type-options" "nosniff") in
  let r := layer r (SetIfNotPresent "referrer-policy" "no-referrer") in
  let r := layer r (SetIfNotPresent "content-security-policy" "default-src 'none'; frame-ancestors 'none'") in
  layer r (BodyLimit limit).

Definition build_router (state : AppState) : Router :=
  let application := route [] GET "/.well-known/openid-configuration" (discovery state) in
  let application := route application GET "/.well-known/oauth-authorization-server" (discovery state) in
  let application := route application GET "/jwks.json" (jwks_handler state) in
  let application := route application POST "/v1/exchange" (exchange state) in
  let application := route application GET "/healthz" no_content in
  let application := route application GET "/readyz" (readiness state) in
  let application := route application GET "/metrics" (metrics state) in
  let application := match oidc state with
                     | Some _ => route application POST "/v1/oidc/exchange" (generic_oidc_exchange state)
                     | None => application
                     end in
  security_layers application 1024.
Definition build_workload_router (state : WorkloadAppState) : Router :=
  let routes := route [] POST "/v1/workload/exchange" (workload_exchange state) in
  let routes := route routes GET "/healthz" no_content in
  let routes := route routes GET "/readyz" (workload_readiness state) in
  let routes := security_layers routes (8 * 1024) in
  match browser_hop1 state with
  | Some _ => route routes POST "/v1/browser-hop1/exchange" (browser_hop1_exchange state)
  | None => routes
  end.
Definition router (s : Service.ExchangeService) : Router :=
  build_router {| service := s; workload := None; oidc := None |}.
Definition router_with_oidc (s : Service.ExchangeService) (o : OidcExchange.OidcExchangeService) : Router :=
  build_router {| service := s; workload := None; oidc := Some o |}.
Definition separated_routers (s : Service.ExchangeService) (w : Workload.WorkloadExchangeService)
    (b : option BrowserHop1.BrowserHop1ExchangeService) (o : option OidcExchange.OidcExchangeService) :
  Router * Router :=
  (build_router {| service := s; workload := Some w; oidc := o |},
   build_workload_router {| workload_service := w; browser_hop1 := b |}).
End handlers.

(** ** Requests *)
(** The assertion of a request is the trimmed, non-empty rest of its first
    [Authorization] header after the scheme [Bearer], and nothing else is. *)
Theorem bearer_assertion_exact request assertion :
  bearer_assertion request = Some assertion <->
  exists value, header_text request "authorization" = Some ("Bearer " +:+ value)
    /\ trim value = assertion /\ assertion <> "".
Proof.
  unfold bearer_assertion. split.
  - intros (v & Hv & (v' & Hp & H)%bind_Some)%bind_Some. apply strip_prefix_Some in Hp as ->.
    destruct (is_empty (trim v')) eqn:He; [done|]. injection H as <-. exists v'. by apply is_empty_false in He.
  - intros (v & -> & <- & Hn). cbn [mbind option_bind].
    rewrite (proj2 (strip_prefix_Some "Bearer " _ v) eq_refl). cbn [mbind option_bind].
    by rewrite (proj2 (is_empty_false _) Hn).
Qed.

Lemma runs_answer `{jwt : Jwt} {A B} (p : io A) (f : A -> B) t b :
  runs (a ← p; mret (f a)) t b <-> exists a, runs p t a /\ b = f a.
Proof.
  rewrite runs_bind. split.
  - intros (t1 & t2 & a & -> & H & [-> ->]). rewrite app_nil_r. by exists a.
  - intros (a & H & ->). exists t, [], a. by rewrite app_nil_r.
Qed.

(** ** The exchange endpoints *)
Section endpoints.
Context `{jwt : Jwt, laws : !JwtLaws, serde : SerdeJson, chrono : Chrono, b64 : Base64, p256 : P256, rsa : Rsa, sha : Sha2, url : UrlLib}.
Context `{R : !Workload.TokenReviewer, audited : !Workload.AuditedReviewer R, L : !ReplayLedger, !LeaseLedger L}.

(** Every answer of an exchange endpoint that decided on a credential. *)
Definition settled (resp : Response) : Prop :=
  cache_control resp = Some "no-store" /\ status resp ∈ [200; 400; 401; 503]%Z.

Lemma exchange_answers state request t resp : runs (exchange state request) t resp ->
  settled resp /\ (status resp = 200%Z -> exists assertion token,
    bearer_assertion request = Some assertion
    /\ resp = token_response token (as_secs (Service.token_ttl (service state)))
    /\ Service.issued (service state) t assertion token).
Proof.
  unfold exchange. destruct (bearer_assertion request) as [assertion|] eqn:Ha.
  2:{ intros [-> ->]. split; [split; [done|]; cbn; set_solver|done]. }
  intros (r & Hr & ->)%runs_answer. destruct r as [token|[]]; (split; [split; [done|]; cbn; set_solver|]); try done.
  intros _. exists assertion, token. split_and!; try done.
  by destruct (Service.exchange_runs _ _ _ _ Hr) as (_ & Hi & _); apply Hi.
Qed.
Lemma generic_oidc_answers state request t resp : runs (generic_oidc_exchange state request) t resp ->
  (settled resp \/ (oidc state = None /\ status resp = 404%Z))
  /\ (status resp = 200%Z -> exists assertion token svc,
    oidc state = Some svc /\ body request = "" /\ bearer_assertion request = Some assertion
    /\ resp = token_response token (as_secs (OidcExchange.oidc_token_ttl svc))
    /\ OidcExchange.issued svc t assertion token).
Proof.
  unfold generic_oidc_exchange. destruct (is_empty (body request)) eqn:Hb; cbn [negb].
  2:{ intros [-> ->]. split; [left; split; [done|]; cbn; set_solver|done]. }
  destruct (oidc state) as [svc|] eqn:Ho; [|intros [-> ->]; split; [by right|done]].
  destruct (bearer_assertion request) as [assertion|] eqn:Ha.
  2:{ intros [-> ->]. split; [left; split; [done|]; cbn; set_solver|done]. }
  intros (r & Hr & ->)%runs_answer.
  destruct r as [token|[]]; (split; [left; split; [done|]; cbn; set_solver|]); try done.
  intros _. exists assertion, token, svc. apply is_empty_true in Hb. split_and!; try done.
  by destruct (OidcExchange.oidc_exchange_runs _ _ _ _ Hr) as (_ & Hi & _); apply Hi.
Qed.
Lemma workload_answers state request t resp : runs (workload_exchange state request) t resp ->
  settled resp /\ (status resp = 200%Z -> exists assertion token,
    body request = "" /\ bearer_assertion request = Some assertion
    /\ resp = token_response token (as_secs (Workload.workload_token_ttl (workload_service state)))
    /\ Workload.issued (workload_service state) t assertion token).
Proof.
  unfold workload_exchange. destruct (is_empty (body request)) eqn:Hb; cbn [negb].
  2:{ intros [-> ->]. split; [split; [done|]; cbn; set_solver|done]. }
  destruct (bearer_assertion request) as [assertion|] eqn:Ha.
  2:{ intros [-> ->]. split; [split; [done|]; cbn; set_solver|done]. }
  intros (r & Hr & ->)%runs_answer. destruct r as [token|[]]; (split; [split; [done|]; cbn; set_solver|]); try done.
  intros _. exists assertion, token. apply is_empty_true in Hb. split_and!; try done.
  by destruct (Workload.workload_exchange_runs _ _ _ _ Hr) as (_ & Hi & _); apply Hi.
Qed.
Lemma browser_answers state request t resp : runs (browser_hop1_exchange state request) t resp ->
  (settled resp \/ (browser_hop1 state = None /\ status resp = 404%Z))
  /\ (status resp = 200%Z -> exists assertion token svc username t1 t2,
    browser_hop1 state = Some svc /\ bearer_assertion request = Some assertion
    /\ header_text request "content-type" = Some "application/jwt"
    /\ resp = token_response token (as_secs (BrowserHop1.browser_token_ttl svc))
    /\ t = t1 ++ t2
    /\ Workload.reviewed t1 assertion (Workload.input_audience (workload_service state)) username
    /\ BrowserHop1.issued svc t2 username (body request) token).
Proof.
  unfold browser_hop1_exchange. destruct (browser_hop1 state) as [svc|] eqn:Hs.
  2:{ intros [-> ->]. split; [by right|done]. }
  case_bool_decide as Hct.
  { intros [-> ->]. split; [left; split; [done|]; cbn; set_solver|done]. }
  destruct (bearer_assertion request) as [assertion|] eqn:Ha.
  2:{ intros [-> ->]. split; [left; split; [done|]; cbn; set_solver|done]. }
  destruct (_ || _).
  { intros [-> ->]. split; [left; split; [done|]; cbn; set_solver|done]. }
  intros (t1 & t2 & w & -> & Hw & H)%runs_bind. destruct w as [w|[|]].
  2,3: destruct H as [-> ->]; (split; [left; split; [done|]; cbn; set_solver|done]).
  apply runs_answer in H as (r & Hr & ->).
  destruct r as [token|[]]; (split; [left; split; [done|]; cbn; set_solver|]); try done.
  intros _. exists assertion, token, svc, (Workload.reviewed_username w), t1, t2. split_and!; try done.
  - exact (wp_runs _ _ [] _ _ _ (Workload.review_spec _ _ []) Hw w eq_refl).
  - by destruct (BrowserHop1.browser_exchange_runs _ _ _ _ _ Hr) as (_ & Hi & _); apply Hi.
Qed.

(** C17: the public exchange endpoints answer 200 only with a token, not to be
    cached, that their exchange issued for the request's bearer assertion; any
    other answer is an error that is not to be cached either, or, for an exchange
    that is not configured, 404. *)
Theorem public_endpoints_sound state request t resp :
  (runs (exchange state request) t resp ->
     settled resp /\ (status resp = 200%Z -> exists assertion token,
       bearer_assertion request = Some assertion
       /\ resp = token_response token (as_secs (Service.token_ttl (service state)))
       /\ Service.issued (service state) t assertion token))
  /\ (runs (generic_oidc_exchange state request) t resp ->
     (settled resp \/ (oidc state = None /\ status resp = 404%Z))
     /\ (status resp = 200%Z -> exists assertion token svc,
       oidc state = Some svc /\ body request = "" /\ bearer_assertion request = Some assertion
       /\ resp = token_response token (as_secs (OidcExchange.oidc_token_ttl svc))
       /\ OidcExchange.issued svc t assertion token)).
Proof. split; [apply exchange_answers|apply generic_oidc_answers]. Qed.

(** C18: the internal exchange endpoints answer 200 only with a token, not to be
    cached, that was issued for the caller's own token: the workload endpoint for
    the workload it belongs to, and the browser endpoint for the attestation in the
    body, to a caller whom the review service vouched for and who has the issuer
    role. *)
Theorem internal_endpoints_sound state request t resp :
  (runs (workload_exchange state request) t resp ->
     settled resp /\ (status resp = 200%Z -> exists assertion token,
       body request = "" /\ bearer_assertion request = Some assertion
       /\ resp = token_response token (as_secs (Workload.workload_token_ttl (workload_service state)))
       /\ Workload.issued (workload_service state) t assertion token))
  /\ (runs (browser_hop1_exchange state request) t resp ->
     (settled resp \/ (browser_hop1 state = None /\ status resp = 404%Z))
     /\ (status resp = 200%Z -> exists assertion token svc username t1 t2,
       browser_hop1 state = Some svc /\ bearer_assertion request = Some assertion
       /\ header_text request "content-type" = Some "application/jwt"
       /\ resp = token_response token (as_secs (BrowserHop1.browser_token_ttl svc))
       /\ t = t1 ++ t2
       /\ Workload.reviewed t1 assertion (Workload.input_audience (workload_service state)) username
       /\ BrowserHop1.issued svc t2 username (body request) token)).
Proof. split; [apply workload_answers|apply browser_answers]. Qed.
End endpoints.

(** ** Readiness, metrics and routes *)
Section operations.
Context `{jwt : Jwt, serde : SerdeJson, chrono : Chrono, b64 : Base64, p256 : P256, rsa : Rsa, sha : Sha2, url : UrlLib}.
Context `{R : !Workload.TokenReviewer, L : !ReplayLedger}.

Lemma readiness_response_spec checks :
  let resp := readiness_response (mjoin ((fun '(name, ok) => failed name ok) <$> checks)) in
  (status resp = 204%Z <-> forall name ok, (name, ok) ∈ checks -> ok = true)
  /\ (status resp = 204%Z \/ (status resp = 503%Z
        /\ exists names, response_body resp = JsonBody (object [("status", VString "not_ready");
                                                               ("failed_checks", str_list names)])
           /\ forall name, name ∈ names <-> (name, false) ∈ checks)).
Proof.
  set (names := mjoin _).
  assert (forall name, name ∈ names <-> (name, false) ∈ checks) as Hn.
  { intros name. unfold names. rewrite list_elem_of_join. setoid_rewrite list_elem_of_fmap. split.
    - intros (l & Hin & [n ok] & -> & Hc). unfold failed in Hin. destruct ok; [by apply elem_of_nil in Hin|].
      by apply list_elem_of_singleton in Hin as ->.
    - intros Hc. exists [name]. split; [by apply list_elem_of_singleton|]. by exists (name, false). }
  assert (names = [] <-> forall name ok, (name, ok) ∈ checks -> ok = true) as He.
  { split.
    - intros H name [|] Hc; [done|]. apply Hn in Hc. rewrite H in Hc. by apply elem_of_nil in Hc.
    - intros H. destruct names as [|n l]; [done|]. exfalso.
      specialize (H n false (proj1 (Hn n) (list_elem_of_here n l))). done. }
  cbv zeta. destruct names as [|n l].
  - split; [|by left]. split; [intros _; by apply He|done].
  - split; [split; [done|]; intros H; by apply He in H|]. right. split; [done|]. by exists (n :: l).
Qed.

(** Readiness answers 204 exactly when every check passes (current signing
    keys, a usable GitHub key cache, a ready ledger), and otherwise 503 with the
    names of exactly the checks that failed. *)
Theorem readiness_exact state request t resp :
  runs (readiness state request) t resp ->
  exists now t1 t2 v l, t = Obs UtcNow now :: t1 ++ t2
  /\ runs (Github.verifier_check_ready (Service.verifier (service state))) t1 v /\ runs ledger_check_ready t2 l
  /\ let checks := [("github_signing_key", is_ready_at (Service.service_keys (service state)) now);
                    ("github_jwks", is_ok v); ("replay_ledger", is_ok l)]
                   ++ match workload state with
                      | Some w => [("workload_signing_key", is_ready_at (Workload.workload_keys w) now)]
                      | None => []
                      end in
     (status resp = 204%Z <-> forall name ok, (name, ok) ∈ checks -> ok = true)
     /\ (status resp = 204%Z \/ (status resp = 503%Z
           /\ exists names, response_body resp = JsonBody (object [("status", VString "not_ready");
                                                                  ("failed_checks", str_list names)])
              /\ forall name, name ∈ names <-> (name, false) ∈ checks)).
Proof.
  unfold readiness. intros (t0 & t' & now & -> & Hnow%runs_trigger & H)%runs_bind. subst t0.
  apply runs_bind in H as
 (t1 & t2 & v & -> & Hv & H). apply runs_answer in H as (l & Hl & ->).
  exists now, t1, t2, v, l. split; [done|]. split; [done|]. split; [done|]. cbv zeta.

  match goal with |- context [readiness_response ?x] =>
    replace x with (mjoin ((fun '(name, ok) => failed name ok) <$>
      ([("github_signing_key", is_ready_at (Service.service_keys (service state)) now);
        ("github_jwks", is_ok v); ("replay_ledger", is_ok l)]
       ++ match workload state with
          | Some w => [("workload_signing_key", is_ready_at (Workload.workload_keys w) now)]
          | None => []
          end)))
  end; [apply readiness_response_spec|].
  destruct (workload state); cbn; by rewrite ?app_nil_r.
Qed.

(** A clock reading or the reading of a shared cell. *)
Definition only_reads (h : trace_io) (X : Type) (e : event X) : Prop :=
  match e with UtcNow | Load _ => True | _ => False end.
Abbreviation wpr := (wp only_reads).
Definition extends (text more : string) : Prop := exists rest, more = text +:+ rest.
Lemma extends_refl text : extends text text.
Proof. exists "". by rewrite app_nil_r'. Qed.
Lemma extends_trans a b c : extends a b -> extends b c -> extends a c.
Proof. intros [x ->] [y ->]. exists (x +:+ y). by rewrite app_assoc'. Qed.
Lemma append_metric_extends output name help type value : extends output (append_metric output name help type value).
Proof. by eexists. Qed.
Lemma append_counters_extends output rows : extends output (append_counters output rows).
Proof.
  revert output. induction rows as [|[[n hp] v] rows IH]; intros output; [apply extends_refl|].
  cbn. eapply extends_trans; [apply append_metric_extends|apply IH].
Qed.

(** The rows with the values that were read for them. *)
Definition counters_read (s : State.service) (rows : list (outcome * string * string))
    (values : list (string * string * Z)) (h : trace_io) : Prop :=
  Forall2 (fun '(o, name, help) '(name', help', value) =>
    name' = name /\ help' = help /\ Obs (Load (CounterCell (Count s o))) value ∈ h) rows values.
Lemma counters_read_prefix s rows values h h' :
  h `prefix_of` h' -> counters_read s rows values h -> counters_read s rows values h'.
Proof.
  intros [k ->] H. eapply Forall2_impl; [exact H|]. intros [[o n] hp] [[n' hp'] v] (-> & -> & Hin).
  split_and!; try done. apply elem_of_app. by left.
Qed.
Lemma wp_load_counters s rows h :
  wpr (load_counters s rows) h (fun values h' => counters_read s rows values h').
Proof.
  revert h. induction rows as [|[[o n] hp] rows IH]; intros h; [by constructor|].
  change (load_counters s ((o, n, hp) :: rows))
    with (value ← load (CounterCell (Count s o)); values ← load_counters s rows; mret ((n, hp, value) :: values)).
  split; [done|]. intros v. change (prog_bind ?f (Ret v)) with (f v). cbn beta.
  eapply wp_call; [apply IH|]. intros values h1 [k ->] Hv. constructor; [|done].
  split_and!; try done. rewrite !elem_of_app, list_elem_of_singleton. auto.
Qed.
Lemma wp_duration_snapshot h : wpr Service.duration_snapshot h (fun _ _ => True).
Proof. unfold Service.duration_snapshot. cbn. repeat (split; [done|]; intros ?). done. Qed.
Lemma wp_append_histogram output h : wpr (append_duration_histogram output) h (fun o _ => extends output o).
Proof. eapply wp_call; [apply wp_duration_snapshot|]. intros snapshot h1 _ _. by eexists. Qed.
Lemma wp_provider_states now providers h : wpr (Oidc.provider_states now providers) h (fun _ _ => True).
Proof.
  revert h. induction providers as [|p l IH]; intros h; [done|]. split; [done|]. intros cache.
  change (prog_bind ?f (Ret cache)) with (f cache). cbn beta. eapply wp_call; [apply IH|]. done.
Qed.
Lemma wp_provider_readiness v h : wpr (Oidc.provider_readiness v) h (fun _ _ => True).
Proof.
  unfold Oidc.provider_readiness. eapply (wp_call _ _ _ _ (fun _ _ => True)); [split; [done|]; by intros ?|].
  intros now h1 _ _. eapply wp_call; [apply wp_provider_states|]. done.

Qed.
Lemma wp_oidc_metrics svc output h : wpr (oidc_metrics svc output) h (fun o _ => extends output o).
Proof.
  eapply wp_call; [apply wp_load_counters|]. intros values h1 _ _. cbv zeta.
  eapply (wp_call _ _ _ _ (fun _ _ => True)); [eapply wp_call; [apply wp_provider_readiness|done]|].
  intros n h2 _ _. cbv zeta.

  eapply wp_call; [apply wp_provider_readiness|]. intros states h3 _ _. cbn.
  eapply extends_trans; [apply append_counters_extends|]. eapply extends_trans; [apply append_metric_extends|].
  eapply extends_trans; [apply append_metric_extends|]. by eexists.
Qed.
Lemma wp_workload_metrics w now output h : wpr (workload_metrics w now output) h (fun o _ => extends output o).
Proof.
  eapply wp_call; [apply wp_load_counters|]. intros values h1 _ _. cbn.
  eapply extends_trans; [apply append_counters_extends|apply append_metric_extends].
Qed.
Definition exposes (resp : Response) (h : trace_io) : Prop :=
  status resp = 200%Z /\ exists values text, response_body resp = TextBody text
    /\ counters_read GithubExchange github_counters values h /\ extends (append_counters "" values) text.
Lemma wp_metrics state request h : wpr (metrics state request) h exposes.
Proof.
  split; [done|]. intros now. change (prog_bind ?f (Ret now)) with (f now). cbn beta.
  eapply wp_call; [apply wp_load_counters|]. intros values h1 _ Hv. cbv zeta.
  split; [done|]. intros failures. change (prog_bind ?f (Ret failures)) with (f failures). cbn beta zeta.
  eapply wp_call; [instantiate (1 := fun _ _ => True); cbn; by repeat (split; [done|]; intros ?)|].
  intros age h2 H2 _. cbv zeta.
  eapply wp_call; [apply wp_append_histogram|]. intros o1 h3 H3 Ho1.
  eapply wp_call; [instantiate (1 := fun o _ => extends o1 o); destruct (oidc state);
    [apply wp_oidc_metrics|apply extends_refl]|]. intros o2 h4 H4 Ho2.
  eapply wp_call; [instantiate (1 := fun o _ => extends o2 o); destruct (workload state);
    [apply wp_workload_metrics|apply extends_refl]|]. intros o3 h5 H5 Ho3.
  split; [done|]. exists values, o3. split_and!; [done| |].
  - eapply counters_read_prefix; [|exact Hv]. eapply prefix_app_l. etrans; [exact H2|].
    etrans; [exact H3|]. by etrans.
  - eapply extends_trans; [|exact Ho3]. eapply extends_trans; [|exact Ho2]. eapply extends_trans; [|exact Ho1].
    eapply extends_trans; [apply append_metric_extends|]. eapply extends_trans; [apply append_metric_extends|].
    apply append_metric_extends.
Qed.

(** Scraping the metrics only reads clocks and shared cells, so it changes
    nothing; and the text begins with the exchange's five counters, each with the
    value read from it. *)
Theorem metrics_read_only state request t resp :
  runs (metrics state request) t resp ->
  exposes resp t /\ forall t1 X (e : event X) x t2, t = t1 ++ Obs e x :: t2 -> only_reads t1 X e.
Proof.
  intros Hr. split; [exact (wp_runs _ _ [] _ _ _ (wp_metrics state request []) Hr)|].
  intros t1 X e x t2 Ht. exact (wp_permitted _ _ [] _ _ _ _ _ _ _ _ (wp_metrics state request []) Hr Ht).
Qed.

(** The security headers and the body limit, outermost first. *)
Definition protected (limit : nat) (r : Route) : Prop :=
  layers r = [BodyLimit limit;
              SetIfNotPresent "content-security-policy" "default-src 'none'; frame-ancestors 'none'";
              SetIfNotPresent "referrer-policy" "no-referrer";
              SetIfNotPresent "x-content-type-options" "nosniff"].
(** C40: every public route has the three security headers and a body limit of one
    kilobyte; every internal route but the browser exchange has them with a limit
    of eight, and the browser exchange, added after the layers, has none.  The
    routes of the optional exchanges exist exactly when these are configured. *)
Theorem routes_protected state wstate :
  Forall (protected 1024) (build_router state)
  /\ ("/v1/oidc/exchange" ∈ route_path <$> build_router state <-> is_Some (oidc state))
  /\ (forall r, r ∈ build_workload_router wstate ->
        if decide (route_path r = "/v1/browser-hop1/exchange") then layers r = [] else protected (8 * 1024) r)
  /\ ("/v1/browser-hop1/exchange" ∈ route_path <$> build_workload_router wstate <-> is_Some (browser_hop1 wstate)).
Proof.
  unfold build_router, build_workload_router. split_and!.
  - destruct (oidc state); cbn; by repeat constructor.
  - destruct (oidc state) as [o|]; cbn; rewrite !elem_of_cons, elem_of_nil; [by split; [eexists|tauto]|].
    split; [intuition discriminate|]. by intros [].
  - intros r.
    destruct (browser_hop1 wstate); cbn -[Nat.mul]; rewrite !elem_of_cons, elem_of_nil; intros Hr;
      repeat destruct Hr as [->|Hr]; done.
  - destruct (browser_hop1 wstate) as [b|]; cbn; rewrite !elem_of_cons, elem_of_nil; [by split; [eexists|tauto]|].
    split; [intuition discriminate|]. by intros [].
Qed.
End operations.
