(* ===== verification/Main.v ===== *)
(** * Start-up (main.rs)

    From the environment to the services, their routers and the background tasks
    of a process that is about to serve; every failure is logged with its stage.
    Serving, the handshake of the TLS listener and the graceful shutdown are the
    runtime's. *)
From S2P Require Import Prelude Text Prog Libs State Constants Concrete Replay Simulator ReplaySafety Exchange Keys Config.
From S2P Require Github Policy Service WorkloadPolicy Workload OidcPolicy Oidc OidcExchange BrowserHop1 Http.

(** ** The text of errors *)
(** Trait [Display]. *)
Class Display (E : Type) := display : E -> string.
#[export] Instance display_config_error : Display ConfigError := fun e =>
  match e with
  | Missing name => "required environment variable " +:+ name +:+ " is missing"
  | InvalidIssuer => "ISSUER_URL must be an HTTPS origin without a path, query, or fragment"
  | InvalidOutputAudience => "OUTPUT_AUDIENCE must be steward-task-api"
  | InvalidGitHubExchangeAudience => "GITHUB_EXCHANGE_AUDIENCE must be bounded visible ASCII"
  | InvalidExpectedPolicyVersion => "EXPECTED_POLICY_VERSION must select policy v5 or v6"
  | InvalidListenAddress => "LISTEN_ADDRESS is invalid"
  | InvalidKeyExpiryReadinessThreshold => "KEY_EXPIRY_READINESS_THRESHOLD_SECONDS must be between 120 and 31536000"
  | InvalidGitHubJwksMaxStaleness => "GITHUB_JWKS_MAX_STALENESS_SECONDS must be between 600 and 604800"
  | InvalidWorkloadListenAddress => "WORKLOAD_LISTEN_ADDRESS is invalid"
  | ConflictingListenAddresses => "public and workload listeners must use different addresses"
  | InvalidWorkloadEnabled => "WORKLOAD_EXCHANGE_ENABLED must be true or false"
  | InvalidGenericOidcEnabled => "GENERIC_OIDC_ENABLED must be true or false"
  | InvalidWorkloadOutputAudience => "WORKLOAD_OUTPUT_AUDIENCE must be openshell-api"
  | InvalidBrowserHop1Enabled => "BROWSER_HOP1_ENABLED must be true or false"
  | BrowserHop1RequiresWorkload => "browser HOP-1 requires WORKLOAD_EXCHANGE_ENABLED=true"
  | InvalidBrowserHop1StewardIssuer =>
      "BROWSER_HOP1_STEWARD_ISSUER must be an absolute HTTPS URL without a query or fragment"
  | InvalidBrowserHop1OutputAudience =>
      "BROWSER_HOP1_OUTPUT_AUDIENCE must be an absolute HTTPS URL without a query or fragment"
  end.
#[export] Instance display_policy_error : Display Policy.PolicyError := fun e =>
  match e with
  | Policy.Invalid message => "policy file is invalid: " +:+ message
  | Policy.Unauthorized => "identity is not authorized"
  end.
#[export] Instance display_workload_policy_error : Display WorkloadPolicy.WorkloadPolicyError := fun e =>
  match e with
  | WorkloadPolicy.WorkloadInvalid message => "workload policy is invalid: " +:+ message
  | WorkloadPolicy.WorkloadUnauthorized => "workload identity is not authorized"
  end.
#[export] Instance display_oidc_policy_error : Display OidcPolicy.OidcPolicyError := fun e =>
  match e with
  | OidcPolicy.OidcPolicyInvalid message => "OIDC policy is invalid: " +:+ message
  | OidcPolicy.OidcPolicyUnauthorized => "OIDC identity is not authorized"
  end.
#[export] Instance display_replay_error : Display ReplayError := fun e =>
  match e with
  | Replayed => "assertion has already been exchanged"
  | Unavailable => "replay ledger is unavailable"
  | Configuration detail => "replay ledger configuration is invalid: " +:+ detail
  end.
#[export] Instance display_review_error : Display Workload.ReviewError := fun e =>
  match e with
  | Workload.ReviewInvalid => "workload token is invalid"
  | Workload.ReviewUnavailable => "Kubernetes TokenReview is unavailable"
  end.
#[export] Instance display_key_error : Display KeyError := Service.key_error_text.
#[export] Instance display_verify_error : Display Github.VerifyError := Github.verify_error_text.
#[export] Instance display_oidc_error : Display Oidc.OidcVerifyError := Oidc.oidc_error_text.
#[export] Instance display_ca_error : Display Oidc.AdditionalCaError := fun e =>
  "GENERIC_OIDC_ADDITIONAL_CA_FILE " +:+ Oidc.ca_path e +:+ " " +:+ Oidc.ca_reason e.
#[export] Instance display_browser_error : Display BrowserHop1.BrowserHop1VerifierError := fun _ =>
  "Steward browser assertion verifier is invalid".
#[export] Instance display_io_error : Display string := fun text => text.
Definition display_bool (b : bool) : string := if b then "true" else "false".

(** What the operating system and the TLS library answer at start-up. *)
Class Sockets `{!SocketAddrLib} := {
  RustlsConfig : Type;
  TcpListener : Type;
  rustls_from_pem_file : string -> string -> result string RustlsConfig;
  tcp_bind : SocketAddr -> result string TcpListener;
  display_addr :: Display SocketAddr;
}.

(** ** Start-up *)
Section startup.
Context `{!Jwt, !SerdeJson, !Chrono, !Base64, !P256, !Rsa, !Sha2, !UrlLib, !Reqwest, !Rustls, !SocketAddrLib, !Sockets}.

Definition log_startup_failure (stage failure : string) : io () :=
  log "startup_failed" [("stage", stage); ("error", failure)].
(** [inspect_err] with [log_startup_failure], and [?]: the error that is returned
    is the one that was logged. *)
Definition attempt {E A} `{!Display E} (stage : string) (p : io (result E A)) : io (result string A) :=
  r ← p;
  match r with
  | Ok a => mret (Ok a)
  | Err failure => _ ← log_startup_failure stage (display failure); mret (Err (display failure))
  end.

(** The tasks that are spawned. *)
Inductive Task := GithubRefreshLoop (v : Github.GitHubVerifier) | OidcRefreshLoop (v : Oidc.OidcVerifierSet).
Record Internal := {
  workload_address : SocketAddr;
  workload_tls : RustlsConfig;
  internal_state : Http.WorkloadAppState;
  workload_router : Http.Router;
}.
(** A process about to serve. *)
Record System := {
  public_listener : TcpListener;
  public_state : Http.AppState;
  public_router : Http.Router;
  internal : option Internal;
  spawned : list Task;
}.

Context (env : environment).
(** [env::var(name)] where only its success matters. *)
Definition env_ok : string -> option string := fun name => result_ok (env name).

Definition start_github (config : Config) :
  io (result string (Service.ExchangeService * KubernetesLeaseReplayLedger)) :=
  policy ←? attempt "GitHub authorization policy"
    (file ← trigger (ReadFile (policy_file config)); mret (Policy.policy_load file));
  _ ←? attempt "GitHub authorization policy contract" (mret
    (reject_if (bool_decide (Policy.version policy <> expected_policy_version config))
       "loaded policy version does not match EXPECTED_POLICY_VERSION"));
  now ← utc_now;
  keys ←? attempt "ES256 signing keyring"
    (load_keyring (keyring_file config) now (key_expiry_readiness_threshold config));
  ledger ←? attempt "Kubernetes Lease replay ledger" (in_cluster env_ok (replay_lease_namespace config));
  verifier ←? attempt "GitHub JWKS verifier"
    (mret (Github.new_verifier (github_exchange_audience config) (github_jwks_max_staleness config)));
  _ ←? attempt "GitHub JWKS warm-up" (Github.warm_up verifier);
  _ ← log "" [("dependency", "github_jwks"); ("message", "startup dependency is ready")];
  mret (Ok ({| Service.verifier := verifier; Service.policy := policy; Service.service_keys := keys;
               Service.issuer := issuer_url config; Service.output_audience := config_output_audience config;
               Service.token_ttl := config_token_ttl config |}, ledger)).

Definition start_oidc (config : Config) (service : Service.ExchangeService) :
  io (result string (option OidcExchange.OidcExchangeService)) :=
  match generic_oidc config with
  | None => mret (Ok None)
  | Some oidc_config =>
      policy ←? attempt "generic OIDC authorization policy"
        (file ← trigger (ReadFile (oidc_policy_file oidc_config)); mret (OidcPolicy.oidc_policy_load file));
      additional_ca ←? match additional_ca_file oidc_config with
                       | Some path => attempt "generic OIDC additional CA bundle" (Oidc.load_additional_ca path)
                       | None => mret (Ok [])
                       end;
      verifier ←? attempt "generic OIDC verifier configuration"
        (mret (Oidc.discover_with_additional_ca policy (github_jwks_max_staleness config) additional_ca));
      mret (Ok (Some {| OidcExchange.verifier := verifier; OidcExchange.policy := policy;
                        OidcExchange.oidc_signing_keys := Service.service_keys service;
                        OidcExchange.oidc_output_issuer := Service.issuer service;
                        OidcExchange.oidc_output_audience := Service.output_audience service;
                        OidcExchange.oidc_token_ttl := Service.token_ttl service |}))
  end.

Definition start_workload (config : Config) (workload_config : WorkloadConfig) (service : Service.ExchangeService) :
  io (result string (Workload.KubernetesTokenReviewer * Workload.WorkloadExchangeService)) :=
  now ← utc_now;
  workload_keys ←? attempt "workload RS256 signing keyring"
    (load_rsa_keyring (rsa_keyring_file workload_config) now (key_expiry_readiness_threshold config));
  _ ←? attempt "signing key separation"
    (mret (ensure_disjoint_from workload_keys (Service.service_keys service)));
  reviewer ←? attempt "Kubernetes TokenReview client" (Workload.reviewer_in_cluster env_ok);
  policy ←? attempt "workload authorization policy"
    (file ← trigger (ReadFile (workload_policy_file workload_config)); mret (WorkloadPolicy.workload_policy_load file));
  mret (Ok (reviewer,
    {| Workload.workload_policy := policy; Workload.workload_keys := workload_keys;
       Workload.task_keys := Service.service_keys service;
       Workload.workload_issuer := Service.issuer service;
       Workload.input_audience := workload_input_audience workload_config;
       Workload.workload_output_audience := workload_config_output_audience workload_config;
       Workload.task_output_audience := Service.output_audience service;
       Workload.workload_token_ttl := Service.token_ttl service |})).

Definition start_browser (config : Config) (service : Service.ExchangeService)
    (workload : Workload.WorkloadExchangeService) :
  io (result string (option BrowserHop1.BrowserHop1ExchangeService)) :=
  match browser_hop1 config with
  | None => mret (Ok None)
  | Some browser =>
      verifier ←? attempt "Steward browser-assertion JWKS"
        (BrowserHop1.verifier_load (steward_jwks_file browser) (steward_issuer browser) (assertion_audience browser));
      mret (Ok (Some {| BrowserHop1.browser_verifier := verifier;
                        BrowserHop1.browser_policy := Workload.workload_policy workload;
                        BrowserHop1.browser_signing_keys := Service.service_keys service;
                        BrowserHop1.browser_output_issuer := Service.issuer service;
                        BrowserHop1.browser_output_audience := browser_config_output_audience browser;
                        BrowserHop1.browser_token_ttl := (60 * ns_per_s)%Z |}))
  end.

Definition refresh_tasks (service : Service.ExchangeService) (oidc : option OidcExchange.OidcExchangeService) : list Task :=
  GithubRefreshLoop (Service.verifier service)
  :: match oidc with Some oidc => [OidcRefreshLoop (OidcExchange.verifier oidc)] | None => [] end.

(** The process with the internal listener, and the one without. *)
Definition start_separated (config : Config) (workload_config : WorkloadConfig)
    (service : Service.ExchangeService) (ledger : KubernetesLeaseReplayLedger)
    (oidc : option OidcExchange.OidcExchangeService) : io (result string System) :=
  '(reviewer, workload) ←? start_workload config workload_config service;
  tls ←? attempt "workload TLS identity" (mret (rustls_from_pem_file
    (tls_certificate_file workload_config) (tls_private_key_file workload_config)));
  listener ←? attempt "public listener" (mret (tcp_bind (listen_address config)));
  browser ←? start_browser config service workload;
  let '(public, workload_routes) :=
    Http.separated_routers (R := Workload.kubernetes_reviewer reviewer) (L := kubernetes_ledger ledger)
      service workload browser oidc in
  _ ← log "" [("public_address", display (listen_address config));
              ("workload_address", display (workload_listen_address workload_config)); ("workload_tls", "true");
              ("message", "identity exchange issuer listeners started")];
  mret (Ok {|
    public_listener := listener;
    public_state := {| Http.service := service; Http.workload := Some workload; Http.oidc := oidc |};
    public_router := public;
    internal := Some {|
      workload_address := workload_listen_address workload_config; workload_tls := tls;
      internal_state := {| Http.workload_service := workload; Http.browser_hop1 := browser |};
      workload_router := workload_routes |};
    spawned := refresh_tasks service oidc |}).

Definition start_public (config : Config) (service : Service.ExchangeService) (ledger : KubernetesLeaseReplayLedger)
    (oidc : option OidcExchange.OidcExchangeService) : io (result string System) :=
  listener ←? attempt "public listener" (mret (tcp_bind (listen_address config)));
  _ ← log "" [("address", display (listen_address config)); ("tls", "false"); ("workload_exchange", "false");
              ("message", "GitHub OIDC exchange issuer started")];
  mret (Ok {|
    public_listener := listener;
    public_state := {| Http.service := service; Http.workload := None; Http.oidc := oidc |};
    public_router :=
      match oidc with
      | Some oidc => Http.router_with_oidc (L := kubernetes_ledger ledger) service oidc
      | None => Http.router (L := kubernetes_ledger ledger) service
      end;
    internal := None;
    spawned := refresh_tasks service oidc |}).

Definition startup : io (result string System) :=
  config ←? attempt "configuration" (mret (from_env env));
  _ ← log "" [("issuer", issuer_url config); ("public_address", display (listen_address config));
              ("policy_contract", expected_policy_version config);
              ("workload_exchange", display_bool (bool_decide (is_Some (workload config))));
              ("browser_hop1", display_bool (bool_decide (is_Some (browser_hop1 config))));
              ("generic_oidc", display_bool (bool_decide (is_Some (generic_oidc config))));
              ("message", "identity exchange configuration loaded")];
  '(service, ledger) ←? start_github config;
  oidc ←? start_oidc config service;
  match workload config with
  | Some workload_config => start_separated config workload_config service ledger oidc
  | None => start_public config service ledger oidc
  end.
End startup.

(** ** What a started process is made of *)
(** The key IDs of the published set name one key each. *)
Lemma served_keys_unambiguous `{!Base64, !P256, !Rsa} (state : Http.AppState) :
  (forall w, Http.workload state = Some w ->
     ensure_disjoint_from (Workload.workload_keys w) (Service.service_keys (Http.service state)) = Ok ()) ->
  NoDup (jwk_kid <$> Http.served_keys state).
Proof.
  intros Hd. unfold Http.served_keys. destruct (Http.workload state) as [w|]; [|apply jwks_kids].
  specialize (Hd w eq_refl). unfold extend. rewrite sort_jwks_perm, fmap_app.
  destruct (jwks_kids (Service.service_keys (Http.service state))) as [Hn Hk].
  destruct (rsa_jwks_kids (Workload.workload_keys w)) as [Hn' Hk'].
  apply NoDup_app. split_and!; [done| |done]. intros k (key & Hkey & _)%Hk Hr%Hk'.
  by rewrite (ensure_disjoint_spec _ _ Hd k Hr) in Hkey.
Qed.

Section theorems.
Context `{jwt : Jwt, serde : SerdeJson, chrono : Chrono, b64 : Base64, p256 : P256, rsa : Rsa, sha : Sha2, url : UrlLib}.
Context `{reqwest : Reqwest, rustls : Rustls, addr : SocketAddrLib, sockets : !Sockets}.
Context (env : environment).

(** Start-up changes no lease and no exchange metric. *)
Definition startup_permit (h : trace_io) (X : Type) (e : event X) : Prop :=
  lease_write e = false /\ service_metric e = false.
(** The process ends by logging the failure it returns. *)
Definition logged_failure (h : trace_io) (failure : string) : Prop :=
  exists h0 stage u, h = h0 ++ [Obs (Log {| log_event := "startup_failed";
                                           log_fields := [("stage", stage); ("error", failure)] |}) u].
Definition startup_post {A} (R : A -> trace_io -> Prop) (r : result string A) (h : trace_io) : Prop :=
  match r with Ok a => R a h | Err failure => logged_failure h failure end.

Lemma wp_attempt {E A B} `{!Display E} stage (p : io (result E A)) (f : A -> io (result string B)) h
    (Q : A -> trace_io -> Prop) (R : B -> trace_io -> Prop) :
  wp startup_permit p h (fun r h' => forall a, r = Ok a -> Q a h') ->
  (forall a h', h `prefix_of` h' -> Q a h' -> wp startup_permit (f a) h' (startup_post R)) ->
  wp startup_permit (try_bind (attempt stage p) f) h (startup_post R).
Proof.
  intros Hp Hf. apply (wp_try_call _ _ _ _ (startup_post (fun a h' => h `prefix_of` h' /\ Q a h'))).
  - unfold attempt. eapply wp_call; [exact Hp|]. intros [a|e] h' Hh HQ; cbn; [by auto|].
    split; [done|]. intros u. cbn. by do 3 eexists.
  - intros a h' _ [Hh HQ]. by apply Hf.
  - done.
Qed.
(** A pure step, and the reading of a file. *)
Lemma wp_attempt_ret {E A B} `{!Display E} stage (r : result E A) (f : A -> io (result string B)) h
    (R : B -> trace_io -> Prop) :
  (forall a, r = Ok a -> wp startup_permit (f a) h (startup_post R)) ->
  wp startup_permit (try_bind (attempt stage (mret r)) f) h (startup_post R).
Proof. intros Hf. destruct r as [a|e]; [by apply Hf|]. split; [done|]. intros u. by do 3 eexists. Qed.
Definition reads (h : trace_io) (path : string) (file : result string string) : Prop :=
  Obs (ReadFile path) file ∈ h.
Lemma reads_prefix h h' path file : h `prefix_of` h' -> reads h path file -> reads h' path file.
Proof. intros [k ->] H. apply elem_of_app. by left. Qed.
Lemma wp_read {E A} path (f : result string string -> result E A) h :
  wp startup_permit (file ← trigger (ReadFile path); mret (f file)) h (fun r h' =>
    forall a, r = Ok a -> exists file, reads h' path file /\ f file = Ok a).
Proof.
  split; [done|]. intros file a Ha. exists file. split; [|done]. apply elem_of_app. right.
  by apply list_elem_of_singleton.
Qed.

Lemma wp_in_cluster variables namespace h :
  wp startup_permit (in_cluster variables namespace) h (fun _ _ => True).
Proof.
  unfold in_cluster. destruct (negb _); [done|]. destruct (variables _) as [host|]; [|done].
  destruct (_ || _); [done|]. case_bool_decide; [done|]. destruct (url_parse _); [|done]. by split.
Qed.
Lemma wp_reviewer_in_cluster variables h :
  wp startup_permit (Workload.reviewer_in_cluster variables) h (fun _ _ => True).
Proof.
  unfold Workload.reviewer_in_cluster. destruct (variables _) as [host|]; [|done].
  destruct (_ || _); [done|]. case_bool_decide; [done|]. destruct (url_parse _); [|done]. by split.
Qed.
(** A key set was fetched and installed. *)
Definition warmed (h : trace_io) : Prop :=
  exists document now u,
    Obs (JwksGet Github.JWKS_URL) (Ok {| status_error := None; jwks_body := Ok document |}) ∈ h
    /\ Github.usable_keys document <> ∅
    /\ Obs (Store GithubCache {| keys := Github.usable_keys document; fetched_at := now |}) u ∈ h.
Lemma warmed_prefix h k : warmed h -> warmed (h ++ k).
Proof. intros (d & now & u & Hd & Hu & Hs). exists d, now, u. rewrite !elem_of_app. auto. Qed.
Lemma wp_installs v h : Github.jwks_url v = Github.JWKS_URL ->
  wp startup_permit (Github.refresh_now v) h (fun r h' => forall u, r = Ok u -> warmed h').
Proof.
  intros Hv. split; [done|].
  intros [[[e1|] [document|e2]]|e3]; cbn -[Github.usable_keys Github.error_chain_detail]; try done.
  case_bool_decide as Hk; [done|]. cbn -[Github.usable_keys].
  split; [done|]. intros now. split; [done|]. intros [] [] _.
  exists document, (timestamp_of now), (). rewrite !elem_of_app, !list_elem_of_singleton, Hv. auto 10.
Qed.
Lemma wp_startup_warm_up v h : Github.jwks_url v = Github.JWKS_URL ->
  wp startup_permit (Github.warm_up v) h (fun r h' => forall u, r = Ok u -> warmed h').
Proof.
  intros Hv. split; [done|]. intros u. change (prog_bind ?f (Ret u)) with (f u). cbn beta.
  eapply (wp_call _ _ _ _ (fun r h' => forall u, r = Ok u -> warmed h')).
  - eapply wp_call; [by apply wp_installs|]. intros r h1 _ Hr.
    eapply (wp_call _ _ _ _ (fun _ _ => True)); [destruct r; [done|]|by intros _ h2 [k ->] _ u' Hu; apply warmed_prefix, Hr with u'].
    eapply wp_permit_mono; [|apply (Github.wp_record_refresh_failure v)]. by intros h' X e' [_ He].
  - intros r h1 _ Hr. split; [done|]. intros u' u'' Hu. by apply warmed_prefix, Hr with u''.
Qed.

(** *** The GitHub exchange *)
Definition ring_loaded {Key} (parse : string -> result KeyError Key) (version nm material : string)
    (h : trace_io) (path : string) (threshold : Z) (keys : ring Key) : Prop :=
  exists contents now, reads h path (Ok contents) /\ Obs UtcNow now ∈ h
    /\ load_ring parse version nm material now threshold contents = Ok keys.
Lemma wp_load_ring {Key} (parse : string -> result KeyError Key) version nm material path now threshold h :
  Obs UtcNow now ∈ h ->
  wp startup_permit (contents ← trigger (ReadFile path);
    mret (contents ← map_err KeyInvalid contents; load_ring parse version nm material now threshold contents)) h
    (fun r h' => forall keys, r = Ok keys -> ring_loaded parse version nm material h' path threshold keys).
Proof.
  intros Hn. split; [done|]. intros [contents|e] keys Hk; [|done]. exists contents, now. split_and!; [| |exact Hk].
  - apply elem_of_app. right. by apply list_elem_of_singleton.
  - apply elem_of_app. by left.
Qed.
Record github_started (c : Config) (s : Service.ExchangeService) (h : trace_io) : Prop := {
  github_policy : exists file, reads h (policy_file c) file /\ Policy.policy_load file = Ok (Service.policy s);
  github_version : Policy.version (Service.policy s) = expected_policy_version c;
  github_keys : ring_loaded parse_p256 KEYRING_VERSION "" "seed" h (keyring_file c)
                  (key_expiry_readiness_threshold c) (Service.service_keys s);
  github_verifier : Service.verifier s = {| Github.audience := github_exchange_audience c;
    Github.jwks_url := Github.JWKS_URL; Github.max_staleness := github_jwks_max_staleness c |};
  github_warm : warmed h;
  github_output : Service.issuer s = issuer_url c /\ Service.output_audience s = config_output_audience c
    /\ Service.token_ttl s = config_token_ttl c;
}.
Lemma ring_loaded_prefix {Key} (parse : string -> result KeyError Key) version nm material h h' path threshold keys :
  h `prefix_of` h' -> ring_loaded parse version nm material h path threshold keys ->
  ring_loaded parse version nm material h' path threshold keys.
Proof.
  intros [k ->] (contents & now & Hr & Hn & Hl). exists contents, now. unfold reads in *. rewrite !elem_of_app. auto.
Qed.
Lemma github_started_prefix c s h h' : h `prefix_of` h' -> github_started c s h -> github_started c s h'.
Proof.
  intros Hh [(file & Hf & Hp) ? Hk ? (d & now & u & Hd & Hu & Hs) ?]. split; try done.
  - exists file. split; [by eapply reads_prefix|done].
  - by eapply ring_loaded_prefix.
  - destruct Hh as [k ->]. apply warmed_prefix. by exists d, now, u.
Qed.
Lemma wp_start_github c h :
  wp startup_permit (start_github env c) h (startup_post (fun s h' => github_started c s.1 h')).
Proof.
  eapply wp_attempt; [apply wp_read|]. intros policy h1 _ Hp. apply wp_attempt_ret. intros [] Hv%reject_if_ok.
  apply bool_decide_eq_false, dec_stable in Hv. split; [done|]. intros now.
  change (prog_bind ?f (Ret now)) with (f now). cbn beta.
  eapply wp_attempt; [apply wp_load_ring; apply elem_of_app; right; by apply list_elem_of_singleton|].
  intros keys h2 H2 Hk. eapply (wp_attempt _ _ _ _ (fun _ _ => True)); [eapply wp_mono; [apply wp_in_cluster|done]|].
  intros ledger h3 H3 _. apply wp_attempt_ret. unfold Github.new_verifier.
  intros verifier ([] & _ & [= <-])%result_bind_ok.
  eapply wp_attempt; [by apply wp_startup_warm_up|]. intros [] h4 H4 Hw. split; [done|]. intros u.
  change (prog_bind ?f (Ret u)) with (f u). cbn beta. apply (github_started_prefix _ _ h4); [apply prefix_app_r; reflexivity|].
  destruct Hp as (file & Hf & Hp). split; try done.
  - exists file. split; [|done]. eapply reads_prefix; [|exact Hf].
    etrans; [eapply prefix_app_l; exact H2|]. by etrans.
  - eapply ring_loaded_prefix; [|exact Hk]. by etrans.
Qed.

(** *** The other exchanges *)
Record oidc_started (c : Config) (oc : GenericOidcConfig) (s : Service.ExchangeService)
    (o : OidcExchange.OidcExchangeService) (h : trace_io) : Prop := {
  oidc_policy : exists file, reads h (oidc_policy_file oc) file
    /\ OidcPolicy.oidc_policy_load file = Ok (OidcExchange.policy o);
  oidc_providers : exists certificates,
    Oidc.discover_with_additional_ca (OidcExchange.policy o) (github_jwks_max_staleness c) certificates
      = Ok (OidcExchange.verifier o)
    /\ match additional_ca_file oc with
       | Some path => exists pem, reads h path pem /\ Oidc.additional_ca path pem = Ok certificates
       | None => certificates = []
       end;
  oidc_shares : OidcExchange.oidc_signing_keys o = Service.service_keys s
    /\ OidcExchange.oidc_output_issuer o = Service.issuer s
    /\ OidcExchange.oidc_output_audience o = Service.output_audience s
    /\ OidcExchange.oidc_token_ttl o = Service.token_ttl s;
}.
Definition oidc_as_configured c s (o : option OidcExchange.OidcExchangeService) h : Prop :=
  match generic_oidc c, o with
  | Some oc, Some o => oidc_started c oc s o h
  | None, None => True
  | _, _ => False
  end.
Lemma oidc_as_configured_prefix c s o h h' :
  h `prefix_of` h' -> oidc_as_configured c s o h -> oidc_as_configured c s o h'.
Proof.
  intros Hh. unfold oidc_as_configured. destruct (generic_oidc c) as [oc|], o as [o|]; try done.
  intros [(file & Hf & Hp) (l & Hd & Hc) ?]. split; [exists file| |done].
  - split; [by eapply reads_prefix|done].
  - exists l. split; [done|]. destruct (additional_ca_file oc); [|done].
    destruct Hc as (pem & Hr & Hpem). exists pem. split; [by eapply reads_prefix|done].
Qed.
Lemma wp_start_oidc c s h :
  wp startup_permit (start_oidc c s) h (startup_post (fun o h' => oidc_as_configured c s o h')).
Proof.
  unfold start_oidc, oidc_as_configured. destruct (generic_oidc c) as [oc|]; [|done].
  eapply wp_attempt; [apply wp_read|]. intros policy h1 _ (file & Hf & Hp).
  eapply (wp_try_call _ _ _ _ (startup_post (fun l h' => h1 `prefix_of` h' /\
    match additional_ca_file oc with
    | Some path => exists pem, reads h' path pem /\ Oidc.additional_ca path pem = Ok l
    | None => l = [] end))).
  - destruct (additional_ca_file oc) as [path|]; [|done].
    eapply wp_call; [apply wp_read|]. intros [l|e] h2 [k ->] Hl; cbn.
    + split; [by apply prefix_app_r|]. by apply Hl.
    + split; [done|]. intros u. cbn. by do 3 eexists.
  - intros l h2 _ [H2 Hl]. apply wp_attempt_ret. intros v Hv. split; cbn; [| |done].
    + exists file. split; [by eapply reads_prefix|done].
    + by exists l.
  - done.
Qed.

Record workload_started (c : Config) (wc : WorkloadConfig) (s : Service.ExchangeService)
    (w : Workload.WorkloadExchangeService) (h : trace_io) : Prop := {
  workload_ring : ring_loaded parse_rsa RSA_KEYRING_VERSION "RSA " "private_key_pkcs8_pem" h (rsa_keyring_file wc)
                    (key_expiry_readiness_threshold c) (Workload.workload_keys w);
  workload_disjoint : ensure_disjoint_from (Workload.workload_keys w) (Service.service_keys s) = Ok ();
  workload_rules : exists file, reads h (workload_policy_file wc) file
    /\ WorkloadPolicy.workload_policy_load file = Ok (Workload.workload_policy w);
  workload_inputs : Workload.input_audience w = workload_input_audience wc
    /\ Workload.workload_output_audience w = workload_config_output_audience wc;
  workload_shares : Workload.task_keys w = Service.service_keys s
    /\ Workload.workload_issuer w = Service.issuer s
    /\ Workload.task_output_audience w = Service.output_audience s
    /\ Workload.workload_token_ttl w = Service.token_ttl s;
}.
Lemma workload_started_prefix c wc s w h h' :
  h `prefix_of` h' -> workload_started c wc s w h -> workload_started c wc s w h'.
Proof.
  intros Hh [Hr ? (file & Hf & Hp) ? ?]. split; try done; [by eapply ring_loaded_prefix|].
  exists file. split; [by eapply reads_prefix|done].
Qed.
Lemma wp_start_workload c wc s h :
  wp startup_permit (start_workload env c wc s) h (startup_post (fun w h' => workload_started c wc s w.2 h')).
Proof.
  split; [done|]. intros now. change (prog_bind ?f (Ret now)) with (f now). cbn beta.
  eapply wp_attempt; [apply wp_load_ring; apply elem_of_app; right; by apply list_elem_of_singleton|].
  intros keys h1 _ Hk. apply wp_attempt_ret. intros [] Hd.
  eapply (wp_attempt _ _ _ _ (fun _ _ => True)); [eapply wp_mono; [apply wp_reviewer_in_cluster|done]|].
  intros reviewer h2 H2 _. eapply wp_attempt; [apply wp_read|]. intros policy h3 H3 Hp.
  split; cbn; try done. eapply ring_loaded_prefix; [|exact Hk]. by etrans.
Qed.

Definition browser_as_configured (c : Config) (s : Service.ExchangeService) (w : Workload.WorkloadExchangeService)
    (b : option BrowserHop1.BrowserHop1ExchangeService) (h : trace_io) : Prop :=
  match browser_hop1 c, b with
  | Some bc, Some b =>
      (exists file, reads h (steward_jwks_file bc) file
         /\ BrowserHop1.verifier_of_file (steward_issuer bc) (assertion_audience bc) file
            = Ok (BrowserHop1.browser_verifier b))
      /\ BrowserHop1.browser_policy b = Workload.workload_policy w
      /\ BrowserHop1.browser_signing_keys b = Service.service_keys s
      /\ BrowserHop1.browser_output_issuer b = Service.issuer s
      /\ BrowserHop1.browser_output_audience b = browser_config_output_audience bc
      /\ as_secs (BrowserHop1.browser_token_ttl b) = 60%Z
  | None, None => True
  | _, _ => False
  end.
Lemma wp_start_browser c s w h :
  wp startup_permit (start_browser c s w) h (startup_post (fun b h' => browser_as_configured c s w b h')).
Proof.
  unfold start_browser, browser_as_configured. destruct (browser_hop1 c) as [bc|]; [|done].
  eapply wp_attempt.
  - unfold BrowserHop1.verifier_load. destruct (_ || _); [done|]. apply wp_read.
  - intros v h1 _ Hv. by split_and!.
Qed.

(** *** The process *)
Definition internal_started (c : Config) (sys : System) (h : trace_io) : Prop :=
  let s := Http.service (public_state sys) in
  match workload c, Http.workload (public_state sys), internal sys with
  | Some wc, Some w, Some i =>
      workload_started c wc s w h
      /\ workload_address i = workload_listen_address wc
      /\ Http.workload_service (internal_state i) = w
      /\ browser_as_configured c s w (Http.browser_hop1 (internal_state i)) h
  | None, None, None => True
  | _, _, _ => False
  end.
Record started (c : Config) (sys : System) (h : trace_io) : Prop := {
  process_github : github_started c (Http.service (public_state sys)) h;
  process_oidc : oidc_as_configured c (Http.service (public_state sys)) (Http.oidc (public_state sys)) h;
  process_internal : internal_started c sys h;
  process_routers : exists ledger reviewer,
    public_router sys = Http.build_router (L := kubernetes_ledger ledger) (public_state sys)
    /\ forall i, internal sys = Some i ->
         workload_router i = Http.build_workload_router (R := reviewer) (L := kubernetes_ledger ledger) (internal_state i);
  process_tasks : spawned sys = refresh_tasks (Http.service (public_state sys)) (Http.oidc (public_state sys));
  process_keys : NoDup (jwk_kid <$> Http.served_keys (public_state sys));
}.
Lemma wp_start_public c s ledger o h :
  workload c = None -> github_started c s h -> oidc_as_configured c s o h ->
  wp startup_permit (start_public c s ledger o) h (startup_post (started c)).
Proof.
  intros Hc Hs Ho. apply wp_attempt_ret. intros listener _. split; [done|]. intros u.
  split; cbn -[Http.build_router Http.served_keys].
  - eapply github_started_prefix; [|done]. by apply prefix_app_r.
  - eapply oidc_as_configured_prefix; [|done]. by apply prefix_app_r.
  - unfold internal_started. by rewrite Hc.
  - exists ledger, Http.disabled_reviewer. split; [by destruct o|done].
  - done.
  - by apply served_keys_unambiguous.
Qed.
Lemma wp_start_separated c wc s ledger o h :
  workload c = Some wc -> github_started c s h -> oidc_as_configured c s o h ->
  wp startup_permit (start_separated env c wc s ledger o) h (startup_post (started c)).
Proof.
  intros Hc Hs Ho. eapply wp_try_call; [apply wp_start_workload| |done]. intros [reviewer w] h1 H1 Hw.
  apply wp_attempt_ret. intros tls _. apply wp_attempt_ret. intros listener _.
  eapply wp_try_call; [apply wp_start_browser| |done]. intros b h2 H2 Hb. split; [done|]. intros u.
  assert (h2 `prefix_of` h2 ++ [Obs (Log {| log_event := ""; log_fields := [
    ("public_address", display (listen_address c)); ("workload_address", display (workload_listen_address wc));
    ("workload_tls", "true"); ("message", "identity exchange issuer listeners started")] |}) u]) as H3
    by by apply prefix_app_r.
  assert (h `prefix_of` h2) as H4 by by etrans.
  split; cbn -[Http.build_router Http.build_workload_router Http.served_keys].
  - eapply github_started_prefix; [|done]. by etrans.
  - eapply oidc_as_configured_prefix; [|done]. by etrans.
  - unfold internal_started. cbn. rewrite Hc. split_and!; [|done|done|].
    + eapply workload_started_prefix; [|done]. by etrans.
    + unfold browser_as_configured in *. destruct (browser_hop1 c), b; try done.
      destruct Hb as [(file & Hf & Hv) ?]. split; [|done]. exists file. split; [by eapply reads_prefix|done].
  - exists ledger, (Workload.kubernetes_reviewer reviewer). split; [done|]. by intros i [= <-].
  - done.
  - apply served_keys_unambiguous. intros w' [= <-]. apply Hw.
Qed.

Lemma wp_startup : wp startup_permit (startup env) []
  (startup_post (fun sys h => exists c, from_env env = Ok c /\ started c sys h)).
Proof.
  apply wp_attempt_ret. intros c Hc. split; [done|]. intros u. change (prog_bind ?f (Ret u)) with (f u). cbn beta.
  eapply wp_try_call; [apply wp_start_github| |done]. intros [s ledger] h1 _ Hs.
  eapply wp_try_call; [apply wp_start_oidc| |done]. intros o h2 H2 Ho.
  eapply github_started_prefix in Hs; [|exact H2].
  eapply (wp_mono _ _ _ (startup_post (started c))).
  - destruct (workload c) as [wc|] eqn:Hwc; [by apply wp_start_separated|by apply wp_start_public].
  - intros [sys|e] h3 _; cbn; eauto.
Qed.
Lemma startup_started sys t : runs (startup env) t (Ok sys) -> exists c, from_env env = Ok c /\ started c sys t.
Proof. intros Hr. exact (wp_runs _ _ [] _ _ _ wp_startup Hr). Qed.

(** C14: a process that starts serves what its configuration says.  Its policies
    passed their validation, of the version expected; its keyrings and key cache
    were loaded; every exchange of a task token has the one issuer, audience,
    lifetime and P-256 keyring; the optional exchanges are present exactly when
    they are configured; the two routers share one ledger, and no two published
    keys have one ID.  A process that does not start logs the failure it reports
    last.  Either way no lease and no exchange metric was touched. *)
Theorem startup_sound r t :
  runs (startup env) t r ->
  startup_post (fun sys h => exists c, from_env env = Ok c /\ started c sys h) r t
  /\ forall t1 X (e : event X) x t2, t = t1 ++ Obs e x :: t2 -> startup_permit t1 X e.
Proof.
  intros Hr. split; [exact (wp_runs _ _ [] _ _ _ wp_startup Hr)|].
  intros t1 X e x t2 Ht. exact (wp_permitted _ _ [] _ _ _ _ _ _ _ _ wp_startup Hr Ht).
Qed.
End theorems.
