(* ===== verification/System.v ===== *)
(** * The system

    The exchange endpoints of any number of replicas, taken together: a record is
    redeemed once, across endpoints and replicas, and every request is answered.
    The interface [Exchange] is implemented here at the level of HTTP requests, on
    top of the implementations of the four services. *)
From S2P Require Import Prelude Text Prog Libs State Constants Concrete Replay Simulator ReplaySafety Exchange Keys Config Main.
From S2P Require GithubClaims Github Policy Service WorkloadPolicy Workload OidcPolicy Oidc OidcExchange BrowserHop1 Http.

(** ** Requests to replicas *)
Inductive Endpoint := GithubEndpoint | OidcEndpoint | WorkloadEndpoint | BrowserEndpoint.

Section calls.
Context `{jwt : Jwt, laws : !JwtLaws, serde : SerdeJson, chrono : Chrono, b64 : Base64, p256 : P256, rsa : Rsa, sha : Sha2, url : UrlLib}.
Context `{R : !Workload.TokenReviewer, audited : !Workload.AuditedReviewer R, L : !ReplayLedger, lease : !LeaseLedger L}.

(** A request, and the states of the replica that receives it. *)
Record Call := {
  call_state : Http.AppState;
  call_internal : Http.WorkloadAppState;
  call_endpoint : Endpoint;
  call_request : Http.Request;
}.
Definition answer (c : Call) : io Http.Response :=
  match call_endpoint c with
  | GithubEndpoint => Http.exchange (call_state c) (call_request c)
  | OidcEndpoint => Http.generic_oidc_exchange (call_state c) (call_request c)
  | WorkloadEndpoint => Http.workload_exchange (call_internal c) (call_request c)
  | BrowserEndpoint => Http.browser_hop1_exchange (call_internal c) (call_request c)
  end.
(** The record a request redeems: the JTI of a GitHub assertion or a projected
    token, the replay identifier of a generic assertion, the prefixed JTI of an
    attestation. *)
Definition redeemed_record (c : Call) : option (string * Z) :=
  match call_endpoint c with
  | GithubEndpoint =>
      assertion ← Http.bearer_assertion (call_request c); Service.github_exchange.(identifies) (Http.service (call_state c), assertion)
  | OidcEndpoint =>
      svc ← Http.oidc (call_state c);
      assertion ← Http.bearer_assertion (call_request c); OidcExchange.oidc_exchange.(identifies) (svc, assertion)
  | WorkloadEndpoint =>
      assertion ← Http.bearer_assertion (call_request c);
      Workload.workload_exchange.(identifies) (Http.workload_service (call_internal c), assertion)
  | BrowserEndpoint =>
      svc ← Http.browser_hop1 (call_internal c); BrowserHop1.browser_exchange.(identifies) (svc, "", Http.body (call_request c))
  end.
(** An answer that hands out a token for a record: every token but the role token
    of a reviewed caller that the policy gives roles, which needs no record. *)
Definition hands_out (c : Call) (resp : Http.Response) (h : trace_io) : Prop :=
  Http.status resp = 200%Z
  /\ (call_endpoint c = WorkloadEndpoint -> forall assertion, Http.bearer_assertion (call_request c) = Some assertion ->
        ~ Workload.role_caller (Http.workload_service (call_internal c)) assertion h).

Lemma review_disciplined P token audience h :
  wp (lease_discipline P) (Workload.review token audience) h (fun _ _ => True).
Proof.
  eapply wp_permit_mono; [|eapply wp_mono; [apply Workload.review_spec|done]].
  intros h' X e [? _]. by apply lease_discipline_allows.
Qed.
(** An endpoint that ends in a call of an exchange. *)
Lemma wp_endpoint {C A} (X : Exchange C A) P (c : C) (f : A -> Http.Response) h (issued : Http.Response -> trace_io -> Prop) :
  (forall id e, identifies c = Some (id, e) -> P id e) ->
  (forall a h', issued (f a) h' -> issues c a h') ->
  wp (lease_discipline P) (a ← perform_call c; mret (f a)) h (fun resp h' =>
    issued resp h' -> exists id e, identifies c = Some (id, e) /\ 1 <= writes (lease_name id) h').
Proof. intros HP Hf. eapply wp_call; [by apply perform_spec|]. intros a h' _ Ha Hi. by apply Ha, Hf. Qed.
Lemma wp_refused P h (resp : Http.Response) (Rest : trace_io -> Prop) (B : Prop) :
  Http.status resp <> 200%Z -> wp (lease_discipline P) (Ret resp) h (fun resp h' => Http.status resp = 200%Z /\ Rest h' -> B).
Proof. intros Hn [? _]. done. Qed.
(** Reduces the options a request was found to consist of. *)
Ltac known_option :=
  repeat match goal with |- context [Some ?x ≫= ?f] => change (Some x ≫= f) with (f x); cbn beta end.
#[export,refine] Instance http_exchange : Exchange Call Http.Response := {|
  perform_call := answer;
  identifies := redeemed_record;
  issues := hands_out;
|}.
Proof.
  intros P [app internal endpoint request] h. unfold answer, redeemed_record, hands_out.
  cbn [call_state call_internal call_endpoint call_request].
  destruct endpoint; cbn [call_endpoint].
  - unfold Http.exchange. destruct (Http.bearer_assertion request) as [assertion|]; [|by intros _ []]. known_option. intros HP.
    by apply (wp_endpoint Service.github_exchange P (Http.service app, assertion) _ h (fun resp _ => Http.status resp = 200%Z /\ _) HP);
      intros [token|[]] h' [? _].
  - unfold Http.generic_oidc_exchange. destruct (negb _); [by intros _ []|]. destruct (Http.oidc app) as [svc|]; [|by intros _ []].
    destruct (Http.bearer_assertion request) as [assertion|]; [|by intros _ []]. known_option. intros HP.
    by apply (wp_endpoint OidcExchange.oidc_exchange P (svc, assertion) _ h (fun resp _ => Http.status resp = 200%Z /\ _) HP);
      intros [token|[]] h' [? _].
  - unfold Http.workload_exchange. destruct (negb _); [by intros _ []|].
    destruct (Http.bearer_assertion request) as [assertion|] eqn:Hb; [|by intros _ []]. known_option. intros HP.
    apply (wp_endpoint Workload.workload_exchange P (Http.workload_service internal, assertion) _ h
      (fun resp h' => Http.status resp = 200%Z /\ (WorkloadEndpoint = WorkloadEndpoint -> forall a, Some assertion = Some a ->
         ~ Workload.role_caller (Http.workload_service internal) a h')) HP).
    intros [token|[]] h' [? Hr]; [|done..]. split; [done|]. by apply Hr.
  - unfold Http.browser_hop1_exchange. destruct (Http.browser_hop1 internal) as [svc|]; [|by intros _ []].
    case_bool_decide; [by intros _ []|]. destruct (Http.bearer_assertion request) as [assertion|]; [|by intros _ []].
    destruct (_ || _); [by intros _ []|]. known_option. intros HP. eapply wp_call; [apply review_disciplined|].
    intros [w|[]] h1 _ _; [|by intros []..].
    by apply (wp_endpoint BrowserHop1.browser_exchange P (svc, Workload.reviewed_username w, Http.body request) _ h1
      (fun resp _ => Http.status resp = 200%Z /\ _) HP); intros [token|[]] h' [? _].
Defined.
End calls.

(** ** Properties of the system *)
Section properties.
Context `{jwt : Jwt, laws : !JwtLaws, serde : SerdeJson, chrono : Chrono, clock : !ChronoLaws, b64 : Base64, p256 : P256, rsa : Rsa}.
Context `{sha : Sha2, digest : !Sha2Laws, url : UrlLib}.

(** C1: every token that any replica hands out on any of its exchange endpoints is
    handed out for a record that was written for it, role tokens of the workload
    endpoint excepted; and of all the requests that any replicas answer, in any
    interleaving against a shared Lease API, at most one is answered with a token for
    one record.  So a GitHub assertion, a generic OIDC assertion, a task's projected
    token or a browser attestation is exchanged at most once, as long as no replica's
    clock passes the retention of the records the two answers would need.  What other
    requests present, genuine or forged, and with whatever expiry, does not matter. *)
Theorem system_at_most_once `{R : !Workload.TokenReviewer, audited : !Workload.AuditedReviewer R}
    `{L : !ReplayLedger, lease : !LeaseLedger L}
    {S} serve `{server : !LeaseServer S serve} (calls : gmap nat Call) s c :
  server_ok s -> reachable serve s (perform_task <$> calls) c ->
  (forall i c1 resp1, finished c i (c1, resp1) -> hands_out c1 resp1 (of_task i (history c)) ->
     exists id e, redeemed_record c1 = Some (id, e) /\ 1 <= writes (lease_name id) (of_task i (history c)))
  /\ (forall i j c1 c2 resp1 resp2 id e1 e2,
     redeemed_record c1 = Some (id, e1) -> redeemed_record c2 = Some (id, e2) ->
     clocks_ok (Z.min e1 e2) (history c) ->
     finished c i (c1, resp1) -> finished c j (c2, resp2) ->
     hands_out c1 resp1 (of_task i (history c)) -> hands_out c2 resp2 (of_task j (history c)) -> i = j).
Proof.
  intros Hs Hr. split.
  - intros i c1 resp1 Hi Ho.
    destruct (finished_runs _ _ _ _ _ _ Hr Hi) as (p & (c' & <- & _)%lookup_fmap_Some & Hruns).
    apply (wp_runs _ _ [] _ _ _ (perform_task_issues c')) in Hruns; [exact Hruns|exact Ho].
  - intros i j c1 c2 resp1 resp2 id e1 e2 H1 H2 Hc Hi Hj Ho1 Ho2.
    by apply (calls_at_most_once serve calls s c i j c1 c2 resp1 resp2 id id e1 e2).
Qed.

(** The endpoints, one by one. *)
Lemma bound_github_endpoint ledger state request :
  len_bound (Http.exchange (L := kubernetes_ledger ledger) state request) 64.
Proof.
  unfold Http.exchange. destruct (Http.bearer_assertion _); [|done].
  apply len_bound_answer, Service.bound_service_exchange.
Qed.
Lemma bound_oidc_endpoint ledger state request :
  len_bound (Http.generic_oidc_exchange (L := kubernetes_ledger ledger) state request) 47.
Proof.
  unfold Http.generic_oidc_exchange. destruct (negb _); [done|]. destruct (Http.oidc _); [|done].
  destruct (Http.bearer_assertion _); [|done]. apply len_bound_answer, OidcExchange.bound_oidc_exchange.
Qed.
Lemma bound_workload_endpoint reviewer ledger state request :
  len_bound (Http.workload_exchange (R := Workload.kubernetes_reviewer reviewer) (L := kubernetes_ledger ledger) state request) 34.
Proof.
  unfold Http.workload_exchange. destruct (negb _); [done|]. destruct (Http.bearer_assertion _); [|done].
  apply len_bound_answer, Workload.bound_exchange.
Qed.
Lemma bound_browser_endpoint reviewer ledger state request :
  len_bound (Http.browser_hop1_exchange (R := Workload.kubernetes_reviewer reviewer) (L := kubernetes_ledger ledger) state request) 36.
Proof.
  unfold Http.browser_hop1_exchange. destruct (Http.browser_hop1 _); [|done]. case_bool_decide; [done|].
  destruct (Http.bearer_assertion _); [|done]. destruct (_ || _); [done|].
  apply (len_bound_bind _ _ 2 34); [apply Workload.bound_review|].
  intros [w|[]]; [|done..]. apply len_bound_answer, BrowserHop1.bound_browser_exchange.
Qed.

(** Every request to an exchange endpoint is answered, whatever the
    environment does: after at most 64 events, the verification, the redemption
    with its clean-up, the signing and the metrics included. *)
Theorem endpoints_terminate reviewer ledger (c : Call) :
  len_bound (answer (R := Workload.kubernetes_reviewer reviewer) (L := kubernetes_ledger ledger) c) 64.
Proof.
  unfold answer. destruct (call_endpoint c).
  - apply bound_github_endpoint.
  - eapply len_bound_mono; [apply bound_oidc_endpoint|]. lia.
  - eapply len_bound_mono; [apply bound_workload_endpoint|]. lia.
  - eapply len_bound_mono; [apply bound_browser_endpoint|]. lia.
Qed.
End properties.

(** ** A system *)
Definition policy_document : Value := object [
  ("version", VString SOURCE_AUTH_POLICY_VERSION); ("service_group", VString (Policy.SERVICE_PREFIX +:+ "ci"));
  ("acting_group_prefix", VString Policy.ACTING_PREFIX); ("allowed_email_domains", str_list ["example.com"]);
  ("repositories", VArray [object [("owner_id", VString "10"); ("repository_id", VString "*"); ("events", str_list ["push"])]]);
  ("actors", object [("12", object [("email", VString "a@example.com"); ("verified", VBool true);
     ("canonical_user_id", VString "usr_0123456789abcdef0123456789abcdef")])])].
Definition key_document (version kid field material : string) : Value := object [
  ("version", VString version); ("current_kid", VString kid);
  ("keys", VArray [object [("kid", VString kid); (field, VString material); ("not_before", VString "0");
                           ("not_after", VString "1800000000000000000")]])].
Definition task_document : Value := object [
  ("service", VString "runner"); ("owner_canonical_user_id", VString "usr_0123456789abcdef0123456789abcdef");
  ("owner_email", VString "owner@example.com")].
Definition identity_document (name : string) (rest : list (string * Value)) : Value := object (
  ("username", VString ("system:serviceaccount:steward:" +:+ name))
  :: ("subject", VString ("kubernetes:serviceaccount:steward:" +:+ name)) :: rest).
Definition workload_document : Value := object [
  ("version", VString WORKLOAD_POLICY_VERSION);
  ("identities", VArray [identity_document "gateway" [("roles", str_list ["browser-hop1-issuer"])];
                         identity_document "runner" [("task", task_document)]])].
Definition oidc_document : Value := object [
  ("version", VString OidcPolicy.OIDC_POLICY_VERSION);
  ("providers", VArray [object [("issuer", VString "https://ci.example"); ("audience", VString "exchange");
     ("bindings", VArray [object [("claims", object [("sub", VString "job"); ("branch", VString "main")]);
                                  ("task", task_document)]])]])].
Definition system_documents : gmap string Value := list_to_map [
  ("policy", policy_document); ("keyring", key_document KEYRING_VERSION "k1" "seed" sample_seed);
  ("rsa keyring", key_document RSA_KEYRING_VERSION "r1" "private_key_pkcs8_pem" "rsa key");
  ("workload policy", workload_document); ("oidc policy", oidc_document);
  ("steward keys", VArray [VArray [VString "s1"; VString "steward-key"; VBool true]]);
  ("discovery", object [("issuer", VString "https://ci.example"); ("jwks_uri", VString "https://ci.example/jwks")]);
  ("provider keys", VArray [VArray [VString "ci1"; VString "ci-key"; VBool false]])].
Definition system_tokens : gmap string Token :=
  Service.sample_tokens ∪ Workload.workload_tokens ∪ OidcExchange.oidc_tokens ∪ BrowserHop1.browser_tokens.
Definition system_environment : environment := fun name =>
  match list_to_map (M := gmap string string) [
    ("ISSUER_URL", "https://exchange.example"); ("OUTPUT_AUDIENCE", "steward-task-api");
    ("GITHUB_EXCHANGE_AUDIENCE", "exchange"); ("EXPECTED_POLICY_VERSION", SOURCE_AUTH_POLICY_VERSION);
    ("POLICY_FILE", "/policy"); ("KEYRING_FILE", "/keyring"); ("REPLAY_LEASE_NAMESPACE", "identity");
    ("KUBERNETES_SERVICE_HOST", "kubernetes"); ("KUBERNETES_CA_CERTIFICATE_FILE", "/ca");
    ("KUBERNETES_SERVICE_ACCOUNT_TOKEN_FILE", "/token");
    ("GENERIC_OIDC_ENABLED", "true"); ("GENERIC_OIDC_POLICY_FILE", "/oidc-policy");
    ("GENERIC_OIDC_ADDITIONAL_CA_FILE", "/ca");
    ("WORKLOAD_EXCHANGE_ENABLED", "true"); ("WORKLOAD_INPUT_AUDIENCE", "exchange");
    ("WORKLOAD_OUTPUT_AUDIENCE", "openshell-api"); ("WORKLOAD_POLICY_FILE", "/workload-policy");
    ("WORKLOAD_RSA_KEYRING_FILE", "/rsa-keyring"); ("TLS_CERTIFICATE_FILE", "/tls.crt");
    ("TLS_PRIVATE_KEY_FILE", "/tls.key"); ("BROWSER_HOP1_ENABLED", "true");
    ("BROWSER_HOP1_STEWARD_ISSUER", "https://steward.example"); ("BROWSER_HOP1_ASSERTION_AUDIENCE", "identity");
    ("BROWSER_HOP1_OUTPUT_AUDIENCE", "https://steward.example/mcp");
    ("BROWSER_HOP1_STEWARD_JWKS_FILE", "/steward-keys")] !! name with
  | Some value => Ok value | None => Err NotPresent end.

#[local] Instance system_jwt : Jwt := concrete_jwt system_tokens.
#[local] Instance system_jwt_laws : JwtLaws := concrete_jwt_laws system_tokens.
#[local] Instance system_serde : SerdeJson := concrete_serde system_documents.
#[local] Instance system_addresses : SocketAddrLib := {| SocketAddr := string; parse_socket_addr s := Some s |}.
#[local] Instance system_sockets : Sockets := {|
  RustlsConfig := string; TcpListener := string;
  rustls_from_pem_file certificate _ := Ok certificate; tcp_bind := Ok; display_addr := fun s => s |}.
Definition review_of (name : string) : Value := object [("status", object [
  ("authenticated", VBool true); ("audiences", str_list ["exchange"]);
  ("user", object [("username", VString ("system:serviceaccount:steward:" +:+ name))])])].
Definition system_world : World := {|
  clock := 1700000010 * ns_per_s;
  files := list_to_map [("/policy", "policy"); ("/keyring", "keyring"); ("/ca", "certificate"); ("/token", "secret");
    ("/oidc-policy", "oidc policy"); ("/workload-policy", "workload policy"); ("/rsa-keyring", "rsa keyring");
    ("/steward-keys", "steward keys")];
  leases := ∅; versions := ∅; next_version := 1; api_up := true; timeouts := false;
  github_cache := {| keys := ∅; fetched_at := 0 |};
  github_refresh := {| last_soft_attempt := 0; last_forced_attempt := 0; last_forced_failed := false |};
  oidc_caches := ∅; oidc_refreshes := ∅; continue_cell := None;
  readiness_cell := {| checked_at := None; ready := false |}; counts := fun _ => 0%Z; logs := [];
  Simulator.jwks := {[Github.JWKS_URL := [{| key_id := Some "gh1"; key_algorithm := Some KeyRS256;
                                   public_key_use := Some Signature; material := "github-key" |}]]};
  streams := list_to_map [("https://ci.example/.well-known/openid-configuration", [Some "disc"; Some "overy"]);
                          ("https://ci.example/jwks", [Some "provider keys"])];
  reviews := list_to_map [("projected", review_of "runner"); ("gateway token", review_of "gateway")] |}.

Lemma run_world_ok `{jwt : Jwt} {A} (p : io A) w : world_ok w -> world_ok (run handle p w).2.
Proof.
  revert w. induction p as [a|X e k IH]; intros w Hw; [done|]. cbn.
  destruct (handle X e w) as [x w'] eqn:Hh. apply IH. by apply (serve_ok (LeaseServer := simulated_server) X e w x w').
Qed.
(** The system that starts in this world, and the world it leaves. *)
Definition system_run : result string System * World := run handle (startup system_environment) system_world.
Definition system_trace : trace_io := run_trace handle (startup system_environment) system_world.
Lemma system_starts : runs (startup system_environment) system_trace system_run.1.
Proof. by apply run_trace_runs. Qed.
Lemma system_ok : is_ok system_run.1 = true.
Proof. by vm_compute. Qed.

Lemma startup_sound_witness :
  exists sys c, system_run.1 = Ok sys /\ from_env system_environment = Ok c
  /\ NoDup (jwk_kid <$> Http.served_keys (public_state sys)).
Proof.
  pose proof system_ok as Hok. destruct (startup_sound system_environment _ _ system_starts) as [Hs _].
  destruct system_run.1 as [sys|e]; [|discriminate Hok]. destruct Hs as (c & Hc & Hs).
  exists sys, c. split_and!; [done|done|]. apply Hs.
Defined.

#[local] Instance system_ledger : ReplayLedger := kubernetes_ledger sample_ledger.
#[local] Instance system_lease_ledger : LeaseLedger system_ledger := kubernetes_lease_ledger sample_ledger.
#[local] Instance system_reviewer : Workload.TokenReviewer := Workload.kubernetes_reviewer Workload.sample_reviewer.
#[local] Instance system_audited : Workload.AuditedReviewer system_reviewer :=
  Workload.kubernetes_audited Workload.sample_reviewer.
Definition system_state : Http.AppState :=
  match system_run.1 with
  | Ok sys => public_state sys
  | Err _ => {| Http.service := Service.sample_service; Http.workload := None; Http.oidc := None |}
  end.
Definition system_internal : Http.WorkloadAppState :=
  match result_ok system_run.1 ≫= internal with
  | Some i => internal_state i
  | None => {| Http.workload_service := Workload.sample_workload_service; Http.browser_hop1 := None |}
  end.
Definition bearer (token body : string) : Http.Request := {|
  Http.header_text name :=
    if decide (name = "authorization") then Some ("Bearer " +:+ token)
    else if decide (name = "content-type") then Some "application/jwt" else None;
  Http.body := body |}.
Definition call (e : Endpoint) (request : Http.Request) : Call :=
  {| call_state := system_state; call_internal := system_internal; call_endpoint := e; call_request := request |}.
Definition github_call : Call := call GithubEndpoint (bearer "assertion" "").
Definition workload_call : Call := call WorkloadEndpoint (bearer "projected" "").
Definition system_calls : gmap nat Call := list_to_map [
  (0, github_call); (1, github_call); (2, call OidcEndpoint (bearer "build" ""));
  (3, workload_call); (4, call BrowserEndpoint (bearer "gateway token" "attestation"))].
Definition system_pool : config event World (Call * Http.Response) :=
  exec handle (initial system_run.2 (perform_task <$> system_calls)) (mjoin (replicate 64 [1; 0; 2; 3; 4])).
Definition answered (i : nat) : Http.Response :=
  match result_of system_pool i with Some (_, resp) => resp | None => Http.status_response 0 end.
Lemma github_answered : result_of system_pool 1 = Some (github_call, answered 1).
Proof. vm_cast_no_check (@eq_refl (option (Call * Http.Response)) (Some (github_call, answered 1))). Qed.
Lemma workload_answered : result_of system_pool 3 = Some (workload_call, answered 3).
Proof. vm_cast_no_check (@eq_refl (option (Call * Http.Response)) (Some (workload_call, answered 3))). Qed.
(** The review that vouched for the caller of the third request named a task. *)
Definition reviewed_names (h : trace_io) : list string :=
  omap (fun o => match o with
    | Obs e x => match e in event X return X -> option string with
                 | TokenReviewPost _ _ => fun x => match x with
                     | Some (true, Some body) =>
                         response ← Workload.token_review_deserialize body; status ← Workload.response_status response;
                         Workload.user status ≫= Workload.user_username
                     | _ => None end
                 | _ => fun _ => None end x
    end) h.
Lemma reviewed_named h token audience username : Workload.reviewed h token audience username -> username ∈ reviewed_names h.
Proof.
  intros (credential & body & response & Hin & Hd & status & Hs & _ & _ & Hu & _).
  apply list_elem_of_omap. eexists. split; [exact Hin|]. cbn. rewrite Hd. cbn. by rewrite Hs.
Qed.
Lemma workload_task : forallb (fun username =>
  match WorkloadPolicy.authorize (Workload.workload_policy (Http.workload_service system_internal)) username with
  | Ok caller => bool_decide (is_Some (WorkloadPolicy.identity_task caller)) | Err _ => true end)
  (reviewed_names (of_task 3 (history system_pool))) = true.
Proof. by vm_compute. Qed.
Lemma workload_handed : hands_out workload_call (answered 3) (of_task 3 (history system_pool)).
Proof.
  split; [by vm_compute|]. intros _ assertion _ (username & caller & Hr%reviewed_named & Ha & Ht).
  pose proof workload_task as Hw. rewrite List.forallb_forall in Hw. apply list_elem_of_In, Hw in Hr.
  change (call_internal workload_call) with system_internal in Ha.
  rewrite Ha in Hr. cbv beta iota in Hr. apply bool_decide_eq_true in Hr. rewrite Ht in Hr. destruct Hr as [? Hr]. discriminate Hr.
Qed.

(** Of two replicas' requests with one assertion the first is refused here and the
    second is answered with the token; the three other exchanges answer, the one
    with a task's token, under a policy that also gives roles, after its record was
    written. *)
Lemma system_at_most_once_witness :
  Http.status (answered 0) = 401%Z /\ Http.status (answered 1) = 200%Z
  /\ (Http.status ∘ answered <$> [2; 3; 4]) = [200; 200; 200]%Z
  /\ (exists id e, redeemed_record workload_call = Some (id, e) /\ 1 <= writes (lease_name id) (of_task 3 (history system_pool)))
  /\ 1 = 1.
Proof.
  destruct (system_at_most_once simulated_serve system_calls system_run.2 system_pool) as [Hw Ho].
  { apply run_world_ok. split; [done|..]; intros m; [intros l v|intros v l]; cbn; by rewrite lookup_empty. }
  { by apply exec_reachable. }
  split_and!; [by vm_compute..| |].
  - apply (Hw 3 workload_call (answered 3)); [apply result_of_finished, workload_answered|apply workload_handed].
  - apply (Ho 1 1 github_call github_call (answered 1) (answered 1) "jti-1" 1700000300%Z 1700000300%Z).
    + by vm_compute.
    + by vm_compute.
    + apply clocks_bounded_ok. by vm_compute.
    + apply result_of_finished, github_answered.
    + apply result_of_finished, github_answered.
    + split; [by vm_compute|done].
    + split; [by vm_compute|done].
Defined.

(** ** Single requests to the started system *)
Definition ask {A} (p : io A) : A := (run handle p system_run.2).1.
Definition ask_trace {A} (p : io A) : trace_io := run_trace handle p system_run.2.
Lemma ask_runs {A} (p : io A) : runs p (ask_trace p) (ask p).
Proof. by apply run_trace_runs. Qed.
Definition github_request : Http.Request := bearer "assertion" "".
Lemma public_endpoints_sound_witness :
  exists token, Service.issued (Http.service system_state) (ask_trace (Http.exchange system_state github_request)) "assertion" token.
Proof.
  destruct (Http.public_endpoints_sound system_state github_request
    (ask_trace (Http.exchange system_state github_request)) (ask (Http.exchange system_state github_request))) as [H _].
  destruct (H (ask_runs _)) as [_ Hi]. destruct Hi as (assertion & token & Ha & _ & Hi); [by vm_compute|].
  exists token. assert (assertion = "assertion") as -> by (vm_compute in Ha; congruence). exact Hi.
Defined.
Definition browser_request : Http.Request := bearer "gateway token" "attestation".
Lemma internal_endpoints_sound_witness :
  Http.status (ask (Http.workload_exchange system_internal browser_request)) = 400%Z
  /\ exists svc token username t, Http.browser_hop1 system_internal = Some svc
       /\ BrowserHop1.issued svc t username "attestation" token.
Proof.
  split; [by vm_compute|].
  destruct (Http.internal_endpoints_sound system_internal browser_request
    (ask_trace (Http.browser_hop1_exchange system_internal browser_request))
    (ask (Http.browser_hop1_exchange system_internal browser_request))) as [_ H].
  destruct (H (ask_runs _)) as [_ Hi].
  destruct Hi as (a & token & svc & u & t1 & t2 & Hs & _ & _ & _ & _ & _ & Hi); [by vm_compute|].
  exists svc, token, u, t2. exact (conj Hs Hi).
Defined.
Lemma readiness_exact_witness :
  Http.status (ask (Http.readiness system_state github_request)) = 204%Z
  /\ exists now, is_ready_at (Service.service_keys (Http.service system_state)) now = true.
Proof.
  assert (Http.status (ask (Http.readiness system_state github_request)) = 204%Z) as Hs by by vm_compute.
  split; [exact Hs|].
  destruct (Http.readiness_exact system_state github_request _ _ (ask_runs (Http.readiness system_state github_request)))
    as (now & t1 & t2 & v & l & _ & _ & _ & Hr & _).
  exists now. apply (proj1 Hr Hs "github_signing_key"), list_elem_of_here.
Defined.
Lemma metrics_read_only_witness :
  Http.exposes (ask (Http.metrics system_state github_request)) (ask_trace (Http.metrics system_state github_request)).
Proof.
  apply (Http.metrics_read_only system_state github_request _ _ (ask_runs (Http.metrics system_state github_request))).
Defined.
