(* ===== verification/EndpointCauses.v ===== *)
(** * Why a request is not granted

    Every answer of the four exchange endpoints that does not hand out a token has
    its cause in the request or in the execution that led to it, and its status says
    which kind of cause it is. *)
From S2P Require Import Prelude Text Prog Libs State Constants Concrete Replay Simulator ReplaySafety LedgerRefinement Keys LedgerCauses System.
From S2P Require Causes OidcCauses InternalCauses Service OidcExchange Workload BrowserHop1 Github Oidc Http.

Section endpoints.
Context `{jwt : Jwt, laws : !JwtLaws, serde : SerdeJson, chrono : Chrono, clock : !ChronoLaws, range : !ChronoRange}.
Context `{b64 : Base64, p256 : P256, rsa : Rsa, sha : Sha2, url : UrlLib}.
Context (reviewer : Workload.KubernetesTokenReviewer) (ledger : KubernetesLeaseReplayLedger).
#[local] Instance endpoint_reviewer : Workload.TokenReviewer := Workload.kubernetes_reviewer reviewer.
#[local] Instance endpoint_ledger : ReplayLedger := kubernetes_ledger ledger.
Context (c : Call).
Abbreviation bearer := (Http.bearer_assertion (call_request c)).
Abbreviation workloads := (Http.workload_service (call_internal c)).

(** 404: the exchange is not configured. *)
Definition not_offered : Prop :=
  match call_endpoint c with
  | OidcEndpoint => Http.oidc (call_state c) = None
  | BrowserEndpoint => Http.browser_hop1 (call_internal c) = None
  | _ => False
  end.
(** 400: a body where there should be none, or none that can be an attestation. *)
Definition bad_request : Prop :=
  match call_endpoint c with
  | GithubEndpoint => False
  | OidcEndpoint | WorkloadEndpoint => Http.body (call_request c) <> ""
  | BrowserEndpoint => Http.header_text (call_request c) "content-type" <> Some "application/jwt"
      \/ Http.valid_utf8 (Http.body (call_request c)) = false \/ Http.body (call_request c) = ""
  end.
(** 401: nothing to exchange, or what was presented is refused. *)
Definition presented_refused (t : trace_io) (assertion : string) : Prop :=
  match call_endpoint c with
  | GithubEndpoint => Causes.assertion_refused (Http.service (call_state c)) t assertion
  | OidcEndpoint => exists svc, Http.oidc (call_state c) = Some svc /\ OidcCauses.oidc_refused svc t assertion
  | WorkloadEndpoint => InternalCauses.workload_refused workloads reviewer t assertion
  | BrowserEndpoint => exists svc, Http.browser_hop1 (call_internal c) = Some svc
      /\ (InternalCauses.review_refused t assertion (Workload.input_audience workloads)
          \/ exists username, InternalCauses.review_vouched reviewer t assertion (Workload.input_audience workloads) username
               /\ InternalCauses.browser_refused svc t username (Http.body (call_request c)))
  end.
Definition refused (t : trace_io) : Prop :=
  bearer = None \/ exists assertion, bearer = Some assertion /\ presented_refused t assertion.
(** 503: something the exchange depends on failed. *)
Definition unserved (t : trace_io) : Prop :=
  match call_endpoint c with
  | GithubEndpoint => Causes.dependency_failed (Http.service (call_state c)) ledger t
  | OidcEndpoint => exists svc, Http.oidc (call_state c) = Some svc /\ OidcCauses.oidc_failed svc ledger t
  | WorkloadEndpoint => exists assertion, bearer = Some assertion
      /\ InternalCauses.workload_failed workloads reviewer ledger t assertion
  | BrowserEndpoint => exists svc, Http.browser_hop1 (call_internal c) = Some svc
      /\ (InternalCauses.review_failed reviewer t \/ InternalCauses.browser_failed svc ledger t)
  end.
Definition explained (resp : Http.Response) (t : trace_io) : Prop :=
  Http.status resp = 200%Z \/ (Http.status resp = 404%Z /\ not_offered) \/ (Http.status resp = 400%Z /\ bad_request)
  \/ (Http.status resp = 401%Z /\ refused t) \/ (Http.status resp = 503%Z /\ unserved t).

Lemma explained_granted resp t : Http.status resp = 200%Z -> explained resp t.
Proof. by left. Qed.
Lemma explained_absent t : not_offered -> explained (Http.status_response 404) t.
Proof. right. left. auto. Qed.
Lemma explained_bad t code : bad_request -> explained (Http.oauth_error 400 code) t.
Proof. do 2 right. left. auto. Qed.
Lemma explained_refused t code : refused t -> explained (Http.oauth_error 401 code) t.
Proof. do 3 right. left. auto. Qed.
Lemma explained_unserved t code : unserved t -> explained (Http.oauth_error 503 code) t.
Proof. do 4 right. auto. Qed.

Lemma github_endpoint_causes h : call_endpoint c = GithubEndpoint ->
  wpt (Http.exchange (call_state c) (call_request c)) h (explained).
Proof.
  intros He. unfold Http.exchange. destruct bearer as [assertion|] eqn:Hb; [|by apply explained_refused; left].
  eapply wp_call; [apply (Causes.exchange_causes _ ledger)|]. intros [token|[]] h1 _ Hr.
  - by apply explained_granted.
  - apply explained_refused. right. exists assertion. split; [done|]. unfold presented_refused. by rewrite He.
  - apply explained_unserved. unfold unserved. by rewrite He.
Qed.
Lemma oidc_endpoint_causes h : call_endpoint c = OidcEndpoint ->
  wpt (Http.generic_oidc_exchange (call_state c) (call_request c)) h explained.
Proof.
  intros He. unfold Http.generic_oidc_exchange. destruct (is_empty _) eqn:Hbody; cbn [negb].
  2:{ apply explained_bad. unfold bad_request. rewrite He. by apply is_empty_false. }
  destruct (Http.oidc (call_state c)) as [svc|] eqn:Hs; [|by apply explained_absent; unfold not_offered; rewrite He].
  destruct bearer as [assertion|] eqn:Hb; [|by apply explained_refused; left].
  eapply wp_call; [apply (OidcCauses.oidc_exchange_causes _ ledger)|]. intros [token|[]] h1 _ Hr.
  - by apply explained_granted.
  - apply explained_refused. right. exists assertion. split; [done|]. unfold presented_refused. rewrite He. by exists svc.
  - apply explained_unserved. unfold unserved. rewrite He. by exists svc.
Qed.
Lemma workload_endpoint_causes h : call_endpoint c = WorkloadEndpoint ->
  wpt (Http.workload_exchange (call_internal c) (call_request c)) h explained.
Proof.
  intros He. unfold Http.workload_exchange. destruct (is_empty _) eqn:Hbody; cbn [negb].
  2:{ apply explained_bad. unfold bad_request. rewrite He. by apply is_empty_false. }
  destruct bearer as [assertion|] eqn:Hb; [|by apply explained_refused; left].
  eapply wp_call; [apply (InternalCauses.workload_exchange_causes _ reviewer ledger)|]. intros [token|[]] h1 _ Hr.
  - by apply explained_granted.
  - apply explained_refused. right. exists assertion. split; [done|]. unfold presented_refused. by rewrite He.
  - apply explained_unserved. unfold unserved. rewrite He. by exists assertion.
Qed.
Lemma browser_endpoint_causes h : call_endpoint c = BrowserEndpoint ->
  wpt (Http.browser_hop1_exchange (call_internal c) (call_request c)) h explained.
Proof.
  intros He. unfold Http.browser_hop1_exchange.
  destruct (Http.browser_hop1 (call_internal c)) as [svc|] eqn:Hs; [|by apply explained_absent; unfold not_offered; rewrite He].
  case_bool_decide as Hct; [by apply explained_bad; unfold bad_request; rewrite He; left|].
  destruct bearer as [assertion|] eqn:Hb; [|by apply explained_refused; left].
  destruct (_ || _) eqn:Hbody.
  { apply explained_bad. unfold bad_request. rewrite He. right. apply orb_prop in Hbody as [Hu|Hu]; [left|right].
    - by apply negb_true_iff.
    - by destruct (Http.body (call_request c)). }
  eapply wp_call; [apply (InternalCauses.review_causes reviewer)|]. intros [w|[]] h1 _ Hr.
  2:{ apply explained_refused. right. exists assertion. split; [done|]. unfold presented_refused. rewrite He. exists svc. auto. }
  2:{ apply explained_unserved. unfold unserved. rewrite He. exists svc. auto. }
  eapply wp_call; [apply (InternalCauses.browser_exchange_causes _ ledger)|]. intros [token|[]] h2 Hp Hx.
  - by apply explained_granted.
  - apply explained_refused. right. exists assertion. split; [done|]. unfold presented_refused. rewrite He. exists svc.
    split; [done|]. right. exists (Workload.reviewed_username w). split; [by eapply InternalCauses.review_vouched_prefix|done].
  - apply explained_unserved. unfold unserved. rewrite He. exists svc. auto.
Qed.

(** C5: whatever an exchange endpoint answers is explained.  An answer that does not
    hand out a token says with its status which kind of cause the request or the
    execution before it shows: the exchange is not configured (404), the request
    has a body it should not have or none that can be an attestation (400), nothing
    was presented or what was presented is refused (401), or a dependency failed
    (503).  What is refused is malformed, under a key that is not in a usable and
    recent key set, not genuine, outside its claims' conditions, not mapped by the
    policy, or already spent; what fails is a key set, the token review, the ledger,
    the clock or the signing key.  A provider's discovery document that is not its
    own counts as a refusal, and the token of a task that lives too long for the
    ledger as a failure. *)
Theorem answers_explained t resp : runs (answer c) t resp -> explained resp t.
Proof.
  intros Hr. refine (wp_runs _ _ [] _ t resp _ Hr). unfold answer. destruct (call_endpoint c) eqn:He.
  - by apply github_endpoint_causes.
  - by apply oidc_endpoint_causes.
  - by apply workload_endpoint_causes.
  - by apply browser_endpoint_causes.
Qed.
End endpoints.

(** ** Answers of the system *)
#[local] Existing Instances system_jwt system_jwt_laws system_serde.
#[local] Instance answer_reviewer : Workload.TokenReviewer := Workload.kubernetes_reviewer Workload.sample_reviewer.
#[local] Instance answer_ledger : ReplayLedger := kubernetes_ledger sample_ledger.
(** A world in which the first call has been answered, and one whose credential of the
    Kubernetes API is gone. *)
Definition spent_world : World := (run handle (answer github_call) system_run.2).2.
Definition uncredentialed_world : World :=
  let w := system_run.2 in
  {| clock := clock w; files := delete "/token" (files w); leases := leases w; versions := versions w; next_version := next_version w;
     api_up := api_up w; timeouts := timeouts w; github_cache := github_cache w; github_refresh := github_refresh w;
     oidc_caches := oidc_caches w; oidc_refreshes := oidc_refreshes w; continue_cell := continue_cell w;
     readiness_cell := readiness_cell w; counts := counts w; logs := logs w; Simulator.jwks := Simulator.jwks w;
     streams := streams w; reviews := reviews w |}.
Definition sample_answers : list (Call * World) := [
  (github_call, system_run.2); (github_call, spent_world); (github_call, uncredentialed_world);
  (call OidcEndpoint (bearer "build" "unexpected"), system_run.2); (call OidcEndpoint (bearer "unknown" ""), system_run.2);
  (call WorkloadEndpoint (bearer "projected" ""), uncredentialed_world); (call WorkloadEndpoint (bearer "stranger" ""), system_run.2);
  (call BrowserEndpoint (bearer "gateway token" ""), system_run.2);
  (call BrowserEndpoint (bearer "projected" "attestation"), system_run.2)].
Definition sample_status (cw : Call * World) : Z := Http.status (run handle (answer cw.1) cw.2).1.
Lemma answers_explained_witness :
  sample_status <$> sample_answers = [200; 401; 503; 400; 401; 503; 503; 400; 401]%Z
  /\ Forall (fun cw => explained Workload.sample_reviewer sample_ledger cw.1 (run handle (answer cw.1) cw.2).1
                         (run_trace handle (answer cw.1) cw.2)) sample_answers.
Proof.
  split; [by vm_compute|]. apply Forall_forall. intros [c w] _.
  apply (answers_explained Workload.sample_reviewer sample_ledger c). by apply run_trace_runs.
Defined.
