(* ===== verification/Progress.v ===== *)
(** * Every request is answered

    The mutexes of a replica protect the refresh of the GitHub key cache, the
    refresh of each provider's cache and the readiness probe.  All that a replica
    does with them once it has started, the requests to the routes of its two
    listeners and its background refreshes, takes one of them at a time and gives
    it back: so no requests wait for one another forever. *)
From S2P Require Import Prelude Text Prog Libs State Constants Concrete Replay Simulator ReplaySafety Locks Keys.
From S2P Require Policy GithubClaims Github Service WorkloadPolicy Workload OidcPolicy Oidc OidcExchange BrowserHop1 Config Http System.

(** ** The ledger and the reviewer *)
Section ledger.
Context `{jwt : Jwt, url : UrlLib, sha : Sha2, chrono : Chrono}.
Context (self : KubernetesLeaseReplayLedger).
Lemma lockless_get_lease m : lockless (get_lease self m).
Proof. lockless. Qed.
Lemma lockless_create_lease l : lockless (create_lease self l).
Proof. lockless. Qed.
Lemma lockless_update_lease m l : lockless (update_lease self m l).
Proof. lockless. Qed.
Lemma lockless_list_leases t : lockless (list_leases self t).
Proof. lockless. Qed.
Lemma lockless_delete_lease m v : lockless (delete_lease self m v).
Proof. lockless. Qed.
#[local] Hint Resolve lockless_get_lease lockless_create_lease lockless_update_lease lockless_list_leases lockless_delete_lease : lockless.
Lemma lockless_reclaim n m l now : lockless (reclaim_attempts self n m l now).
Proof. induction n as [|n IH]; cbn [reclaim_attempts]; lockless. Qed.
Lemma lockless_candidates l now : lockless (cleanup_candidates self l now).
Proof. induction l as [|x l IH]; cbn [cleanup_candidates]; lockless. Qed.
#[local] Hint Resolve lockless_reclaim lockless_candidates : lockless.
Lemma lockless_pages n t now : lockless (cleanup_pages self n t now).
Proof. revert t. induction n as [|n IH]; intros t; cbn [cleanup_pages]; lockless. Qed.
#[local] Hint Resolve lockless_pages : lockless.
Lemma lockless_use_once jti e : lockless (ledger_use_once (ReplayLedger := kubernetes_ledger self) jti e).
Proof. change (lockless (use_once self jti e)). unfold use_once, cleanup_one. lockless. Qed.
Lemma balanced_check_ready : balanced (ledger_check_ready (ReplayLedger := kubernetes_ledger self)).
Proof. change (balanced (check_ready self)). apply balanced_lock. lockless. Qed.
End ledger.

(** ** The verifiers and their refreshes *)
Section github.
Context `{jwt : Jwt, chrono : Chrono}.
Context (self : Github.GitHubVerifier).
Lemma lockless_run_refresh : lockless (Github.run_refresh self).
Proof. unfold Github.run_refresh, Github.refresh_now, Github.record_refresh_failure. lockless. Qed.
#[local] Hint Resolve lockless_run_refresh : lockless.
Lemma balanced_forced kid : balanced (Github.refresh_for_unknown_kid_if_due self kid).
Proof. apply balanced_lock. lockless. Qed.
Lemma balanced_soft : balanced (Github.refresh_soft_if_due self).
Proof. apply balanced_lock. unfold Github.cache_age_seconds. lockless. Qed.
#[local] Hint Resolve balanced_forced balanced_soft : balanced.
Lemma balanced_key kid : balanced (Github.key self kid).
Proof. unfold Github.key. balanced. Qed.
#[local] Hint Resolve balanced_key : balanced.
Lemma balanced_verify assertion : balanced (Github.verify self assertion).
Proof. unfold Github.verify. balanced. Qed.
Lemma balanced_loop n interval : balanced (Github.run_refresh_loop_with_interval self n interval).
Proof. induction n as [|n IH]; cbn [Github.run_refresh_loop_with_interval]; balanced. Qed.
Lemma lockless_verifier_ready : lockless (Github.verifier_check_ready self).
Proof. unfold Github.verifier_check_ready. lockless. Qed.
End github.
#[export] Hint Resolve balanced_verify : balanced.
#[export] Hint Resolve lockless_verifier_ready : lockless.

Section providers.
Context `{jwt : Jwt, serde : SerdeJson, chrono : Chrono, url : UrlLib, sha : Sha2}.
Lemma lockless_provider_refresh_now self : lockless (Oidc.refresh_now self).
Proof. unfold Oidc.refresh_now, Oidc.fetch_json. lockless. Qed.
#[local] Hint Resolve lockless_provider_refresh_now : lockless.
Lemma balanced_provider_forced self : balanced (Oidc.refresh_for_unknown_kid_if_due self).
Proof. apply balanced_lock. lockless. Qed.
Lemma balanced_provider_soft self : balanced (Oidc.refresh_soft_if_due self).
Proof. apply balanced_lock. lockless. Qed.
#[local] Hint Resolve balanced_provider_forced balanced_provider_soft : balanced.
Lemma balanced_provider_key self kid : balanced (Oidc.key self kid).
Proof. unfold Oidc.key, Oidc.key_after_refresh. balanced. Qed.
#[local] Hint Resolve balanced_provider_key : balanced.
Lemma balanced_provider_verify self assertion : balanced (Oidc.verify self assertion).
Proof. unfold Oidc.verify, Oidc.validated_claims. balanced. Qed.
Lemma balanced_refresh_task self : balanced (Oidc.refresh_task self).
Proof. unfold Oidc.refresh_task. balanced. Qed.
Lemma lockless_report r : lockless (Oidc.report_refresh r).
Proof. unfold Oidc.report_refresh. lockless. Qed.
Lemma lockless_provider_states now l : lockless (Oidc.provider_states now l).
Proof. induction l as [|p l IH]; cbn [Oidc.provider_states]; lockless. Qed.
End providers.
#[export] Hint Resolve balanced_provider_verify : balanced.
#[export] Hint Resolve lockless_provider_states : lockless.

(** ** The exchanges *)
Section exchanges.
Context `{jwt : Jwt, serde : SerdeJson, chrono : Chrono, b64 : Base64, p256 : P256, rsa : Rsa, sha : Sha2, url : UrlLib}.
Context (reviewer : Workload.KubernetesTokenReviewer) (ledger : KubernetesLeaseReplayLedger).
#[local] Instance progress_reviewer : Workload.TokenReviewer := Workload.kubernetes_reviewer reviewer.
#[local] Instance progress_ledger : ReplayLedger := kubernetes_ledger ledger.
Lemma lockless_review token audience : lockless (Workload.review token audience).
Proof. change (lockless (Workload.kubernetes_review reviewer token audience)). unfold Workload.kubernetes_review. lockless. Qed.
Lemma lockless_used jti e : lockless (ledger_use_once jti e).
Proof. apply lockless_use_once. Qed.
#[local] Hint Resolve lockless_review lockless_used : lockless.
Lemma lockless_observe d : lockless (Service.observe_duration d).
Proof.
  unfold Service.observe_duration. assert (forall bounds b, lockless (Service.observe_buckets b bounds d)) as Hb.
  { induction bounds as [|bound l IH]; intros b; cbn [Service.observe_buckets]; lockless. }
  lockless.
Qed.
#[local] Hint Resolve lockless_observe : lockless.
Lemma lockless_github_redeem self claims : lockless (Service.redeem self claims).
Proof. unfold Service.redeem, Service.issue, Service.deny, Service.fail. lockless. Qed.
#[local] Hint Resolve lockless_github_redeem : lockless.
Lemma balanced_service_exchange self assertion : balanced (Service.exchange self assertion).
Proof. unfold Service.exchange, Service.timed, Service.deny, Service.fail. balanced. Qed.
Lemma lockless_oidc_redeem self claims : lockless (OidcExchange.redeem self claims).
Proof. unfold OidcExchange.redeem, OidcExchange.issue. lockless. Qed.
#[local] Hint Resolve lockless_oidc_redeem : lockless.
Lemma balanced_oidc_exchange self assertion : balanced (OidcExchange.exchange self assertion).
Proof. unfold OidcExchange.exchange. balanced. Qed.
Lemma lockless_workload_exchange self assertion : lockless (Workload.exchange self assertion).
Proof. unfold Workload.exchange, Workload.redeem_task, Workload.issue. lockless. Qed.
Lemma lockless_load_counters s rows : lockless (Http.load_counters s rows).
Proof. induction rows as [|[[o name] help] rows IH]; [apply only_ret|]. unfold Http.load_counters. cbn [foldr]. lockless. Qed.
#[local] Hint Resolve lockless_load_counters : lockless.
Lemma lockless_metrics state request : lockless (Http.metrics state request).
Proof.
  unfold Http.metrics, Http.oidc_metrics, Http.workload_metrics, Oidc.ready_provider_count, Oidc.provider_readiness. lockless.
Qed.
Lemma lockless_browser_exchange self username assertion : lockless (BrowserHop1.exchange self username assertion).
Proof. unfold BrowserHop1.exchange, BrowserHop1.redeem, BrowserHop1.issue, BrowserHop1.verify. lockless. Qed.
End exchanges.

(** ** How many events there are *)
Section bounds.
Context `{jwt : Jwt, serde : SerdeJson, chrono : Chrono, b64 : Base64, p256 : P256, rsa : Rsa, sha : Sha2, url : UrlLib}.
Lemma bound_with_lock {A} m (body : io A) n : len_bound body n -> len_bound (with_lock m body) (1 + (n + 1)).
Proof. intros Hb. apply len_bound_bind; [done|]. intros _. by apply len_bound_bind. Qed.
Lemma bound_soft self : len_bound (Github.refresh_soft_if_due self) 14.
Proof.
  apply (bound_with_lock _ _ 12). apply (len_bound_bind _ _ 1 11); [done|]. intros refresh.
  apply (len_bound_bind _ _ 1 10); [done|]. intros now. apply (len_bound_bind _ _ 2 8); [done|]. intros age.
  destruct (_ || _); [done|]. apply (len_bound_bind _ _ 1 7); [done|]. intros _. apply Github.bound_run_refresh.
Qed.
Lemma bound_loop self n interval : len_bound (Github.run_refresh_loop_with_interval self n interval) (15 * n).
Proof.
  induction n as [|n IH]; [done|]. replace (15 * S n) with (1 + (14 + 15 * n)) by lia.
  apply len_bound_bind; [done|]. intros _. apply len_bound_bind; [apply bound_soft|]. intros _. apply IH.
Qed.
Lemma bound_provider_soft self : len_bound (Oidc.refresh_soft_if_due self) 11.
Proof.
  apply (bound_with_lock _ _ 9). apply (len_bound_bind _ _ 1 8); [done|]. intros refresh.
  apply (len_bound_bind _ _ 1 7); [done|]. intros now. apply (len_bound_bind _ _ 1 6); [done|]. intros cache.
  destruct (_ || _); [done|]. apply (len_bound_bind _ _ 1 5); [done|]. intros _.
  apply (len_bound_bind _ _ 4 1); [apply Oidc.bound_provider_refresh_now|]. by intros [].
Qed.
Lemma bound_provider_states now l : len_bound (Oidc.provider_states now l) (length l).
Proof.
  induction l as [|p l IH]; [done|]. cbn [length]. apply (len_bound_bind _ _ 1 (length l)); [done|]. intros cache.
  by apply len_bound_answer.
Qed.
Lemma bound_provider_readiness self : len_bound (Oidc.provider_readiness self) (1 + Oidc.provider_count self).
Proof.
  apply (len_bound_bind _ _ 1); [done|]. intros now.
  apply len_bound_answer. eapply len_bound_mono; [apply bound_provider_states|].
  rewrite length_fmap, length_map_to_list. done.
Qed.
Lemma bound_load_counters s rows : len_bound (Http.load_counters s rows) (length rows).
Proof.
  induction rows as [|[[o name] help] rows IH]; [done|]. cbn [length]. apply (len_bound_bind _ _ 1 (length rows)); [done|].
  intros v. by apply len_bound_answer.
Qed.
Definition provider_count_of (state : Http.AppState) : nat :=
  match Http.oidc state with Some svc => Oidc.provider_count (OidcExchange.verifier svc) | None => 0 end.
Lemma bound_oidc_metrics oidc output : let n := Oidc.provider_count (OidcExchange.verifier oidc) in
  len_bound (Http.oidc_metrics oidc output) (5 + ((1 + n) + (1 + n))).
Proof.
  intros n. apply len_bound_bind; [apply (bound_load_counters _ Http.oidc_counters)|]. intros counters.
  apply len_bound_bind.
  - apply len_bound_answer, bound_provider_readiness.
  - intros ready. apply len_bound_answer, bound_provider_readiness.
Qed.
Lemma bound_metrics state request : len_bound (Http.metrics state request) (30 + 2 * provider_count_of state).
Proof.
  apply (len_bound_mono _ (1 + (5 + (1 + (2 + (10 + ((7 + 2 * provider_count_of state) + (4 + 0)))))))); [|lia].
  apply len_bound_bind; [done|]. intros now.
  apply len_bound_bind; [apply (bound_load_counters _ Http.github_counters)|]. intros counters.
  apply len_bound_bind; [done|]. intros failures. apply len_bound_bind; [done|]. intros age.
  apply len_bound_bind; [done|]. intros output. apply len_bound_bind.
  - unfold provider_count_of. destruct (Http.oidc state) as [oidc|]; [|done].
    eapply len_bound_mono; [apply bound_oidc_metrics|lia].
  - intros output'. apply len_bound_bind; [|done]. destruct (Http.workload state) as [workload|]; [|done].
    apply len_bound_answer, (bound_load_counters _ Http.workload_counters).
Qed.
End bounds.

(** ** What a replica does *)
Section replica.
Context `{jwt : Jwt, serde : SerdeJson, chrono : Chrono, b64 : Base64, p256 : P256, rsa : Rsa, sha : Sha2, url : UrlLib}.
Context (reviewer : Workload.KubernetesTokenReviewer) (ledger : KubernetesLeaseReplayLedger).
#[local] Instance replica_reviewer : Workload.TokenReviewer := Workload.kubernetes_reviewer reviewer.
#[local] Instance replica_ledger : ReplayLedger := kubernetes_ledger ledger.

(** A request to a route of the public or of the internal listener, iterations of
    the background refresh of the GitHub keys, or one of the tasks the background
    refresh of the providers spawns. *)
Inductive work :=
| PublicRequest (state : Http.AppState) (rt : Http.Route) (request : Http.Request)
| InternalRequest (state : Http.WorkloadAppState) (rt : Http.Route) (request : Http.Request)
| GithubRefreshes (verifier : Github.GitHubVerifier) (iterations : nat) (interval : Z)
| ProviderRefresh (provider : Oidc.ProviderVerifier).
Definition routed (w : work) : Prop :=
  match w with
  | PublicRequest state rt _ => rt ∈ Http.build_router state
  | InternalRequest state rt _ => rt ∈ Http.build_workload_router state
  | _ => True
  end.
(** Its program, with the response if it is a request. *)
Definition perform_work (w : work) : io (option Http.Response) :=
  match w with
  | PublicRequest _ rt request | InternalRequest _ rt request => resp ← Http.handler rt request; mret (Some resp)
  | GithubRefreshes verifier n interval => _ ← Github.run_refresh_loop_with_interval verifier n interval; mret None
  | ProviderRefresh provider => joined ← Oidc.refresh_task provider; _ ← Oidc.report_refresh joined; mret None
  end.
(** As many events as it can take. *)
Definition moves_of (w : work) : nat :=
  match w with
  | PublicRequest state _ _ => 64 + 2 * provider_count_of state
  | InternalRequest _ _ _ => 36
  | GithubRefreshes _ n _ => 15 * n
  | ProviderRefresh _ => 12
  end.

Lemma layer_handlers r l : Http.handler <$> Http.layer r l = Http.handler <$> r.
Proof. unfold Http.layer. by rewrite <- list_fmap_compose. Qed.
Lemma security_handlers r limit : Http.handler <$> Http.security_layers r limit = Http.handler <$> r.
Proof. unfold Http.security_layers. by rewrite !layer_handlers. Qed.
Lemma public_handlers state rt : rt ∈ Http.build_router state ->
  Http.handler rt ∈ [Http.discovery state; Http.discovery state; Http.jwks_handler state; Http.exchange state;
                     Http.no_content; Http.readiness state; Http.metrics state; Http.generic_oidc_exchange state].
Proof.
  intros H%(list_elem_of_fmap_2 Http.handler). unfold Http.build_router in H. rewrite security_handlers in H.
  destruct (Http.oidc state); cbn in H; set_solver.
Qed.
Lemma internal_handlers state rt : rt ∈ Http.build_workload_router state ->
  Http.handler rt ∈ [Http.workload_exchange state; Http.no_content; Http.workload_readiness state;
                     Http.browser_hop1_exchange state].
Proof.
  intros H%(list_elem_of_fmap_2 Http.handler). unfold Http.build_workload_router in H.
  destruct (Http.browser_hop1 state); [unfold Http.route at 1 in H; rewrite fmap_app in H|];
    rewrite security_handlers in H; cbn in H; set_solver.
Qed.

Lemma balanced_public state rt request : rt ∈ Http.build_router state -> balanced (Http.handler rt request).
Proof.
  intros H%public_handlers. rewrite !elem_of_cons, elem_of_nil in H.
  destruct H as [->|[->|[->|[->|[->|[->|[->|[->|[]]]]]]]]]; try apply balanced_ret.
  - unfold Http.exchange. destruct (Http.bearer_assertion request); [|apply balanced_ret].
    apply balanced_bind; [apply balanced_service_exchange|]. intros r. apply balanced_ret.
  - unfold Http.readiness. apply balanced_bind; [apply balanced_lockless; lockless|]. intros now.
    apply balanced_bind; [apply balanced_lockless, lockless_verifier_ready|]. intros verifier.
    apply balanced_bind; [apply balanced_check_ready|]. intros r. apply balanced_ret.
  - apply balanced_lockless, lockless_metrics.
  - unfold Http.generic_oidc_exchange. destruct (negb _); [apply balanced_ret|]. destruct (Http.oidc state); [|apply balanced_ret].
    destruct (Http.bearer_assertion request); [|apply balanced_ret].
    apply balanced_bind; [apply balanced_oidc_exchange|]. intros r. apply balanced_ret.
Qed.
Lemma balanced_internal state rt request : rt ∈ Http.build_workload_router state -> balanced (Http.handler rt request).
Proof.
  intros H%internal_handlers. rewrite !elem_of_cons, elem_of_nil in H.
  destruct H as [->|[->|[->|[->|[]]]]]; [| |unfold Http.workload_readiness|].
  - apply balanced_lockless. unfold Http.workload_exchange. destruct (negb _); [apply only_ret|].
    destruct (Http.bearer_assertion request); [|apply only_ret].
    apply only_bind; [apply lockless_workload_exchange|]. intros r. apply only_ret.
  - apply balanced_ret.
  - apply balanced_bind; [apply balanced_lockless; lockless|]. intros now.
    apply balanced_bind; [apply balanced_check_ready|]. intros r. apply balanced_ret.
  - apply balanced_lockless. unfold Http.browser_hop1_exchange. destruct (Http.browser_hop1 state); [|apply only_ret].
    case_bool_decide; [apply only_ret|]. destruct (Http.bearer_assertion request); [|apply only_ret].
    destruct (_ || _); [apply only_ret|]. apply only_bind; [apply lockless_review|]. intros [w|[]]; [|apply only_ret..].
    apply only_bind; [apply lockless_browser_exchange|]. intros r. apply only_ret.
Qed.
Lemma bound_public state rt request : rt ∈ Http.build_router state ->
  len_bound (Http.handler rt request) (64 + 2 * provider_count_of state).
Proof.
  intros H%public_handlers. rewrite !elem_of_cons, elem_of_nil in H.
  destruct H as [->|[->|[->|[->|[->|[->|[->|[->|[]]]]]]]]]; try done.
  - eapply len_bound_mono; [apply System.bound_github_endpoint|]. lia.
  - apply (len_bound_mono _ (1 + (2 + (9 + 0)))); [|lia]. apply len_bound_bind; [done|]. intros now.
    apply len_bound_bind; [done|]. intros verifier. by apply len_bound_bind; [apply bound_check_ready|].
  - eapply len_bound_mono; [apply bound_metrics|]. lia.
  - eapply len_bound_mono; [apply System.bound_oidc_endpoint|]. lia.
Qed.
Lemma bound_internal state rt request : rt ∈ Http.build_workload_router state -> len_bound (Http.handler rt request) 36.
Proof.
  intros H%internal_handlers. rewrite !elem_of_cons, elem_of_nil in H. destruct H as [->|[->|[->|[->|[]]]]]; [|done|..].
  - eapply len_bound_mono; [apply System.bound_workload_endpoint|]. lia.
  - apply (len_bound_mono _ (1 + (9 + 0))); [|lia]. apply len_bound_bind; [done|]. intros now.
    by apply len_bound_bind; [apply bound_check_ready|].
  - apply System.bound_browser_endpoint.
Qed.
Lemma balanced_work w : routed w -> balanced (perform_work w).
Proof.
  destruct w; cbn [perform_work routed]; intros Hw.
  - apply balanced_bind; [by eapply balanced_public|]. intros r. apply balanced_ret.
  - apply balanced_bind; [by eapply balanced_internal|]. intros r. apply balanced_ret.
  - apply balanced_bind; [apply balanced_loop|]. intros r. apply balanced_ret.
  - apply balanced_bind; [apply balanced_refresh_task|]. intros r.
    apply balanced_bind; [apply balanced_lockless, lockless_report|]. intros u. apply balanced_ret.
Qed.
Lemma bound_work w : routed w -> len_bound (perform_work w) (moves_of w).
Proof.
  destruct w; cbn [perform_work routed moves_of]; intros Hw; try apply len_bound_answer.
  - by apply bound_public.
  - by eapply bound_internal.
  - apply bound_loop.
  - apply (len_bound_bind _ _ 11 1); [apply len_bound_answer, bound_provider_soft|]. intros [h [[]|e]]; done.
Qed.

(** C8: the requests to all routes of the two listeners and the background refreshes
    of a replica, run together against mutexes that wait: no schedule of them goes
    on forever or gets stuck, so that when nothing can move any more every request
    whose client has not left has its response, that of a run of its handler, after
    a bounded number of events of its own. *)
Theorem replica_answers {S} serve `{!MutexServer S serve} (works : gmap nat work) s c gone :
  (forall m, taken s m = false) -> (forall i w, works !! i = Some w -> routed w) ->
  rtc (step serve) (begin s (perform_work <$> works)) (c, gone) ->
  Acc (fun x' x => step serve x x') (c, gone)
  /\ ((exists c', pool_step serve c c')
      \/ forall i w, works !! i = Some w -> i ∉ gone -> exists resp,
           finished c i (Some resp) /\ runs (perform_work w) (of_task i (history c)) resp)
  /\ (forall i w, works !! i = Some w -> length (of_task i (history c)) <= moves_of w)
  /\ exclusive serve (server c) (history c).
Proof.
  intros Hs Hw Hr.
  destruct (pool_answers serve (perform_work <$> works) (fun i => from_option moves_of 0 (works !! i)) s c gone Hs) as (Ha & Hd & Hm & He).
  - intros i p (w & <- & Hi)%lookup_fmap_Some. rewrite Hi. split; [|apply bound_work]; [apply balanced_work|]; by eapply Hw.
  - done.
  - split_and!; [done| | |done].
    + destruct Hd as [Hd|Hd]; [by left|right]. intros i w Hi. apply Hd. by rewrite lookup_fmap, Hi.
    + intros i w Hi. specialize (Hm i (perform_work w)). rewrite lookup_fmap, Hi in Hm. by apply Hm.
Qed.
End replica.

(** ** A replica under load *)
Import System.
#[local] Existing Instances system_jwt system_serde.
Definition public_route (state : Http.AppState) (n : nat) : Http.Route :=
  default {| Http.route_method := Http.GET; Http.route_path := ""; Http.handler := Http.no_content; Http.layers := [] |}
    (Http.build_router (L := kubernetes_ledger sample_ledger) state !! n).
Lemma public_route_routed state n : n < 7 -> public_route state n ∈ Http.build_router (L := kubernetes_ledger sample_ledger) state.
Proof.
  intros Hn. unfold public_route. assert (is_Some (Http.build_router (L := kubernetes_ledger sample_ledger) state !! n)) as [rt Hrt].
  { apply lookup_lt_is_Some. rewrite <- (length_fmap Http.handler). unfold Http.build_router.
    rewrite security_handlers, length_fmap. destruct (Http.oidc state); cbn; lia. }
  rewrite Hrt. by eapply list_elem_of_lookup_2.
Qed.
(** No keys are cached yet. *)
Definition cold_world : World :=
  let w := system_run.2 in
  set_cells w {| keys := ∅; fetched_at := 0 |} (github_refresh w) (oidc_caches w) (oidc_refreshes w)
    (continue_cell w) (readiness_cell w).
Definition load_works : gmap nat work := list_to_map [
  (0, PublicRequest system_state (public_route system_state 3) github_request);
  (1, PublicRequest system_state (public_route system_state 3) github_request);
  (2, PublicRequest system_state (public_route system_state 5) github_request);
  (3, PublicRequest system_state (public_route system_state 5) github_request);
  (4, GithubRefreshes (Service.verifier (Http.service system_state)) 2 30000000000);
  (5, ProviderRefresh {| Oidc.verifier_issuer := "https://ci.example"; Oidc.verifier_audience := "exchange";
                         Oidc.verifier_max_staleness := 0 |});
  (6, PublicRequest system_state (public_route system_state 6) github_request)].
(** The first exchange refreshes the key cache; the others start, and the second
    exchange and the background task wait for the mutex; the client of the first one
    leaves; then all go on. *)
Definition load_turns : list turn :=
  replicate 8 (Moves 0) ++ mjoin (replicate 6 (Moves <$> seq 1 6)) ++ [Leaves 0] ++ mjoin (replicate 70 (Moves <$> seq 0 7)).
Definition load_state : state (S := World * (mutex -> bool)) (R := option Http.Response) :=
  foldl (take_turn mutex_enabled mutex_handle)
    (begin (cold_world, fun _ => false) (perform_work <$> load_works)) load_turns.
Definition load_status (i : nat) : option Z :=
  match result_of load_state.1 i with Some (Some (Some resp)) => Some (Http.status resp) | _ => None end.
Definition second_exchange : work := PublicRequest system_state (public_route system_state 3) github_request.
Lemma load_reachable : rtc (step (enabled_serve mutex_enabled mutex_handle))
  (begin (cold_world, fun _ => false) (perform_work <$> load_works)) (load_state.1, load_state.2).
Proof. rewrite <- surjective_pairing. apply take_turns_reachable. Qed.
Lemma load_routed i w : load_works !! i = Some w -> routed Workload.sample_reviewer sample_ledger w.
Proof.
  intros Hw%(elem_of_list_to_map_2 (M := gmap nat)). rewrite !elem_of_cons, elem_of_nil in Hw.
  repeat destruct Hw as [[-> ->]%pair_equal_spec|Hw]; [| | | | | | |destruct Hw];
    match goal with |- routed _ _ (PublicRequest _ _ _) => apply public_route_routed; lia | _ => exact I end.
Qed.
Lemma load_ended : all_ended load_state.1 = true.
Proof. by vm_compute. Qed.
(** The second exchange, the metrics and the readiness probes are answered. *)
Lemma replica_answers_witness :
  load_status <$> seq 0 7 = [None; Some 200; Some 503; Some 503; None; None; Some 200]%Z
  /\ exists resp, finished load_state.1 1 (Some resp)
       /\ runs (perform_work second_exchange) (of_task 1 (history load_state.1)) resp.
Proof.
  split; [by vm_compute|].
  destruct (replica_answers Workload.sample_reviewer sample_ledger (enabled_serve mutex_enabled mutex_handle) load_works
    (cold_world, fun _ => false) load_state.1 load_state.2) as (_ & Hd & _).
  - done.
  - apply load_routed.
  - apply load_reachable.
  - destruct Hd as [Hd|Hd]; [by apply all_ended_stays in Hd; [|apply load_ended]|].
    apply (Hd 1 second_exchange); [done|].
    apply (proj1 (bool_decide_eq_true (1 ∉ load_state.2))). by vm_compute.
Defined.
