(* ===== verification/Publication.v ===== *)
(** * Tokens and the documents that describe them

    A consumer of the tokens knows the service by its discovery document and its
    key set.  Every token that a started process hands out on one of its exchange
    endpoints is one that such a consumer accepts. *)
From S2P Require Import Prelude Text Prog Libs State Constants Concrete Replay Simulator ReplaySafety Exchange Keys Config Main System.
From S2P Require Github Service WorkloadPolicy Workload OidcExchange BrowserHop1 Http.

(** ** A published key is found *)
Section entries.
Context `{b64 : Base64, p256 : P256, rsa : Rsa}.
Lemma jwks_entry (r : KeyRing) k key j : ring_keys r !! k = Some key -> ec_jwk (k, key) = Some j -> j ∈ jwks r.
Proof.
  intros Hk Hj. rewrite jwks_perm. apply list_elem_of_omap. exists (k, key). by rewrite elem_of_map_to_list.
Qed.
Lemma rsa_jwks_entry (r : RsaKeyRing) k key : ring_keys r !! k = Some key -> rsa_jwk (k, key) ∈ rsa_jwks r.
Proof.
  intros Hk. unfold rsa_jwks. rewrite sort_jwks_perm. apply list_elem_of_fmap. exists (k, key). by rewrite elem_of_map_to_list.
Qed.
Lemma served_ec state j : j ∈ jwks (Service.service_keys (Http.service state)) -> j ∈ Http.served_keys state.
Proof.
  intros Hj. unfold Http.served_keys. destruct (Http.workload state); [|done].
  unfold extend. rewrite sort_jwks_perm, elem_of_app. by left.
Qed.
Lemma served_rsa state w j : Http.workload state = Some w -> j ∈ rsa_jwks (Workload.workload_keys w) -> j ∈ Http.served_keys state.
Proof. intros Hw Hj. unfold Http.served_keys. rewrite Hw. unfold extend. rewrite sort_jwks_perm, elem_of_app. by right. Qed.
(** The entries of a key set are told apart by their IDs. *)
Lemma entry_unique (s : JwkSet) j j' : NoDup (jwk_kid <$> s) -> j ∈ s -> j' ∈ s -> jwk_kid j = jwk_kid j' -> j = j'.
Proof.
  intros Hn [i Hi]%list_elem_of_lookup [i' Hi']%list_elem_of_lookup He.
  assert (i = i') as ->; [|congruence].
  eapply NoDup_lookup; [exact Hn| |]; rewrite list_lookup_fmap; [by rewrite Hi|by rewrite Hi', He].
Qed.
Lemma get_field_head k v l : get_field (object ((k, v) :: l)) k = Some v.
Proof. cbn. by rewrite lookup_insert_eq. Qed.
Lemma jwk_value_kid j : get_field (public_jwk_value j) "kid" = Some (VString (jwk_kid j)).
Proof. by destruct j. Qed.
End entries.

(** ** Consumers *)
Section consumers.
Context `{jwt : Jwt, laws : !JwtLaws, serde : SerdeJson, chrono : Chrono, b64 : Base64, p256 : P256, rsa : Rsa, sha : Sha2, url : UrlLib}.
(** The consumer's verification of a signature: the token carries the header and
    the claims, signed by the private half of the key, given as its JSON form. *)
Context (verifies : Value -> string -> Header -> Value -> Prop).

(** The name of an algorithm, as the documents write it. *)
Definition algorithm_name (a : Algorithm) : option string :=
  match a with ES256 => Some "ES256" | RS256 => Some "RS256" | _ => None end.
(** The token's key ID selects one key of the set, of the token's algorithm, which
    verifies the token; the algorithm is one that discovery announces, and the
    issuer the one that discovery names. *)
Record accepts (discovery keys : Value) (token : string) (header : Header) (claims : Value) : Prop := {
  accepted_key : exists set jwk k, get_field keys "keys" = Some (VArray set) /\ jwk ∈ set
    /\ kid header = Some k /\ get_field jwk "kid" = Some (VString k)
    /\ (forall jwk', jwk' ∈ set -> get_field jwk' "kid" = Some (VString k) -> jwk' = jwk)
    /\ get_field jwk "alg" = VString <$> algorithm_name (alg header)
    /\ verifies jwk token header claims;
  accepted_algorithm : exists names name, get_field discovery "id_token_signing_alg_values_supported" = Some (str_list names)
    /\ algorithm_name (alg header) = Some name /\ name ∈ names;
  accepted_issuer : get_field claims "iss" = get_field discovery "issuer";
}.

(** What the crates promise: the public half of a key pair verifies what the
    private half signed, and a P-256 key has affine coordinates. *)
Context (ec_verifies : forall k key x y document header claims token,
  public_x key = Some x -> public_y key = Some y -> to_pkcs8_der key = Some document -> alg header = ES256 ->
  encode header claims (from_ec_der document) = Some token ->
  verifies (public_jwk_value (Ec {| ec_kid := k; ec_x := base64_url_encode x; ec_y := base64_url_encode y |})) token header claims).
Context (rsa_verifies : forall k key document header claims token,
  to_pkcs1_der key = Some document -> alg header = RS256 -> encode header claims (from_rsa_der document) = Some token ->
  verifies (public_jwk_value (rsa_jwk (k, key))) token header claims).
Context (coordinates : forall key, is_Some (public_x key) /\ is_Some (public_y key)).

(** ** What a state publishes *)
Section state.
Context (state : Http.AppState).
Lemma discovery_fields request t document : runs (Http.discovery state request) t (Http.json_response document) ->
  get_field document "issuer" = Some (VString (Service.issuer (Http.service state)))
  /\ get_field document "id_token_signing_alg_values_supported"
     = Some (str_list (if Http.workload state is Some _ then ["ES256"; "RS256"] else ["ES256"])).
Proof. intros [_ [= ->]]. by destruct (Http.workload state), (Http.oidc state). Qed.
Lemma jwks_fields request t document : runs (Http.jwks_handler state request) t (Http.json_response document) ->
  get_field document "keys" = Some (VArray (public_jwk_value <$> Http.served_keys state)).
Proof. by intros [_ [= ->]]. Qed.

Context (discovery keys : Value) (request1 request2 : Http.Request) (t1 t2 : trace_io).
Context (Hdiscovery : runs (Http.discovery state request1) t1 (Http.json_response discovery)).
Context (Hkeys : runs (Http.jwks_handler state request2) t2 (Http.json_response keys)).
Context (Hunique : NoDup (jwk_kid <$> Http.served_keys state)).

(** A served key, by the ID of the header. *)
Lemma accepts_served token header claims j name :
  j ∈ Http.served_keys state -> kid header = Some (jwk_kid j) -> algorithm_name (alg header) = Some name ->
  get_field (public_jwk_value j) "alg" = Some (VString name) ->
  name ∈ (if Http.workload state is Some _ then ["ES256"; "RS256"] else ["ES256"]) ->
  verifies (public_jwk_value j) token header claims ->
  get_field claims "iss" = Some (VString (Service.issuer (Http.service state))) ->
  accepts discovery keys token header claims.
Proof.
  intros Hj Hkid Hname Halg Hin Hv Hiss. destruct (discovery_fields _ _ _ Hdiscovery) as [Hi Ha]. split.
  - exists (public_jwk_value <$> Http.served_keys state), (public_jwk_value j), (jwk_kid j). split_and!; try done.
    + by eapply jwks_fields.
    + by apply list_elem_of_fmap_2.
    + by apply jwk_value_kid.
    + intros v (j' & -> & Hj')%list_elem_of_fmap Hk. rewrite jwk_value_kid in Hk. injection Hk as Hk.
      by rewrite (entry_unique _ j' j Hunique Hj' Hj Hk).
    + by rewrite Hname, Halg.
  - by eexists _, name.
  - congruence.
Qed.
Lemma accepts_ec claims now token :
  sign_at (Service.service_keys (Http.service state)) claims now = Ok token ->
  get_field claims "iss" = Some (VString (Service.issuer (Http.service state))) ->
  exists header, accepts discovery keys token header claims.
Proof.
  set (r := Service.service_keys (Http.service state)).
  intros (_ & key & document & Hk & Hd & He)%sign_ring_spec Hiss. destruct (coordinates key) as [[x Hx] [y Hy]].
  assert (ec_jwk (current_kid r, key) = Some (Ec {| ec_kid := current_kid r; ec_x := base64_url_encode x; ec_y := base64_url_encode y |}))
    as Hj by (unfold ec_jwk; cbn; by rewrite Hx, Hy).
  exists (signing_header ES256 (current_kid r)).
  eapply accepts_served; [by eapply served_ec, jwks_entry| |by cbn; rewrite header_new_alg| | | |done]; try done.
  - destruct (Http.workload state); set_solver.
  - eapply ec_verifies; eauto. cbn. apply header_new_alg.
Qed.
Lemma accepts_rsa w claims now token : Http.workload state = Some w ->
  rsa_sign_at (Workload.workload_keys w) claims now = Ok token ->
  get_field claims "iss" = Some (VString (Service.issuer (Http.service state))) ->
  exists header, accepts discovery keys token header claims.
Proof.
  set (r := Workload.workload_keys w).
  intros Hw (_ & key & document & Hk & Hd & He)%sign_ring_spec Hiss.
  exists (signing_header RS256 (current_kid r)).
  eapply accepts_served; [by eapply served_rsa, rsa_jwks_entry| |by cbn; rewrite header_new_alg| | | |done]; try done.
  - rewrite Hw. set_solver.
  - eapply rsa_verifies; eauto. cbn. apply header_new_alg.
Qed.
End state.

(** ** The tokens of a started process *)
Context `{reqwest : Reqwest, rustls : Rustls, addr : SocketAddrLib, sockets : !Sockets}.
Context `{R : !Workload.TokenReviewer, audited : !Workload.AuditedReviewer R, L : !ReplayLedger, lease : !LeaseLedger L}.
(** A request that a listener of the process hands to a handler. *)
Definition received (sys : System) (c : Call) : Prop :=
  call_state c = public_state sys
  /\ (call_endpoint c = WorkloadEndpoint \/ call_endpoint c = BrowserEndpoint ->
      exists i, internal sys = Some i /\ call_internal c = internal_state i).

(** C6: a token is accepted where the service is trusted.  Take a process that has
    started: whatever token it hands out on any of its exchange endpoints, its key
    set holds one key under the token's key ID, that key is marked with the token's
    algorithm and verifies its signature, discovery announces the algorithm, and
    the token's issuer is the one that discovery names. *)
Theorem tokens_accepted env started_by sys c answered_by resp discovery keys request1 request2 t1 t2 :
  runs (startup env) started_by (Ok sys) -> received sys c ->
  runs (answer c) answered_by resp -> Http.status resp = 200%Z ->
  runs (Http.discovery (public_state sys) request1) t1 (Http.json_response discovery) ->
  runs (Http.jwks_handler (public_state sys) request2) t2 (Http.json_response keys) ->
  exists token expires_in header claims,
    resp = Http.token_response token expires_in /\ accepts discovery keys token header claims.
Proof.
  intros (config & _ & Hst)%startup_started [Hc Hi] Hr H200 Hd Hk.
  pose proof (process_keys _ _ _ Hst) as Hn. unfold answer in Hr.
  assert (call_endpoint c = WorkloadEndpoint \/ call_endpoint c = BrowserEndpoint -> exists w i,
    Http.workload (public_state sys) = Some w /\ call_internal c = internal_state i
    /\ Http.workload_service (internal_state i) = w
    /\ Workload.task_keys w = Service.service_keys (Http.service (public_state sys))
    /\ Workload.workload_issuer w = Service.issuer (Http.service (public_state sys))
    /\ forall b, Http.browser_hop1 (internal_state i) = Some b ->
         BrowserHop1.browser_signing_keys b = Service.service_keys (Http.service (public_state sys))
         /\ BrowserHop1.browser_output_issuer b = Service.issuer (Http.service (public_state sys))) as Hint.
  { intros (i & Hin & Hci)%Hi. pose proof (process_internal _ _ _ Hst) as Hp. unfold internal_started in Hp.
    rewrite Hin in Hp. destruct (workload config) as [wc|], (Http.workload (public_state sys)) as [w|]; try done.
    destruct Hp as (Hw & _ & Hws & Hb). destruct (workload_shares _ _ _ _ _ Hw) as (? & ? & _).
    exists w, i. split_and!; try done. intros b Heq. unfold browser_as_configured in Hb. rewrite Heq in Hb.
    destruct (browser_hop1 config); [|done]. by destruct Hb as (_ & _ & ? & ? & _). }
  destruct (call_endpoint c).
  - rewrite Hc in Hr. apply Http.exchange_answers in Hr as [_ Hr].
    destruct (Hr H200) as (a & token & _ & -> & [(cl & id & now & u & at_ & _ & _ & _ & _ & _ & _ & Hs)]).
    eapply accepts_ec in Hs as [header Ha]; eauto using get_field_head.
    by eexists token, _, header, _.
  - rewrite Hc in Hr. apply Http.generic_oidc_answers in Hr as [_ Hr].
    destruct (Hr H200) as (a & token & svc & Ho & _ & _ & -> & [(cl & task & rp & now & u & at_ & _ & _ & _ & _ & _ & _ & _ & Hs)]).
    pose proof (process_oidc _ _ _ Hst) as Hp. unfold oidc_as_configured in Hp. rewrite Ho in Hp.
    destruct (generic_oidc config); [|done]. destruct (oidc_shares _ _ _ _ _ Hp) as (Hks & His & _). rewrite Hks in Hs.
    eapply accepts_ec in Hs as [header Ha]; eauto; [by eexists token, _, header, _|]. rewrite <- His. apply get_field_head.
  - destruct Hint as (w & i & Hw & Hci & Hws & Htk & His & _); [by left|].
    apply Http.workload_answers in Hr as [_ Hr]. rewrite Hci, Hws in Hr.
    destruct (Hr H200) as (a & token & _ & _ & -> & [(u & caller & now & uuid & at_ & _ & _ & _ & _ & _ & Hs)]).
    destruct (WorkloadPolicy.identity_task caller) as [task|].
    + destruct Hs as (cl & _ & _ & _ & _ & Hs). rewrite Htk in Hs.
      eapply accepts_ec in Hs as [header Ha]; eauto; [by eexists token, _, header, _|]. rewrite <- His. apply get_field_head.
    + eapply accepts_rsa in Hs as [header Ha]; eauto; [by eexists token, _, header, _|]. rewrite <- His. apply get_field_head.
  - destruct Hint as (w & i & Hw & Hci & _ & _ & _ & Hb); [by right|].
    apply Http.browser_answers in Hr as [_ Hr]. rewrite Hci in Hr.
    destruct (Hr H200) as (a & token & svc & u & r1 & r2 & Hsvc & _ & _ & -> & _ & _ & [_ (rq & now & uuid & at_ & _ & _ & _ & _ & _ & Hs)]).
    destruct (Hb svc Hsvc) as [Hks His]. rewrite Hks in Hs.
    eapply accepts_ec in Hs as [header Ha]; eauto; [by eexists token, _, header, _|]. rewrite <- His. apply get_field_head.
Qed.
End consumers.

(** ** The tokens of the system of [System] *)
#[local] Existing Instances system_jwt system_jwt_laws system_serde system_addresses system_sockets
  system_ledger system_lease_ledger system_reviewer system_audited.

(** The signatures the sample crates make. *)
Definition signature_of (jwk : Value) (token : string) (header : Header) (claims : Value) : Prop :=
  (exists k key x y document, public_x key = Some x /\ public_y key = Some y /\ to_pkcs8_der key = Some document
     /\ jwk = public_jwk_value (Ec {| ec_kid := k; ec_x := base64_url_encode x; ec_y := base64_url_encode y |})
     /\ alg header = ES256 /\ encode header claims (from_ec_der document) = Some token)
  \/ (exists k key document, to_pkcs1_der key = Some document /\ jwk = public_jwk_value (rsa_jwk (k, key))
        /\ alg header = RS256 /\ encode header claims (from_rsa_der document) = Some token).
Definition document_of (p : io Http.Response) : Value :=
  match Http.response_body (ask p) with Http.JsonBody v => v | _ => Null end.
Definition sample_request : Http.Request := bearer "" "".
(** A role token, signed with the RSA key. *)
Definition gateway_call : Call := call WorkloadEndpoint (bearer "gateway token" "").
Definition separated (r : result string System) : bool :=
  match r with Ok sys => match internal sys with Some _ => true | None => false end | Err _ => false end.
Lemma system_separated : separated system_run.1 = true.
Proof. by vm_compute. Qed.
Lemma separated_parts r : separated r = true -> exists sys i, r = Ok sys /\ internal sys = Some i.
Proof. destruct r as [sys|e]; cbn; [|done]. destruct (internal sys) as [i|] eqn:Hi; [|done]. by exists sys, i. Qed.
Lemma the_system : exists sys i, runs (startup system_environment) system_trace (Ok sys)
  /\ system_state = public_state sys /\ internal sys = Some i /\ system_internal = internal_state i.
Proof.
  destruct (separated_parts _ system_separated) as (sys & i & Hr & Hi). exists sys, i.
  split; [rewrite <- Hr; exact system_starts|]. split; [unfold system_state; by rewrite Hr|].
  split; [exact Hi|]. unfold system_internal. rewrite Hr. change (result_ok (Ok sys) ≫= internal) with (internal sys). by rewrite Hi.
Qed.
Definition handed_out (c : Call) : Prop :=
  exists token expires_in header claims, ask (answer c) = Http.token_response token expires_in
    /\ accepts signature_of (document_of (Http.discovery system_state sample_request))
         (document_of (Http.jwks_handler system_state sample_request)) token header claims.
Lemma tokens_accepted_witness : handed_out github_call /\ handed_out gateway_call.
Proof.
  destruct the_system as (sys & i & Hr & Hs & Hi & Hw).
  assert (forall c, Http.status (ask (answer c)) = 200%Z -> call_state c = system_state ->
    call_internal c = system_internal -> handed_out c) as G.
  { intros c H200 Hc Hci. refine (tokens_accepted signature_of _ _ _ system_environment system_trace sys c (ask_trace (answer c))
      (ask (answer c)) (document_of (Http.discovery system_state sample_request))
      (document_of (Http.jwks_handler system_state sample_request)) sample_request sample_request [] [] Hr _ _ H200 _ _).
    - intros k key x y document header claims token Hx Hy Hd Ha He. left. exists k, key, x, y, document. repeat (split; [assumption || reflexivity|]). exact He.
    - intros k key document header claims token Hd Ha He. right. exists k, key, document. repeat (split; [assumption || reflexivity|]). exact He.
    - intros key. split; eexists; reflexivity.
    - split; [exact (eq_trans Hc Hs)|]. intros _. exists i. split; [exact Hi|exact (eq_trans Hci Hw)].
    - apply ask_runs.
    - rewrite <- Hs. apply ask_runs.
    - rewrite <- Hs. apply ask_runs. }
  split; (apply G; [vm_compute; reflexivity|unfold github_call, gateway_call, call; cbn [call_state]; reflexivity
    |unfold github_call, gateway_call, call; cbn [call_internal]; reflexivity]).
Defined.
