(* ===== verification/Decisions.v ===== *)
(** * Every endpoint of a healthy replica decides

    The exchange endpoints against the in-memory environment of [Simulator], when
    the replica is healthy: the ledger serves, the review API answers and the key that
    verifies the assertion is cached.  Each endpoint then answers every request as
    its decision says, and spends exactly the record the decision spends.  Nothing is
    assumed of signing: a decision includes whether its token can be signed. *)
From S2P Require Import Prelude Text Prog Libs State Constants Concrete Replay Simulator ReplaySafety LedgerRefinement Exchange Keys Availability System.
From S2P Require GithubClaims Github Policy Service WorkloadPolicy Workload OidcPolicy Oidc OidcExchange BrowserHop1 Http.

Section decisions.
Context `{jwt : Jwt, !JwtLaws, serde : SerdeJson, chrono : Chrono, !ChronoLaws, !ChronoRange}.
Context `{b64 : Base64, p256 : P256, rsa : Rsa, sha : Sha2, url : UrlLib}.
Context (ledger : KubernetesLeaseReplayLedger) (reviewer : Workload.KubernetesTokenReviewer).
#[local] Instance decisions_ledger : ReplayLedger := kubernetes_ledger ledger.
#[local] Instance decisions_reviewer : Workload.TokenReviewer := Workload.kubernetes_reviewer reviewer.
Implicit Types w : World.

(** ** The ledger's part *)
Definition seconds w : Z := timestamp_of (clock w).
(** A use of a record: it is spent once, and not at all if its retention would not
    fit in a Lease. *)
Definition spend w (id : string) (e : Z) : verdict * gset string :=
  let before := spent w (clock w) in
  match retained_until e (seconds w) with
  | Ok _ => let '(r, after) := abstract_use (lease_name id) before in (if is_ok r then Granted else Refused, after)
  | Err _ => (Unserved, before)
  end.
Definition use_verdict (r : result ReplayError ()) : verdict :=
  match r with Ok _ => Granted | Err Replayed => Refused | Err _ => Unserved end.
Lemma run_spend w id e : serving ledger w ->
  exists r w', run handle (use_once ledger id e) w = (r, w')
    /\ serving ledger w' /\ clock w' = clock w /\ spend w id e = (use_verdict r, spent w' (clock w)).
Proof.
  intros Hs. unfold spend, seconds. destruct (retained_until e (timestamp_of (clock w))) as [ret|x] eqn:Hret.
  - destruct (run_use_once ledger w id e ret Hs Hret) as (r & w' & Hr & Hs' & Hu). exists r, w'.
    pose proof (run_clock (use_once ledger id e) w) as Hc. rewrite Hr in Hc. split_and!; try done.
    rewrite Hu. unfold abstract_use in Hu. case_decide; by simplify_eq/=.
  - exists (Err x), w. split_and!; try done.
    + unfold use_once. rewrite (run_bind_to handle utc_now _ w (clock w) w eq_refl). cbn -[retained_until]. by rewrite Hret.
    + by rewrite (retained_until_err _ _ _ Hret).
Qed.

(** What a request comes to. *)
Definition settled w (d : verdict * gset string) (v : verdict) w' : Prop :=
  serving ledger w' /\ d = (v, spent w' (clock w)).
(** The rest of a request that writes no lease. *)
Lemma run_rest {A} w w0 (p : io A) (f : A -> verdict) v :
  serving ledger w0 -> writes_nothing p -> f (run handle p w0).1 = v ->
  exists a w1, run handle p w0 = (a, w1) /\ settled w (v, spent w0 (clock w)) (f a) w1.
Proof.
  intros Hs Hp Hr. destruct (run handle p w0) as [a w1] eqn:Hrun. exists a, w1. split; [done|].
  pose proof (run_same_to _ _ _ _ Hp Hrun) as Hsame. split; [by eapply same_serving|]. cbn in Hr. by rewrite Hr, (same_spent w0 w1).
Qed.

(** ** The workload exchange *)
Section workload.
Context (self : Workload.WorkloadExchangeService).
(** The review API answers for the token. *)
Record reviewing w (token : string) : Prop := {
  reviewing_credential : exists contents, files w !! Workload.reviewer_credential_file reviewer = Some contents /\ trim contents <> "";
  reviewing_answer : is_Some (reviews w !! token ≫= Workload.token_review_deserialize);
}.
(** The service account that the review vouches for. *)
Definition reviewed_caller w (token audience : string) : option string :=
  if is_empty token || bool_decide (Workload.MAX_ASSERTION_BYTES < len token) || is_empty audience then None else
  body ← reviews w !! token ≫= Workload.token_review_deserialize;
  result_ok (Workload.validate_token_review body audience).
Lemma validate_err body audience e : Workload.validate_token_review body audience = Err e -> e = Workload.ReviewInvalid.
Proof.
  unfold Workload.validate_token_review. destruct (Workload.response_status body) as [status|]; cbn; [|congruence].
  destruct (_ || _); [congruence|]. destruct (Workload.user status ≫= Workload.user_username) as [u|]; [|congruence].
  destruct (is_empty u); congruence.
Qed.
Lemma run_review w token audience : reviewing w token ->
  run handle (Workload.review token audience) w =
    (match reviewed_caller w token audience with
     | Some username => Ok {| Workload.reviewed_username := username |}
     | None => Err Workload.ReviewInvalid
     end, w).
Proof.
  intros [(contents & Hc & Ht) [body Hb]]. cbn [Workload.review decisions_reviewer Workload.kubernetes_reviewer].
  unfold Workload.kubernetes_review, reviewed_caller. destruct (_ || _); [done|].
  rewrite (run_bind_to handle (trigger (ReadFile _)) _ w (Ok contents) w) by (cbn; by rewrite Hc).
  cbn [map_err]. match goal with |- context [try_bind (mret (Ok contents)) ?f] => change (try_bind (mret (Ok contents)) f) with (f contents) end.
  cbv beta zeta. rewrite (proj2 (is_empty_false _) Ht).
  rewrite (run_bind_to handle (trigger (TokenReviewPost (trim contents) (Workload.token_review_request token audience))) _ w (Some (true, reviews w !! token)) w eq_refl).
  cbn -[Workload.validate_token_review]. rewrite Hb. cbn -[Workload.validate_token_review]. destruct (Workload.validate_token_review body audience) as [u|e] eqn:Hv; cbn; [done|].
  by rewrite (validate_err _ _ _ Hv).
Qed.

(** The signatures of a task's token and of a role's. *)
Definition task_signed w caller task : result KeyError string :=
  sign_at (Workload.task_keys self)
    (Workload.task_output_value (Workload.task_output self caller task (clock w / ns_per_s) simulated_uuid)) (clock w).
Definition role_signed w caller : result KeyError string :=
  rsa_sign_at (Workload.workload_keys self)
    (Workload.workload_output_value (Workload.role_output self caller (clock w / ns_per_s) simulated_uuid)) (clock w).
(** What becomes of a task's token. *)
Definition decide_task w (assertion : string) caller task : verdict * gset string :=
  let before := spent w (clock w) in
  match Workload.projected_of assertion with
  | None => (Refused, before)
  | Some claims =>
      if negb (WorkloadPolicy.bounded_non_whitespace (Workload.projected_jti claims) 128)
         || bool_decide (Workload.projected_exp claims <= wrap_i64 (clock w / ns_per_s))%Z
      then (Refused, before)
      else then_sign (spend w (Workload.projected_jti claims) (Workload.projected_exp claims)) (task_signed w caller task)
  end.
Definition decide_workload w (assertion : string) : verdict * gset string :=
  let before := spent w (clock w) in
  match reviewed_caller w assertion (Workload.input_audience self) with
  | None => (Refused, before)
  | Some username =>
      match WorkloadPolicy.authorize (Workload.workload_policy self) username with
      | Err _ => (Refused, before)
      | Ok caller =>
          match WorkloadPolicy.identity_task caller with
          | Some task => decide_task w assertion caller task
          | None => (sign_verdict (role_signed w caller), before)
          end
      end
  end.
Definition workload_verdict (r : result Workload.WorkloadExchangeError string) : verdict :=
  match r with
  | Ok _ => Granted
  | Err Workload.WorkloadExchangeUnauthorized => Refused
  | Err Workload.WorkloadExchangeUnavailable => Unserved
  end.
Record workload_healthy w (assertion : string) : Prop := {
  workload_ledger : serving ledger w;
  workload_reviews : reviewing w assertion;
}.
Lemma writes_nothing_issue username signed : writes_nothing (Workload.issue username signed).
Proof. intros h. by destruct signed; do 2 (split; [done|]; intros ?). Qed.
(** A refusal, and the end of a request that may be granted. *)
Lemma run_workload_refusal w w0 reason : serving ledger w0 ->
  exists r w1, run handle (_ ← Workload.deny reason; mret (Err Workload.WorkloadExchangeUnauthorized)) w0 = (r, w1)
    /\ settled w (Refused, spent w0 (clock w)) (workload_verdict r) w1.
Proof. intros Hs. apply run_rest; [done| |done]. intros h. by do 2 (split; [done|]; intros ?). Qed.
Lemma run_workload_issue w w0 username signed : serving ledger w0 ->
  exists r w1, run handle (Workload.issue username signed) w0 = (r, w1)
    /\ settled w (sign_verdict signed, spent w0 (clock w)) (workload_verdict r) w1.
Proof. intros Hs. apply run_rest; [done|apply writes_nothing_issue|]. by destruct signed. Qed.

Lemma run_redeem_task w w0 assertion username caller task : workload_healthy w assertion ->
  serving ledger w0 -> clock w0 = clock w -> spent w0 (clock w) = spent w (clock w) ->
  exists r w1, run handle (Workload.redeem_task self assertion username caller task (clock w / ns_per_s)) w0 = (r, w1)
    /\ settled w (decide_task w assertion caller task) (workload_verdict r) w1.
Proof.
  intros Hh Hs Hc Hsp. unfold Workload.redeem_task, decide_task. fold (Workload.projected_of assertion).
  assert (forall reason, exists r w1, run handle (_ ← Workload.deny reason; mret (Err Workload.WorkloadExchangeUnauthorized)) w0 = (r, w1)
    /\ settled w (Refused, spent w (clock w)) (workload_verdict r) w1) as Hrefuse.
  { intros reason. rewrite <- Hsp. by apply run_workload_refusal. }
  destruct (Workload.projected_of assertion) as [claims|]; [|apply Hrefuse]. destruct (_ || _); [apply Hrefuse|].
  destruct (run_spend w0 (Workload.projected_jti claims) (Workload.projected_exp claims) Hs) as (r & w1 & Hr & Hs1 & Hc1 & Hd).
  assert (spend w (Workload.projected_jti claims) (Workload.projected_exp claims)
    = spend w0 (Workload.projected_jti claims) (Workload.projected_exp claims)) as -> by (unfold spend, seconds; by rewrite Hc, Hsp).
  rewrite Hd, Hc.
  change (ledger_use_once ?id ?e) with (use_once ledger id e). rewrite (run_bind_to _ _ _ _ _ _ Hr).
  destruct r as [[]|[| |detail]]; cbn [use_verdict].
  - destruct (run_workload_issue w w1 username (task_signed w caller task) Hs1) as (r & w2 & Hr2 & Hset).
    exists r, w2. split; [|exact Hset]. rewrite <- Hr2. unfold task_signed. rewrite <- Hc, <- Hc1. reflexivity.
  - by apply run_workload_refusal.
  - apply (run_rest w w1 _ workload_verdict); [done| |done]. intros h. by do 2 (split; [done|]; intros ?).
  - apply (run_rest w w1 _ workload_verdict); [done| |done]. intros h. by do 2 (split; [done|]; intros ?).
Qed.
(** Counting a request. *)
Definition counted w (c : counter) : World := set_counts w c (wrap_u64 (counts w c + 1)).
Lemma counted_healthy w c assertion : workload_healthy w assertion -> workload_healthy (counted w c) assertion.
Proof. intros [Hl [Hc Ha]]. by split; [eapply same_serving, Hl|split]. Qed.
Lemma run_workload w assertion : workload_healthy w assertion ->
  exists r w1, run handle (Workload.exchange self assertion) w = (r, w1)
    /\ settled w (decide_workload w assertion) (workload_verdict r) w1.
Proof.
  intros Hh. set (w0 := counted w (Count WorkloadExchange Requests)). unfold Workload.exchange.
  rewrite (run_bind_to handle (count WorkloadExchange Requests) _ w () w0 eq_refl).
  pose proof (counted_healthy w (Count WorkloadExchange Requests) assertion Hh) as Hh0.
  rewrite (run_bind_to _ _ _ _ _ _ (run_review w0 assertion (Workload.input_audience self) (workload_reviews _ _ Hh0))).
  unfold decide_workload.
  change (reviewed_caller w0 assertion (Workload.input_audience self)) with (reviewed_caller w assertion (Workload.input_audience self)).
  assert (forall reason, exists r w1, run handle (_ ← Workload.deny reason; mret (Err Workload.WorkloadExchangeUnauthorized)) w0 = (r, w1)
    /\ settled w (Refused, spent w (clock w)) (workload_verdict r) w1) as Hrefuse.
  { intros reason. apply (run_workload_refusal w w0), Hh0. }
  destruct (reviewed_caller w assertion (Workload.input_audience self)) as [username|]; [|apply Hrefuse].
  cbn [Workload.reviewed_username].
  destruct (WorkloadPolicy.authorize (Workload.workload_policy self) username) as [caller|e]; [|apply Hrefuse].
  rewrite (run_bind_to handle get_current_timestamp _ w0 (clock w / ns_per_s)%Z w0 eq_refl).
  destruct (WorkloadPolicy.identity_task caller) as [task|].
  - apply (run_redeem_task w w0 assertion username caller task Hh); [apply Hh0|done|done].
  - rewrite (run_bind_to handle (trigger NewUuid) _ w0 "00000000-0000-4000-8000-000000000000" w0 eq_refl).
    rewrite (run_bind_to handle (rsa_sign _ _) _ w0 (role_signed w caller) w0 eq_refl).
    exact (run_workload_issue w w0 username (role_signed w caller) (workload_ledger _ _ Hh0)).
Qed.
(** The token a caller would be granted cannot be signed. *)
Definition workload_unsigned w (assertion : string) : Prop := exists username caller,
  reviewed_caller w assertion (Workload.input_audience self) = Some username
  /\ WorkloadPolicy.authorize (Workload.workload_policy self) username = Ok caller
  /\ is_ok (match WorkloadPolicy.identity_task caller with
            | Some task => task_signed w caller task
            | None => role_signed w caller
            end) = false.
(** Only a task's token with more than 660 seconds left is not served, or one that
    cannot be signed. *)
Lemma workload_unserved w assertion : (0 <= seconds w < 253402290000)%Z ->
  (decide_workload w assertion).1 = Unserved ->
  (exists claims, Workload.projected_of assertion = Some claims /\ (seconds w + 660 < Workload.projected_exp claims)%Z)
  \/ workload_unsigned w assertion.
Proof.
  intros Hclock. unfold decide_workload, workload_unsigned. destruct (reviewed_caller _ _ _) as [u|]; [|done].
  destruct (WorkloadPolicy.authorize _ u) as [caller|] eqn:Ha; [|done]. destruct (WorkloadPolicy.identity_task caller) as [task|] eqn:Ht.
  2:{ cbn. unfold sign_verdict. destruct (is_ok _) eqn:Hs; [done|]. intros _. right. exists u, caller. by rewrite Ht. }
  unfold decide_task. destruct (Workload.projected_of assertion) as [claims|]; [|done]. destruct (_ || _) eqn:Hg; [done|].
  intros [Hu|Hs]%then_sign_unserved; [left|right; exists u, caller; by rewrite Ht].
  apply orb_false_iff in Hg as [_ He%bool_decide_eq_false]. unfold spend in Hu.
  destruct (retained_until _ _) as [ret|x] eqn:Hret; [unfold abstract_use in Hu; by case_decide|].
  exists claims. split; [done|].
  destruct (decide (seconds w + 660 < Workload.projected_exp claims)%Z); [done|]. exfalso.
  assert (seconds w = clock w / ns_per_s)%Z as Hsec by apply timestamp_of_spec.
  rewrite wrap_i64_id in He by (unfold is_i64, i64_min, i64_max; lia).
  destruct (retained_until_total (Workload.projected_exp claims) (seconds w)) as [ret Hret']; [done|lia|congruence].
Qed.
(** And such a token is never served: no record of it can be kept. *)
Lemma retained_until_too_long e now : is_i64 now -> (now + 660 < e)%Z -> retained_until e now = Err Unavailable.
Proof.
  intros Hn He. destruct (retained_until e now) as [ret|x] eqn:Hr; [|by rewrite (retained_until_err _ _ _ Hr)].
  apply retained_until_spec in Hr as (_ & _ & Hb). lia.
Qed.
Lemma workload_long_lived w assertion username caller task claims :
  is_i64 (seconds w) -> reviewed_caller w assertion (Workload.input_audience self) = Some username ->
  WorkloadPolicy.authorize (Workload.workload_policy self) username = Ok caller ->
  WorkloadPolicy.identity_task caller = Some task -> Workload.projected_of assertion = Some claims ->
  WorkloadPolicy.bounded_non_whitespace (Workload.projected_jti claims) 128 = true ->
  (seconds w + 660 < Workload.projected_exp claims)%Z ->
  decide_workload w assertion = (Unserved, spent w (clock w)).
Proof.
  intros Hclock Hr Ha Ht Hp Hj He. unfold decide_workload, decide_task. rewrite Hr, Ha, Ht, Hp, Hj. cbn [negb orb].
  assert (seconds w = clock w / ns_per_s)%Z as Hsec by apply timestamp_of_spec.
  rewrite wrap_i64_id by (by rewrite <- Hsec). rewrite bool_decide_false by lia. unfold spend.
  by rewrite retained_until_too_long.
Qed.
End workload.

(** ** The generic exchange *)
Section oidc.
Context (self : OidcExchange.OidcExchangeService).
Definition provider_cache w (provider : Oidc.ProviderVerifier) : OidcKeyCache :=
  default empty_oidc_cache (oidc_caches w !! Oidc.verifier_issuer provider).
(** The claims of a genuine assertion, by the keys of the cache of the issuer it names. *)
Definition oidc_vouched w (assertion : string) : option OidcPolicy.OidcClaims :=
  if is_empty assertion || bool_decide (Oidc.MAX_ASSERTION_BYTES < len assertion) then None else
  header ← decode_header assertion;
  if bool_decide (alg header <> RS256) || bool_decide (typ header <> Some "JWT") then None else
  kid ← kid header;
  issuer ← insecure_decode assertion ≫= (fun v => field v "iss" as_str);
  provider ← Oidc.verifiers (OidcExchange.verifier self) !! issuer;
  key ← oidc_keys (provider_cache w provider) !! kid;
  values ← decode assertion key (Oidc.validation provider) (clock w / ns_per_s) ≫= as_object;
  '(actual_issuer, subject, expires_at, issued_at) ← result_ok (Oidc.required_claims values);
  result_ok (Oidc.check_claims values (Oidc.verifier_issuer provider) (Oidc.verifier_audience provider)
               actual_issuer subject expires_at issued_at (seconds w)).
Definition oidc_signed w claims task : result KeyError string :=
  sign_at (OidcExchange.oidc_signing_keys self)
    (OidcExchange.oidc_output_value (OidcExchange.output_claims self claims task (clock w / ns_per_s) simulated_uuid)) (clock w).
Definition decide_oidc w (assertion : string) : verdict * gset string :=
  let before := spent w (clock w) in
  match oidc_vouched w assertion with
  | None => (Refused, before)
  | Some claims =>
      match OidcPolicy.authorize (OidcExchange.policy self) claims with
      | Err _ => (Refused, before)
      | Ok task =>
          match OidcExchange.replay_identifier claims with
          | None => (Refused, before)
          | Some replay => then_sign (spend w replay (OidcPolicy.expires_at claims)) (oidc_signed w claims task)
          end
      end
  end.
Definition oidc_verdict (r : result OidcExchange.OidcExchangeError string) : verdict :=
  match r with
  | Ok _ => Granted
  | Err OidcExchange.OidcExchangeUnauthorized => Refused
  | Err OidcExchange.OidcExchangeUnavailable => Unserved
  end.
(** The key that the assertion names is cached, in a cache that is not too old. *)
Definition oidc_key_cached w (assertion : string) : Prop := forall header k issuer provider,
  decode_header assertion = Some header -> kid header = Some k ->
  insecure_decode assertion ≫= (fun v => field v "iss" as_str) = Some issuer ->
  Oidc.verifiers (OidcExchange.verifier self) !! issuer = Some provider ->
  Oidc.cache_is_usable (provider_cache w provider) (seconds w) (Oidc.verifier_max_staleness provider) = true
  /\ is_Some (oidc_keys (provider_cache w provider) !! k).
Record oidc_healthy w (assertion : string) : Prop := {
  oidc_ledger : serving ledger w;
  oidc_cached : oidc_key_cached w assertion;
  oidc_clock : (0 <= seconds w < 253402290000)%Z;
}.
Local Ltac option_step :=
  match goal with |- context [mbind (M := option) ?f (Some ?x)] => change (mbind (M := option) f (Some x)) with (f x); cbn beta end.
Lemma required_err values e : Oidc.required_claims values = Err e -> e = Oidc.OidcInvalid.
Proof.
  unfold Oidc.required_claims. destruct (values !! "iss" ≫= as_str) as [a|]; cbn [ok_or mbind result_bind]; [|congruence].
  destruct (values !! "sub" ≫= as_str) as [s|]; cbn [ok_or mbind result_bind]; [|congruence].
  destruct (values !! "exp" ≫= as_i64) as [x|]; cbn [ok_or mbind result_bind]; [|congruence].
  destruct (values !! "iat" ≫= as_i64) as [i|]; cbn [ok_or mbind result_bind]; congruence.
Qed.
Lemma check_err v i a ai sub e iat now x : Oidc.check_claims v i a ai sub e iat now = Err x -> x = Oidc.OidcInvalid.
Proof.
  unfold Oidc.check_claims. destruct (i64_checked_sub e iat) as [l|]; cbn [ok_or mbind result_bind]; [|congruence].
  destruct (_ || _); cbn [reject_if mbind result_bind]; [congruence|].
  destruct (v !! "jti") as [j|]; cbn [mbind result_bind];
    [destruct (as_str j) as [s|]; cbn [ok_or mbind result_bind]; [|congruence]; destruct (negb _); cbn [reject_if mbind result_bind]; [congruence|]|cbn [reject_if mbind result_bind]].
  all: destruct (_ && _); cbn [reject_if mbind result_bind]; congruence.
Qed.
Lemma run_oidc_verify w assertion : oidc_healthy w assertion ->
  run handle (Oidc.verify (OidcExchange.verifier self) assertion) w =
    (match oidc_vouched w assertion with Some claims => Ok claims | None => Err Oidc.OidcInvalid end, w).
Proof.
  intros Hh. unfold Oidc.verify, oidc_vouched. destruct (_ || _); [done|].
  destruct (decode_header assertion) as [header|] eqn:Hd; [|done]. rewrite run_try_some. option_step.
  destruct (_ || _); [done|]. destruct (kid header) as [k|] eqn:Hk; [|done]. rewrite run_try_some. option_step.
  destruct (insecure_decode assertion ≫= _) as [issuer|] eqn:Hi; [|done]. rewrite run_try_some. option_step.
  destruct (Oidc.verifiers _ !! issuer) as [provider|] eqn:Hp; [|done]. rewrite run_try_some. option_step.
  destruct (oidc_cached _ _ Hh header k issuer provider Hd Hk Hi Hp) as [Hu [key Hkey]]. rewrite Hkey. option_step.
  assert (run handle (Oidc.key provider k) w = (Ok key, w)) as Hrun.
  { unfold Oidc.key. cbn -[Oidc.key_after_refresh]. unfold provider_cache, seconds in Hu, Hkey. by rewrite Hu, Hkey. }
  rewrite (run_try_to _ _ _ _ _ _ Hrun).
  rewrite (run_bind_to handle get_current_timestamp _ w (clock w / ns_per_s)%Z w eq_refl).
  destruct (decode _ _ _ _ ≫= as_object) as [values|]; [|done]. rewrite run_try_some. option_step.
  unfold Oidc.validated_claims. destruct (Oidc.required_claims values) as [[[[ai sub] e] iat]|x] eqn:Hr.
  2:{ by rewrite (required_err _ _ Hr). }
  cbn -[Oidc.check_claims]. fold (seconds w). destruct (Oidc.check_claims _ _ _ _ _ _ _ _) as [c|x] eqn:Hc; [done|].
  by rewrite (check_err _ _ _ _ _ _ _ _ _ Hc).
Qed.
(** The retention of a genuine assertion fits. *)
Lemma oidc_vouched_recordable w assertion claims : (0 <= seconds w < 253402290000)%Z ->
  oidc_vouched w assertion = Some claims -> exists ret, retained_until (OidcPolicy.expires_at claims) (seconds w) = Ok ret.
Proof.
  intros Hclock. unfold oidc_vouched. destruct (_ || _); [done|]. intros (header & _ & Hv)%bind_Some. destruct (_ || _); [done|].
  apply bind_Some in Hv as (k & _ & (issuer & _ & (provider & _ & (key & _ & (values & _ & Hv)%bind_Some)%bind_Some)%bind_Some)%bind_Some).
  apply bind_Some in Hv as ([[[ai sub] e] iat] & _ & Hv).
  destruct (Oidc.check_claims _ _ _ _ _ _ _ _) as [c|] eqn:Hc; [|done]. injection Hv as ->.
  pose proof (Oidc.check_claims_fields _ _ _ _ _ _ _ _ _ Hc) as (_ & _ & _ & He & Hi & _).
  apply Oidc.check_claims_spec in Hc as (_ & _ & _ & Hl & Hn & Hs & _); [|unfold is_i64, i64_min, i64_max; lia].
  rewrite He. apply retained_until_total; lia.
Qed.
Lemma run_oidc_refusal w w0 (p : io ()) : serving ledger w0 -> writes_nothing p ->
  exists r w1, run handle (_ ← p; mret (Err OidcExchange.OidcExchangeUnauthorized)) w0 = (r, w1)
    /\ settled w (Refused, spent w0 (clock w)) (oidc_verdict r) w1.
Proof.
  intros Hs Hp. apply run_rest; [done| |].
  - intros h. eapply wp_call; [apply Hp|done].
  - rewrite run_bind. by destruct (run handle p w0).
Qed.
Lemma writes_nothing_deny reason issuer subject : writes_nothing (OidcExchange.deny reason issuer subject).
Proof. intros h. by do 2 (split; [done|]; intros ?). Qed.
Lemma run_oidc_issue w w0 claims task replay : serving ledger w0 -> clock w0 = clock w ->
  exists r w1, run handle (OidcExchange.issue self claims task replay) w0 = (r, w1)
    /\ settled w (sign_verdict (oidc_signed w claims task), spent w0 (clock w)) (oidc_verdict r) w1.
Proof.
  intros Hs Hc. apply run_rest; [done| |].
  - intros h. cbn. do 3 (split; [done|]; intros ?). by destruct (sign_at _ _ _); do 2 (split; [done|]; intros ?).
  - unfold OidcExchange.issue. cbn -[sign_at OidcExchange.oidc_output_value]. rewrite Hc.
    unfold oidc_signed, simulated_uuid. by destruct (sign_at _ _ _).
Qed.
Lemma run_oidc w assertion : oidc_healthy w assertion ->
  exists r w1, run handle (OidcExchange.exchange self assertion) w = (r, w1)
    /\ settled w (decide_oidc w assertion) (oidc_verdict r) w1.
Proof.
  intros Hh. set (w0 := counted w (Count OidcExchange Requests)). unfold OidcExchange.exchange.
  rewrite (run_bind_to handle (count OidcExchange Requests) _ w () w0 eq_refl).
  assert (oidc_healthy w0 assertion) as Hh0 by (destruct Hh as [Hl Hc Hcl]; by split; [eapply same_serving, Hl|..]).
  rewrite (run_bind_to _ _ _ _ _ _ (run_oidc_verify w0 assertion Hh0)). unfold decide_oidc.
  change (oidc_vouched w0 assertion) with (oidc_vouched w assertion).
  assert (forall w' (p : io ()), serving ledger w' -> writes_nothing p -> spent w' (clock w) = spent w (clock w) ->
    exists r w1, run handle (_ ← p; mret (Err OidcExchange.OidcExchangeUnauthorized)) w' = (r, w1)
      /\ settled w (Refused, spent w (clock w)) (oidc_verdict r) w1) as Hrefuse.
  { intros w' p Hs Hp <-. by apply run_oidc_refusal. }
  pose proof (oidc_ledger _ _ Hh0) as Hl0.
  destruct (oidc_vouched w assertion) as [claims|] eqn:Hv; [|by apply Hrefuse; [|apply writes_nothing_deny|]].
  unfold OidcExchange.redeem. destruct (OidcPolicy.authorize (OidcExchange.policy self) claims) as [task|e];
    [|by apply Hrefuse; [|apply writes_nothing_deny|]].
  destruct (OidcExchange.replay_identifier claims) as [replay|]; [|by apply Hrefuse; [|apply writes_nothing_deny|]].
  destruct (run_spend w0 replay (OidcPolicy.expires_at claims) Hl0) as (r & w1 & Hr & Hs1 & Hc1 & Hd).
  change (spend w replay (OidcPolicy.expires_at claims)) with (spend w0 replay (OidcPolicy.expires_at claims)).
  rewrite Hd. change (clock w0) with (clock w) in *.
  change (ledger_use_once ?id ?e) with (use_once ledger id e). rewrite (run_bind_to _ _ _ _ _ _ Hr).
  destruct r as [[]|[| |detail]]; cbn [use_verdict].
  - by apply run_oidc_issue.
  - apply (run_rest w w1 _ oidc_verdict); [done| |done]. intros h. by do 3 (split; [done|]; intros ?).
  - apply (run_rest w w1 _ oidc_verdict); [done| |done]. intros h. by do 2 (split; [done|]; intros ?).
  - apply (run_rest w w1 _ oidc_verdict); [done| |done]. intros h. by do 2 (split; [done|]; intros ?).
Qed.
(** The token an assertion would be granted cannot be signed. *)
Definition oidc_unsigned w (assertion : string) : Prop := exists claims task,
  oidc_vouched w assertion = Some claims /\ OidcPolicy.authorize (OidcExchange.policy self) claims = Ok task
  /\ is_ok (oidc_signed w claims task) = false.
Lemma oidc_unserved w assertion : (0 <= seconds w < 253402290000)%Z -> (decide_oidc w assertion).1 = Unserved ->
  oidc_unsigned w assertion.
Proof.
  intros Hclock. unfold decide_oidc, oidc_unsigned. destruct (oidc_vouched w assertion) as [claims|] eqn:Hv; [|done].
  destruct (OidcPolicy.authorize _ claims) as [task|] eqn:Ha; [|done]. destruct (OidcExchange.replay_identifier claims) as [replay|]; [|done].
  intros [Hu|Hs]%then_sign_unserved; [|by exists claims, task]. exfalso.
  unfold spend in Hu.
  destruct (oidc_vouched_recordable w assertion claims Hclock Hv) as [ret Hret]. rewrite Hret in Hu.
  unfold abstract_use in Hu. by case_decide.
Qed.
End oidc.

(** ** The browser exchange *)
Section browser.
Context (self : BrowserHop1.BrowserHop1ExchangeService).
Definition browser_vouched w (assertion : string) : option BrowserHop1.BrowserHop1RequestClaims :=
  if is_empty assertion || bool_decide (BrowserHop1.MAX_ASSERTION_BYTES < len assertion) then None else
  header ← decode_header assertion;
  if bool_decide (alg header <> ES256) || bool_decide (typ header <> Some "JWT") then None else
  kid ← kid header;
  key ← BrowserHop1.browser_keys (BrowserHop1.browser_verifier self) !! kid;
  claims ← decode assertion key (BrowserHop1.validation (BrowserHop1.browser_verifier self)) (clock w / ns_per_s)
             ≫= BrowserHop1.request_deserialize;
  result_ok (BrowserHop1.check_request (BrowserHop1.browser_verifier self) claims (seconds w)).
Definition browser_signed w request : result KeyError string :=
  sign_at (BrowserHop1.browser_signing_keys self)
    (BrowserHop1.browser_output_value (BrowserHop1.output_claims self request (clock w / ns_per_s) simulated_uuid)) (clock w).
Definition decide_browser w (username assertion : string) : verdict * gset string :=
  let before := spent w (clock w) in
  match WorkloadPolicy.authorize (BrowserHop1.browser_policy self) username with
  | Err _ => (Refused, before)
  | Ok caller =>
      if existsb (fun role => bool_decide (role = BrowserHop1.BROWSER_HOP1_ISSUER_ROLE)) (WorkloadPolicy.identity_roles caller) then
        match browser_vouched w assertion with
        | None => (Refused, before)
        | Some request => then_sign (spend w (BrowserHop1.replay_key request) (BrowserHop1.br_exp request)) (browser_signed w request)
        end
      else (Refused, before)
  end.
Definition browser_verdict (r : result BrowserHop1.BrowserHop1ExchangeError string) : verdict :=
  match r with Ok _ => Granted | Err BrowserHop1.BrowserUnauthorized => Refused | Err BrowserHop1.BrowserUnavailable => Unserved end.
Record browser_healthy w : Prop := {
  browser_ledger : serving ledger w;
  browser_clock : (0 <= seconds w < 253402290000)%Z;
}.
Local Ltac option_step :=
  match goal with |- context [mbind (M := option) ?f (Some ?x)] => change (mbind (M := option) f (Some x)) with (f x); cbn beta end.
Lemma run_browser_verify w assertion :
  run handle (BrowserHop1.verify (BrowserHop1.browser_verifier self) assertion) w =
    (match browser_vouched w assertion with Some claims => Ok claims | None => Err BrowserHop1.BrowserVerifierInvalid end, w).
Proof.
  unfold BrowserHop1.verify, browser_vouched. destruct (_ || _); [done|].
  destruct (decode_header assertion) as [header|] eqn:Hd; [|done]. rewrite run_try_some. option_step.
  destruct (_ || _); [done|]. destruct (kid header) as [k|] eqn:Hk; [|done]. rewrite run_try_some. option_step.
  destruct (BrowserHop1.browser_keys _ !! k) as [key|]; [|done]. rewrite run_try_some. option_step.
  rewrite (run_bind_to handle get_current_timestamp _ w (clock w / ns_per_s)%Z w eq_refl).
  destruct (decode _ _ _ _ ≫= BrowserHop1.request_deserialize) as [claims|]; [|done]. rewrite run_try_some. option_step.
  cbn -[BrowserHop1.check_request]. fold (seconds w). by destruct (BrowserHop1.check_request _ _ _) as [c|[]].
Qed.
Lemma browser_vouched_recordable w assertion request : (0 <= seconds w < 253402290000)%Z ->
  browser_vouched w assertion = Some request -> exists ret, retained_until (BrowserHop1.br_exp request) (seconds w) = Ok ret.
Proof.
  intros Hclock. unfold browser_vouched. destruct (_ || _); [done|]. intros (header & _ & Hv)%bind_Some. destruct (_ || _); [done|].
  apply bind_Some in Hv as (k & _ & (key & _ & (claims & (v & Hd & Hc)%bind_Some & Hv)%bind_Some)%bind_Some).
  destruct (BrowserHop1.check_request _ _ _) as [c|] eqn:Hchk; [|done]. injection Hv as ->.
  apply BrowserHop1.check_request_spec in Hchk as [-> Hat]; [|unfold is_i64, i64_min, i64_max; lia].
  pose proof (decode_exp _ _ _ _ _ _ Hd (BrowserHop1.request_exp _ _ Hc)) as Hexp. cbn in Hexp.
  destruct (BrowserHop1.attested_times _ _ _ Hat) as (Hl & Hs & _).
  assert (seconds w = clock w / ns_per_s)%Z as Hsec by apply timestamp_of_spec. unfold BrowserHop1.CLOCK_SKEW_SECONDS in *.
  apply retained_until_total; lia.
Qed.
Lemma run_browser_refusal w w0 (p : io ()) : serving ledger w0 -> writes_nothing p ->
  exists r w1, run handle (_ ← p; mret (Err BrowserHop1.BrowserUnauthorized)) w0 = (r, w1)
    /\ settled w (Refused, spent w0 (clock w)) (browser_verdict r) w1.
Proof.
  intros Hs Hp. apply run_rest; [done| |].
  - intros h. eapply wp_call; [apply Hp|done].
  - rewrite run_bind. by destruct (run handle p w0).
Qed.
Lemma run_browser_issue w w0 username request : serving ledger w0 -> clock w0 = clock w ->
  exists r w1, run handle (BrowserHop1.issue self username request) w0 = (r, w1)
    /\ settled w (sign_verdict (browser_signed w request), spent w0 (clock w)) (browser_verdict r) w1.
Proof.
  intros Hs Hc. apply run_rest; [done| |].
  - intros h. cbn. do 3 (split; [done|]; intros ?). destruct (sign_at _ _ _); [do 2 (split; [done|]; intros ?)|split; [done|]; intros ?]; done.
  - unfold BrowserHop1.issue. cbn -[sign_at BrowserHop1.browser_output_value]. rewrite Hc.
    unfold browser_signed, simulated_uuid. by destruct (sign_at _ _ _).
Qed.
Lemma run_browser w username assertion : browser_healthy w ->
  exists r w1, run handle (BrowserHop1.exchange self username assertion) w = (r, w1)
    /\ settled w (decide_browser w username assertion) (browser_verdict r) w1.
Proof.
  intros Hh. set (w0 := counted w (Count BrowserExchange Requests)). unfold BrowserHop1.exchange.
  rewrite (run_bind_to handle (count BrowserExchange Requests) _ w () w0 eq_refl).
  assert (browser_healthy w0) as Hh0 by (destruct Hh as [Hl Hcl]; by split; [eapply same_serving, Hl|..]).
  pose proof (browser_ledger _ Hh0) as Hl0. unfold decide_browser.
  assert (forall w' (p : io ()), serving ledger w' -> writes_nothing p -> spent w' (clock w) = spent w (clock w) ->
    exists r w1, run handle (_ ← p; mret (Err BrowserHop1.BrowserUnauthorized)) w' = (r, w1)
      /\ settled w (Refused, spent w (clock w)) (browser_verdict r) w1) as Hrefuse.
  { intros w' p Hs Hp <-. by apply run_browser_refusal. }
  assert (forall reason, writes_nothing (BrowserHop1.deny reason)) as Hdeny.
  { intros reason h. by do 2 (split; [done|]; intros ?). }
  destruct (WorkloadPolicy.authorize (BrowserHop1.browser_policy self) username) as [caller|e]; [|by apply Hrefuse].
  destruct (existsb _ _); cbn [negb]; [|by apply Hrefuse].
  rewrite (run_bind_to _ _ _ _ _ _ (run_browser_verify w0 assertion)).
  change (browser_vouched w0 assertion) with (browser_vouched w assertion).
  destruct (browser_vouched w assertion) as [request|] eqn:Hv; [|by apply Hrefuse]. unfold BrowserHop1.redeem.
  destruct (run_spend w0 (BrowserHop1.replay_key request) (BrowserHop1.br_exp request) Hl0) as (r & w1 & Hr & Hs1 & Hc1 & Hd).
  change (spend w (BrowserHop1.replay_key request) (BrowserHop1.br_exp request))
    with (spend w0 (BrowserHop1.replay_key request) (BrowserHop1.br_exp request)).
  rewrite Hd. change (clock w0) with (clock w) in *.
  change (ledger_use_once ?id ?e) with (use_once ledger id e). rewrite (run_bind_to _ _ _ _ _ _ Hr).
  destruct r as [[]|[| |detail]]; cbn [use_verdict].
  - by apply run_browser_issue.
  - apply (run_rest w w1 _ browser_verdict); [done| |done]. intros h. by do 2 (split; [done|]; intros ?).
  - apply (run_rest w w1 _ browser_verdict); [done| |done]. intros h. by do 2 (split; [done|]; intros ?).
  - apply (run_rest w w1 _ browser_verdict); [done| |done]. intros h. by do 2 (split; [done|]; intros ?).
Qed.
(** The token an attestation would be granted cannot be signed. *)
Definition browser_unsigned w (assertion : string) : Prop := exists request,
  browser_vouched w assertion = Some request /\ is_ok (browser_signed w request) = false.
Lemma browser_unserved w username assertion : (0 <= seconds w < 253402290000)%Z ->
  (decide_browser w username assertion).1 = Unserved -> browser_unsigned w assertion.
Proof.
  intros Hclock. unfold decide_browser, browser_unsigned. destruct (WorkloadPolicy.authorize _ _) as [caller|]; [|done].
  destruct (existsb _ _); [|done]. destruct (browser_vouched w assertion) as [request|] eqn:Hv; [|done].
  intros [Hu|Hs]%then_sign_unserved; [|by exists request]. exfalso.
  unfold spend in Hu.
  destruct (browser_vouched_recordable w assertion request Hclock Hv) as [ret Hret]. rewrite Hret in Hu.
  unfold abstract_use in Hu. by case_decide.
Qed.
End browser.

(** ** The endpoints *)
(** A replica that is healthy, as far as the request concerns it. *)
Definition healthy w (c : Call) : Prop :=
  serving ledger w /\ (0 <= seconds w < 253402290000)%Z /\ forall assertion, Http.bearer_assertion (call_request c) = Some assertion ->
  match call_endpoint c with
  | GithubEndpoint =>
      available (Http.service (call_state c)) ledger w /\ key_cached w assertion
  | OidcEndpoint => forall svc, Http.oidc (call_state c) = Some svc -> oidc_healthy svc w assertion
  | WorkloadEndpoint => workload_healthy w assertion
  | BrowserEndpoint => forall svc, Http.browser_hop1 (call_internal c) = Some svc ->
      reviewing w assertion /\ browser_healthy w
  end.
Definition status_of (d : verdict * gset string) : Z * gset string :=
  (match d.1 with Granted => 200 | Refused => 401 | Unserved => 503 end, d.2)%Z.
(** The status of the answer, and the records that are spent afterwards. *)
Definition decide_call w (c : Call) : Z * gset string :=
  let before := spent w (clock w) in
  let request := call_request c in
  match call_endpoint c with
  | GithubEndpoint =>
      match Http.bearer_assertion request with
      | None => (401%Z, before)
      | Some assertion =>
          status_of (decide_exchange (Http.service (call_state c)) w assertion)
      end
  | OidcEndpoint =>
      if negb (is_empty (Http.body request)) then (400%Z, before) else
      match Http.oidc (call_state c), Http.bearer_assertion request with
      | None, _ => (404%Z, before)
      | _, None => (401%Z, before)
      | Some svc, Some assertion => status_of (decide_oidc svc w assertion)
      end
  | WorkloadEndpoint =>
      if negb (is_empty (Http.body request)) then (400%Z, before) else
      match Http.bearer_assertion request with
      | None => (401%Z, before)
      | Some assertion => status_of (decide_workload (Http.workload_service (call_internal c)) w assertion)
      end
  | BrowserEndpoint =>
      match Http.browser_hop1 (call_internal c) with
      | None => (404%Z, before)
      | Some svc =>
          if bool_decide (Http.header_text request "content-type" <> Some "application/jwt") then (400%Z, before) else
          match Http.bearer_assertion request with
          | None => (401%Z, before)
          | Some assertion =>
              if negb (Http.valid_utf8 (Http.body request)) || is_empty (Http.body request) then (400%Z, before) else
              match reviewed_caller w assertion (Workload.input_audience (Http.workload_service (call_internal c))) with
              | None => (401%Z, before)
              | Some username => status_of (decide_browser svc w username (Http.body request))
              end
          end
      end
  end.
(** A task's token that lives too long for a record of it. *)
Definition long_lived w (c : Call) : Prop :=
  call_endpoint c = WorkloadEndpoint /\ exists assertion claims,
    Http.bearer_assertion (call_request c) = Some assertion /\ Workload.projected_of assertion = Some claims
    /\ (seconds w + 660 < Workload.projected_exp claims)%Z.
(** The token the request would be granted cannot be signed. *)
Definition unsigned w (c : Call) : Prop := exists assertion, Http.bearer_assertion (call_request c) = Some assertion /\
  match call_endpoint c with
  | GithubEndpoint => exchange_unsigned (Http.service (call_state c)) w assertion
  | OidcEndpoint => exists svc, Http.oidc (call_state c) = Some svc /\ oidc_unsigned svc w assertion
  | WorkloadEndpoint => workload_unsigned (Http.workload_service (call_internal c)) w assertion
  | BrowserEndpoint => exists svc, Http.browser_hop1 (call_internal c) = Some svc
      /\ browser_unsigned svc w (Http.body (call_request c))
  end.
Definition answered_as w (c : Call) (d : Z * gset string) : Prop := exists resp w',
  run handle (answer c) w = (resp, w') /\ serving ledger w' /\ d = (Http.status resp, spent w' (clock w))
  /\ (Http.status resp = 503%Z -> long_lived w c \/ unsigned w c).
Lemma answered_at_once w c resp : serving ledger w -> answer c = mret resp -> Http.status resp <> 503%Z ->
  answered_as w c (Http.status resp, spent w (clock w)).
Proof. intros Hs Ha Hn. exists resp, w. by rewrite Ha. Qed.
(** An endpoint that ends in an exchange. *)
Lemma answered_after {A} w c (p : io A) (respond : A -> Http.Response) (f : A -> verdict) d r w1 :
  run handle (answer c) w = run handle (a ← p; mret (respond a)) w -> run handle p w = (r, w1) -> settled w d (f r) w1 ->
  Http.status (respond r) = match f r with Granted => 200 | Refused => 401 | Unserved => 503 end%Z ->
  (d.1 = Unserved -> long_lived w c \/ unsigned w c) -> answered_as w c (status_of d).
Proof.
  intros Ha Hr [Hs Hd] Hst Hl. exists (respond r), w1. rewrite Ha, (run_bind_to _ _ _ _ _ _ Hr). split_and!; try done.
  - rewrite Hst, Hd. done.
  - rewrite Hst. intros H503. apply Hl. rewrite Hd. by destruct (f r).
Qed.
Lemma run_endpoint w c : healthy w c -> answered_as w c (decide_call w c).
Proof.
  intros (Hs & Hclock & Hh). unfold decide_call. destruct c as [app internal endpoint request].
  cbn [call_state call_internal call_endpoint call_request] in *. destruct endpoint.
  - destruct (Http.bearer_assertion request) as [assertion|] eqn:Hb.
    2:{ apply (answered_at_once w _ (Http.oauth_error 401 "invalid_token")); [done| |done].
        unfold answer, Http.exchange. cbn. by rewrite Hb. }
    destruct (Hh assertion eq_refl) as [Ha Hk].
    destruct (run_exchange (Http.service app) ledger w assertion Ha Hk) as (r & w1 & Hr & Hd).
    eapply (answered_after _ _ _ _ exchange_verdict).
    + unfold answer, Http.exchange. cbn [call_endpoint call_state call_internal call_request]. rewrite Hb. reflexivity.
    + exact Hr.
    + exact Hd.
    + by destruct r as [token|[]].
    + intros Hu. right. exists assertion. split; [done|]. exact (exchange_unserved _ _ _ Hu).
  - destruct (is_empty (Http.body request)) eqn:He; cbn [negb].
    2:{ apply (answered_at_once w _ (Http.oauth_error 400 "invalid_request")); [done| |done].
        unfold answer, Http.generic_oidc_exchange. cbn. by rewrite He. }
    destruct (Http.oidc app) as [svc|] eqn:Ho.
    2:{ apply (answered_at_once w _ (Http.status_response 404)); [done| |done].
        unfold answer, Http.generic_oidc_exchange. cbn. by rewrite He, Ho. }
    destruct (Http.bearer_assertion request) as [assertion|] eqn:Hb.
    2:{ apply (answered_at_once w _ (Http.oauth_error 401 "invalid_token")); [done| |done].
        unfold answer, Http.generic_oidc_exchange. cbn. by rewrite He, Ho, Hb. }
    destruct (run_oidc svc w assertion (Hh assertion eq_refl svc eq_refl)) as (r & w1 & Hr & Hd).
    eapply (answered_after _ _ _ _ oidc_verdict).
    + unfold answer, Http.generic_oidc_exchange. cbn [call_endpoint call_state call_internal call_request]. rewrite He, Ho, Hb. reflexivity.
    + exact Hr.
    + exact Hd.
    + by destruct r as [|[]].
    + intros Hu. right. exists assertion. split; [done|]. exists svc. split; [done|]. exact (oidc_unserved svc w assertion Hclock Hu).
  - destruct (is_empty (Http.body request)) eqn:He; cbn [negb].
    2:{ apply (answered_at_once w _ (Http.oauth_error 400 "invalid_request")); [done| |done].
        unfold answer, Http.workload_exchange. cbn. by rewrite He. }
    destruct (Http.bearer_assertion request) as [assertion|] eqn:Hb.
    2:{ apply (answered_at_once w _ (Http.oauth_error 401 "invalid_token")); [done| |done].
        unfold answer, Http.workload_exchange. cbn. by rewrite He, Hb. }
    destruct (run_workload (Http.workload_service internal) w assertion (Hh assertion eq_refl)) as (r & w1 & Hr & Hd).
    eapply (answered_after _ _ _ _ workload_verdict).
    + unfold answer, Http.workload_exchange. cbn [call_endpoint call_state call_internal call_request]. rewrite He, Hb. reflexivity.
    + exact Hr.
    + exact Hd.
    + by destruct r as [|[]].
    + intros [(claims & Hp & Hl)|Hu]%workload_unserved; [left|right; by exists assertion|done]. split; [done|]. by exists assertion, claims.
  - destruct (Http.browser_hop1 internal) as [svc|] eqn:Hsvc.
    2:{ apply (answered_at_once w _ (Http.status_response 404)); [done| |done].
        unfold answer, Http.browser_hop1_exchange. cbn [call_endpoint call_internal call_request]. by rewrite Hsvc. }
    case_bool_decide as Hct.
    { apply (answered_at_once w _ (Http.oauth_error 400 "invalid_request")); [done| |done].
      unfold answer, Http.browser_hop1_exchange. cbn [call_endpoint call_internal call_request]. rewrite Hsvc. by rewrite (bool_decide_true _ Hct). }
    destruct (Http.bearer_assertion request) as [assertion|] eqn:Hb.
    2:{ apply (answered_at_once w _ (Http.oauth_error 401 "invalid_token")); [done| |done].
        unfold answer, Http.browser_hop1_exchange. cbn [call_endpoint call_internal call_request]. rewrite Hsvc, bool_decide_false by (intros Hf; by apply Hf). by rewrite Hb. }
    destruct (_ || _) eqn:Hbody.
    { apply (answered_at_once w _ (Http.oauth_error 400 "invalid_request")); [done| |done].
      unfold answer, Http.browser_hop1_exchange. cbn [call_endpoint call_internal call_request]. rewrite Hsvc, bool_decide_false by (intros Hf; by apply Hf). by rewrite Hb, Hbody. }
    destruct (Hh assertion eq_refl svc eq_refl) as [Hrev Hbr].
    pose proof (run_review w assertion (Workload.input_audience (Http.workload_service internal)) Hrev) as Hreview.
    destruct (reviewed_caller _ _ _) as [username|].
    2:{ exists (Http.oauth_error 401 "invalid_token"), w. split_and!; [|done..]. unfold answer, Http.browser_hop1_exchange.
        cbn [call_endpoint call_internal call_request]. rewrite Hsvc, bool_decide_false by (intros Hf; by apply Hf). rewrite Hb, Hbody.
        by rewrite (run_bind_to _ _ _ _ _ _ Hreview). }
    destruct (run_browser svc w username (Http.body request) Hbr) as (r & w1 & Hr & Hd).
    eapply (answered_after _ _ _ _ browser_verdict).
    + unfold answer, Http.browser_hop1_exchange. cbn [call_endpoint call_internal call_request].
      rewrite Hsvc, bool_decide_false by (intros Hf; by apply Hf). rewrite Hb, Hbody.
      rewrite (run_bind_to _ _ _ _ _ _ Hreview). reflexivity.
    + exact Hr.
    + exact Hd.
    + by destruct r as [|[]].
    + intros Hu. right. exists assertion. split; [done|]. exists svc. split; [done|].
      exact (browser_unserved svc w username (Http.body request) Hclock Hu).
Qed.

(** C4: a healthy replica decides every request.  When the ledger, the review API and
    the key cache a request depends on are in order, the exchange endpoint answers it
    with the status of its decision and leaves exactly the records of its decision
    spent: it grants a token when the assertion is genuine, the policy allows its
    subject, its record is unspent and the token can be signed, and refuses it
    otherwise.  It never answers that it is unavailable, except for a task's token that
    lives longer than a record of it may be retained, and when the token to be granted
    cannot be signed: of the signing library nothing is assumed. *)
Theorem endpoints_decide w c : healthy w c ->
  exists resp w', run handle (answer c) w = (resp, w') /\ serving ledger w'
    /\ decide_call w c = (Http.status resp, spent w' (clock w))
    /\ (Http.status resp = 503%Z -> long_lived w c \/ unsigned w c).
Proof. apply run_endpoint. Qed.
End decisions.

(** ** The system of [System] *)
#[local] Existing Instances system_jwt system_jwt_laws system_serde system_addresses system_sockets.
(** After the background task has refreshed the keys of the configured issuers. *)
Definition started_world : World :=
  match Http.oidc system_state with
  | Some svc => (run handle (Oidc.run_refresh_loop (OidcExchange.verifier svc) [[]]) system_run.2).2
  | None => system_run.2
  end.
Definition sample_calls : list Call := [
  github_call; call OidcEndpoint (bearer "build" ""); call WorkloadEndpoint (bearer "projected" "");
  call WorkloadEndpoint (bearer "gateway token" ""); call BrowserEndpoint (bearer "gateway token" "attestation")].
Lemma started_serving : serving sample_ledger started_world.
Proof.
  assert (leases started_world = ∅) as Hl by by vm_compute.
  split; [by vm_compute| | |by rewrite Hl|by vm_compute].
  - exists "secret". by split; vm_compute.
  - intros n. by eexists.
Qed.
(** The health of the replica, by evaluation. *)
Definition present {A} (o : option A) : bool := match o with Some _ => true | None => false end.
Lemma present_is_Some {A} (o : option A) : present o = true -> is_Some o.
Proof. by destruct o; [eexists|]. Qed.
Definition github_key_check (w : World) (assertion : string) : bool :=
  match decode_header assertion ≫= kid with Some k => present (keys (github_cache w) !! k) | None => true end.
Lemma github_key_checked w assertion : github_key_check w assertion = true -> key_cached w assertion.
Proof. unfold github_key_check. intros Hc header k Hh Hk. rewrite Hh in Hc. cbn in Hc. rewrite Hk in Hc. by apply present_is_Some. Qed.
Definition named_provider (svc : OidcExchange.OidcExchangeService) (assertion : string) : option Oidc.ProviderVerifier :=
  issuer ← insecure_decode assertion ≫= (fun v => field v "iss" as_str);
  Oidc.verifiers (OidcExchange.verifier svc) !! issuer.
Definition oidc_key_check (svc : OidcExchange.OidcExchangeService) (w : World) (assertion : string) : bool :=
  match decode_header assertion ≫= kid, named_provider svc assertion with
  | Some k, Some provider =>
      Oidc.cache_is_usable (provider_cache w provider) (seconds w) (Oidc.verifier_max_staleness provider)
      && present (oidc_keys (provider_cache w provider) !! k)
  | _, _ => true
  end.
Lemma oidc_key_checked svc w assertion : oidc_key_check svc w assertion = true -> oidc_key_cached svc w assertion.
Proof.
  unfold oidc_key_check. intros Hc header k issuer provider Hh Hk Hi Hp.
  assert (decode_header assertion ≫= kid = Some k) as Hk' by by rewrite Hh.
  assert (named_provider svc assertion = Some provider) as Hp' by (unfold named_provider; by rewrite Hi).
  rewrite Hk', Hp' in Hc. apply andb_prop in Hc as [Hu Hk2]. split; [done|by apply present_is_Some].
Qed.
Definition health_check (w : World) (c : Call) : bool :=
  match Http.bearer_assertion (call_request c) with
  | None => true
  | Some a =>
      match call_endpoint c with
      | GithubEndpoint =>
          let s := Http.service (call_state c) in
          Github.cache_is_usable (github_cache w) (timestamp_of (clock w)) (Github.max_staleness (Service.verifier s))
          && github_key_check w a
      | OidcEndpoint =>
          match Http.oidc (call_state c) with
          | None => true
          | Some s => oidc_key_check s w a
          end
      | WorkloadEndpoint => present (reviews w !! a ≫= Workload.token_review_deserialize)
      | BrowserEndpoint =>
          match Http.browser_hop1 (call_internal c) with
          | None => true
          | Some _ => present (reviews w !! a ≫= Workload.token_review_deserialize)
          end
      end
  end.
Lemma health_checked ledger reviewer w c contents :
  serving ledger w -> (0 <= clock w < 253402290000 * ns_per_s)%Z ->
  files w !! Workload.reviewer_credential_file reviewer = Some contents -> trim contents <> "" ->
  health_check w c = true -> healthy ledger reviewer w c.
Proof.
  intros Hs Hclock Hf Ht Hc.
  assert (0 <= seconds w < 253402290000)%Z as Hsec.
  { unfold seconds. rewrite timestamp_of_spec. unfold ns_per_s in *. split; [apply Z.div_pos|apply Z.div_lt_upper_bound]; lia. }
  split; [done|]. split; [done|]. intros a Ha. unfold health_check in Hc. rewrite Ha in Hc. destruct (call_endpoint c).
  - apply andb_prop in Hc as [Hu Hg]. by split; [split|apply github_key_checked].
  - intros svc Hsvc. rewrite Hsvc in Hc. split; [done|by apply oidc_key_checked|done].
  - split; [done|]. split; [by exists contents|by apply present_is_Some].
  - intros svc Hsvc. rewrite Hsvc in Hc. split; [split; [by exists contents|by apply present_is_Some]|by split].
Qed.
Lemma started_healthy : forallb (health_check started_world) sample_calls = true.
Proof. by vm_compute. Qed.
Lemma sample_decisions : forallb (fun c => bool_decide ((decide_call started_world c).1 = 200%Z)) sample_calls = true.
Proof. by vm_compute. Qed.
(** The five sample requests, a GitHub assertion, a build's, a task's token, a
    role's token and a browser attestation, are granted. *)
Lemma endpoints_decide_witness : Forall (fun c => exists resp w',
  run handle (answer (R := decisions_reviewer Workload.sample_reviewer) (L := decisions_ledger sample_ledger) c) started_world = (resp, w')
  /\ serving sample_ledger w' /\ Http.status resp = 200%Z) sample_calls.
Proof.
  apply Forall_forall. intros c Hc%list_elem_of_In.
  pose proof (proj1 (List.forallb_forall _ _) started_healthy c Hc) as Hh.
  pose proof (bool_decide_eq_true_1 _ (proj1 (List.forallb_forall _ _) sample_decisions c Hc)) as Hd. cbv beta in Hd.
  destruct (endpoints_decide sample_ledger Workload.sample_reviewer) with (w := started_world) (c := c) as (resp & w' & Hr & Hs & Hdec & _).
  - apply health_checked with "secret"; [apply started_serving| | | |exact Hh].
    + split; [apply Z.leb_le|apply Z.ltb_lt]; by vm_compute.
    + by vm_compute.
    + by vm_compute.
  - exists resp, w'. split; [exact Hr|]. split; [exact Hs|]. rewrite Hdec in Hd. exact Hd.
Defined.

(** A key ring that has lost its current key: the genuine assertion is not served. *)
Definition keyless_call : Call :=
  let s := Http.service (call_state github_call) in let r := Service.service_keys s in
  {| call_state := {|
       Http.service := {|
         Service.verifier := Service.verifier s; Service.policy := Service.policy s;
         Service.service_keys := {| current_kid := current_kid r; current_not_before := current_not_before r;
           current_not_after := current_not_after r; readiness_threshold := readiness_threshold r; ring_keys := ∅ |};
         Service.issuer := Service.issuer s; Service.output_audience := Service.output_audience s;
         Service.token_ttl := Service.token_ttl s |};
       Http.workload := Http.workload (call_state github_call); Http.oidc := Http.oidc (call_state github_call) |};
     call_internal := call_internal github_call; call_endpoint := GithubEndpoint; call_request := call_request github_call |}.
Example keyless_unserved : (decide_call started_world keyless_call).1 = 503%Z.
Proof. by vm_compute. Qed.

(** ** A projected token of an hour, the default of Kubernetes *)
Section lifetimes.
Context (lifetime : Z).
#[local] Instance lifetime_jwt : Jwt := concrete_jwt {["projected" := {| signed_by := "cluster";
  token_header := {| alg := RS256; typ := Some "JWT"; kid := Some "c1" |};
  token_claims := object [("jti", VString "projected-1"); ("exp", num (1700000000 + lifetime)%Z)] |}]}.
#[local] Instance lifetime_serde : SerdeJson := concrete_serde ∅.
Definition task_answer : result Workload.WorkloadExchangeError string :=
  let w := world_at 1700000000 {["/token" := "secret"]} in
  (run handle (Workload.exchange (R := Workload.kubernetes_reviewer Workload.sample_reviewer) (L := kubernetes_ledger sample_ledger)
    Workload.sample_workload_service "projected") (set_reviews w {["projected" := Workload.sample_review]})).1.
End lifetimes.
(** A task's token is granted if it is valid for ten minutes, and never if for an
    hour: the exchange then reports an unavailable ledger. *)
Example ten_minutes_granted : is_ok (task_answer 600) = true.
Proof. by vm_compute. Qed.
Example an_hour_unserved : task_answer 3600 = Err Workload.WorkloadExchangeUnavailable.
Proof. by vm_compute. Qed.
